(* ===== verification/_CoqProject ===== *)
-Q . S2P
Prelude.v
Effects.v
Model.v
Chunk.v
Arena.v
OpenTable.v
Sql.v
DbData.v
DbNames.v
Tree.v
NamesSpec.v
NamesView.v
DbVolume.v
Schema.v
SchemaSpec.v
StartUp.v
Fuse.v
FuseInv.v
FuseFlush.v
FuseWrite.v
FuseRead.v
FuseOps.v
FuseHandles.v
FuseSpec.v
FuseLifecycle.v
FuseNames.v
FuseResize.v
FuseAttr.v
DirStream.v
Paging.v
Bench.v
Views.v
Answers.v
ViewOf.v
Serve.v
Sections.v
Refinement.v
SectionsSpec.v
Isolation.v
Closing.v
Samples.v
Correctness.v
Attributes.v
Specification.v
Recovery.v
Cli.v
Run.v
RunSpec.v
Storage.v
Instances.v
Disks.v
BenchRuns.v
