(* ===== verification/Prelude.v ===== *)
(** * dbfs: a verification development

    dbfs is a file system in a SQLite database, served through FUSE. This library models
    its code under src/src/ and proves what makes it correct. It is read in the order of
    [_CoqProject].

    ** The program and its parts

    - [Prelude], [Effects]: machine integers, vectors and slices, binary search; programs as
      functions from a state to an outcome ([Ok], [Err], [Panic], [OutOfFuel]) with their
      total program logic [wp]. A state survives an error, as mutations made before a [?] do.
    - [Model] (model.rs): timestamps, kinds of files, errors and their translation.
    - [Chunk] (db.rs, constants to [chunk_index_of], [ChunkSpan]): keys of chunks, and the
      pieces that a transfer is cut into.
    - [Arena] (arena.rs): the memory of buffered chunks and the dirty index of an inode.
    - [OpenTable] (open_table.rs): open inodes as columns indexed by slot, and handles.
    - [Sql], [DbData], [DbNames], [DbVolume] (db.rs): the four tables as maps from ids to
      rows, each statement as the change its text describes, transactions that roll back;
      on them reads, writes and truncation of files, and the operations on names.
    - [Schema] (db.rs, [open] to [initialize], [migrate] to [table_has_column]): a database
      file whose tables are missing, in an old layout or current; its migration and repair.
    - [Fuse] (fuse.rs, [Shared] and [ShutdownHandle]): the write-back cache.
    - [FuseOps] (fuse.rs, [Dbfs] and [impl Filesystem]): Module [Dbfs] has the operations,
      Module [Handler] the request handlers with their replies as values.
    - [Cli] (cli.rs): the size of the write buffer. [Run] (run.rs): mount options, errors and
      their messages, the way to a mount, and the life of the process as a transition system.
    - [Serve], [Sections] (fuse.rs, run.rs): the requests as data, each with its handler, and
      as the sequence of critical sections that its thread goes through.
    - [Bench] (examples/bench_io.rs): the map of blocks and the writing and reading jobs of the
      benchmark, from the opening of their file to its close, and the listing and removal of a
      large directory, as programs over [FuseOps.Dbfs].

    A request goes from a handler of [FuseOps.Handler] to an operation of [FuseOps.Dbfs],
    which works on the table of open inodes ([fs_table]) through [Fuse.Shared] and calls the
    storage layer with [Shared.db]; errors of the layer become error numbers there. The
    main thread of [Run] opens the database ([Db_open]) and mounts the file system. On a
    signal it goes through the steps of [Shared.flush_for_shutdown], and the thread of the
    session through those of [Handler.destroy] at its end. Both share the state with the
    requests: [Run.step] lets any of them take the next step that the lock allows.

    ** Invariants and specifications

    - [Tree.fs_wf] is the invariant of the tables: [Sql.data_wf] for rows and chunks,
      [Tree.names_wf] for a rooted tree of names with right link counts. [Tree] proves it of
      abstract steps, [NamesSpec] that the operations of [DbNames] take those steps.
    - [FuseInv.fs_inv] is the invariant of a mounted file system: tables, slots, handles
      and arena fit together. [FuseFlush], [FuseWrite], [FuseRead], [FuseHandles],
      [FuseSpec], [FuseLifecycle], [FuseNames], [FuseResize], [FuseAttr] and [DirStream]
      specify the operations; [FuseInv.file_size] and [FuseInv.file_byte] are the contents
      of a file as the users see it, buffers included.
    - [Views] is the abstract file system: a tree of names, contents and handles, without
      tables, slots or chunks. [Answers] says how it may answer each request. [ViewOf] reads a
      state as a view, [Refinement] shows that every handler answers as [Answers] allows,
      [Isolation] what an open file is safe from. [SectionsSpec] says the same of a request
      whose sections another thread comes between ([meanwhile]), with one exception that the
      code has: [stale_look], attributes from before writes that were flushed in between.
    - [Sections.lock_discipline]: a section without the lock does the same whatever the lock
      protects, and leaves it alone. [Closing] uses it for what unlocked sections can change.
    - [SchemaSpec] compares the migration with [upgraded], which brings each table up to
      date at once; [StartUp] says what is repaired; [Recovery] puts both together with the
      file system. [Closing] shows that a closing file system buffers nothing, with a logic
      of properties that programs keep, and [RunSpec] follows a mount to its exit: its
      invariant is [mount_ok].

    ** The theorems

    - Refinement and safety ([Specification], [Recovery], [RunSpec]): any request, and any
      sequence of requests, is answered as the abstract file system allows, without panic
      or endless loop; the sections of a request are its handler and keep the lock discipline,
      and requests are answered all the same, but for [stale_look], when the shutdown comes
      between their sections; an open file keeps its
      contents; the rows that are left convert; after a crash the database opens and shows the
      same tree; a process that ends with success has lost nothing, and once a signal has come
      it ends. [RunSpec.run_keeps_files]
      puts the parts together, from the options of the command line to the exit status.
    - Contracts of the operations ([Correctness], [Attributes]): what write, read, flush,
      release, open, create, unlink, rename, rmdir, readdir, setattr, getattr, fallocate,
      fsync, mkdir, symlink and link do on each branch, and what they leave alone: other files
      and names, and for setattr every other row ([FuseFlush.rows_but]). A file that was unlinked
      while open is never written out: [flush] leaves it alone, the release of its last handle
      deletes it, and no other release deletes anything. What [flush] stores outlives the
      process; surviving a power failure takes [fsync].
    - Clients ([Paging], [Bench]): a listing that is resumed neither repeats nor skips an entry;
      a large directory is listed with one entry per file, or up to a failure that is counted
      as an item, and [rm -rf] removes everything; a job cuts or creates its file, fills it in
      whatever order it writes and closes it, and reads back what was laid out.
    - Storage ([Storage], [SchemaSpec], [StartUp]): batches, truncation, the search for an
      ancestor, migration and opening.
    - Data structures and arithmetic ([OpenTable], [Arena], [Chunk], [Model], [Cli]).
    - [Samples], [Instances], [Disks] and [BenchRuns] apply the theorems to small file systems
      and database files.

    ** What is assumed

    - [World] stands for the engine, the clock and the system: the outcome of each call,
      in the order of the calls, and the row ids that are given out. Any statement may fail.
      [EngineLaws] is what SQLite and rusqlite document: a new row id is unused, positive among
      positive ids and an i64; failures that the engine raises by itself are neither a
      violated constraint nor a query without rows. Constraints are checked by the statements.
    - [HashOrder] is the order in which a hash map is walked: each value once.
    - The reply buffer of a listing holds one entry at least ([Paging]).
    - Requests are as the kernel sends them ([Refinement.asked]): arguments in their ranges,
      fewer than 2^32 entries, slots and handles, no open of a directory.
    - The write buffer is below 2^48 bytes.

    ** Bounds

    Loops are recursive on their data. [Fuse.ALLOC_ROUNDS] is 2: an eviction frees a slot,
    so the second round finds one. The search for an ancestor in [DbNames] has as much fuel
    as there are inodes and one more, which a walk to the root of a tree cannot
    exceed. [Prelude.bsearch_loop] halves its range and has the length of the range
    as fuel. [wp] excludes running out, so each contract proves that the bound is enough.

    ** What is not modelled

    - SQLite, rusqlite, fuser, clap and the system calls: parameters, as above. The text of an
      error is kept as opaque bytes. A batch of statements that runs inside a transaction is
      put at the statement that changes the content; the note that a large migration prints
      is left out.
    - Interleaving below [Sections]: the session serves one request at a time, and between two
      of its sections the other thread may take any steps of its flush. A section is a region
      under the lock of the table or one call of the storage layer; a call, and the flush of one
      slot, is one step. The connection is locked for the statements of a call; what a call
      reads before it locks the connection for its transaction are names and kinds, which a
      flush does not change.
    - Creating threads, signal masks and the FUSE session (run.rs, [block_shutdown_signals],
      [spawn_signal_waiter], [spawn_session]): their effects are the steps of [Run.step], and
      their failures are constructors of [Run.mount_dbfs].
    - main.rs and lib.rs have no logic. Of examples/bench_io.rs, what chooses the workload, what
      measures and reports, the metadata workload and the creation of the large directory are
      left out. The calls of the standard library are taken for the requests that they come to
      in the kernel: a block is one write, a file that is opened with [truncate] is looked up,
      opened and cut, or created, and a file that is dropped is flushed and released. The
      process ends where it calls [expect] on an error; how the system closes its files then is
      left out.

    ** Findings

    - [Attributes.link_stale_size]: the reply to a link has the stored size although writes are
      buffered.
    - [Model.stored_time_before_epoch]: a time in the second before the epoch loses its sign.
    - [SchemaSpec.merged_time]: the migration clamps all of the outermost second, although its
      times fit.
    - [Disks.getattr_stale_mtime]: attributes are read before the table is locked, so a flush
      in between hides the time of a buffered write. *)

From Stdlib Require Export ZArith Lia Strings.Byte.
From stdpp Require Export base gmap sets list sorting.

(** [naive_solver] warns of hypotheses that it has used up. *)
#[export] Set Warnings "-clear-no-such-hyp".

#[global] Open Scope Z_scope.
Declare Scope dbfs_scope.
Delimit Scope dbfs_scope with dbfs.
#[global] Open Scope dbfs_scope.

(** ** Automation of the development *)

(** Facts about lists, integers and programs that close routine goals. *)
Create HintDb dbfs.
(** Rewrite rules for lengths and pointwise reads of lists. *)
Create Rewrite HintDb zlist.

(** Linear arithmetic with division and remainder by constants. *)
Ltac dlia := Z.to_euclidean_division_equations; lia.

(** ** Machine integers

    A Rust integer is a [Z]; a cast or an arithmetic operation of a release
    build wraps it to its width. *)

Definition u32 (z : Z) : Z := z mod 2 ^ 32.
Definition u64 (z : Z) : Z := z mod 2 ^ 64.
Definition i64 (z : Z) : Z := (z + 2 ^ 63) mod 2 ^ 64 - 2 ^ 63.

Definition U32_MAX : Z := 2 ^ 32 - 1.
Definition U64_MAX : Z := 2 ^ 64 - 1.
Definition I64_MAX : Z := 2 ^ 63 - 1.
Definition I64_MIN : Z := - 2 ^ 63.

Lemma u32_id z : 0 <= z < 2 ^ 32 -> u32 z = z.
Proof. intros. unfold u32. by apply Z.mod_small. Qed.

Lemma u64_id z : 0 <= z < 2 ^ 64 -> u64 z = z.
Proof. intros. unfold u64. by apply Z.mod_small. Qed.

Lemma i64_id z : - 2 ^ 63 <= z < 2 ^ 63 -> i64 z = z.
Proof. intros. unfold i64. rewrite Z.mod_small; lia. Qed.

Lemma u64_range z : 0 <= u64 z < 2 ^ 64.
Proof. apply Z.mod_pos_bound. lia. Qed.

Lemma i64_range z : - 2 ^ 63 <= i64 z < 2 ^ 63.
Proof. unfold i64. pose proof (Z.mod_pos_bound (z + 2 ^ 63) (2 ^ 64)). lia. Qed.

(** A u64 bound to an i64 SQL parameter and read back is unchanged. *)
Lemma u64_i64 z : 0 <= z < 2 ^ 64 -> u64 (i64 z) = z.
Proof.
  intros Hz. unfold u64, i64.
  destruct (decide (z < 2 ^ 63)).
  - rewrite (Z.mod_small (z + 2 ^ 63)) by lia.
    rewrite Z.mod_small; lia.
  - replace (z + 2 ^ 63) with ((z - 2 ^ 63) + 1 * 2 ^ 64) by lia.
    rewrite Z.mod_add by lia. rewrite (Z.mod_small (z - 2 ^ 63)) by lia.
    replace (z - 2 ^ 63 - 2 ^ 63) with (z + (-1) * 2 ^ 64) by lia.
    rewrite Z.mod_add by lia. apply Z.mod_small. lia.
Qed.

#[export] Hint Rewrite u32_id u64_id i64_id using lia : zlist.

(** ** Bytes *)

Abbreviation byte := Byte.byte.

#[global] Instance byte_inhabited : Inhabited byte := populate x00.
#[global] Instance byte_eq_dec : EqDecision byte := Byte.byte_eq_dec.
#[global] Instance byte_countable : Countable byte :=
  inj_countable Byte.to_N Byte.of_N Byte.of_to_N.

(** ** Lists indexed by integers

    [Vec] and slices: [vget] and [vset] fail out of range (Rust panics there),
    [zget] reads the default element out of range, so that a short chunk reads as
    zeros past its end. *)

Section zlists.
Context {A : Type} `{!Inhabited A}.
Implicit Types (l d : list A) (i p a b : Z).

Definition zlen l : Z := Z.of_nat (length l).

Definition vget l i : option A :=
  if decide (0 <= i) then l !! Z.to_nat i else None.

Definition vset l i (x : A) : option (list A) :=
  if decide (0 <= i < zlen l) then Some (<[Z.to_nat i := x]> l) else None.

Definition zget l i : A := default inhabitant (vget l i).

(** [l[a..b]], for a range known to be in bounds. *)
Definition sub l a b : list A := take (Z.to_nat (b - a)) (drop (Z.to_nat a) l).

(** [&l[a..b]]: panics when the range is not in bounds. *)
Definition slice l a b : option (list A) :=
  if decide (0 <= a /\ a <= b /\ b <= zlen l) then Some (sub l a b) else None.

(** [d] written over [l] from index [a]. *)
Definition patch l a d : list A :=
  take (Z.to_nat a) l ++ d ++ drop (Z.to_nat (a + zlen d)) l.

(** [l[a..b].copy_from_slice(d)]: panics when the range is not in bounds or
    the lengths differ. *)
Definition copy_from_slice l a b d : option (list A) :=
  if decide (0 <= a /\ a <= b /\ b <= zlen l /\ zlen d = b - a)
  then Some (patch l a d) else None.

Definition zeros (x : A) (n : Z) : list A := replicate (Z.to_nat n) x.

(** [l.resize(n, x)] for [n] not below the length. *)
Definition extend l (n : Z) (x : A) : list A := l ++ zeros x (n - zlen l).

Lemma zlen_nonneg l : 0 <= zlen l.
Proof. unfold zlen. lia. Qed.

Lemma zlen_nil : zlen [] = 0.
Proof. done. Qed.

Lemma zlen_cons x l : zlen (x :: l) = 1 + zlen l.
Proof. unfold zlen. simpl. lia. Qed.

Lemma zlen_app l d : zlen (l ++ d) = zlen l + zlen d.
Proof. unfold zlen. rewrite length_app. lia. Qed.

Lemma zlen_snoc l x : zlen (l ++ [x]) = zlen l + 1.
Proof. unfold zlen. rewrite length_app. simpl. lia. Qed.

Lemma zlen_zeros x n : 0 <= n -> zlen (zeros x n) = n.
Proof. intros. unfold zlen, zeros. rewrite length_replicate. lia. Qed.

Lemma zlen_extend l n x : zlen l <= n -> zlen (extend l n x) = n.
Proof. intros. unfold extend. rewrite zlen_app, zlen_zeros; lia. Qed.

Lemma zlen_0_inv l : zlen l = 0 -> l = [].
Proof. destruct l; [done | rewrite zlen_cons; pose proof (zlen_nonneg l); lia]. Qed.

Lemma zlen_sub l a b : 0 <= a <= b -> b <= zlen l -> zlen (sub l a b) = b - a.
Proof. unfold zlen, sub. intros. rewrite length_take, length_drop. lia. Qed.

Lemma zlen_patch l a d :
  0 <= a -> a + zlen d <= zlen l -> zlen (patch l a d) = zlen l.
Proof.
  unfold zlen, patch. intros. rewrite !length_app, length_take, length_drop.
  unfold zlen. lia.
Qed.

Lemma vget_Some l i x : vget l i = Some x -> 0 <= i < zlen l.
Proof.
  unfold vget, zlen. case_decide; [|done]. intros ?%lookup_lt_Some. lia.
Qed.

Lemma vget_is_Some l i : 0 <= i < zlen l -> is_Some (vget l i).
Proof.
  unfold vget, zlen. intros. rewrite decide_True by lia.
  apply lookup_lt_is_Some. lia.
Qed.

Lemma vget_None l i : ~ (0 <= i < zlen l) -> vget l i = None.
Proof.
  unfold vget, zlen. intros. case_decide; [|done]. apply lookup_ge_None. lia.
Qed.

Lemma vget_zget l i : 0 <= i < zlen l -> vget l i = Some (zget l i).
Proof.
  intros Hi. unfold zget. by destruct (vget_is_Some l i Hi) as [x ->].
Qed.

Lemma zget_Some l i x : vget l i = Some x -> zget l i = x.
Proof. unfold zget. by intros ->. Qed.

Lemma zget_out l i : ~ (0 <= i < zlen l) -> zget l i = inhabitant.
Proof. intros. unfold zget. by rewrite vget_None. Qed.

Lemma zget_nil i : zget [] i = inhabitant.
Proof. apply zget_out. rewrite zlen_nil. lia. Qed.

Lemma zget_app l d i :
  zget (l ++ d) i = if decide (i < zlen l) then zget l i else zget d (i - zlen l).
Proof.
  unfold zget, vget, zlen. repeat case_decide; try lia; try done.
  - by rewrite lookup_app_l by lia.
  - rewrite lookup_app_r by lia. do 2 f_equal. lia.
Qed.

Lemma zget_zeros n i x : zget (zeros x n) i = if decide (0 <= i < n) then x else inhabitant.
Proof.
  unfold zget, vget, zeros. repeat case_decide; try lia; try done.
  - rewrite lookup_replicate_2 by lia. done.
  - rewrite (proj2 (lookup_ge_None _ _)); [done|]. rewrite length_replicate. lia.
Qed.

Lemma zget_take l n i :
  zget (take (Z.to_nat n) l) i = if decide (i < n) then zget l i else inhabitant.
Proof.
  unfold zget, vget. repeat case_decide; try done.
  - by rewrite lookup_take_lt by lia.
  - by rewrite lookup_take_ge by lia.
Qed.

Lemma zget_drop l n i :
  0 <= n -> 0 <= i -> zget (drop (Z.to_nat n) l) i = zget l (n + i).
Proof.
  intros. unfold zget, vget. rewrite !decide_True by lia.
  rewrite lookup_drop. do 2 f_equal. lia.
Qed.

Lemma zget_sub l a b i :
  0 <= a -> 0 <= i ->
  zget (sub l a b) i = if decide (i < b - a) then zget l (a + i) else inhabitant.
Proof.
  intros. unfold sub. rewrite zget_take. case_decide; [|done].
  by apply zget_drop.
Qed.

Lemma zget_patch l a d i :
  0 <= a -> a + zlen d <= zlen l ->
  zget (patch l a d) i =
    if decide (a <= i < a + zlen d) then zget d (i - a) else zget l i.
Proof.
  intros Ha Hl. pose proof (zlen_nonneg d). unfold patch.
  assert (zlen (take (Z.to_nat a) l) = a) as Ht.
  { unfold zlen in *. rewrite length_take. lia. }
  rewrite !zget_app, Ht, zget_take.
  destruct (decide (0 <= i)).
  - repeat case_decide; try lia; try done.
    rewrite zget_drop by lia. f_equal. lia.
  - rewrite decide_True by lia. rewrite decide_True by lia.
    rewrite decide_False by lia. done.
Qed.

Lemma zget_extend l n i x :
  zlen l <= n ->
  zget (extend l n x) i =
    if decide (zlen l <= i < n) then x else zget l i.
Proof.
  intros. unfold extend. rewrite zget_app, zget_zeros.
  pose proof (zlen_nonneg l).
  repeat case_decide; try lia; try done.
  by rewrite zget_out by lia.
Qed.

(** Lists of the same length that agree at every index are equal. *)
Lemma zlist_eq l d :
  zlen l = zlen d -> (forall i, 0 <= i < zlen l -> zget l i = zget d i) -> l = d.
Proof.
  intros Hlen Heq. apply list_eq_same_length with (n := length l);
    [unfold zlen in *; lia | done | ].
  intros i x y Hi Hx Hy. specialize (Heq (Z.of_nat i)).
  unfold zget, vget in Heq. rewrite !decide_True in Heq by lia.
  rewrite Nat2Z.id, Hx, Hy in Heq. simpl in Heq. apply Heq. unfold zlen. lia.
Qed.

Lemma sub_all l : sub l 0 (zlen l) = l.
Proof.
  unfold sub. rewrite drop_0. apply take_ge. unfold zlen. lia.
Qed.

Lemma vset_Some l i x :
  0 <= i < zlen l -> vset l i x = Some (<[Z.to_nat i := x]> l).
Proof. intros. unfold vset. by rewrite decide_True. Qed.

Lemma vget_insert l i j x :
  0 <= i < zlen l -> 0 <= j ->
  vget (<[Z.to_nat i := x]> l) j = if decide (i = j) then Some x else vget l j.
Proof.
  intros. unfold vget, zlen in *. rewrite !(decide_True (P := 0 <= j)) by lia.
  rewrite list_lookup_insert. repeat case_decide; try lia; done.
Qed.

Lemma zlen_insert l (k : nat) (x : A) : zlen (<[k := x]> l) = zlen l.
Proof. unfold zlen. by rewrite length_insert. Qed.

Lemma slice_Some l a b :
  0 <= a <= b -> b <= zlen l -> slice l a b = Some (sub l a b).
Proof. intros. unfold slice. by rewrite decide_True by lia. Qed.

Lemma copy_from_slice_Some l a b d :
  0 <= a <= b -> b <= zlen l -> zlen d = b - a ->
  copy_from_slice l a b d = Some (patch l a d).
Proof. intros. unfold copy_from_slice. by rewrite decide_True by lia. Qed.
End zlists.

(** The order of BLOB values: bytewise, a prefix first. *)
Fixpoint bytes_leb (l1 l2 : list byte) : bool :=
  match l1, l2 with
  | [], _ => true
  | _ :: _, [] => false
  | x :: l1, y :: l2 =>
      let a := Byte.to_N x in
      let b := Byte.to_N y in
      (a <? b)%N || ((a =? b)%N && bytes_leb l1 l2)
  end.

Definition bytes_le (l1 l2 : list byte) : Prop := bytes_leb l1 l2 = true.

(** Bytes past the end of a list read as zero. *)
Lemma zget_byte_out (l : list byte) i : ~ (0 <= i < zlen l) -> zget l i = x00.
Proof. intros. by rewrite zget_out. Qed.

#[export] Hint Rewrite @zlen_nil @zlen_cons @zlen_app @zlen_insert : zlist.
#[export] Hint Rewrite @zlen_zeros @zlen_sub @zlen_patch @zlen_extend using lia : zlist.

(** [a..=b] *)
Definition zrange (a b : Z) : list Z := seqZ a (b - a + 1).

Lemma elem_of_zrange a b i : i ∈ zrange a b <-> a <= i <= b.
Proof. unfold zrange. rewrite elem_of_seqZ. lia. Qed.

Lemma zrange_cons a b : a <= b -> zrange a b = a :: zrange (a + 1) b.
Proof.
  intros. unfold zrange. rewrite seqZ_cons by lia.
  replace (Z.succ a) with (a + 1) by lia. do 2 f_equal. lia.
Qed.

Lemma zrange_nil a b : b < a -> zrange a b = [].
Proof. intros. unfold zrange. by rewrite seqZ_nil by lia. Qed.

(** ** Filters that keep or drop a whole list *)

Section filters.
Context {A : Type} (P : A -> Prop) `{!forall x, Decision (P x)}.

Lemma filter_all (l : list A) : Forall P l -> filter P l = l.
Proof. induction 1; [done|]. rewrite filter_cons_True by done. by f_equal. Qed.

Lemma filter_none (l : list A) : Forall (fun x => ~ P x) l -> filter P l = [].
Proof. induction 1; [done|]. by rewrite filter_cons_False. Qed.
End filters.

(** A fallible map that succeeds on every element is a plain map. *)
Lemma mapM_fmap {A B} (f : A -> option B) (g : A -> B) (l : list A) :
  (forall x, x ∈ l -> f x = Some (g x)) -> mapM f l = Some (g <$> l).
Proof.
  induction l as [|x l IH]; intros Hf; [done|]. simpl.
  rewrite Hf by set_solver. simpl. rewrite IH by set_solver. done.
Qed.

(** ** Association lists *)

Section assoc.
Context {A : Type}.
Implicit Types (l : list (Z * A)) (k : Z) (x : A).

Definition assoc l k : option A := snd <$> find (fun e => e.1 =? k) l.

Lemma assoc_cons k' x l k :
  assoc ((k', x) :: l) k = if decide (k' = k) then Some x else assoc l k.
Proof. unfold assoc. simpl. destruct (Z.eqb_spec k' k); by case_decide. Qed.

Lemma assoc_Some_1 l k x : assoc l k = Some x -> (k, x) ∈ l.
Proof.
  induction l as [|[k' y] l IH]; [done|]. rewrite assoc_cons.
  case_decide; intros; simplify_eq; [left | right; auto].
Qed.

Lemma assoc_Some l k x : NoDup l.*1 -> assoc l k = Some x <-> (k, x) ∈ l.
Proof.
  intros Hnd. split; [apply assoc_Some_1|].
  induction l as [|[k' y] l IH]; [set_solver|]. simpl in Hnd.
  apply NoDup_cons in Hnd as [Hn Hnd]. rewrite assoc_cons.
  intros [?|Hin]%elem_of_cons; simplify_eq; [by rewrite decide_True|].
  rewrite decide_False; [auto|]. intros ->. apply Hn.
  apply list_elem_of_fmap. by exists (k, x).
Qed.

Lemma assoc_None l k : assoc l k = None <-> k ∉ l.*1.
Proof.
  induction l as [|[k' y] l IH]; [set_solver|]. rewrite assoc_cons. simpl.
  rewrite not_elem_of_cons. case_decide; subst; naive_solver.
Qed.

Lemma assoc_snoc l k x k' :
  assoc (l ++ [(k, x)]) k' =
    match assoc l k' with
    | Some y => Some y
    | None => if decide (k = k') then Some x else None
    end.
Proof.
  induction l as [|[k0 y] l IH]; simpl; [by rewrite assoc_cons|].
  rewrite !assoc_cons, IH. by destruct (decide (k0 = k')).
Qed.
End assoc.

(** Rows of a table with key in [lo..=hi], in key order. *)
Section select_between.
Context {A : Type}.
Implicit Types (m : gmap Z A) (lo hi k : Z).

Definition key_le (x y : Z * A) : Prop := x.1 <= y.1.
#[global] Instance key_le_dec x y : Decision (key_le x y).
Proof. unfold key_le. apply _. Defined.
#[global] Instance key_le_total : Total key_le.
Proof. intros x y. unfold key_le. lia. Qed.
#[global] Instance key_le_trans : Transitive key_le.
Proof. intros x y z. unfold key_le. lia. Qed.

Definition select_between m lo hi : list (Z * A) :=
  merge_sort key_le (filter (fun e => lo <= e.1 <= hi) (map_to_list m)).

Lemma select_between_perm m lo hi :
  select_between m lo hi ≡ₚ filter (fun e => lo <= e.1 <= hi) (map_to_list m).
Proof. apply merge_sort_Permutation. Qed.

Lemma elem_of_select m lo hi k x :
  (k, x) ∈ select_between m lo hi <-> m !! k = Some x /\ lo <= k <= hi.
Proof.
  rewrite select_between_perm, list_elem_of_filter, elem_of_map_to_list. simpl. tauto.
Qed.

Lemma select_between_nodup m lo hi : NoDup (select_between m lo hi).*1.
Proof.
  rewrite select_between_perm.
  assert (NoDup (map_to_list m).*1) as Hnd by apply NoDup_fst_map_to_list.
  revert Hnd. generalize (map_to_list m). intros l.
  induction l as [|[k x] l IH]; simpl; [constructor|].
  intros [Hn Hnd]%NoDup_cons. rewrite filter_cons. case_decide; [|auto].
  simpl. apply NoDup_cons. split; [|auto].
  intros ([k' y] & -> & Hin)%list_elem_of_fmap.
  apply list_elem_of_filter in Hin as [_ Hin]. apply Hn.
  apply list_elem_of_fmap. by exists (k', y).
Qed.

Lemma select_between_sorted m lo hi : StronglySorted key_le (select_between m lo hi).
Proof. apply (StronglySorted_merge_sort _). Qed.
End select_between.

(** ** Vectors used as stacks *)

Section vec_pop.
Context {A : Type}.
Implicit Types l : list A.

(** [Vec::pop]: the last element and the rest. *)
Definition vec_pop l : option (A * list A) :=
  match reverse l with
  | [] => None
  | x :: l' => Some (x, reverse l')
  end.

Lemma vec_pop_Some l x l' : vec_pop l = Some (x, l') <-> l = l' ++ [x].
Proof.
  unfold vec_pop. split.
  - destruct (reverse l) eqn:E; [done|]. intros. simplify_eq.
    apply (f_equal reverse) in E. rewrite reverse_involutive, reverse_cons in E. done.
  - intros ->. rewrite reverse_app. simpl. by rewrite reverse_involutive.
Qed.

Lemma vec_pop_None l : vec_pop l = None <-> l = [].
Proof.
  unfold vec_pop. split; [|by intros ->].
  destruct (reverse l) eqn:E; [|done]. intros _.
  apply (f_equal reverse) in E. by rewrite reverse_involutive in E.
Qed.
End vec_pop.

(** ** Binary search of the standard library

    [slice::binary_search_by]: [f] compares an element with the target. The loop
    halves [size]; the length of the list is enough fuel. *)

Section binary_search.
Context {A : Type}.
Implicit Types (l : list A) (f : A -> comparison).

Fixpoint bsearch_loop (fuel : nat) l f (base size : nat) : nat :=
  match fuel with
  | O => base
  | S fuel =>
      if decide (1 < size)%nat then
        let half := (size / 2)%nat in
        let mid := (base + half)%nat in
        let base' := match f <$> l !! mid with Some Gt => base | _ => mid end in
        bsearch_loop fuel l f base' (size - half)
      else base
  end.

Definition binary_search_by l f : nat + nat :=
  match l with
  | [] => inr O
  | _ =>
      let base := bsearch_loop (length l) l f O (length l) in
      match f <$> l !! base with
      | Some Eq => inl base
      | Some Lt => inr (S base)
      | _ => inr base
      end
  end.

Definition partition_point l (pred : A -> bool) : nat :=
  match binary_search_by l (fun x => if pred x then Lt else Gt) with
  | inl i | inr i => i
  end.

(** [f] goes from [Lt] through [Eq] to [Gt] along the list. *)
Definition search_order l f : Prop :=
  forall i j x y, l !! i = Some x -> l !! j = Some y -> (i < j)%nat ->
    (f y = Lt -> f x = Lt) /\ (f x = Gt -> f y = Gt).

Lemma bsearch_loop_spec fuel l f base size :
  search_order l f ->
  (size <= fuel)%nat -> (0 < size)%nat -> (base + size <= length l)%nat ->
  base = O \/ (forall x, l !! base = Some x -> f x <> Gt) ->
  (forall i x, (base + size <= i)%nat -> l !! i = Some x -> f x = Gt) ->
  let b := bsearch_loop fuel l f base size in
  (b < length l)%nat /\
  (b = O \/ forall x, l !! b = Some x -> f x <> Gt) /\
  (forall i x, (b < i)%nat -> l !! i = Some x -> f x = Gt).
Proof.
  intros Hord. revert base size.
  induction fuel as [|fuel IH]; intros base size Hf Hs Hl Hb Hg; [lia|].
  cbn [bsearch_loop]. case_decide.
  - assert (0 < size / 2 /\ 2 * (size / 2) <= size)%nat as [Hd1 Hd2].
    { pose proof (Nat.div_str_pos size 2). pose proof (Nat.Div0.mul_div_le size 2). lia. }
    set (half := (size / 2)%nat) in *.
    destruct (lookup_lt_is_Some_2 l (base + half)) as [y Hy]; [lia|].
    rewrite Hy. cbn [fmap option_fmap option_map].
    assert (f y = Gt -> forall i x, (base + half <= i)%nat -> l !! i = Some x -> f x = Gt).
    { intros Hgt i x Hi Hx. destruct (decide (i = base + half)%nat) as [->|]; [congruence|].
      eapply Hord; [exact Hy | exact Hx | lia | done]. }
    destruct (f y) eqn:Hfy.
    + apply IH; [lia.. | right; congruence | ]. intros i x Hi. apply Hg. lia.
    + apply IH; [lia.. | right; congruence | ]. intros i x Hi. apply Hg. lia.
    + apply IH; [lia.. | done | ]. intros i x Hi. apply H0; [done|lia].
  - assert (size = 1)%nat as -> by lia. split; [lia|]. split; [done|].
    intros i x Hi. apply Hg. lia.
Qed.

Lemma binary_search_by_spec l f :
  search_order l f ->
  match binary_search_by l f with
  | inl i => exists x, l !! i = Some x /\ f x = Eq
  | inr i => (i <= length l)%nat /\
      (forall j x, (j < i)%nat -> l !! j = Some x -> f x = Lt) /\
      (forall j x, (i <= j)%nat -> l !! j = Some x -> f x = Gt)
  end.
Proof.
  intros Hord. unfold binary_search_by.
  destruct l as [|z l'] eqn:E; [simpl; naive_solver lia|]. rewrite <- E in *.
  assert (0 < length l)%nat by (subst; simpl; lia). clear z l' E.
  destruct (bsearch_loop_spec (length l) l f 0 (length l)) as (Hb & Hle & Hgt);
    [done | lia.. | by left | | ].
  { intros i x Hi Hx. apply lookup_lt_Some in Hx. lia. }
  set (b := bsearch_loop _ _ _ _ _) in *.
  destruct (lookup_lt_is_Some_2 l b Hb) as [y Hy]. rewrite Hy.
  cbn [fmap option_fmap option_map]. destruct (f y) eqn:Hfy.
  - eauto.
  - split; [lia|]. split; [|intros j x Hj; apply Hgt; lia].
    intros j x Hj Hx. destruct (decide (j = b)) as [->|]; [congruence|].
    eapply Hord; [exact Hx | exact Hy | lia | done].
  - destruct Hle as [-> | Hle]; [|by apply Hle in Hy].
    split; [lia|]. split; [lia|]. intros j x Hj Hx.
    destruct (decide (j = O)) as [->|]; [congruence|]. eapply Hgt; [|done]. lia.
Qed.

(** A predicate that holds on a prefix only: the point where it stops. *)
Lemma partition_point_spec l (pred : A -> bool) :
  (forall i j x y, l !! i = Some x -> l !! j = Some y -> (i < j)%nat ->
     pred y = true -> pred x = true) ->
  (partition_point l pred <= length l)%nat /\
  Forall (fun x => pred x = true) (take (partition_point l pred) l) /\
  Forall (fun x => pred x = false) (drop (partition_point l pred) l).
Proof.
  intros Hpre. set (f := fun x => if pred x then Lt else Gt).
  assert (search_order l f) as Hord.
  { intros i j x y Hx Hy Hij. specialize (Hpre i j x y Hx Hy Hij). subst f. simpl.
    destruct (pred x), (pred y); naive_solver. }
  apply binary_search_by_spec in Hord. unfold partition_point. fold f.
  destruct (binary_search_by l f) as [i|i].
  - destruct Hord as (x & _ & Hfx). subst f. simpl in Hfx. by destruct (pred x).
  - destruct Hord as (Hi & Hlt & Hgt). split; [done|]. split.
    + apply Forall_lookup. intros j x [Hx Hj]%lookup_take_Some.
      apply Hlt in Hx; [|done]. subst f. simpl in Hx. by destruct (pred x).
    + apply Forall_lookup. intros j x Hx. rewrite lookup_drop in Hx.
      apply Hgt in Hx; [|lia]. subst f. simpl in Hx. by destruct (pred x).
Qed.
End binary_search.
