(* ===== verification/Effects.v ===== *)
(** * Effects: state, errors and panics

    The code threads [&mut] state through calls that return [Result]. A program
    is a function from a state to an outcome: the state survives an [Err]
    (mutations made before a [?] stay), a panic ends the program, and
    [OutOfFuel] marks a bounded loop whose bound was too small. [wp] is total: it
    excludes panics and exhausted fuel, so a triple proves that the code returns. *)

From S2P Require Import Prelude.

Inductive outcome (S E A : Type) : Type :=
  | Ok (a : A) (s : S)
  | Err (e : E) (s : S)
  | Panic
  | OutOfFuel.
Arguments Ok {S E A} a s.
Arguments Err {S E A} e s.
Arguments Panic {S E A}.
Arguments OutOfFuel {S E A}.

Definition M (S E A : Type) : Type := S -> outcome S E A.

#[global] Instance M_ret {S E} : MRet (M S E) := fun A a s => Ok a s.

#[global] Instance M_bind {S E} : MBind (M S E) := fun A B f m s =>
  match m s with
  | Ok a s' => f a s'
  | Err e s' => Err e s'
  | Panic => Panic
  | OutOfFuel => OutOfFuel
  end.

Section programs.
Context {S E : Type}.

(** [Err(e)?] *)
Definition throw {A} (e : E) : M S E A := fun s => Err e s.
Definition panic {A} : M S E A := fun _ => Panic.
Definition out_of_fuel {A} : M S E A := fun _ => OutOfFuel.
Definition get : M S E S := fun s => Ok s s.
Definition put (s : S) : M S E unit := fun _ => Ok tt s.
Definition gets {A} (f : S -> A) : M S E A := fun s => Ok (f s) s.
Definition modify (f : S -> S) : M S E unit := fun s => Ok tt (f s).

(** An indexing that panics when it is out of range. *)
Definition unwrap {A} (o : option A) : M S E A :=
  match o with Some a => mret a | None => panic end.

(** [ok_or(e)?] *)
Definition ok_or {A} (o : option A) (e : E) : M S E A :=
  match o with Some a => mret a | None => throw e end.

(** [for x in l { f(x)?; }] *)
Fixpoint for_each {X} (l : list X) (f : X -> M S E unit) : M S E unit :=
  match l with
  | [] => mret tt
  | x :: l => f x ;; for_each l f
  end.

(** A loop that threads an accumulator. *)
Fixpoint fold_each {X A} (l : list X) (f : A -> X -> M S E A) (a : A) : M S E A :=
  match l with
  | [] => mret a
  | x :: l => a' ← f a x; fold_each l f a'
  end.

(** [match m { Ok(a) => f(a), Err(e) => g(e) }] *)
Definition match_result {A B} (m : M S E A) (f : A -> M S E B) (g : E -> M S E B)
  : M S E B := fun s =>
  match m s with
  | Ok a s' => f a s'
  | Err e s' => g e s'
  | Panic => Panic
  | OutOfFuel => OutOfFuel
  end.
End programs.

(** [map_err], on a component of the state: [sel] reads the component, [upd]
    stores it back. *)
Definition zoom {S T E F A} (sel : S -> T) (upd : T -> S -> S) (err : F -> E)
    (m : M T F A) : M S E A := fun s =>
  match m (sel s) with
  | Ok a t => Ok a (upd t s)
  | Err e t => Err (err e) (upd t s)
  | Panic => Panic
  | OutOfFuel => OutOfFuel
  end.

(** ** Program logic *)

Definition wp {S E A} (m : M S E A) (Q : A -> S -> Prop) (R : E -> S -> Prop)
    (s : S) : Prop :=
  match m s with
  | Ok a s' => Q a s'
  | Err e s' => R e s'
  | Panic | OutOfFuel => False
  end.

Section wp.
Context {S E : Type}.
Implicit Types (s : S) (e : E).

Lemma wp_ret {A} (a : A) Q (R : E -> S -> Prop) s : wp (mret a) Q R s <-> Q a s.
Proof. done. Qed.

Lemma wp_bind {A B} (m : M S E A) (f : A -> M S E B) Q R s :
  wp (m ≫= f) Q R s <-> wp m (fun a s' => wp (f a) Q R s') R s.
Proof. unfold wp, mbind, M_bind. by destruct (m s). Qed.

Lemma wp_mono {A} (m : M S E A) (Q Q' : A -> S -> Prop) (R R' : E -> S -> Prop) s :
  wp m Q R s -> (forall a s', Q a s' -> Q' a s') -> (forall e s', R e s' -> R' e s') ->
  wp m Q' R' s.
Proof. unfold wp. destruct (m s); naive_solver. Qed.

Lemma wp_conj {A} (m : M S E A) (Q Q' : A -> S -> Prop) (R R' : E -> S -> Prop) s :
  wp m Q R s -> wp m Q' R' s ->
  wp m (fun a s' => Q a s' /\ Q' a s') (fun e s' => R e s' /\ R' e s') s.
Proof. unfold wp. by destruct (m s). Qed.

Lemma wp_throw {A} e (Q : A -> S -> Prop) R s : wp (throw e) Q R s <-> R e s.
Proof. done. Qed.

Lemma wp_get (Q : S -> S -> Prop) (R : E -> S -> Prop) s : wp get Q R s <-> Q s s.
Proof. done. Qed.

Lemma wp_put t (Q : unit -> S -> Prop) (R : E -> S -> Prop) s : wp (put t) Q R s <-> Q tt t.
Proof. done. Qed.

Lemma wp_gets {A} (f : S -> A) Q (R : E -> S -> Prop) s : wp (gets f) Q R s <-> Q (f s) s.
Proof. done. Qed.

Lemma wp_modify f (Q : unit -> S -> Prop) (R : E -> S -> Prop) s :
  wp (modify f) Q R s <-> Q tt (f s).
Proof. done. Qed.

Lemma wp_unwrap {A} (o : option A) a Q (R : E -> S -> Prop) s :
  o = Some a -> Q a s -> wp (unwrap o) Q R s.
Proof. by intros ->. Qed.

Lemma wp_ok_or {A} (o : option A) e (Q : A -> S -> Prop) R s :
  (forall a, o = Some a -> Q a s) -> (o = None -> R e s) -> wp (ok_or o e) Q R s.
Proof. destruct o; unfold wp; simpl; naive_solver. Qed.

Lemma wp_match_result {A B} (m : M S E A) (f : A -> M S E B) g Q R s :
  wp (match_result m f g) Q R s <->
  wp m (fun a s' => wp (f a) Q R s') (fun e s' => wp (g e) Q R s') s.
Proof. unfold wp, match_result. by destruct (m s). Qed.

(** A loop with an invariant indexed by the elements already visited. *)
Lemma wp_for_each {X} (l : list X) f (I : list X -> S -> Prop) (R : E -> S -> Prop) s :
  I [] s ->
  (forall done x rest s', l = done ++ x :: rest -> I done s' ->
     wp (f x) (fun _ s'' => I (done ++ [x]) s'') R s') ->
  wp (for_each l f) (fun _ s' => I l s') R s.
Proof.
  intros H0 Hstep.
  enough (forall rest done s', l = done ++ rest -> I done s' ->
    wp (for_each rest f) (fun _ s'' => I l s'') R s') by eauto using app_nil_l.
  clear s H0. induction rest as [|x rest IH]; intros done s' Hl HI; simpl.
  - rewrite app_nil_r in Hl. by subst.
  - apply wp_bind. eapply wp_mono; [by eapply Hstep| |done].
    simpl. intros _ s'' HI'. apply (IH (done ++ [x])); [|done].
    by rewrite <- app_assoc.
Qed.

Lemma wp_fold_each {X A} (l : list X) f (a : A) (I : list X -> A -> S -> Prop)
    (R : E -> S -> Prop) s :
  I [] a s ->
  (forall done x rest a' s', l = done ++ x :: rest -> I done a' s' ->
     wp (f a' x) (fun a'' s'' => I (done ++ [x]) a'' s'') R s') ->
  wp (fold_each l f a) (fun a' s' => I l a' s') R s.
Proof.
  intros H0 Hstep.
  enough (forall rest done a' s', l = done ++ rest -> I done a' s' ->
    wp (fold_each rest f a') (fun a'' s'' => I l a'' s'') R s') by eauto using app_nil_l.
  clear a s H0. induction rest as [|x rest IH]; intros done a s' Hl HI; simpl.
  - rewrite app_nil_r in Hl. by subst.
  - apply wp_bind. eapply wp_mono; [by eapply Hstep| |done].
    simpl. intros a' s'' HI'. apply (IH (done ++ [x])); [|done].
    by rewrite <- app_assoc.
Qed.

(** What a terminating run establishes. *)
Lemma wp_Ok {A} (m : M S E A) Q R s a s' : wp m Q R s -> m s = Ok a s' -> Q a s'.
Proof. unfold wp. intros H Hm. by rewrite Hm in H. Qed.

Lemma wp_Err {A} (m : M S E A) (Q : A -> S -> Prop) R s e s' :
  wp m Q R s -> m s = Err e s' -> R e s'.
Proof. unfold wp. intros H Hm. by rewrite Hm in H. Qed.
End wp.

Lemma wp_zoom {S T E F A} (sel : S -> T) upd (err : F -> E) (m : M T F A) Q R s :
  wp (zoom sel upd err m) Q R s <->
  wp m (fun a t => Q a (upd t s)) (fun e t => R (err e) (upd t s)) (sel s).
Proof. unfold wp, zoom. by destruct (m (sel s)). Qed.

(** Programs are compared by their outcomes. *)
#[global] Instance M_equiv {S E A} : Equiv (M S E A) := fun m1 m2 => forall s, m1 s = m2 s.

#[global] Instance M_equivalence {S E A} : Equivalence (@equiv (M S E A) _).
Proof.
  split.
  - by intros m s.
  - intros m1 m2 H s. exact (eq_sym (H s)).
  - intros m1 m2 m3 H1 H2 s. exact (eq_trans (H1 s) (H2 s)).
Qed.

#[global] Instance wp_proper {S E A} : Proper ((≡) ==> eq ==> eq ==> eq ==> iff) (@wp S E A).
Proof. intros m1 m2 Hm Q ? <- R ? <- s ? <-. unfold wp. by rewrite (Hm s). Qed.

#[global] Instance bind_proper {S E A B} :
  Proper (pointwise_relation A (≡) ==> (≡) ==> (≡)) (@mbind (M S E) _ A B).
Proof.
  intros f1 f2 Hf m1 m2 Hm s. unfold mbind, M_bind. rewrite (Hm s).
  destruct (m2 s); [apply Hf | done..].
Qed.

Lemma bind_assoc {S E A B C} (m : M S E A) (f : A -> M S E B) (g : B -> M S E C) :
  (m ≫= f) ≫= g ≡ m ≫= (fun a => f a ≫= g).
Proof. intros s. unfold mbind, M_bind. by destruct (m s). Qed.

(** Steps through the primitives of a program. *)
Ltac wp_prim :=
  lazymatch goal with
  | |- wp (mbind _ _) _ _ _ => apply wp_bind
  | |- wp (mret _) _ _ _ => apply wp_ret
  | |- wp (throw _) _ _ _ => apply wp_throw
  | |- wp get _ _ _ => apply wp_get
  | |- wp (put _) _ _ _ => apply wp_put
  | |- wp (gets _) _ _ _ => apply wp_gets
  | |- wp (modify _) _ _ _ => apply wp_modify
  | |- wp (match_result _ _ _) _ _ _ => apply wp_match_result
  | |- wp (zoom _ _ _ _) _ _ _ => apply wp_zoom
  end; cbv beta.

Ltac wp_prims := repeat wp_prim.

(** Uses a triple of a called program. *)
Tactic Notation "wp_call" uconstr(H) := eapply wp_mono; [eapply H | cbv beta | cbv beta].
