(* ===== verification/Model.v ===== *)
(** * Model: timestamps, file kinds and errors (src/model.rs)

    [Timestamp] and its conversions to stored nanoseconds and to system times,
    [FileKind], the inode and directory-entry records, and [DbError] with the
    translation of engine failures into it. *)

From S2P Require Import Prelude.

Definition NANOS_PER_SEC : Z := 1000000000.

(** A [SystemTime] is its distance from the Unix epoch in nanoseconds, negative
    before the epoch. *)
Definition SystemTime : Type := Z.

Record Timestamp := mkTimestamp { secs : Z; nsec : Z }.

#[global] Instance Timestamp_eq_dec : EqDecision Timestamp.
Proof. solve_decision. Defined.

(** [secs] is an i64 and [nsec] a u32 below one second. *)
Definition Timestamp_wf (t : Timestamp) : Prop :=
  I64_MIN <= secs t <= I64_MAX /\ 0 <= nsec t < NANOS_PER_SEC.

Definition from_system_time (time : SystemTime) : Timestamp :=
  if 0 <=? time
  then {| secs := i64 (time / NANOS_PER_SEC); nsec := time mod NANOS_PER_SEC |}
  else let duration := - time in
       {| secs := - i64 (duration / NANOS_PER_SEC); nsec := duration mod NANOS_PER_SEC |}.

Definition to_ns (t : Timestamp) : Z :=
  let magnitude := Z.abs (secs t) * NANOS_PER_SEC + nsec t in
  let ns := if secs t <? 0 then - magnitude else magnitude in
  Z.max I64_MIN (Z.min I64_MAX ns).

Definition from_ns (ns : Z) : Timestamp :=
  let magnitude := Z.abs ns in
  let s := magnitude / NANOS_PER_SEC in
  {| secs := if ns <? 0 then - s else s; nsec := magnitude mod NANOS_PER_SEC |}.

Definition to_system_time (t : Timestamp) : SystemTime :=
  if 0 <=? secs t
  then secs t * NANOS_PER_SEC + nsec t
  else - (Z.abs (secs t) * NANOS_PER_SEC + nsec t).

Inductive FileKind := RegularFile | Directory | Symlink.

#[global] Instance FileKind_eq_dec : EqDecision FileKind.
Proof. solve_decision. Defined.

Inductive DbError :=
  | AlreadyExists
  | DirectoryNotEmpty
  | InvalidInput
  | IsDirectory
  | NameTooLong
  | NoSpace
  | NotDirectory
  | NotFound
  | Corrupt
  | UnsupportedSchema (version : Z)
  | FileTooLarge
  | Sqlite (message : list byte).

#[global] Instance DbError_eq_dec : EqDecision DbError.
Proof. solve_decision. Defined.

Definition as_i64 (k : FileKind) : Z :=
  match k with RegularFile => 1 | Directory => 2 | Symlink => 3 end.

Definition from_i64 (value : Z) : FileKind + DbError :=
  match value with
  | 1 => inl RegularFile
  | 2 => inl Directory
  | 3 => inl Symlink
  | _ => inr Corrupt
  end.

Definition regular_file_error (k : FileKind) : option DbError :=
  match k with
  | RegularFile => None
  | Directory => Some IsDirectory
  | Symlink => Some InvalidInput
  end.

Record Inode := mkInode {
  i_ino : Z; i_kind : FileKind; i_mode : Z; i_uid : Z; i_gid : Z; i_size : Z;
  i_atime : Timestamp; i_mtime : Timestamp; i_ctime : Timestamp; i_nlink : Z }.

Record DirEntry := mkDirEntry {
  de_name : list byte; de_ino : Z; de_kind : FileKind }.

Record MetadataUpdate := mkMetadataUpdate {
  mu_mode : option Z; mu_uid : option Z; mu_gid : option Z;
  mu_atime : option Timestamp; mu_mtime : option Timestamp }.

(** ** Errors of the SQL engine

    The engine (libsqlite3 behind rusqlite) is not part of the repository. What
    the code reads of its errors is the primary code, the extended code and, for
    other failures, the text. *)

Inductive ErrorCode := DiskFull | ConstraintViolation | OtherCode (code : Z).

#[global] Instance ErrorCode_eq_dec : EqDecision ErrorCode.
Proof. solve_decision. Defined.

Definition SQLITE_FULL : Z := 13.
Definition SQLITE_CONSTRAINT_FOREIGNKEY : Z := 787.
Definition SQLITE_CONSTRAINT_PRIMARYKEY : Z := 1555.
Definition SQLITE_CONSTRAINT_UNIQUE : Z := 2067.

Inductive SqlError :=
  | QueryReturnedNoRows
  | SqliteFailure (code : ErrorCode) (extended_code : Z) (message : list byte)
  | OtherSqlError (message : list byte).

(** The text of the error is kept as given; the code only stores it. *)
Definition sqlite_failure (code : ErrorCode) (extended_code : Z) (message : list byte)
    : DbError :=
  if bool_decide (code = DiskFull) || (extended_code =? SQLITE_FULL) then NoSpace
  else if bool_decide (code = ConstraintViolation)
          && ((extended_code =? SQLITE_CONSTRAINT_PRIMARYKEY)
              || (extended_code =? SQLITE_CONSTRAINT_UNIQUE)) then AlreadyExists
  else Sqlite message.

Definition from_sql_error (error : SqlError) : DbError :=
  match error with
  | QueryReturnedNoRows => NotFound
  | SqliteFailure code extended_code message => sqlite_failure code extended_code message
  | OtherSqlError message => Sqlite message
  end.

(** ** Time conversions *)

Lemma to_ns_range t : I64_MIN <= to_ns t <= I64_MAX.
Proof. unfold to_ns, I64_MIN, I64_MAX. lia. Qed.

Lemma from_ns_wf ns : I64_MIN <= ns <= I64_MAX -> Timestamp_wf (from_ns ns).
Proof.
  intros. unfold Timestamp_wf, from_ns, I64_MIN, I64_MAX, NANOS_PER_SEC in *.
  cbn [secs nsec]. destruct (Z.ltb_spec ns 0); dlia.
Qed.

(** Reading back stored nanoseconds: exact outside the second before the epoch. *)
Lemma to_ns_from_ns ns :
  I64_MIN <= ns <= I64_MAX -> ns <= - NANOS_PER_SEC \/ 0 <= ns ->
  to_ns (from_ns ns) = ns.
Proof.
  unfold to_ns, from_ns, I64_MIN, I64_MAX, NANOS_PER_SEC. cbn [secs nsec]. intros.
  destruct (ns <? 0) eqn:?; case_match; dlia.
Qed.

Lemma from_ns_to_ns t :
  Timestamp_wf t -> I64_MIN <= to_system_time t <= I64_MAX ->
  from_ns (to_ns t) = t.
Proof.
  destruct t as [s n]. unfold Timestamp_wf, to_ns, from_ns, to_system_time.
  unfold I64_MIN, I64_MAX, NANOS_PER_SEC. cbn [secs nsec]. intros [Hs Hn] Ht.
  destruct (s <? 0) eqn:?; destruct (0 <=? s) eqn:?; try lia;
    rewrite Z.min_r, Z.max_r by lia; case_match; f_equal; dlia.
Qed.

Lemma from_i64_as_i64 k : from_i64 (as_i64 k) = inl k.
Proof. by destruct k. Qed.

Lemma from_i64_inv v k : from_i64 v = inl k -> v = as_i64 k.
Proof.
  unfold from_i64, as_i64.
  destruct v as [|p|p]; try done.
  do 3 (destruct p as [p|p|]; simpl; intros; simplify_eq; try done).
Qed.
#[export] Hint Rewrite from_i64_as_i64 : zlist.

(** ** Stored times *)

(** C40. A time that is stored and read back: exact when it fits 64-bit nanoseconds and
    is not in the second before the epoch, clamped to the ends of the range when it
    does not fit. *)
Theorem stored_time (t : SystemTime) :
  Z.abs t < NANOS_PER_SEC * I64_MAX ->
  let read := to_system_time (from_ns (to_ns (from_system_time t))) in
  (I64_MIN <= t <= I64_MAX -> t <= - NANOS_PER_SEC \/ 0 <= t -> read = t) /\
  (I64_MAX < t -> read = I64_MAX) /\ (t < I64_MIN -> read = I64_MIN).
Proof.
  intros Ht read. unfold read, to_system_time, from_ns, to_ns, from_system_time.
  unfold NANOS_PER_SEC, I64_MIN, I64_MAX in *.
  destruct (Z.leb_spec 0 t); cbn [secs nsec].
  - assert (i64 (t / 1000000000) = t / 1000000000) as -> by (apply i64_id; dlia).
    destruct (Z.ltb_spec (t / 1000000000) 0); [dlia|]. cbn zeta.
    rewrite (Z.abs_eq (t / 1000000000)) by dlia.
    assert (t / 1000000000 * 1000000000 + t mod 1000000000 = t) as -> by dlia.
    split; [|split]; intros; [rewrite Z.min_r, Z.max_r by lia|rewrite Z.min_l, Z.max_r by lia|lia].
    + destruct (Z.ltb_spec t 0); [lia|]. rewrite Z.abs_eq by lia.
      destruct (Z.leb_spec 0 (t / 1000000000)); dlia.
    + reflexivity.
  - assert (i64 (- t / 1000000000) = - t / 1000000000) as -> by (apply i64_id; dlia).
    assert (Z.abs (- (- t / 1000000000)) = - t / 1000000000) as -> by dlia.
    assert (- t / 1000000000 * 1000000000 + - t mod 1000000000 = - t) as -> by dlia.
    split; [|split]; intros; [|lia|].
    + destruct (Z.ltb_spec (- (- t / 1000000000)) 0); [|dlia].
      rewrite Z.min_r, Z.max_r by lia. destruct (Z.ltb_spec (- - t) 0); [|lia].
      rewrite Z.abs_neq by lia. case_match eqn:Hc; dlia.
    + destruct (Z.ltb_spec (- (- t / 1000000000)) 0); [|dlia].
      rewrite Z.min_r, Z.max_l by lia. reflexivity.
Qed.

Lemma stored_time_witness :
  to_system_time (from_ns (to_ns (from_system_time (- 1500000000)))) = - 1500000000.
Proof. apply (stored_time (- 1500000000)); [reflexivity|done|by left]. Defined.

(** A time less than a second before the epoch loses its sign when it is stored: the
    sign is kept in the seconds, and they are zero. *)
Theorem stored_time_before_epoch (t : SystemTime) :
  - NANOS_PER_SEC < t < 0 -> to_system_time (from_ns (to_ns (from_system_time t))) = - t.
Proof.
  intros Ht. unfold to_system_time, from_ns, to_ns, from_system_time.
  unfold NANOS_PER_SEC, I64_MIN, I64_MAX in *.
  destruct (Z.leb_spec 0 t); [lia|]. cbn [secs nsec].
  assert (- t / 1000000000 = 0) as -> by dlia. assert (- t mod 1000000000 = - t) as -> by dlia.
  change (i64 0) with 0. change (- 0 <? 0) with false. change (Z.abs (- 0) * 1000000000) with 0.
  cbv iota. rewrite Z.add_0_l.
  rewrite Z.min_r, Z.max_r by lia. destruct (Z.ltb_spec (- t) 0); [lia|].
  rewrite Z.abs_eq by lia. destruct (Z.leb_spec 0 (- t / 1000000000)); dlia.
Qed.

Lemma stored_time_before_epoch_witness :
  to_system_time (from_ns (to_ns (from_system_time (- 500000000)))) = 500000000.
Proof. apply (stored_time_before_epoch (- 500000000)). split; reflexivity. Defined.
