(* ===== verification/Chunk.v ===== *)
(** * Chunk: chunk keys and chunk boundary arithmetic (src/db.rs)

    A file is cut into chunks of [CHUNK_SIZE] bytes. [chunk_key] packs an inode
    number and a chunk index into one row id; [ChunkSpan] gives the chunks that a
    byte range covers and the piece of each. *)

From S2P Require Import Prelude.

Definition CHUNK_SIZE : Z := 65536.
Definition CHUNK_BITS : Z := 24.
Definition MAX_CHUNKS : Z := 2 ^ 24.
Definition MAX_FILE_SIZE : Z := MAX_CHUNKS * CHUNK_SIZE.
Definition MAX_INO : Z := 2 ^ 39 - 1.

(** The constants, for arithmetic; the definitions stay folded elsewhere. *)
Lemma CHUNK_SIZE_eq : CHUNK_SIZE = 65536.
Proof. reflexivity. Qed.
Lemma MAX_CHUNKS_eq : MAX_CHUNKS = 16777216.
Proof. reflexivity. Qed.
Lemma MAX_FILE_SIZE_eq : MAX_FILE_SIZE = 1099511627776.
Proof. reflexivity. Qed.
Lemma MAX_INO_eq : MAX_INO = 549755813887.
Proof. reflexivity. Qed.

#[global] Opaque CHUNK_SIZE MAX_CHUNKS MAX_FILE_SIZE MAX_INO.

(** Replaces the chunk constants by their values and solves. *)
Ltac chunk_const E c :=
  rewrite ?E;
  repeat match goal with H : context [c] |- _ => rewrite E in H end.
Ltac chunk_consts :=
  chunk_const CHUNK_SIZE_eq CHUNK_SIZE; chunk_const MAX_CHUNKS_eq MAX_CHUNKS;
  chunk_const MAX_FILE_SIZE_eq MAX_FILE_SIZE; chunk_const MAX_INO_eq MAX_INO.
Ltac clia := chunk_consts; dlia.

(** ** Chunk keys *)

Definition chunk_key (ino chunk_index : Z) : Z :=
  i64 (Z.lor (u64 (Z.shiftl ino CHUNK_BITS)) chunk_index).

Definition chunk_keys (ino : Z) : Z * Z :=
  (chunk_key ino 0, chunk_key ino (MAX_CHUNKS - 1)).

Definition chunk_index_of (key : Z) : Z := Z.land (u64 key) (MAX_CHUNKS - 1).

Definition valid_ino (ino : Z) : Prop := 0 <= ino <= MAX_INO.
Definition valid_chunk (chunk_index : Z) : Prop := 0 <= chunk_index < MAX_CHUNKS.

(** The bits of the two parts do not overlap, so the key is a sum. *)
Lemma chunk_key_eq ino c :
  valid_ino ino -> valid_chunk c -> chunk_key ino c = ino * 16777216 + c.
Proof.
  unfold valid_ino, valid_chunk, chunk_key, CHUNK_BITS. intros. chunk_consts.
  rewrite Z.shiftl_mul_pow2 by lia. change (2 ^ 24) with 16777216.
  rewrite u64_id by lia.
  enough (Z.land (ino * 16777216) c = 0).
  { pose proof (Z.add_lor_land (ino * 16777216) c). rewrite i64_id; lia. }
  apply Z.bits_inj'. intros n Hn. rewrite Z.land_spec, Z.bits_0.
  destruct (decide (n < 24)).
  - change 16777216 with (2 ^ 24). by rewrite Z.mul_pow2_bits_low.
  - destruct (decide (c = 0)) as [->|]; [by rewrite Z.bits_0, andb_false_r|].
    rewrite (Z.bits_above_log2 c); [apply andb_false_r | lia | ].
    apply Z.log2_lt_pow2; [lia|]. apply Z.lt_le_trans with (2 ^ 24); [simpl; lia|].
    apply Z.pow_le_mono_r; lia.
Qed.

Lemma chunk_key_inj ino1 c1 ino2 c2 :
  valid_ino ino1 -> valid_chunk c1 -> valid_ino ino2 -> valid_chunk c2 ->
  chunk_key ino1 c1 = chunk_key ino2 c2 -> ino1 = ino2 /\ c1 = c2.
Proof.
  intros H1 H2 H3 H4. rewrite !chunk_key_eq by done.
  unfold valid_ino, valid_chunk in *. chunk_consts. lia.
Qed.

Lemma chunk_index_of_key ino c :
  valid_ino ino -> valid_chunk c -> chunk_index_of (chunk_key ino c) = c.
Proof.
  intros H1 H2. unfold chunk_index_of. rewrite chunk_key_eq by done.
  unfold valid_ino, valid_chunk in *. chunk_consts.
  rewrite u64_id by lia.
  change (16777216 - 1) with (Z.ones 24). rewrite Z.land_ones by lia.
  change (2 ^ 24) with 16777216. rewrite Z.add_comm, Z.mod_add by lia.
  apply Z.mod_small. lia.
Qed.

(** A row id lies between the keys of two chunks of an inode exactly when it is
    the key of a chunk of that inode between them. *)
Lemma chunk_key_between ino c lo hi ino' :
  valid_ino ino -> valid_chunk lo -> valid_chunk hi -> valid_ino ino' -> valid_chunk c ->
  chunk_key ino lo <= chunk_key ino' c <= chunk_key ino hi <-> ino' = ino /\ lo <= c <= hi.
Proof.
  intros. rewrite !chunk_key_eq by done.
  unfold valid_ino, valid_chunk in *. chunk_consts. split; [|lia]. intros.
  assert (ino' = ino) by lia. lia.
Qed.

(** ** Spans *)

Record ChunkPiece := mkChunkPiece {
  chunk_start : Z; chunk_end : Z;   (* byte range within the chunk *)
  buf_start : Z; buf_end : Z }.     (* the same bytes within the caller's buffer *)

Definition is_full_chunk (p : ChunkPiece) : bool :=
  (chunk_start p =? 0) && (chunk_end p =? CHUNK_SIZE).

Record ChunkSpan := mkChunkSpan {
  span_start : Z; span_end : Z; span_first : Z; span_last : Z }.

(** [offset + len] wraps in a release build. *)
Definition ChunkSpan_new (offset len : Z) : option ChunkSpan :=
  if len =? 0 then None
  else
    let e := u64 (offset + len) in
    Some {| span_start := offset; span_end := e;
            span_first := offset / CHUNK_SIZE;
            span_last := u64 (e - 1) / CHUNK_SIZE |}.

Definition piece (s : ChunkSpan) (chunk_index : Z) : ChunkPiece :=
  let start := u64 (chunk_index * CHUNK_SIZE) in
  let from := Z.max (span_start s) start in
  let to := Z.min (span_end s) (u64 (start + CHUNK_SIZE)) in
  {| chunk_start := u64 (from - start); chunk_end := u64 (to - start);
     buf_start := u64 (from - span_start s); buf_end := u64 (to - span_start s) |}.

#[global] Arguments piece : simpl never.
#[global] Arguments chunk_key : simpl never.

(** [None] is the panic of a slice out of range or of a length mismatch. *)
Definition copy_out (s : ChunkSpan) (chunk_index : Z) (data out : list byte)
    : option (list byte) :=
  let p := piece s chunk_index in
  let avail := Z.min (zlen data) (chunk_end p) in
  if avail <=? chunk_start p then Some out
  else
    let len := avail - chunk_start p in
    d ← slice data (chunk_start p) avail;
    copy_from_slice out (buf_start p) (buf_start p + len) d.

(** A span whose end does not come near the top of u64: every span the callers
    build after their size checks. *)
Definition span_ok (s : ChunkSpan) : Prop :=
  0 <= span_start s < span_end s /\ span_end s <= 2 ^ 64 - CHUNK_SIZE /\
  span_first s = span_start s / CHUNK_SIZE /\
  span_last s = (span_end s - 1) / CHUNK_SIZE.

Lemma ChunkSpan_new_ok offset len :
  0 <= offset -> 0 < len -> offset + len <= 2 ^ 64 - CHUNK_SIZE ->
  exists s, ChunkSpan_new offset len = Some s /\ span_ok s /\
    span_start s = offset /\ span_end s = offset + len.
Proof.
  intros Ho Hl He. unfold ChunkSpan_new.
  assert (0 < CHUNK_SIZE) by clia.
  destruct (Z.eqb_spec len 0); [lia|]. rewrite (u64_id (offset + len)) by lia.
  rewrite u64_id by lia. eexists. split; [done|]. unfold span_ok. simpl. lia.
Qed.

Lemma ChunkSpan_new_0 offset : ChunkSpan_new offset 0 = None.
Proof. done. Qed.

(** The piece of a chunk in the span, in plain arithmetic. *)
Lemma piece_eq s c :
  span_ok s -> span_first s <= c <= span_last s ->
  piece s c =
    {| chunk_start := Z.max (span_start s) (c * CHUNK_SIZE) - c * CHUNK_SIZE;
       chunk_end := Z.min (span_end s) (c * CHUNK_SIZE + CHUNK_SIZE) - c * CHUNK_SIZE;
       buf_start := Z.max (span_start s) (c * CHUNK_SIZE) - span_start s;
       buf_end := Z.min (span_end s) (c * CHUNK_SIZE + CHUNK_SIZE) - span_start s |}.
Proof.
  intros (Hs & He & Hf & Hl) Hc. unfold piece.
  assert (0 <= c * CHUNK_SIZE < span_end s) by clia.
  assert (span_start s < c * CHUNK_SIZE + CHUNK_SIZE) by clia.
  assert (0 < CHUNK_SIZE) by clia.
  rewrite (u64_id (c * CHUNK_SIZE)) by lia.
  rewrite (u64_id (c * CHUNK_SIZE + CHUNK_SIZE)) by lia.
  by rewrite !u64_id by lia.
Qed.

(** Bounds of a piece: a non-empty range of the chunk and of the buffer. *)
Lemma piece_bounds s c :
  span_ok s -> span_first s <= c <= span_last s ->
  let p := piece s c in
  0 <= chunk_start p < chunk_end p /\ chunk_end p <= CHUNK_SIZE /\
  0 <= buf_start p < buf_end p /\ buf_end p <= span_end s - span_start s /\
  buf_end p - buf_start p = chunk_end p - chunk_start p /\
  span_start s + buf_start p = c * CHUNK_SIZE + chunk_start p.
Proof.
  intros Hok Hc. rewrite piece_eq by done. destruct Hok as (Hs & He & Hf & Hl). simpl.
  assert (span_start s < c * CHUNK_SIZE + CHUNK_SIZE) by clia.
  assert (c * CHUNK_SIZE < span_end s) by clia.
  assert (0 < CHUNK_SIZE) by clia. lia.
Qed.

(** Byte [i] of the buffer belongs to the piece of the chunk its file position
    falls in. *)
Lemma piece_covers s c i :
  span_ok s -> span_first s <= c <= span_last s ->
  0 <= i < span_end s - span_start s ->
  (span_start s + i) / CHUNK_SIZE = c <->
  buf_start (piece s c) <= i < buf_end (piece s c).
Proof.
  intros Hok Hc Hi. rewrite piece_eq by done. destruct Hok as (Hs & He & Hf & Hl). simpl.
  assert (0 < CHUNK_SIZE) by clia. split; [intros <- | intros]; clia.
Qed.

(** Every byte of the span falls in one of its chunks. *)
Lemma span_chunk_of s i :
  span_ok s -> 0 <= i < span_end s - span_start s ->
  span_first s <= (span_start s + i) / CHUNK_SIZE <= span_last s.
Proof. intros (Hs & He & -> & ->) Hi. split; apply Z.div_le_mono; clia. Qed.

(** [copy_out] never panics for a chunk of the span, and writes exactly the bytes
    of the chunk that the span covers and the chunk holds. *)
Lemma copy_out_spec s c data out :
  span_ok s -> span_first s <= c <= span_last s ->
  zlen out = span_end s - span_start s ->
  exists out', copy_out s c data out = Some out' /\ zlen out' = zlen out /\
    forall i, 0 <= i < zlen out ->
      let pos := span_start s + i in
      zget out' i =
        if decide (pos / CHUNK_SIZE = c /\ pos mod CHUNK_SIZE < zlen data)
        then zget data (pos mod CHUNK_SIZE) else zget out i.
Proof.
  intros Hok Hc Hlen. pose proof (piece_bounds s c Hok Hc) as Hb. cbv zeta in Hb.
  pose proof (fun i => piece_covers s c i Hok Hc) as Hcov.
  assert (0 < CHUNK_SIZE) by clia.
  unfold copy_out. set (p := piece s c) in *.
  assert (forall i, (span_start s + i) / CHUNK_SIZE = c ->
    (span_start s + i) mod CHUNK_SIZE = i - buf_start p + chunk_start p) as Hmod.
  { intros i Hi. pose proof (Z.div_mod (span_start s + i) CHUNK_SIZE). rewrite Hi in *. lia. }
  destruct (Z.leb_spec (Z.min (zlen data) (chunk_end p)) (chunk_start p)).
  - exists out. split; [done|]. split; [done|]. intros i Hi. rewrite decide_False; [done|].
    intros [Hp Hq]. rewrite Hmod in Hq by done. apply Hcov in Hp; lia.
  - set (avail := Z.min (zlen data) (chunk_end p)) in *.
    assert (zlen (sub data (chunk_start p) avail) = avail - chunk_start p) as Hd
      by (apply zlen_sub; lia).
    rewrite slice_Some by lia. cbn [mbind option_bind]. rewrite copy_from_slice_Some by lia.
    eexists. split; [done|]. rewrite zlen_patch by lia.
    split; [done|]. intros i Hi. rewrite zget_patch, Hd by lia.
    destruct (decide ((span_start s + i) / CHUNK_SIZE = c)) as [Hp|Hp].
    + rewrite (Hmod i Hp). pose proof (proj1 (Hcov i ltac:(lia)) Hp).
      repeat case_decide; try lia; [|done].
      rewrite zget_sub by lia. rewrite decide_True by lia. f_equal. lia.
    + pose proof Hp as Hp'. rewrite Hcov in Hp' by lia.
      rewrite decide_False by lia. by rewrite decide_False by tauto.
Qed.

(** ** Several chunks copied into one buffer

    [out] is [out0] with the chunks [rows] copied over it: the shape of a read
    from storage and of the overlay of dirty chunks. *)
Definition overlaid (s : ChunkSpan) (rows : list (Z * list byte)) (out0 out : list byte)
    : Prop :=
  zlen out = zlen out0 /\
  forall i, 0 <= i < zlen out0 ->
    zget out i =
      match assoc rows ((span_start s + i) / CHUNK_SIZE) with
      | Some data =>
          if decide ((span_start s + i) mod CHUNK_SIZE < zlen data)
          then zget data ((span_start s + i) mod CHUNK_SIZE) else zget out0 i
      | None => zget out0 i
      end.

Lemma overlaid_nil s out : overlaid s [] out out.
Proof. done. Qed.

(** One more chunk: [copy_out] succeeds and extends the overlay. *)
Lemma overlaid_step s rows out0 out c data :
  span_ok s -> zlen out0 = span_end s - span_start s ->
  overlaid s rows out0 out -> c ∉ rows.*1 -> span_first s <= c <= span_last s ->
  exists out', copy_out s c data out = Some out' /\ overlaid s (rows ++ [(c, data)]) out0 out'.
Proof.
  intros Hok Hlen [Hl Hout] Hc Hr.
  destruct (copy_out_spec s c data out) as (out' & Hco & Hl' & Hz); [done..|congruence|].
  exists out'. split; [done|]. split; [congruence|]. intros i Hi.
  rewrite Hz by lia. rewrite assoc_snoc, Hout by done.
  destruct (decide ((span_start s + i) / CHUNK_SIZE = c)) as [Heq|Hne].
  - rewrite Heq, (proj2 (assoc_None rows c)) by done.
    rewrite (decide_True (P := c = c)) by done. repeat case_decide; tauto || done.
  - rewrite decide_False by tauto. rewrite (decide_False (P := c = _)) by congruence.
    by destruct (assoc rows _).
Qed.

(** ** What the layout promises *)

(** C39. The keys of chunks: an i64 that fits SQLite, one per chunk of each inode, that gives
    the chunk back, and the range of keys of an inode holds its chunks and no others. *)
Theorem chunk_keys_layout ino c ino' c' :
  valid_ino ino -> valid_chunk c -> valid_ino ino' -> valid_chunk c' ->
  0 <= chunk_key ino c <= I64_MAX /\ chunk_index_of (chunk_key ino c) = c /\
  (chunk_key ino c = chunk_key ino' c' -> ino = ino' /\ c = c') /\
  ((chunk_keys ino).1 <= chunk_key ino' c' <= (chunk_keys ino).2 <-> ino' = ino).
Proof.
  intros Hi Hc Hi' Hc'. split; [|split; [|split]].
  - rewrite chunk_key_eq by done. unfold valid_ino, valid_chunk, I64_MAX in *. chunk_consts. lia.
  - by apply chunk_index_of_key.
  - by apply chunk_key_inj.
  - unfold chunk_keys. cbn [fst snd].
    assert (valid_chunk 0 /\ valid_chunk (MAX_CHUNKS - 1)) as [H0 H1] by (unfold valid_chunk; clia).
    rewrite chunk_key_between by done. unfold valid_chunk in Hc'. split; [tauto|]. intros ->. lia.
Qed.

Lemma chunk_keys_layout_witness : chunk_index_of (chunk_key 5 7) = 7.
Proof. apply (chunk_keys_layout 5 7 5 8); unfold valid_ino, valid_chunk; clia. Defined.

(** The span of a transfer cuts it at the chunk bounds: every byte of the buffer lies
    in the piece of exactly one chunk, inside the chunk, at the position that its place
    in the file says. *)
Theorem span_partition offset len i :
  0 <= offset -> 0 <= i < len -> offset + len <= 2 ^ 64 - CHUNK_SIZE ->
  exists s, ChunkSpan_new offset len = Some s /\
    exists c, span_first s <= c <= span_last s /\
      (forall c', span_first s <= c' <= span_last s ->
         buf_start (piece s c') <= i < buf_end (piece s c') <-> c' = c) /\
      let q := chunk_start (piece s c) + (i - buf_start (piece s c)) in
      chunk_start (piece s c) <= q < chunk_end (piece s c) /\
      chunk_end (piece s c) <= CHUNK_SIZE /\ c * CHUNK_SIZE + q = offset + i.
Proof.
  intros Ho Hi Hend. destruct (ChunkSpan_new_ok offset len) as (s & Hs & Hok & Hst & He); [lia..|].
  exists s. split; [done|]. exists ((span_start s + i) / CHUNK_SIZE).
  pose proof (span_chunk_of s i Hok ltac:(lia)) as Hr. split; [done|].
  assert (forall c', span_first s <= c' <= span_last s ->
    buf_start (piece s c') <= i < buf_end (piece s c') <-> c' = (span_start s + i) / CHUNK_SIZE) as Hcov.
  { intros c' Hc'. rewrite <- (piece_covers s c' i) by (done || lia). done. }
  split; [done|]. cbv zeta. pose proof (proj2 (Hcov _ Hr) eq_refl) as Hin.
  destruct (piece_bounds s _ Hok Hr) as (H1 & H2 & H3 & H4 & H5 & H6). lia.
Qed.

Lemma span_partition_witness :
  exists s, ChunkSpan_new 65530 20 = Some s /\
    exists c, span_first s <= c <= span_last s /\
      c * CHUNK_SIZE + (chunk_start (piece s c) + (10 - buf_start (piece s c))) = 65540.
Proof.
  destruct (span_partition 65530 20 10) as (s & Hs & c & Hc & _ & Hq); [clia..|].
  exists s. split; [done|]. exists c. split; [done|]. apply Hq.
Defined.
