(* ===== verification/Arena.v ===== *)
(** * Arena: memory of buffered chunks (src/arena.rs)

    [ChunkArena] is one byte buffer carved into [CHUNK_SIZE] slots with a free
    list; [DirtyIdx] is the sorted vector of (chunk index, arena slot) of one
    inode. An operation that indexes a vector returns [None] where Rust panics. *)

From S2P Require Import Prelude Chunk.

Abbreviation ArenaSlot := Z.

Record ChunkArena := mkArena {
  a_bytes : list byte;
  a_len : list Z;
  a_free : list ArenaSlot;
  a_max_slots : Z }.

Definition ChunkArena_new (budget : Z) : ChunkArena :=
  {| a_bytes := []; a_len := []; a_free := [];
     a_max_slots := Z.max (budget / CHUNK_SIZE) 1 |}.

Definition with_len (ar : ChunkArena) (len : list Z) : ChunkArena :=
  mkArena (a_bytes ar) len (a_free ar) (a_max_slots ar).
Definition with_bytes (ar : ChunkArena) (bytes : list byte) : ChunkArena :=
  mkArena bytes (a_len ar) (a_free ar) (a_max_slots ar).

Definition arena_alloc (ar : ChunkArena) : option (option ArenaSlot * ChunkArena) :=
  let found :=
    match vec_pop (a_free ar) with
    | Some (slot, free) => Some (slot, mkArena (a_bytes ar) (a_len ar) free (a_max_slots ar))
    | None =>
        if zlen (a_len ar) <? a_max_slots ar then
          let len := a_len ar ++ [0] in
          Some (u32 (zlen len - 1),
                mkArena (extend (a_bytes ar) (zlen (a_bytes ar) + CHUNK_SIZE) x00)
                  len (a_free ar) (a_max_slots ar))
        else None
    end in
  match found with
  | None => Some (None, ar)
  | Some (slot, ar') =>
      len ← vset (a_len ar') slot 0;
      Some (Some slot, with_len ar' len)
  end.

Definition arena_release (ar : ChunkArena) (slot : ArenaSlot) : ChunkArena :=
  mkArena (a_bytes ar) (a_len ar) (a_free ar ++ [slot]) (a_max_slots ar).

Definition arena_chunk (ar : ChunkArena) (slot : ArenaSlot) : option (list byte) :=
  let start := slot * CHUNK_SIZE in
  len ← vget (a_len ar) slot;
  slice (a_bytes ar) start (start + len).

(** [buffer_mut] lends the whole slot; [store_buffer] is the state after the
    borrower has filled it. *)
Definition arena_buffer (ar : ChunkArena) (slot : ArenaSlot) : option (list byte) :=
  let start := slot * CHUNK_SIZE in
  slice (a_bytes ar) start (start + CHUNK_SIZE).

Definition arena_store_buffer (ar : ChunkArena) (slot : ArenaSlot) (buffer : list byte)
    : option ChunkArena :=
  let start := slot * CHUNK_SIZE in
  bytes ← copy_from_slice (a_bytes ar) start (start + CHUNK_SIZE) buffer;
  Some (with_bytes ar bytes).

Definition arena_set_len (ar : ChunkArena) (slot : ArenaSlot) (len : Z) : option ChunkArena :=
  lens ← vset (a_len ar) slot (u32 len);
  Some (with_len ar lens).

(** [range] is [range_start..range_end]; the gap between the old end of the slot
    and [range_start] is zeroed. *)
Definition arena_write (ar : ChunkArena) (slot : ArenaSlot) (range_start range_end : Z)
    (data : list byte) : option ChunkArena :=
  let base := slot * CHUNK_SIZE in
  len ← vget (a_len ar) slot;
  bytes ← (if len <? range_start
           then copy_from_slice (a_bytes ar) (base + len) (base + range_start)
                  (zeros x00 (range_start - len))
           else Some (a_bytes ar));
  bytes ← copy_from_slice bytes (base + range_start) (base + range_end) data;
  lens ← vset (a_len ar) slot (u32 (Z.max len range_end));
  Some (with_len (with_bytes ar bytes) lens).

(** ** Dirty chunks of one inode *)

Abbreviation DirtyIdx := (list (Z * ArenaSlot)).

(** [inl] is [Ok(position)], [inr] is [Err(insert position)]. The last entry is
    tried before the binary search. *)
Definition dirty_find (d : DirtyIdx) (chunk_index : Z) : nat + nat :=
  match last d with
  | None => inr O
  | Some (l, _) =>
      if l =? chunk_index then inl (length d - 1)%nat
      else if l <? chunk_index then inr (length d)
      else binary_search_by d (fun e => Z.compare e.1 chunk_index)
  end.

Definition dirty_slot_at (d : DirtyIdx) (position : nat) : option ArenaSlot :=
  snd <$> d !! position.

(** [Vec::insert] panics when the position is past the end. *)
Definition dirty_insert (d : DirtyIdx) (position : nat) (chunk_index : Z) (slot : ArenaSlot)
    : option DirtyIdx :=
  if decide (position <= length d)%nat
  then Some (take position d ++ (chunk_index, slot) :: drop position d)
  else None.

Definition dirty_range (d : DirtyIdx) (first last : Z) : option DirtyIdx :=
  let s := partition_point d (fun e => e.1 <? first) in
  let e := partition_point d (fun e => e.1 <=? last) in
  if decide (s <= e)%nat then Some (take (e - s) (drop s d)) else None.

Definition dirty_release_into (d : DirtyIdx) (ar : ChunkArena) : DirtyIdx * ChunkArena :=
  ([], foldl (fun ar e => arena_release ar e.2) ar d).

(** ** Invariant of the arena *)

Record arena_wf (ar : ChunkArena) : Prop := {
  aw_bytes : zlen (a_bytes ar) = zlen (a_len ar) * CHUNK_SIZE;
  aw_len : Forall (fun n => 0 <= n <= CHUNK_SIZE) (a_len ar);
  aw_free : Forall (fun s => 0 <= s < zlen (a_len ar)) (a_free ar);
  aw_nodup : NoDup (a_free ar);
  aw_max : zlen (a_len ar) <= a_max_slots ar;
  aw_pos : 1 <= a_max_slots ar <= 2 ^ 32 }.

(** A slot handed out and not yet returned. *)
Definition in_use (ar : ChunkArena) (s : ArenaSlot) : Prop :=
  0 <= s < zlen (a_len ar) /\ s ∉ a_free ar.

(** Valid bytes of a slot. *)
Definition slot_len (ar : ChunkArena) (s : ArenaSlot) : Z := default 0 (vget (a_len ar) s).
Definition slot_data (ar : ChunkArena) (s : ArenaSlot) : list byte :=
  sub (a_bytes ar) (s * CHUNK_SIZE) (s * CHUNK_SIZE + slot_len ar s).

#[global] Arguments arena_write : simpl never.
#[global] Arguments arena_alloc : simpl never.

Section arena.
Implicit Types (ar : ChunkArena) (s t : ArenaSlot).

Lemma ChunkArena_new_wf budget : budget < 2 ^ 48 -> arena_wf (ChunkArena_new budget).
Proof.
  intros. split; simpl; rewrite ?zlen_nil; try done; try constructor; clia.
Qed.

Lemma slot_len_get ar s :
  0 <= s < zlen (a_len ar) -> vget (a_len ar) s = Some (slot_len ar s).
Proof. intros Hs. unfold slot_len. by destruct (vget_is_Some _ _ Hs) as [x ->]. Qed.

Lemma slot_len_range ar s : arena_wf ar -> 0 <= slot_len ar s <= CHUNK_SIZE.
Proof.
  intros Hwf. unfold slot_len. destruct (vget (a_len ar) s) as [n|] eqn:Hn.
  - unfold vget in Hn. case_decide; [|done].
    eapply (Forall_lookup_1 _ _ _ _ (aw_len _ Hwf)) in Hn. done.
  - simpl. clia.
Qed.

(** A slot lies inside the buffer. *)
Lemma slot_bounds ar s :
  arena_wf ar -> 0 <= s < zlen (a_len ar) ->
  0 <= s * CHUNK_SIZE /\ s * CHUNK_SIZE + CHUNK_SIZE <= zlen (a_bytes ar).
Proof. intros Hwf Hs. rewrite (aw_bytes _ Hwf). clia. Qed.

Lemma zlen_slot_data ar s :
  arena_wf ar -> 0 <= s < zlen (a_len ar) -> zlen (slot_data ar s) = slot_len ar s.
Proof.
  intros Hwf Hs. pose proof (slot_bounds ar s Hwf Hs). pose proof (slot_len_range ar s Hwf).
  unfold slot_data. rewrite zlen_sub; lia.
Qed.

Lemma arena_chunk_data ar s :
  arena_wf ar -> 0 <= s < zlen (a_len ar) -> arena_chunk ar s = Some (slot_data ar s).
Proof.
  intros Hwf Hs. pose proof (slot_bounds ar s Hwf Hs). pose proof (slot_len_range ar s Hwf).
  unfold arena_chunk. rewrite slot_len_get by done. cbn [mbind option_bind].
  rewrite slice_Some by lia. done.
Qed.

Lemma zget_slot_data ar s i :
  arena_wf ar -> 0 <= s < zlen (a_len ar) -> 0 <= i ->
  zget (slot_data ar s) i =
    if decide (i < slot_len ar s) then zget (a_bytes ar) (s * CHUNK_SIZE + i) else x00.
Proof.
  intros Hwf Hs Hi. pose proof (slot_bounds ar s Hwf Hs).
  unfold slot_data. rewrite zget_sub by lia. repeat case_decide; try lia; done.
Qed.

(** Two arenas that agree on the bytes and the length of a slot agree on it. *)
Lemma slot_data_ext ar ar' s :
  arena_wf ar -> arena_wf ar' -> 0 <= s < zlen (a_len ar) -> 0 <= s < zlen (a_len ar') ->
  slot_len ar' s = slot_len ar s ->
  (forall i, s * CHUNK_SIZE <= i < s * CHUNK_SIZE + CHUNK_SIZE ->
     zget (a_bytes ar') i = zget (a_bytes ar) i) ->
  slot_data ar' s = slot_data ar s.
Proof.
  intros Hwf Hwf' Hs Hs' Hl Hb. pose proof (slot_len_range ar s Hwf).
  apply zlist_eq; rewrite !zlen_slot_data by done; [done|].
  intros i Hi. rewrite !zget_slot_data by (done || lia). rewrite Hl.
  case_decide; [apply Hb; lia | done].
Qed.

(** How an operation on slot [s] leaves the other slots alone. *)
Definition others_kept ar ar' s : Prop :=
  forall t, in_use ar t -> t <> s -> slot_data ar' t = slot_data ar t.

Lemma vget_replace (l : list Z) s n t :
  0 <= s < zlen l -> 0 <= t ->
  default 0 (vget (<[Z.to_nat s := n]> l) t) =
    if decide (s = t) then n else default 0 (vget l t).
Proof. intros. rewrite vget_insert by done. by case_decide. Qed.

Lemma arena_wf_set_len ar s n :
  arena_wf ar -> 0 <= n <= CHUNK_SIZE -> arena_wf (with_len ar (<[Z.to_nat s := n]> (a_len ar))).
Proof.
  intros [] Hn. split; simpl; rewrite ?zlen_insert; try done. by apply Forall_insert.
Qed.

Lemma arena_wf_bytes ar bytes :
  arena_wf ar -> zlen bytes = zlen (a_bytes ar) -> arena_wf (with_bytes ar bytes).
Proof. intros [] Hn. split; simpl; try done. congruence. Qed.

(** Returning a slot to the free list. *)
Lemma arena_release_spec ar s :
  arena_wf ar -> in_use ar s ->
  let ar' := arena_release ar s in
  arena_wf ar' /\ (forall t, in_use ar' t <-> in_use ar t /\ t <> s) /\
  (forall t, slot_data ar' t = slot_data ar t) /\ (forall t, slot_len ar' t = slot_len ar t).
Proof.
  intros [] [Hs Hfree]. split_and!; try done.
  - split; simpl; try done.
    + rewrite Forall_app. auto.
    + apply NoDup_app. split_and!; [done| |apply NoDup_singleton].
      intros t Ht ->%list_elem_of_singleton. done.
  - intros t. unfold in_use. simpl. rewrite elem_of_app, list_elem_of_singleton. tauto.
Qed.

(** The slot that [alloc] takes from the free list. *)
Lemma alloc_reuse_spec ar free s :
  arena_wf ar -> a_free ar = free ++ [s] ->
  let ar' := mkArena (a_bytes ar) (<[Z.to_nat s := 0]> (a_len ar)) free (a_max_slots ar) in
  arena_wf ar' /\ in_use ar' s /\ ~ in_use ar s /\ slot_data ar' s = [] /\
  (forall t, t <> s -> in_use ar' t <-> in_use ar t) /\ others_kept ar ar' s.
Proof.
  intros Hwf Hfree ar'. pose proof Hwf as [Hb Hl Hf Hnd Hm Hp].
  rewrite Hfree in Hf, Hnd. apply Forall_app in Hf as [Hf [Hs _]%Forall_cons].
  apply NoDup_app in Hnd as (Hnd & Hnot & _).
  assert (s ∉ free) as Hsf by (intros Hs'; apply (Hnot _ Hs'); set_solver).
  assert (arena_wf ar') as Hwf'.
  { split; simpl; rewrite ?zlen_insert; try done. apply Forall_insert; [done | clia]. }
  assert (forall t, t <> s -> in_use ar' t <-> in_use ar t) as Hiff.
  { intros t Ht. unfold in_use. simpl. rewrite zlen_insert, Hfree. set_solver. }
  split_and!; [done | | | | done | ].
  - split; simpl.
    + by rewrite zlen_insert.
    + done.
  - intros [_ Hin]. rewrite Hfree in Hin. set_solver.
  - apply zlen_0_inv. rewrite zlen_slot_data; simpl; [|done|by rewrite zlen_insert].
    unfold slot_len. simpl. rewrite vget_replace by lia. by rewrite decide_True.
  - intros t [Ht _] Hts. apply slot_data_ext; simpl; try done.
    + by rewrite zlen_insert.
    + unfold slot_len. simpl. rewrite vget_replace by lia. by rewrite decide_False.
Qed.

(** A fresh slot at the end of a grown buffer. *)
Lemma alloc_grow_spec ar :
  arena_wf ar -> zlen (a_len ar) < a_max_slots ar ->
  let s := zlen (a_len ar) in
  let ar' := mkArena (extend (a_bytes ar) (zlen (a_bytes ar) + CHUNK_SIZE) x00)
               (a_len ar ++ [0]) (a_free ar) (a_max_slots ar) in
  arena_wf ar' /\ in_use ar' s /\ ~ in_use ar s /\ slot_data ar' s = [] /\
  (forall t, t <> s -> in_use ar' t <-> in_use ar t) /\ others_kept ar ar' s.
Proof.
  intros Hwf Hmax s ar'. pose proof Hwf as [Hb Hl Hf Hnd Hm Hp].
  assert (0 < CHUNK_SIZE) by clia. pose proof (zlen_nonneg (a_len ar)).
  assert (zlen (a_len ar') = s + 1) as Hlen by (simpl; by rewrite zlen_snoc).
  assert (forall t, slot_len ar' t = slot_len ar t) as Hsl.
  { intros t. unfold slot_len, ar'. simpl. unfold vget. case_decide; [|done].
    destruct (decide (Z.to_nat t < length (a_len ar))%nat).
    - by rewrite lookup_app_l.
    - rewrite lookup_app_r by lia. rewrite (lookup_ge_None_2 (a_len ar)) by lia.
      by destruct (Z.to_nat t - length (a_len ar))%nat. }
  assert (arena_wf ar') as Hwf'.
  { split; simpl; rewrite ?zlen_snoc, ?zlen_extend; try done; try lia.
    - apply Forall_app. split; [done|]. repeat constructor; lia.
    - eapply Forall_impl; [done|]. simpl. lia. }
  split_and!; [done | | | | | ].
  - split; [lia|]. simpl. intros Hin. eapply Forall_forall in Hf; [|done]. simpl in Hf. lia.
  - intros [? _]. lia.
  - apply zlen_0_inv. rewrite zlen_slot_data by (done || lia). rewrite Hsl.
    unfold slot_len. by rewrite vget_None by lia.
  - intros t Ht. unfold in_use. rewrite Hlen. simpl. split; intros []; split; try done; lia.
  - intros t [Ht _] Hts. apply slot_data_ext; try done; [lia | ].
    intros i Hi. simpl. rewrite zget_extend by lia. rewrite decide_False; [done|].
    rewrite Hb. intros []. clia.
Qed.

(** [alloc] never panics. It hands out an empty slot that was not in use, or
    nothing exactly when every slot of the budget is in use. *)
Lemma arena_alloc_spec ar :
  arena_wf ar ->
  match arena_alloc ar with
  | Some (Some s, ar') =>
      arena_wf ar' /\ in_use ar' s /\ ~ in_use ar s /\ slot_data ar' s = [] /\
      (forall t, t <> s -> in_use ar' t <-> in_use ar t) /\ others_kept ar ar' s
  | Some (None, ar') =>
      ar' = ar /\ zlen (a_len ar) = a_max_slots ar /\
      (forall t, 0 <= t < zlen (a_len ar) -> in_use ar t)
  | None => False
  end.
Proof.
  intros Hwf. unfold arena_alloc. destruct (vec_pop (a_free ar)) as [[s free]|] eqn:Hpop.
  - apply vec_pop_Some in Hpop. pose proof (aw_free _ Hwf) as Hf.
    rewrite Hpop in Hf. apply Forall_app in Hf as [_ [Hs _]%Forall_cons].
    simpl. rewrite vset_Some by done. exact (alloc_reuse_spec ar free s Hwf Hpop).
  - apply vec_pop_None in Hpop.
    destruct (Z.ltb_spec (zlen (a_len ar)) (a_max_slots ar)) as [Hlt|Hge].
    + pose proof (aw_pos _ Hwf). pose proof (zlen_nonneg (a_len ar)).
      cbn [a_len]. rewrite zlen_snoc, Z.add_simpl_r.
      rewrite u32_id by lia.
      rewrite vset_Some by (rewrite zlen_snoc; lia).
      cbn [mbind option_bind]. unfold with_len. cbn [a_bytes a_free a_max_slots].
      rewrite list_insert_id
        by (unfold zlen; rewrite Nat2Z.id; by apply list_lookup_middle).
      exact (alloc_grow_spec ar Hwf Hlt).
    + pose proof (aw_max _ Hwf). split; [done|]. split; [lia|].
      intros t Ht. split; [done|]. rewrite Hpop. set_solver.
Qed.

(** What an update of slot [s] in place keeps. *)
Definition same_slots ar ar' : Prop :=
  zlen (a_len ar') = zlen (a_len ar) /\ a_free ar' = a_free ar /\
  a_max_slots ar' = a_max_slots ar.

Lemma same_slots_in_use ar ar' t : same_slots ar ar' -> in_use ar' t <-> in_use ar t.
Proof. intros (Hl & Hf & _). unfold in_use. by rewrite Hl, Hf. Qed.

(** An update confined to the bytes of slot [s]. *)
Lemma slot_update_spec ar s bytes n :
  arena_wf ar -> 0 <= s < zlen (a_len ar) -> 0 <= n <= CHUNK_SIZE ->
  zlen bytes = zlen (a_bytes ar) ->
  (forall i, ~ (s * CHUNK_SIZE <= i < s * CHUNK_SIZE + CHUNK_SIZE) ->
     zget bytes i = zget (a_bytes ar) i) ->
  let ar' := with_len (with_bytes ar bytes) (<[Z.to_nat s := n]> (a_len ar)) in
  arena_wf ar' /\ same_slots ar ar' /\ slot_len ar' s = n /\
  (forall t, 0 <= t < zlen (a_len ar) -> t <> s -> slot_data ar' t = slot_data ar t).
Proof.
  intros Hwf Hs Hn Hlen Hb ar'.
  assert (arena_wf ar') as Hwf' by (apply (arena_wf_set_len (with_bytes ar bytes)); [by apply arena_wf_bytes|done]).
  split; [done|]. split; [split_and!; simpl; by rewrite ?zlen_insert|].
  assert (forall t, 0 <= t -> slot_len ar' t = if decide (s = t) then n else slot_len ar t)
    as Hsl by (intros; by apply vget_replace).
  split; [rewrite Hsl by lia; by rewrite decide_True|].
  intros t Ht Hts. apply slot_data_ext; try done.
  - simpl. by rewrite zlen_insert.
  - rewrite Hsl by lia. by rewrite decide_False.
  - intros i Hi. apply Hb. intros ?. apply Hts. clia.
Qed.

(** The bytes of the buffer after [write] has zeroed the gap and copied. *)
Lemma write_bytes ar s range_start range_end data :
  arena_wf ar -> 0 <= s < zlen (a_len ar) ->
  0 <= range_start <= range_end -> range_end <= CHUNK_SIZE ->
  zlen data = range_end - range_start ->
  let base := s * CHUNK_SIZE in
  let len := slot_len ar s in
  exists filled bytes,
    (if len <? range_start
     then copy_from_slice (a_bytes ar) (base + len) (base + range_start)
            (zeros x00 (range_start - len))
     else Some (a_bytes ar)) = Some filled /\
    copy_from_slice filled (base + range_start) (base + range_end) data = Some bytes /\
    zlen bytes = zlen (a_bytes ar) /\
    forall i, zget bytes i =
      if decide (base + range_start <= i < base + range_end)
      then zget data (i - (base + range_start))
      else if decide (base + len <= i < base + range_start) then x00
      else zget (a_bytes ar) i.
Proof.
  intros Hwf Hs Hr He Hd base len. pose proof (slot_bounds ar s Hwf Hs).
  pose proof (slot_len_range ar s Hwf). subst base len.
  set (base := s * CHUNK_SIZE) in *. set (len := slot_len ar s) in *.
  destruct (Z.ltb_spec len range_start) as [Hlt|Hge].
  - assert (zlen (zeros x00 (range_start - len)) = range_start - len) by (apply zlen_zeros; lia).
    rewrite copy_from_slice_Some by lia. do 2 eexists. split; [done|].
    rewrite copy_from_slice_Some by (rewrite ?zlen_patch; lia). split; [done|].
    rewrite !zlen_patch by (rewrite ?zlen_patch; lia). split; [done|].
    intros i. rewrite !zget_patch by (rewrite ?zlen_patch; lia). rewrite zget_zeros.
    repeat case_decide; try lia; try done.
  - do 2 eexists. split; [done|]. rewrite copy_from_slice_Some by lia. split; [done|].
    rewrite zlen_patch by lia. split; [done|]. intros i. rewrite zget_patch by lia.
    repeat case_decide; try lia; done.
Qed.

(** [write] never panics on a range inside the chunk: the slot then holds the
    data at its range, the old bytes elsewhere, and zeros in between. *)
Lemma arena_write_spec ar s range_start range_end data :
  arena_wf ar -> 0 <= s < zlen (a_len ar) ->
  0 <= range_start <= range_end -> range_end <= CHUNK_SIZE ->
  zlen data = range_end - range_start ->
  exists ar', arena_write ar s range_start range_end data = Some ar' /\
    arena_wf ar' /\ same_slots ar ar' /\ slot_len ar' s = Z.max (slot_len ar s) range_end /\
    (forall t, 0 <= t < zlen (a_len ar) -> t <> s -> slot_data ar' t = slot_data ar t) /\
    (forall i, 0 <= i -> zget (slot_data ar' s) i =
       if decide (range_start <= i < range_end) then zget data (i - range_start)
       else zget (slot_data ar s) i).
Proof.
  intros Hwf Hs Hr He Hd. pose proof (slot_len_range ar s Hwf).
  destruct (write_bytes ar s range_start range_end data) as (filled & bytes & Hf & Hc & Hlen & Hb);
    [done..|]. cbv zeta in Hf, Hc, Hb.
  unfold arena_write. rewrite slot_len_get by done. cbn [mbind option_bind].
  rewrite Hf. cbn [mbind option_bind]. rewrite Hc. cbn [mbind option_bind].
  rewrite u32_id by clia. rewrite vset_Some by done. cbn [mbind option_bind].
  destruct (slot_update_spec ar s bytes (Z.max (slot_len ar s) range_end))
    as (Hwf' & Hsame & Hl & Hother); [done..| lia | done | | ].
  { intros i Hi. rewrite Hb. repeat case_decide; try lia; done. }
  eexists. split; [done|]. split; [done|]. split; [done|]. split; [done|]. split; [done|].
  intros i Hi. rewrite !zget_slot_data by (try done; by rewrite (proj1 Hsame)).
  rewrite Hl. cbn [a_bytes with_len with_bytes]. rewrite Hb.
  repeat case_decide; try lia; try done. f_equal. lia.
Qed.

(** A slot filled from storage: [buffer_mut], then [set_len]. *)
Lemma arena_fill_spec ar s buffer len :
  arena_wf ar -> 0 <= s < zlen (a_len ar) -> zlen buffer = CHUNK_SIZE ->
  0 <= len <= CHUNK_SIZE ->
  exists ar1 ar', arena_store_buffer ar s buffer = Some ar1 /\
    arena_set_len ar1 s len = Some ar' /\
    arena_wf ar' /\ same_slots ar ar' /\ slot_len ar' s = len /\
    (forall t, 0 <= t < zlen (a_len ar) -> t <> s -> slot_data ar' t = slot_data ar t) /\
    slot_data ar' s = sub buffer 0 len.
Proof.
  intros Hwf Hs Hb Hlen. pose proof (slot_bounds ar s Hwf Hs).
  set (bytes := patch (a_bytes ar) (s * CHUNK_SIZE) buffer).
  assert (forall i, zget bytes i =
    if decide (s * CHUNK_SIZE <= i < s * CHUNK_SIZE + CHUNK_SIZE)
    then zget buffer (i - s * CHUNK_SIZE) else zget (a_bytes ar) i) as Hz.
  { intros i. subst bytes. rewrite zget_patch by lia. by rewrite Hb. }
  unfold arena_store_buffer. rewrite copy_from_slice_Some by lia. fold bytes.
  cbn [mbind option_bind]. exists (with_bytes ar bytes). unfold arena_set_len.
  cbn [a_len with_bytes].
  rewrite u32_id by clia. rewrite vset_Some by done. cbn [mbind option_bind].
  eexists. split; [done|]. split; [done|].
  assert (zlen bytes = zlen (a_bytes ar)) by (subst bytes; rewrite zlen_patch; lia).
  destruct (slot_update_spec ar s bytes len) as (Hwf' & Hsame & Hl & Hother); [done..| | ].
  { intros i Hi. rewrite Hz. by rewrite decide_False. }
  split; [done|]. split; [done|]. split; [done|]. split; [done|].
  assert (0 <= s < zlen (a_len (with_len (with_bytes ar bytes) (<[Z.to_nat s:=len]> (a_len ar)))))
    by (simpl; by rewrite zlen_insert).
  apply zlist_eq; rewrite zlen_slot_data by done; rewrite Hl; [rewrite zlen_sub; lia|].
  intros i Hi. rewrite zget_slot_data by (done || lia). rewrite Hl, decide_True by lia.
  rewrite zget_sub, decide_True by lia. cbn [a_bytes with_len with_bytes].
  rewrite Hz, decide_True by lia. f_equal. lia.
Qed.
End arena.

(** ** The dirty index *)

(** Strictly increasing chunk indexes. *)
Definition dirty_sorted (d : DirtyIdx) : Prop := StronglySorted Z.lt d.*1.

(** Reference lookup: a linear scan. *)
Definition dirty_lookup (d : DirtyIdx) (chunk_index : Z) : option ArenaSlot :=
  assoc d chunk_index.

Section dirty.
Implicit Types (d : DirtyIdx) (c : Z) (a : ArenaSlot).

Lemma dirty_sorted_nodup d : dirty_sorted d -> NoDup d.*1.
Proof.
  unfold dirty_sorted. generalize d.*1. induction 1 as [|x l Hl IH Hx]; constructor; [|done].
  intros Hin. rewrite Forall_forall in Hx. apply Hx in Hin. lia.
Qed.

Lemma dirty_lookup_Some d c a :
  dirty_sorted d -> dirty_lookup d c = Some a <-> (c, a) ∈ d.
Proof. intros Hs%dirty_sorted_nodup. by apply assoc_Some. Qed.

Lemma dirty_lookup_None d c : dirty_lookup d c = None <-> c ∉ d.*1.
Proof. apply assoc_None. Qed.

Lemma dirty_sorted_app d1 d2 :
  dirty_sorted (d1 ++ d2) <->
  dirty_sorted d1 /\ dirty_sorted d2 /\
  (forall e1 e2, e1 ∈ d1 -> e2 ∈ d2 -> e1.1 < e2.1).
Proof.
  unfold dirty_sorted. rewrite fmap_app, StronglySorted_app.
  setoid_rewrite list_elem_of_fmap. naive_solver.
Qed.

Lemma dirty_sorted_lookup d i j x y :
  dirty_sorted d -> d !! i = Some x -> d !! j = Some y -> (i < j)%nat -> x.1 < y.1.
Proof.
  intros Hs Hx Hy Hij. rewrite <- (take_drop j d) in Hs.
  apply dirty_sorted_app in Hs as (_ & _ & Hs). apply Hs.
  - apply list_elem_of_lookup. exists i. by rewrite lookup_take_lt.
  - apply list_elem_of_lookup. exists O. rewrite lookup_drop, <- Hy. f_equal. lia.
Qed.

(** The search finds the entry of a chunk, or the position that keeps the index
    sorted. *)
Lemma dirty_find_spec d c :
  dirty_sorted d ->
  match dirty_find d c with
  | inl i => exists a, d !! i = Some (c, a) /\ dirty_lookup d c = Some a
  | inr i => (i <= length d)%nat /\ dirty_lookup d c = None /\
      (forall e, e ∈ take i d -> e.1 < c) /\ (forall e, e ∈ drop i d -> c < e.1)
  end.
Proof.
  intros Hs.
  assert (forall i, match d !! i with
      | Some (c', a) => c' = c -> dirty_lookup d c = Some a | None => True end) as Hin.
  { intros i. destruct (d !! i) as [[c' a]|] eqn:Hi; [|done]. intros ->.
    apply dirty_lookup_Some; [done|]. by eapply list_elem_of_lookup_2. }
  assert (forall i, (forall e, e ∈ take i d -> e.1 < c) -> (forall e, e ∈ drop i d -> c < e.1) ->
    dirty_lookup d c = None) as Hnone.
  { intros i Hlt Hgt. apply dirty_lookup_None. rewrite <- (take_drop i d), fmap_app.
    rewrite not_elem_of_app, !list_elem_of_fmap. split; intros ([c' a] & -> & He).
    - apply Hlt in He. simpl in He. lia.
    - apply Hgt in He. simpl in He. lia. }
  unfold dirty_find. destruct (last d) as [[l al]|] eqn:Hlast.
  - rewrite last_lookup in Hlast. pose proof (lookup_lt_Some _ _ _ Hlast).
    destruct (Z.eqb_spec l c) as [->|Hne]; [|destruct (Z.ltb_spec l c) as [Hlt|Hge]].
    + exists al. split; [rewrite <- Hlast; f_equal; lia|].
      specialize (Hin (pred (length d))). rewrite Hlast in Hin. auto.
    + rewrite take_ge, drop_ge by lia. assert (forall e, e ∈ d -> e.1 < c) as Hall.
      { intros e [i Hi]%list_elem_of_lookup. pose proof (lookup_lt_Some _ _ _ Hi).
        destruct (decide (i = pred (length d))) as [->|]; [by simplify_eq|].
        apply (dirty_sorted_lookup d i _ _ _ Hs Hi) in Hlast; [simpl in *; lia | lia]. }
      split; [done|]. split; [|split; [done | set_solver]].
      apply (Hnone (length d)); rewrite ?take_ge, ?drop_ge by lia; set_solver.
    + pose proof (binary_search_by_spec d (fun e => e.1 ?= c)) as Hsearch.
      destruct (binary_search_by d _) as [i|i]; simpl in Hsearch.
      * destruct Hsearch as ([c' a] & Hi & Heq);
          [|simpl in Heq; apply Z.compare_eq in Heq as ->; exists a; split; [done|]].
        -- intros i' j x y Hx Hy Hij. pose proof (dirty_sorted_lookup _ _ _ _ _ Hs Hx Hy Hij).
           rewrite !Z.compare_lt_iff, !Z.compare_gt_iff. lia.
        -- specialize (Hin i). rewrite Hi in Hin. auto.
      * destruct Hsearch as (Hi & Hlt & Hgt).
        -- intros i' j x y Hx Hy Hij. pose proof (dirty_sorted_lookup _ _ _ _ _ Hs Hx Hy Hij).
           rewrite !Z.compare_lt_iff, !Z.compare_gt_iff. lia.
        -- assert (forall e, e ∈ take i d -> e.1 < c) as H1.
           { intros e [j [Hj Hji]%lookup_take_Some]%list_elem_of_lookup.
             apply Z.compare_lt_iff. by eapply Hlt. }
           assert (forall e, e ∈ drop i d -> c < e.1) as H2.
           { intros e [j Hj]%list_elem_of_lookup. rewrite lookup_drop in Hj.
             apply Z.compare_gt_iff. eapply Hgt; [|done]. lia. }
           split; [done|]. split; [by apply (Hnone i)|done].
  - apply last_None in Hlast. subst d. split; [done|]. split; [done|]. split; set_solver.
Qed.

Lemma dirty_insert_spec d i c a :
  dirty_sorted d -> (i <= length d)%nat ->
  (forall e, e ∈ take i d -> e.1 < c) -> (forall e, e ∈ drop i d -> c < e.1) ->
  exists d', dirty_insert d i c a = Some d' /\ dirty_sorted d' /\
    d' ≡ₚ (c, a) :: d /\
    (forall c', dirty_lookup d' c' = if decide (c' = c) then Some a else dirty_lookup d c').
Proof.
  intros Hs Hi Hlt Hgt. unfold dirty_insert. rewrite decide_True by done.
  eexists. split; [done|].
  assert (d ≡ₚ take i d ++ drop i d) as Hperm by (by rewrite take_drop).
  assert (dirty_sorted (take i d ++ (c, a) :: drop i d)) as Hs'.
  { pose proof Hs as Hsd. rewrite <- (take_drop i d) in Hsd.
    apply dirty_sorted_app in Hsd as (H1 & H2 & H3). apply dirty_sorted_app.
    split; [done|]. split.
    - unfold dirty_sorted. simpl. constructor; [done|]. apply Forall_forall.
      intros c' (e & -> & He)%list_elem_of_fmap. by apply Hgt.
    - intros e1 e2 He1 [->|He2]%elem_of_cons; [by apply Hlt | by apply H3]. }
  assert (take i d ++ (c, a) :: drop i d ≡ₚ (c, a) :: d) as Hp.
  { rewrite <- Permutation_middle. by rewrite take_drop. }
  split; [done|]. split; [done|]. intros c'. apply option_eq. intros a'.
  rewrite (dirty_lookup_Some _ c' a' Hs'), Hp, elem_of_cons.
  case_decide as Hc; subst.
  - split; [|intros; simplify_eq; by left]. intros [?|Hin]; [by simplify_eq|].
    rewrite <- (take_drop i d), elem_of_app in Hin.
    destruct Hin as [Hin|Hin]; [apply Hlt in Hin | apply Hgt in Hin]; simpl in Hin; lia.
  - rewrite (dirty_lookup_Some _ _ _ Hs). naive_solver.
Qed.

(** Entries with chunk index in [first..=last], by a linear scan. *)
Lemma dirty_range_spec d first last :
  dirty_sorted d -> first <= last ->
  dirty_range d first last = Some (filter (fun e => first <= e.1 <= last) d).
Proof.
  intros Hs Hfl. unfold dirty_range.
  destruct (partition_point_spec d (fun e => e.1 <? first)) as (Hb1 & H1 & H2).
  { intros i j x y Hx Hy Hij Hp. pose proof (dirty_sorted_lookup _ _ _ _ _ Hs Hx Hy Hij). lia. }
  destruct (partition_point_spec d (fun e => e.1 <=? last)) as (Hb2 & H3 & H4).
  { intros i j x y Hx Hy Hij Hp. pose proof (dirty_sorted_lookup _ _ _ _ _ Hs Hx Hy Hij). lia. }
  set (s := partition_point d (fun e => e.1 <? first)) in *.
  set (e := partition_point d (fun e => e.1 <=? last)) in *.
  assert (s <= e)%nat as Hse.
  { apply Nat.nlt_ge. intros Hes. destruct (lookup_lt_is_Some_2 d e) as [x Hx]; [lia|].
    eapply (Forall_lookup_1 _ _ e) in H1; [|by rewrite lookup_take_lt].
    eapply (Forall_lookup_1 _ _ O) in H4; [|by rewrite lookup_drop, Nat.add_0_r]. lia. }
  rewrite decide_True by done. f_equal.
  rewrite <- (take_drop s d) at 2. rewrite <- (take_drop (e - s) (drop s d)) at 2.
  rewrite !filter_app, drop_drop. replace (s + (e - s))%nat with e by lia.
  rewrite (filter_none _ (take s d)), (filter_none _ (drop e d)), app_nil_r.
  - simpl. symmetry. apply filter_all. apply Forall_forall. intros x Hx.
    apply list_elem_of_lookup in Hx as [i [Hx Hi]%lookup_take_Some].
    pose proof Hx as Hx'. rewrite lookup_drop in Hx'.
    eapply (Forall_lookup_1 _ _ i) in H2; [|exact Hx].
    eapply (Forall_lookup_1 _ _ (s + i)) in H3; [|rewrite lookup_take_lt by lia; exact Hx'].
    simpl in *. lia.
  - eapply Forall_impl; [done|]. simpl. intros x Hx. lia.
  - eapply Forall_impl; [done|]. simpl. intros x Hx. lia.
Qed.
End dirty.

(** Returning every slot of an index. *)
Lemma dirty_release_into_spec (d : DirtyIdx) (ar : ChunkArena) :
  arena_wf ar -> NoDup d.*2 -> (forall a, a ∈ d.*2 -> in_use ar a) ->
  let ar' := (dirty_release_into d ar).2 in
  arena_wf ar' /\ (forall t, in_use ar' t <-> in_use ar t /\ t ∉ d.*2) /\
  (forall t, slot_data ar' t = slot_data ar t) /\ (forall t, slot_len ar' t = slot_len ar t).
Proof.
  unfold dirty_release_into. simpl. revert ar.
  induction d as [|[c a] d IH]; intros ar Hwf Hnd Huse; simpl in *.
  - split_and!; try done. set_solver.
  - apply NoDup_cons in Hnd as [Ha Hnd].
    destruct (arena_release_spec ar a) as (Hwf' & Hu & Hd & Hl); [done|set_solver|].
    destruct (IH (arena_release ar a)) as (Hwf2 & Hu2 & Hd2 & Hl2); [done..| |].
    { intros t Ht. apply Hu. split; [set_solver|]. by intros ->. }
    split; [done|]. split; [|split; intros; by rewrite ?Hd2, ?Hl2].
    intros t. rewrite Hu2, Hu. set_solver.
Qed.

#[export] Hint Resolve slot_len_range arena_chunk_data : dbfs.

(** ** The arena and the index as their users see them *)

(** C38. A slot for a new chunk: allocation hands out a slot that nobody has, empty even
    when it was used before, and bytes written into it at [a] read back after [a] zeros;
    no other slot changes. It only fails when all slots of the budget are in use. *)
Theorem arena_fresh_chunk ar a data :
  arena_wf ar -> 0 <= a -> a + zlen data <= CHUNK_SIZE ->
  exists found ar1, arena_alloc ar = Some (found, ar1) /\ arena_wf ar1 /\
    match found with
    | None => ar1 = ar /\ forall t, 0 <= t < a_max_slots ar -> in_use ar t
    | Some s => ~ in_use ar s /\ in_use ar1 s /\
        exists ar2, arena_write ar1 s a (a + zlen data) data = Some ar2 /\ arena_wf ar2 /\
          arena_chunk ar2 s = Some (zeros x00 a ++ data) /\
          forall t, in_use ar t -> in_use ar2 t /\ slot_data ar2 t = slot_data ar t
    end.
Proof.
  intros Hwf Ha He. pose proof (zlen_nonneg data). pose proof (arena_alloc_spec ar Hwf) as Hspec.
  destruct (arena_alloc ar) as [[[s|] ar1]|]; [| |done].
  2: { destruct Hspec as (-> & Hmax & Hall). exists None, ar. rewrite Hmax in Hall. by split_and!. }
  destruct Hspec as (Hwf1 & Huse & Hfree & Hempty & Hothers & Hkept). exists (Some s), ar1.
  destruct (arena_write_spec ar1 s a (a + zlen data) data) as (ar2 & Hw & Hwf2 & Hsame & Hlen & Hd & Hs);
    [done|apply Huse|lia..|]. split_and!; try done. exists ar2.
  assert (slot_len ar1 s = 0) as Hl0.
  { rewrite <- zlen_slot_data by (done || apply Huse). by rewrite Hempty. }
  assert (0 <= s < zlen (a_len ar2)) as Hr2 by (rewrite (proj1 Hsame); apply Huse).
  split_and!; try done.
  - rewrite arena_chunk_data by done. f_equal.
    assert (zlen (slot_data ar2 s) = a + zlen data) as Hz by (rewrite zlen_slot_data by done; lia).
    apply zlist_eq; [by rewrite Hz, zlen_app, zlen_zeros|]. rewrite Hz. intros i Hi.
    rewrite Hs, zget_app, zlen_zeros, zget_zeros, Hempty, zget_nil by lia.
    repeat case_decide; done || lia.
  - intros t Ht. assert (t <> s) as Hne by (by intros ->).
    split; [by apply (same_slots_in_use ar1 ar2), Hothers|].
    rewrite Hd; [by apply Hkept| |done]. by apply Hothers in Ht as [? _].
Qed.

Lemma arena_fresh_chunk_witness :
  exists found ar1, arena_alloc (ChunkArena_new 131072) = Some (found, ar1) /\ arena_wf ar1.
Proof.
  destruct (arena_fresh_chunk (ChunkArena_new 131072) 2 [x41]) as (found & ar1 & Hal & Hwf & _);
    [by apply ChunkArena_new_wf|done|vm_compute; discriminate|].
  by exists found, ar1.
Defined.

(** The index of dirty chunks is a sorted map: a search finds the slot of a chunk
    or the place where it belongs, an insertion there adds that chunk alone, and the
    range scan of a read gives the chunks of its range. *)
Theorem dirty_index_map d c a first last :
  dirty_sorted d -> first <= last ->
  dirty_range d first last = Some (filter (fun e => first <= e.1 <= last) d) /\
  match dirty_find d c with
  | inl i => dirty_slot_at d i = dirty_lookup d c /\ is_Some (dirty_lookup d c)
  | inr i => dirty_lookup d c = None /\ exists d', dirty_insert d i c a = Some d' /\ dirty_sorted d' /\
      d' ≡ₚ (c, a) :: d /\
      forall c', dirty_lookup d' c' = if decide (c' = c) then Some a else dirty_lookup d c'
  end.
Proof.
  intros Hs Hfl. split; [by apply dirty_range_spec|]. pose proof (dirty_find_spec d c Hs) as Hf.
  destruct (dirty_find d c) as [i|i].
  - destruct Hf as (a' & Hi & ->). unfold dirty_slot_at. rewrite Hi. split; [done|by eexists].
  - destruct Hf as (Hi & Hn & Hlt & Hgt). split; [done|]. by apply dirty_insert_spec.
Qed.

Lemma dirty_index_map_witness :
  dirty_range [(1, 4); (3, 2)] 2 9 = Some (filter (fun e : Z * ArenaSlot => 2 <= e.1 <= 9) [(1, 4); (3, 2)]).
Proof.
  apply (dirty_index_map [(1, 4); (3, 2)] 2 7 2 9); [|done].
  unfold dirty_sorted. simpl. repeat constructor.
Defined.
