(* ===== verification/OpenTable.v ===== *)
(** * OpenTable: inodes with handles or unflushed data (src/open_table.rs)

    Per-inode state is a struct of arrays indexed by slot, with a hash map from
    inode numbers to slots and a free list; FUSE handles index [Handles]. The
    iteration order of the hash map is a parameter: the code relies only on each
    entry being visited once. *)

From S2P Require Import Prelude Model Chunk Arena.

Abbreviation Slot := Z.

Definition NO_SLOT : Slot := U32_MAX.

(** [HashMap::values]: every value once, in no particular order. *)
Class HashOrder := {
  values_order : gmap Z Slot -> list Slot;
  values_order_perm : forall m, values_order m ≡ₚ (map_to_list m).*2 }.

Record OpenInodes := mkOpenInodes {
  oi_ino : list Z;
  oi_kind : list FileKind;
  oi_size : list Z;
  oi_mtime : list Timestamp;
  oi_refs : list Z;
  oi_unlinked : list bool;
  oi_dirty : list DirtyIdx;
  oi_by_ino : gmap Z Slot;
  oi_free : list Slot }.

Definition OpenInodes_default : OpenInodes := mkOpenInodes [] [] [] [] [] [] [] ∅ [].

(** Stores into one array; [None] when the index is out of range. *)
Definition set_ino (t : OpenInodes) (i : Slot) (v : Z) : option OpenInodes :=
  l ← vset (oi_ino t) i v;
  Some (mkOpenInodes l (oi_kind t) (oi_size t) (oi_mtime t) (oi_refs t) (oi_unlinked t)
          (oi_dirty t) (oi_by_ino t) (oi_free t)).
Definition set_kind (t : OpenInodes) (i : Slot) (v : FileKind) : option OpenInodes :=
  l ← vset (oi_kind t) i v;
  Some (mkOpenInodes (oi_ino t) l (oi_size t) (oi_mtime t) (oi_refs t) (oi_unlinked t)
          (oi_dirty t) (oi_by_ino t) (oi_free t)).
Definition set_size (t : OpenInodes) (i : Slot) (v : Z) : option OpenInodes :=
  l ← vset (oi_size t) i v;
  Some (mkOpenInodes (oi_ino t) (oi_kind t) l (oi_mtime t) (oi_refs t) (oi_unlinked t)
          (oi_dirty t) (oi_by_ino t) (oi_free t)).
Definition set_mtime (t : OpenInodes) (i : Slot) (v : Timestamp) : option OpenInodes :=
  l ← vset (oi_mtime t) i v;
  Some (mkOpenInodes (oi_ino t) (oi_kind t) (oi_size t) l (oi_refs t) (oi_unlinked t)
          (oi_dirty t) (oi_by_ino t) (oi_free t)).
Definition set_refs (t : OpenInodes) (i : Slot) (v : Z) : option OpenInodes :=
  l ← vset (oi_refs t) i v;
  Some (mkOpenInodes (oi_ino t) (oi_kind t) (oi_size t) (oi_mtime t) l (oi_unlinked t)
          (oi_dirty t) (oi_by_ino t) (oi_free t)).
Definition set_unlinked (t : OpenInodes) (i : Slot) (v : bool) : option OpenInodes :=
  l ← vset (oi_unlinked t) i v;
  Some (mkOpenInodes (oi_ino t) (oi_kind t) (oi_size t) (oi_mtime t) (oi_refs t) l
          (oi_dirty t) (oi_by_ino t) (oi_free t)).
Definition set_dirty (t : OpenInodes) (i : Slot) (v : DirtyIdx) : option OpenInodes :=
  l ← vset (oi_dirty t) i v;
  Some (mkOpenInodes (oi_ino t) (oi_kind t) (oi_size t) (oi_mtime t) (oi_refs t)
          (oi_unlinked t) l (oi_by_ino t) (oi_free t)).
Definition with_index (t : OpenInodes) (by_ino : gmap Z Slot) (free : list Slot) : OpenInodes :=
  mkOpenInodes (oi_ino t) (oi_kind t) (oi_size t) (oi_mtime t) (oi_refs t) (oi_unlinked t)
    (oi_dirty t) by_ino free.

Definition EPOCH : Timestamp := {| secs := 0; nsec := 0 |}.

Definition inodes_find (t : OpenInodes) (ino : Z) : option Slot := oi_by_ino t !! ino.

Definition inodes_insert (t : OpenInodes) (ino : Z) (kind : FileKind) (size : Z)
    : option (Slot * OpenInodes) :=
  r ← (match vec_pop (oi_free t) with
       | Some (slot, free) =>
           t ← set_ino (with_index t (oi_by_ino t) free) slot ino;
           t ← set_kind t slot kind;
           t ← set_size t slot size;
           t ← set_mtime t slot EPOCH;
           t ← set_refs t slot 0;
           t ← set_unlinked t slot false;
           Some (slot, t)
       | None =>
           Some (u32 (zlen (oi_ino t ++ [ino]) - 1),
                 mkOpenInodes (oi_ino t ++ [ino]) (oi_kind t ++ [kind]) (oi_size t ++ [size])
                   (oi_mtime t ++ [EPOCH]) (oi_refs t ++ [0]) (oi_unlinked t ++ [false])
                   (oi_dirty t ++ [[]]) (oi_by_ino t) (oi_free t))
       end);
  let '(slot, t) := r in
  Some (slot, with_index t (<[ino := slot]> (oi_by_ino t)) (oi_free t)).

Definition inodes_remove (t : OpenInodes) (slot : Slot) : option OpenInodes :=
  k ← vget (oi_ino t) slot;
  let t := with_index t (delete k (oi_by_ino t)) (oi_free t) in
  t ← set_refs t slot 0;
  t ← set_unlinked t slot false;
  Some (with_index t (oi_by_ino t) (oi_free t ++ [slot])).

Definition inodes_is_open (t : OpenInodes) (slot : Slot) : option bool :=
  n ← vget (oi_refs t) slot; Some (0 <? n).

(** [Iterator::max_by_key]: the last of the largest elements. *)
Definition max_by_key {A} (key : A -> Z) (l : list A) : option A :=
  foldl (fun best x =>
    match best with
    | None => Some x
    | Some b => if key b <=? key x then Some x else best
    end) None l.

Section iteration.
Context `{HashOrder}.

Definition live_slots (t : OpenInodes) : list Slot := values_order (oi_by_ino t).

Definition largest_dirty (t : OpenInodes) : option (option Slot) :=
  sized ← mapM (fun slot => d ← vget (oi_dirty t) slot; Some (slot, zlen d)) (live_slots t);
  Some (fst <$> max_by_key snd (filter (fun e => e.2 <> 0) sized)).
End iteration.

Record Handles := mkHandles { h_slot : list Slot; h_free : list Z }.

Definition Handles_default : Handles := mkHandles [] [].

Definition handles_alloc (h : Handles) (slot : Slot) : option (Z * Handles) :=
  match vec_pop (h_free h) with
  | Some (fh, free) =>
      l ← vset (h_slot h) fh slot;
      Some (fh, mkHandles l free)
  | None =>
      let l := h_slot h ++ [slot] in
      Some (zlen l - 1, mkHandles l (h_free h))
  end.

Definition handles_get (h : Handles) (fh : Z) : option Slot :=
  match vget (h_slot h) fh with
  | Some slot => if slot =? NO_SLOT then None else Some slot
  | None => None
  end.

(** [Err] of the code is the inner [None]; the outer one is a panic. *)
Definition handles_release (h : Handles) (fh : Z) : option (option Slot * Handles) :=
  match handles_get h fh with
  | None => Some (None, h)
  | Some slot =>
      l ← vset (h_slot h) fh NO_SLOT;
      Some (Some slot, mkHandles l (h_free h ++ [u32 fh]))
  end.

Record OpenTable := mkOpenTable {
  inodes : OpenInodes;
  handles : Handles;
  arena : ChunkArena;
  closing : bool }.

Definition OpenTable_new (write_buffer : Z) : OpenTable :=
  {| inodes := OpenInodes_default; handles := Handles_default;
     arena := ChunkArena_new write_buffer; closing := false |}.

(** ** One slot as a record *)

Record Entry := mkEntry {
  e_ino : Z; e_kind : FileKind; e_size : Z; e_mtime : Timestamp;
  e_refs : Z; e_unlinked : bool; e_dirty : DirtyIdx }.

Definition entry_at (t : OpenInodes) (i : Slot) : option Entry :=
  ino ← vget (oi_ino t) i; kind ← vget (oi_kind t) i; size ← vget (oi_size t) i;
  mtime ← vget (oi_mtime t) i; refs ← vget (oi_refs t) i;
  unlinked ← vget (oi_unlinked t) i; dirty ← vget (oi_dirty t) i;
  Some (mkEntry ino kind size mtime refs unlinked dirty).

(** The arrays have one length. *)
Definition lens_ok (t : OpenInodes) : Prop :=
  let n := zlen (oi_ino t) in
  zlen (oi_kind t) = n /\ zlen (oi_size t) = n /\ zlen (oi_mtime t) = n /\
  zlen (oi_refs t) = n /\ zlen (oi_unlinked t) = n /\ zlen (oi_dirty t) = n.

Definition in_range (t : OpenInodes) (i : Slot) : Prop := 0 <= i < zlen (oi_ino t).

Record inodes_wf (t : OpenInodes) : Prop := {
  iw_lens : lens_ok t;
  iw_index : forall k i, oi_by_ino t !! k = Some i ->
    exists e, entry_at t i = Some e /\ e_ino e = k;
  iw_free : forall i, i ∈ oi_free t -> in_range t i /\ (forall k, oi_by_ino t !! k <> Some i) /\
    forall e, entry_at t i = Some e -> e_dirty e = [] /\ e_refs e = 0;
  iw_nodup : NoDup (oi_free t);
  iw_cover : forall i, in_range t i -> i ∈ oi_free t \/ exists k, oi_by_ino t !! k = Some i;
  iw_bound : zlen (oi_ino t) <= NO_SLOT }.

Definition live (t : OpenInodes) (i : Slot) : Prop := exists k, oi_by_ino t !! k = Some i.

(** Room for one more slot below [NO_SLOT]. *)
Definition slot_room (t : OpenInodes) : Prop := oi_free t <> [] \/ zlen (oi_ino t) < NO_SLOT.

(** ** Updates of one slot *)

Definition with_size (e : Entry) (v : Z) : Entry :=
  mkEntry (e_ino e) (e_kind e) v (e_mtime e) (e_refs e) (e_unlinked e) (e_dirty e).
Definition with_mtime (e : Entry) (v : Timestamp) : Entry :=
  mkEntry (e_ino e) (e_kind e) (e_size e) v (e_refs e) (e_unlinked e) (e_dirty e).
Definition with_refs (e : Entry) (v : Z) : Entry :=
  mkEntry (e_ino e) (e_kind e) (e_size e) (e_mtime e) v (e_unlinked e) (e_dirty e).
Definition with_unlinked (e : Entry) (v : bool) : Entry :=
  mkEntry (e_ino e) (e_kind e) (e_size e) (e_mtime e) (e_refs e) v (e_dirty e).
Definition with_dirty (e : Entry) (v : DirtyIdx) : Entry :=
  mkEntry (e_ino e) (e_kind e) (e_size e) (e_mtime e) (e_refs e) (e_unlinked e) v.
Definition with_ino (e : Entry) (v : Z) : Entry :=
  mkEntry v (e_kind e) (e_size e) (e_mtime e) (e_refs e) (e_unlinked e) (e_dirty e).
Definition with_kind (e : Entry) (v : FileKind) : Entry :=
  mkEntry (e_ino e) v (e_size e) (e_mtime e) (e_refs e) (e_unlinked e) (e_dirty e).

(** [t'] is [t] with slot [i] holding [e]. *)
Record updated (t t' : OpenInodes) (i : Slot) (e : Entry) : Prop := {
  up_lens : lens_ok t';
  up_len : zlen (oi_ino t') = zlen (oi_ino t);
  up_by_ino : oi_by_ino t' = oi_by_ino t;
  up_free : oi_free t' = oi_free t;
  up_entry : forall j, entry_at t' j = if decide (i = j) then Some e else entry_at t j }.

Section slots.
Implicit Types (t : OpenInodes) (i j : Slot) (e : Entry).

Lemma entry_at_Some t i e :
  entry_at t i = Some e <->
  vget (oi_ino t) i = Some (e_ino e) /\ vget (oi_kind t) i = Some (e_kind e) /\
  vget (oi_size t) i = Some (e_size e) /\ vget (oi_mtime t) i = Some (e_mtime e) /\
  vget (oi_refs t) i = Some (e_refs e) /\ vget (oi_unlinked t) i = Some (e_unlinked e) /\
  vget (oi_dirty t) i = Some (e_dirty e).
Proof.
  unfold entry_at. split.
  - intros H. repeat (apply bind_Some in H as (? & ? & H)). by simplify_eq/=.
  - intros (-> & -> & -> & -> & -> & -> & ->). by destruct e.
Qed.

Lemma entry_at_is_Some t i : lens_ok t -> in_range t i <-> is_Some (entry_at t i).
Proof.
  intros (H1 & H2 & H3 & H4 & H5 & H6). split.
  - intros Hi. unfold in_range in Hi. unfold entry_at.
    destruct (vget_is_Some (oi_ino t) i) as [? ->]; [lia|].
    destruct (vget_is_Some (oi_kind t) i) as [? ->]; [lia|].
    destruct (vget_is_Some (oi_size t) i) as [? ->]; [lia|].
    destruct (vget_is_Some (oi_mtime t) i) as [? ->]; [lia|].
    destruct (vget_is_Some (oi_refs t) i) as [? ->]; [lia|].
    destruct (vget_is_Some (oi_unlinked t) i) as [? ->]; [lia|].
    destruct (vget_is_Some (oi_dirty t) i) as [? ->]; [lia|]. simpl. eauto.
  - intros [e (Hi & _)%entry_at_Some]. by apply vget_Some in Hi.
Qed.

Lemma vget_insert_dec {A} (l : list A) i j x :
  0 <= i < zlen l ->
  vget (<[Z.to_nat i := x]> l) j = if decide (i = j) then Some x else vget l j.
Proof.
  intros Hi. destruct (decide (0 <= j)); [by apply vget_insert|].
  rewrite decide_False by lia. unfold vget. by rewrite !decide_False by done.
Qed.

Lemma updated_refl t i e : lens_ok t -> entry_at t i = Some e -> updated t t i e.
Proof. intros. split; try done. intros j. by case_decide; subst. Qed.
End slots.

(** One script for the store into any of the arrays. *)
Ltac solve_store :=
  let Hl := fresh in let He := fresh in let Hi := fresh in let j := fresh "j" in
  intros Hl He;
  match goal with t : OpenInodes |- context [?f ?t ?i ?v] =>
    assert (in_range t i) as Hi
      by (apply entry_at_is_Some; [done | by eexists])
  end;
  destruct Hl as (? & ? & ? & ? & ? & ?); unfold in_range in Hi;
  apply entry_at_Some in He as (? & ? & ? & ? & ? & ? & ?);
  lazymatch goal with |- context [?f ?t ?i ?v = Some _] => unfold f end;
  rewrite vset_Some by lia; eexists; split; [reflexivity|];
  split; simpl; try done;
  [ unfold lens_ok; simpl; rewrite ?zlen_insert; split_and!; lia
  | rewrite ?zlen_insert; reflexivity ..
  | intros j; case_decide as Hj;
    [ subst; apply entry_at_Some; simpl; rewrite ?vget_insert_dec by lia;
      rewrite ?decide_True by done; done
    | unfold entry_at; simpl; rewrite ?vget_insert_dec by lia;
      rewrite ?decide_False by done; done ] ].

Section stores.
Implicit Types (t : OpenInodes) (i : Slot) (e : Entry).

Lemma set_ino_spec t i v e : lens_ok t -> entry_at t i = Some e ->
  exists t', set_ino t i v = Some t' /\ updated t t' i (with_ino e v).
Proof. solve_store. Qed.
Lemma set_kind_spec t i v e : lens_ok t -> entry_at t i = Some e ->
  exists t', set_kind t i v = Some t' /\ updated t t' i (with_kind e v).
Proof. solve_store. Qed.
Lemma set_size_spec t i v e : lens_ok t -> entry_at t i = Some e ->
  exists t', set_size t i v = Some t' /\ updated t t' i (with_size e v).
Proof. solve_store. Qed.
Lemma set_mtime_spec t i v e : lens_ok t -> entry_at t i = Some e ->
  exists t', set_mtime t i v = Some t' /\ updated t t' i (with_mtime e v).
Proof. solve_store. Qed.
Lemma set_refs_spec t i v e : lens_ok t -> entry_at t i = Some e ->
  exists t', set_refs t i v = Some t' /\ updated t t' i (with_refs e v).
Proof. solve_store. Qed.
Lemma set_unlinked_spec t i v e : lens_ok t -> entry_at t i = Some e ->
  exists t', set_unlinked t i v = Some t' /\ updated t t' i (with_unlinked e v).
Proof. solve_store. Qed.
Lemma set_dirty_spec t i v e : lens_ok t -> entry_at t i = Some e ->
  exists t', set_dirty t i v = Some t' /\ updated t t' i (with_dirty e v).
Proof. solve_store. Qed.
End stores.

Section inodes.
Implicit Types (t : OpenInodes) (i j : Slot) (e : Entry).

Lemma in_range_updated t t' i e j : updated t t' i e -> in_range t' j <-> in_range t j.
Proof. intros []. unfold in_range. by rewrite up_len0. Qed.

Lemma live_updated t t' i e j : updated t t' i e -> live t' j <-> live t j.
Proof. intros []. unfold live. by rewrite up_by_ino0. Qed.

Lemma updated_trans t t1 t2 i e1 e2 :
  updated t t1 i e1 -> updated t1 t2 i e2 -> updated t t2 i e2.
Proof.
  intros [] []. split; try congruence. intros j. rewrite up_entry1, up_entry0.
  by case_decide.
Qed.

Lemma live_entry t i : inodes_wf t -> live t i -> exists e,
  entry_at t i = Some e /\ oi_by_ino t !! e_ino e = Some i.
Proof.
  intros Hwf [k Hk]. destruct (iw_index _ Hwf _ _ Hk) as (e & He & <-). eauto.
Qed.

Lemma live_not_free t i : inodes_wf t -> live t i -> i ∉ oi_free t.
Proof. intros Hwf [k Hk] (_ & Hn & _)%(iw_free _ Hwf). by apply (Hn k). Qed.

(** Slots and inode numbers of live entries determine each other. *)
Lemma find_inj t i j k : inodes_wf t ->
  oi_by_ino t !! k = Some i -> oi_by_ino t !! j = Some i -> k = j.
Proof.
  intros Hwf Hk Hj. destruct (iw_index _ Hwf _ _ Hk) as (e & He & <-).
  destruct (iw_index _ Hwf _ _ Hj) as (e' & He' & <-). congruence.
Qed.

Lemma updated_wf t t' i e e' :
  inodes_wf t -> updated t t' i e' -> entry_at t i = Some e -> live t i ->
  e_ino e' = e_ino e -> inodes_wf t'.
Proof.
  intros Hwf Hup He Hlive Hino. pose proof (live_not_free _ _ Hwf Hlive) as Hnf.
  destruct Hup as [Hlens Hlen Hby Hfree Hentry]. destruct Hwf. split; try done.
  - intros k j Hk. rewrite Hby in Hk. destruct (iw_index0 _ _ Hk) as (e1 & He1 & Hk1).
    rewrite Hentry. case_decide; subst; [|eauto]. exists e'. split; [done|]. congruence.
  - intros j Hj. rewrite Hfree in Hj. destruct (iw_free0 _ Hj) as (Hr & Hn & Hd).
    unfold in_range in *. rewrite Hlen. split; [done|]. split; [by rewrite Hby|].
    intros e1. rewrite Hentry, decide_False by congruence. apply Hd.
  - by rewrite Hfree.
  - intros j Hj. unfold in_range in Hj. rewrite Hlen in Hj. rewrite Hfree, Hby. eauto.
  - by rewrite Hlen.
Qed.

Lemma OpenInodes_default_wf : inodes_wf OpenInodes_default.
Proof.
  split; simpl; try done.
  - intros i Hi. set_solver.
  - constructor.
  - unfold in_range, zlen. simpl. lia.
Qed.

(** [t'] is [t] with a new live slot [i]. *)
Record inserted t t' i e : Prop := {
  ins_wf : inodes_wf t';
  ins_by_ino : oi_by_ino t' = <[e_ino e := i]> (oi_by_ino t);
  ins_entry : entry_at t' i = Some e;
  ins_new : ~ live t i;
  ins_other : forall j, live t j -> entry_at t' j = entry_at t j }.

Definition fresh_entry ino kind size : Entry := mkEntry ino kind size EPOCH 0 false [].

Lemma entry_at_with_index t b f j : entry_at (with_index t b f) j = entry_at t j.
Proof. done. Qed.

(** Indexing a slot taken from the free list, once its arrays are set. *)
Lemma inserted_reuse t t1 free i e :
  inodes_wf t -> oi_by_ino t !! e_ino e = None -> oi_free t = free ++ [i] ->
  updated (with_index t (oi_by_ino t) free) t1 i e ->
  inserted t (with_index t1 (<[e_ino e := i]> (oi_by_ino t1)) (oi_free t1)) i e.
Proof.
  intros Hwf Hnone Hfree [Hlens Hlen Hby Hf Hentry]. simpl in Hlen, Hby, Hf.
  destruct (iw_free _ Hwf i) as (Hrange & Hnotlive & _); [rewrite Hfree; set_solver|].
  pose proof (iw_nodup _ Hwf) as Hnd. rewrite Hfree in Hnd.
  apply NoDup_app in Hnd as (Hnd & Hnot & _).
  assert (i ∉ free) as Hif by (intros Hi; apply (Hnot _ Hi); set_solver).
  assert (forall j, live t j -> i <> j) as Hne by (intros j [k Hk] ->; by apply (Hnotlive k)).
  split; [split| | | |]; cbn [oi_by_ino oi_free with_index]; rewrite ?Hby, ?Hf; try done.
  - intros k j [[<- <-]|[Hk Hj]]%lookup_insert_Some; rewrite entry_at_with_index, Hentry.
    + rewrite decide_True by done. eauto.
    + destruct (iw_index _ Hwf _ _ Hj) as (e1 & He1 & Hk1). exists e1.
      rewrite decide_False; [done|]. apply Hne. by exists k.
  - intros j Hj. assert (i <> j) by congruence.
    destruct (iw_free _ Hwf j) as (Hr & Hn & Hd); [rewrite Hfree; set_solver|].
    unfold in_range in *. cbn [oi_ino with_index]. rewrite Hlen. split; [done|]. split.
    + intros k [[]|[]]%lookup_insert_Some; [done | naive_solver].
    + intros e1. rewrite entry_at_with_index, Hentry, decide_False by done. apply Hd.
  - intros j Hj. unfold in_range in Hj. cbn [oi_ino with_index] in Hj. rewrite Hlen in Hj.
    destruct (decide (j = i)) as [->|]; [right; exists (e_ino e); by rewrite lookup_insert_eq|].
    destruct (iw_cover _ Hwf _ Hj) as [Hin|[k Hk]]; [rewrite Hfree in Hin; set_solver|].
    right. exists k. rewrite lookup_insert_ne; [done|]. congruence.
  - cbn [oi_ino with_index]. rewrite Hlen. apply (iw_bound _ Hwf).
  - rewrite entry_at_with_index, Hentry. by rewrite decide_True.
  - intros [k Hk]. by apply (Hnotlive k).
  - intros j Hj. rewrite entry_at_with_index, Hentry, decide_False by auto. done.
Qed.

(** A new slot at the end of the arrays. *)
Lemma inserted_grow t e :
  inodes_wf t -> oi_by_ino t !! e_ino e = None -> zlen (oi_ino t) < NO_SLOT ->
  let i := zlen (oi_ino t) in
  inserted t
    (mkOpenInodes (oi_ino t ++ [e_ino e]) (oi_kind t ++ [e_kind e]) (oi_size t ++ [e_size e])
       (oi_mtime t ++ [e_mtime e]) (oi_refs t ++ [e_refs e]) (oi_unlinked t ++ [e_unlinked e])
       (oi_dirty t ++ [e_dirty e]) (<[e_ino e := i]> (oi_by_ino t)) (oi_free t)) i e.
Proof.
  intros Hwf Hnone Hroom i. set (t' := mkOpenInodes _ _ _ _ _ _ _ _ _).
  assert (forall {A} (l : list A) x j, vget (l ++ [x]) j =
    if decide (j = zlen l) then Some x else vget l j) as Hsnoc.
  { intros A l x j. unfold vget, zlen. repeat case_decide; try lia; try done.
    - rewrite lookup_app_r by lia. by replace (Z.to_nat j - length l)%nat with O by lia.
    - destruct (decide (j < Z.of_nat (length l))); [by rewrite lookup_app_l by lia|].
      rewrite !lookup_ge_None_2; [done|lia|]. rewrite length_app. simpl. lia. }
  pose proof (iw_lens _ Hwf) as (H1 & H2 & H3 & H4 & H5 & H6).
  assert (forall j, entry_at t' j = if decide (j = i) then Some e else entry_at t j) as Hentry.
  { intros j. unfold entry_at. subst t' i. cbn [oi_ino oi_kind oi_size oi_mtime oi_refs oi_unlinked oi_dirty].
    rewrite !Hsnoc, H1, H2, H3, H4, H5, H6. case_decide; [by destruct e|done]. }
  assert (forall j, live t j -> j <> i) as Hne.
  { intros j [k (e1 & He1 & _)%(iw_index _ Hwf)] ->.
    apply entry_at_Some in He1 as (Hv & _). apply vget_Some in Hv. subst i. lia. }
  assert (zlen (oi_ino t') = i + 1) as Hlen by (subst t'; simpl; by rewrite zlen_snoc).
  assert (oi_by_ino t' = <[e_ino e := i]> (oi_by_ino t)) as Hby by done.
  assert (oi_free t' = oi_free t) as Hf by done.
  split; [split| | | |]; rewrite ?Hby, ?Hf; try done.
  - unfold lens_ok. subst t'. cbn [oi_ino oi_kind oi_size oi_mtime oi_refs oi_unlinked oi_dirty].
    rewrite !zlen_snoc. lia.
  - intros k j [[<- <-]|[Hk Hj]]%lookup_insert_Some; rewrite Hentry.
    + rewrite decide_True by done. eauto.
    + rewrite decide_False by (apply Hne; by exists k). by apply (iw_index _ Hwf).
  - intros j Hj. destruct (iw_free _ Hwf j Hj) as (Hr & Hn & Hd).
    unfold in_range in *. rewrite Hlen. split; [subst i; lia|]. split.
    + intros k [[_ <-]|[_ ?]]%lookup_insert_Some; [subst i; lia | naive_solver].
    + intros e1. rewrite Hentry, decide_False by (subst i; lia). apply Hd.
  - apply (iw_nodup _ Hwf).
  - intros j Hj. unfold in_range in Hj. rewrite Hlen in Hj.
    destruct (decide (j = i)) as [->|]; [right; exists (e_ino e); by rewrite lookup_insert_eq|].
    destruct (iw_cover _ Hwf j) as [Hin|[k Hk]]; [unfold in_range; subst i; lia|by left|].
    right. exists k. rewrite lookup_insert_ne; [done|]. congruence.
  - rewrite Hlen. subst i. lia.
  - rewrite Hentry. by rewrite decide_True.
  - intros Hl. by apply (Hne i).
  - intros j Hj. rewrite Hentry, decide_False by auto. done.
Qed.

(** One store of a sequence, named. *)
Ltac store_step spec U t2 U2 :=
  cbn [mbind option_bind];
  edestruct spec as (t2 & -> & U2); [apply U | eauto | ];
  apply (updated_trans _ _ _ _ _ _ U) in U2.

Lemma inodes_insert_spec t ino kind size :
  inodes_wf t -> oi_by_ino t !! ino = None -> slot_room t ->
  exists i t', inodes_insert t ino kind size = Some (i, t') /\
    inserted t t' i (fresh_entry ino kind size).
Proof.
  intros Hwf Hnone Hroom. unfold inodes_insert.
  destruct (vec_pop (oi_free t)) as [[i free]|] eqn:Hpop.
  - apply vec_pop_Some in Hpop. set (t0 := with_index t (oi_by_ino t) free).
    destruct (iw_free _ Hwf i) as (Hrange & _ & Hclean); [rewrite Hpop; set_solver|].
    pose proof (iw_lens _ Hwf) as Hlens.
    destruct (proj1 (entry_at_is_Some t i Hlens) Hrange) as [e He].
    destruct (Hclean _ He) as [Hdirty _].
    destruct (set_ino_spec t0 i ino e Hlens He) as (t1 & -> & U1).
    assert (forall t' e', updated t0 t' i e' -> entry_at t' i = Some e') as Hself.
    { intros t' e' U. rewrite (up_entry _ _ _ _ U). by rewrite decide_True. }
    store_step (set_kind_spec t1 i kind) U1 t2 U2. store_step (set_size_spec t2 i size) U2 t3 U3.
    store_step (set_mtime_spec t3 i EPOCH) U3 t4 U4. store_step (set_refs_spec t4 i 0) U4 t5 U5.
    store_step (set_unlinked_spec t5 i false) U5 t6 U6.
    assert (updated t0 t6 i (fresh_entry ino kind size)) as U
      by (unfold fresh_entry; rewrite <- Hdirty; exact U6).
    do 2 eexists. split; [done|]. by apply (inserted_reuse t t6 free i (fresh_entry ino kind size)).
  - apply vec_pop_None in Hpop. destruct Hroom as [|Hroom]; [done|].
    cbn [mbind option_bind]. rewrite zlen_snoc, Z.add_simpl_r.
    pose proof (zlen_nonneg (oi_ino t)). unfold NO_SLOT, U32_MAX in Hroom.
    rewrite u32_id by lia. do 2 eexists. split; [done|].
    by apply (inserted_grow t (fresh_entry ino kind size)).
Qed.

(** Freeing a live slot without dirty chunks. *)
Lemma inodes_remove_spec t i e :
  inodes_wf t -> live t i -> entry_at t i = Some e -> e_dirty e = [] ->
  exists t', inodes_remove t i = Some t' /\ inodes_wf t' /\
    oi_by_ino t' = delete (e_ino e) (oi_by_ino t) /\
    (forall j, live t' j <-> live t j /\ j <> i) /\
    (forall j, live t' j -> entry_at t' j = entry_at t j).
Proof.
  intros Hwf Hlive He Hdirty. pose proof (iw_lens _ Hwf) as Hlens.
  pose proof (live_not_free _ _ Hwf Hlive) as Hnf.
  assert (oi_by_ino t !! e_ino e = Some i) as Hk.
  { destruct (live_entry _ _ Hwf Hlive) as (e' & He' & Hk). congruence. }
  assert (in_range t i) as Hi by (apply entry_at_is_Some; eauto).
  unfold inodes_remove. pose proof He as Hino. apply entry_at_Some in Hino as (-> & _).
  cbn [mbind option_bind].
  set (t0 := with_index t (delete (e_ino e) (oi_by_ino t)) (oi_free t)).
  destruct (set_refs_spec t0 i 0 e Hlens He) as (t1 & -> & U1). cbn [mbind option_bind].
  destruct (set_unlinked_spec t1 i false (with_refs e 0)) as (t2 & -> & U2);
    [apply U1 | rewrite (up_entry _ _ _ _ U1); by rewrite decide_True |].
  cbn [mbind option_bind]. apply (updated_trans _ _ _ _ _ _ U1) in U2.
  eexists. split; [done|]. destruct U2 as [Hl2 Hlen Hby Hf Hentry]. simpl in Hlen, Hby, Hf.
  assert (forall j, (exists k, delete (e_ino e) (oi_by_ino t) !! k = Some j) <->
    live t j /\ j <> i) as Hlv.
  { intros j. split.
    - intros [k [Hne Hkj]%lookup_delete_Some]. split; [by exists k|]. intros ->.
      apply Hne. symmetry. by eapply find_inj.
    - intros [[k Hkj] Hne]. exists k. apply lookup_delete_Some. split; [congruence|done]. }
  assert (forall j, j <> i -> entry_at t2 j = entry_at t j) as Hother.
  { intros j Hj. rewrite Hentry, decide_False by done. done. }
  split; [split|]; cbn [oi_by_ino oi_free with_index]; rewrite ?Hby, ?Hf; try done.
  - intros k j Hkj. assert (live t j /\ j <> i) as [_ Hji] by (apply Hlv; eauto).
    apply lookup_delete_Some in Hkj as [_ Hkj].
    rewrite entry_at_with_index, Hother by done. by apply (iw_index _ Hwf).
  - intros j Hj. assert (in_range t j -> in_range (with_index t2 (oi_by_ino t2) (oi_free t ++ [i])) j) as Hr
      by (unfold in_range; cbn [oi_ino with_index]; by rewrite Hlen).
    apply elem_of_app in Hj as [Hj| ->%list_elem_of_singleton].
    + destruct (iw_free _ Hwf j Hj) as (Hrj & Hn & Hd). split; [auto|].
      assert (j <> i) by congruence. split.
      * intros k [_ ?]%lookup_delete_Some. by apply (Hn k).
      * intros e1. rewrite entry_at_with_index, Hother by done. apply Hd.
    + split; [auto|]. split.
      * intros k Hki. assert (live t i /\ i <> i) as [_ ?] by (apply Hlv; eauto). done.
      * intros e1. rewrite entry_at_with_index, Hentry, decide_True by done.
        intros [= <-]. done.
  - apply NoDup_app. split; [apply (iw_nodup _ Hwf)|]. split; [|apply NoDup_singleton].
    intros j Hj ->%list_elem_of_singleton. done.
  - intros j Hj. unfold in_range in Hj. cbn [oi_ino with_index] in Hj. rewrite Hlen in Hj.
    rewrite elem_of_app, list_elem_of_singleton.
    destruct (decide (j = i)) as [->|]; [auto|].
    destruct (iw_cover _ Hwf j Hj) as [?|Hlj]; [auto|]. right. apply Hlv. done.
  - cbn [oi_ino with_index]. rewrite Hlen. apply (iw_bound _ Hwf).
  - split; [done|]. unfold live. cbn [oi_by_ino with_index]. rewrite ?Hby.
    split; [done|]. intros j [_ Hji]%Hlv. by rewrite entry_at_with_index, Hother.
Qed.
End inodes.

(** ** Iteration over the live slots *)

Section max_by_key.
Context {A : Type} (key : A -> Z).
Implicit Types (l : list A) (x y : A).

Lemma max_by_key_snoc l x :
  max_by_key key (l ++ [x]) =
    match max_by_key key l with
    | None => Some x
    | Some b => if key b <=? key x then Some x else Some b
    end.
Proof.
  unfold max_by_key. rewrite foldl_app. simpl. by destruct (foldl _ None l).
Qed.

Lemma max_by_key_spec l :
  match max_by_key key l with
  | None => l = []
  | Some b => b ∈ l /\ forall x, x ∈ l -> key x <= key b
  end.
Proof.
  induction l as [|x l IH] using rev_ind; [done|].
  rewrite max_by_key_snoc. destruct (max_by_key key l) as [b|].
  - destruct IH as [Hb Hmax]. destruct (Z.leb_spec (key b) (key x)).
    + split; [set_solver|]. intros y [Hy| ->%list_elem_of_singleton]%elem_of_app; [|lia].
      apply Hmax in Hy. lia.
    + split; [set_solver|]. intros y [Hy| ->%list_elem_of_singleton]%elem_of_app; [|lia].
      by apply Hmax.
  - subst. split; [set_solver|]. intros y ->%list_elem_of_singleton. lia.
Qed.
End max_by_key.

Section live_slots.
Context `{HashOrder}.
Implicit Types (t : OpenInodes) (i : Slot).

Lemma elem_of_live_slots t i : i ∈ live_slots t <-> live t i.
Proof.
  unfold live_slots, live. rewrite values_order_perm, list_elem_of_fmap. split.
  - intros ([k j] & -> & Hk%elem_of_map_to_list). eauto.
  - intros [k Hk]. exists (k, i). by rewrite elem_of_map_to_list.
Qed.

Lemma live_slots_nodup t : inodes_wf t -> NoDup (live_slots t).
Proof.
  intros Hwf. unfold live_slots. rewrite values_order_perm.
  apply NoDup_fmap_2_strong; [|apply NoDup_map_to_list].
  intros [k i] [j i'] Hk%elem_of_map_to_list Hj%elem_of_map_to_list Heq. simpl in Heq. subst i'.
  by rewrite (find_inj _ _ _ _ Hwf Hk Hj).
Qed.

(** The victim of an eviction: a live slot with dirty chunks, and none has more.
    There is none exactly when no live slot has a dirty chunk. *)
Lemma largest_dirty_spec t :
  inodes_wf t ->
  exists r, largest_dirty t = Some r /\
    match r with
    | None => forall i e, live t i -> entry_at t i = Some e -> e_dirty e = []
    | Some v => live t v /\ exists ev, entry_at t v = Some ev /\ e_dirty ev <> [] /\
        forall i e, live t i -> entry_at t i = Some e -> zlen (e_dirty e) <= zlen (e_dirty ev)
    end.
Proof.
  intros Hwf.
  set (n := fun i => zlen (default [] (vget (oi_dirty t) i))).
  assert (forall i e, entry_at t i = Some e -> vget (oi_dirty t) i = Some (e_dirty e)) as Hd
    by (intros i e He; by apply entry_at_Some in He as (_ & _ & _ & _ & _ & _ & ->)).
  assert (forall i e, entry_at t i = Some e -> n i = zlen (e_dirty e)) as Hn
    by (intros i e He; subst n; simpl; by rewrite (Hd i e He)).
  unfold largest_dirty. rewrite (mapM_fmap _ (fun i => (i, n i))).
  2:{ intros i Hi%elem_of_live_slots. destruct (live_entry _ _ Hwf Hi) as (e & He & _).
      rewrite (Hn i e He). by rewrite (Hd i e He). }
  cbn [mbind option_bind]. eexists. split; [done|].
  assert (forall p, p ∈ filter (fun e : Slot * Z => e.2 <> 0) ((fun i => (i, n i)) <$> live_slots t) <->
    exists i e, live t i /\ entry_at t i = Some e /\ p = (i, zlen (e_dirty e)) /\
      zlen (e_dirty e) <> 0) as Hin.
  { intros p. rewrite list_elem_of_filter, list_elem_of_fmap. split.
    - intros (Hp & i & -> & Hi%elem_of_live_slots). simpl in Hp.
      destruct (live_entry _ _ Hwf Hi) as (e & He & _). rewrite (Hn i e He) in *. eauto 10.
    - intros (i & e & Hi & He & -> & Hne). split; [done|]. exists i.
      rewrite (Hn i e He), elem_of_live_slots. done. }
  pose proof (max_by_key_spec snd
    (filter (fun e : Slot * Z => e.2 <> 0) ((fun i => (i, n i)) <$> live_slots t))) as Hmax.
  destruct (max_by_key _ _) as [[v m]|]; simpl.
  - destruct Hmax as [Hv Hmax]. apply Hin in Hv as (v' & ev & Hl & He & [= -> ->] & Hne).
    split; [done|]. exists ev. split; [done|].
    split; [intros Hz; apply Hne; by rewrite Hz|].
    intros i e Hi He'. destruct (decide (zlen (e_dirty e) = 0)) as [->|Hnz];
      [apply zlen_nonneg|]. apply (Hmax (i, zlen (e_dirty e))). apply Hin. eauto 10.
  - intros i e Hi He. apply zlen_0_inv. destruct (decide (zlen (e_dirty e) = 0)); [done|].
    assert ((i, zlen (e_dirty e)) ∈ @nil (Slot * Z)) as Hbad; [|by apply not_elem_of_nil in Hbad].
    rewrite <- Hmax. apply Hin. eauto 10.
Qed.
End live_slots.

(** ** Handles *)

Record handles_wf (h : Handles) : Prop := {
  hw_nodup : NoDup (h_free h);
  hw_free : forall fh, fh ∈ h_free h <-> vget (h_slot h) fh = Some NO_SLOT;
  hw_bound : zlen (h_slot h) <= 2 ^ 32 }.

(** Handles that point at a slot. *)
Definition handle_count (h : Handles) (i : Slot) : Z :=
  zlen (filter (fun s => s = i) (h_slot h)).

Definition handle_room (h : Handles) : Prop := h_free h <> [] \/ zlen (h_slot h) < 2 ^ 32.

Section handles.
Implicit Types (h : Handles) (i j : Slot) (fh : Z).

Lemma Handles_default_wf : handles_wf Handles_default.
Proof.
  split; simpl; [constructor | | done]. intros fh.
  rewrite vget_None by (unfold zlen; simpl; lia). set_solver.
Qed.

Lemma handles_get_Some h fh i :
  handles_get h fh = Some i <-> vget (h_slot h) fh = Some i /\ i <> NO_SLOT.
Proof.
  unfold handles_get. destruct (vget (h_slot h) fh) as [s|]; [|naive_solver].
  destruct (Z.eqb_spec s NO_SLOT); naive_solver.
Qed.

(** Replacing one element changes one count down and one up. *)
Lemma count_insert (l : list Slot) fh x y j :
  vget l fh = Some x ->
  zlen (filter (fun s => s = j) (<[Z.to_nat fh := y]> l)) =
    zlen (filter (fun s => s = j) l)
    - (if decide (x = j) then 1 else 0) + (if decide (y = j) then 1 else 0).
Proof.
  unfold vget. case_decide; [|done]. intros Hx.
  rewrite insert_take_drop by (by eapply lookup_lt_Some).
  rewrite <- (take_drop_middle l (Z.to_nat fh) x) at 3 by done.
  rewrite !filter_app, !zlen_app, !filter_cons.
  repeat case_decide; rewrite ?zlen_cons; lia.
Qed.

(** A new handle is one that was invalid, and points at its slot. *)
Lemma handles_alloc_spec h i :
  handles_wf h -> i <> NO_SLOT -> handle_room h ->
  exists fh h', handles_alloc h i = Some (fh, h') /\ handles_wf h' /\
    handles_get h fh = None /\ handles_get h' fh = Some i /\
    (forall fh', fh' <> fh -> handles_get h' fh' = handles_get h fh') /\
    (forall j, j <> NO_SLOT ->
       handle_count h' j = handle_count h j + (if decide (i = j) then 1 else 0)).
Proof.
  intros Hwf Hi Hroom. unfold handles_alloc.
  destruct (vec_pop (h_free h)) as [[fh free]|] eqn:Hpop.
  - apply vec_pop_Some in Hpop.
    assert (vget (h_slot h) fh = Some NO_SLOT) as Hfh
      by (apply (hw_free _ Hwf); rewrite Hpop; set_solver).
    pose proof (vget_Some _ _ _ Hfh) as Hr. rewrite vset_Some by done. cbn [mbind option_bind].
    pose proof (hw_nodup _ Hwf) as Hnd. rewrite Hpop in Hnd.
    apply NoDup_app in Hnd as (Hnd & Hnot & _).
    do 2 eexists. split; [done|]. unfold handles_get, handle_count. cbn [h_slot].
    split; [split; cbn [h_free h_slot]|]; [done| |by rewrite zlen_insert; apply Hwf|].
    + intros fh'. rewrite vget_insert_dec by done. pose proof (hw_free _ Hwf fh') as Hf.
      rewrite Hpop, elem_of_app, list_elem_of_singleton in Hf.
      case_decide; subst; [|naive_solver]. split; [|congruence].
      intros Hin. exfalso. apply (Hnot _ Hin). set_solver.
    + rewrite Hfh. split; [done|]. rewrite vget_insert_dec, decide_True by done.
      split; [by rewrite (proj2 (Z.eqb_neq i NO_SLOT))|]. split.
      * intros fh' Hne. by rewrite vget_insert_dec, decide_False by done.
      * intros j Hj. rewrite (count_insert _ _ _ _ _ Hfh).
        rewrite (decide_False (P := NO_SLOT = j)) by done. lia.
  - apply vec_pop_None in Hpop. destruct Hroom as [|Hroom]; [done|].
    do 2 eexists. split; [done|]. rewrite zlen_snoc, Z.add_simpl_r.
    assert (forall fh', vget (h_slot h ++ [i]) fh' =
      if decide (fh' = zlen (h_slot h)) then Some i else vget (h_slot h) fh') as Hv.
    { intros fh'. destruct (decide (fh' = zlen (h_slot h))) as [->|Hne].
      - unfold vget, zlen. rewrite decide_True by lia. rewrite Nat2Z.id.
        by apply list_lookup_middle.
      - unfold vget, zlen in *. case_decide; [|done].
        destruct (decide (Z.to_nat fh' < length (h_slot h))%nat); [by rewrite lookup_app_l|].
        rewrite !lookup_ge_None_2; [done|lia|]. rewrite length_app. simpl. lia. }
    unfold handles_get, handle_count. cbn [h_slot]. split; [split; cbn [h_free h_slot]|].
    + apply (hw_nodup _ Hwf).
    + intros fh'. rewrite Hv, (hw_free _ Hwf). case_decide as Hc; [|done]. subst fh'.
      rewrite vget_None by lia. split; [done | congruence].
    + rewrite zlen_snoc. lia.
    + rewrite vget_None by lia. split; [done|]. rewrite Hv, decide_True by done.
      split; [by rewrite (proj2 (Z.eqb_neq i NO_SLOT))|]. split.
      * intros fh' Hne. by rewrite Hv, decide_False by done.
      * intros j Hj. rewrite filter_app, zlen_app, filter_cons, filter_nil.
        case_decide; unfold zlen; simpl; lia.
Qed.

Lemma handles_release_spec h fh i :
  handles_wf h -> handles_get h fh = Some i ->
  exists h', handles_release h fh = Some (Some i, h') /\ handles_wf h' /\
    handles_get h' fh = None /\
    (forall fh', fh' <> fh -> handles_get h' fh' = handles_get h fh') /\
    (forall j, j <> NO_SLOT ->
       handle_count h' j = handle_count h j - (if decide (i = j) then 1 else 0)).
Proof.
  intros Hwf Hget. unfold handles_release. rewrite Hget.
  apply handles_get_Some in Hget as [Hfh Hi]. pose proof (vget_Some _ _ _ Hfh) as Hr.
  pose proof (hw_bound _ Hwf). rewrite vset_Some by done. cbn [mbind option_bind].
  rewrite u32_id by lia. eexists. split; [done|].
  unfold handles_get, handle_count. cbn [h_slot].
  split; [split; cbn [h_free h_slot]|].
  - apply NoDup_app. split; [apply (hw_nodup _ Hwf)|]. split; [|apply NoDup_singleton].
    intros fh' Hin ->%list_elem_of_singleton. apply (hw_free _ Hwf) in Hin. congruence.
  - intros fh'. rewrite vget_insert_dec by done.
    rewrite elem_of_app, list_elem_of_singleton, (hw_free _ Hwf). case_decide; naive_solver.
  - by rewrite zlen_insert.
  - rewrite vget_insert_dec, decide_True by done. split; [by rewrite Z.eqb_refl|]. split.
    + intros fh' Hne. by rewrite vget_insert_dec, decide_False by done.
    + intros j Hj. rewrite (count_insert _ _ _ _ _ Hfh).
      rewrite (decide_False (P := NO_SLOT = j)) by done. lia.
Qed.

Lemma handles_release_invalid h fh :
  handles_get h fh = None -> handles_release h fh = Some (None, h).
Proof. unfold handles_release. by intros ->. Qed.
End handles.

(** ** Handles and victims as their users see them *)

(** C37. The life of a handle: a number that was free, valid for its slot until the release,
    invalid afterwards, and a second release finds nothing; no other handle notices. *)
Theorem handle_lifecycle (h : Handles) (slot : Slot) :
  handles_wf h -> slot <> NO_SLOT -> handle_room h ->
  exists fh h1 h2,
    handles_alloc h slot = Some (fh, h1) /\ handles_get h fh = None /\
    handles_get h1 fh = Some slot /\
    handles_release h1 fh = Some (Some slot, h2) /\ handles_wf h2 /\
    handles_get h2 fh = None /\ handles_release h2 fh = Some (None, h2) /\
    forall fh', handles_get h2 fh' = handles_get h fh' /\
      (fh' <> fh -> handles_get h1 fh' = handles_get h fh').
Proof.
  intros Hwf Hs Hroom.
  destruct (handles_alloc_spec h slot) as (fh & h1 & Hal & Hwf1 & Hnew & Hget & Hoth & _); [done..|].
  destruct (handles_release_spec h1 fh slot) as (h2 & Hrel & Hwf2 & Hnone & Hoth2 & _); [done..|].
  exists fh, h1, h2. split_and!; try done; [by apply handles_release_invalid|].
  intros fh'. split; [|auto]. destruct (decide (fh' = fh)) as [->|Hne]; [congruence|].
  by rewrite Hoth2, Hoth.
Qed.

Lemma handle_lifecycle_witness :
  exists fh h1 h2, handles_alloc Handles_default 7 = Some (fh, h1) /\
    handles_release h1 fh = Some (Some 7, h2) /\ handles_get h2 fh = None.
Proof.
  destruct (handle_lifecycle Handles_default 7)
    as (fh & h1 & h2 & Hal & _ & _ & Hrel & _ & Hnone & _);
    [apply Handles_default_wf|discriminate|right; reflexivity|].
  by exists fh, h1, h2.
Defined.

(** The victim of an eviction does not depend on the order of the hash map but for
    ties: whatever the order, it is a slot with the most dirty chunks, and there is one
    unless no slot has any. *)
Theorem eviction_victim (order1 order2 : HashOrder) (t : OpenInodes) :
  inodes_wf t ->
  exists r1 r2, @largest_dirty order1 t = Some r1 /\ @largest_dirty order2 t = Some r2 /\
    match r1, r2 with
    | Some v1, Some v2 => exists e1 e2, entry_at t v1 = Some e1 /\ entry_at t v2 = Some e2 /\
        zlen (e_dirty e1) = zlen (e_dirty e2) /\ e_dirty e1 <> [] /\ live t v1 /\ live t v2
    | None, None => forall i e, live t i -> entry_at t i = Some e -> e_dirty e = []
    | _, _ => False
    end.
Proof.
  intros Hwf. destruct (@largest_dirty_spec order1 t Hwf) as (r1 & H1 & S1).
  destruct (@largest_dirty_spec order2 t Hwf) as (r2 & H2 & S2).
  exists r1, r2. split_and!; [done..|].
  destruct r1 as [v1|], r2 as [v2|]; [| | |done].
  - destruct S1 as (L1 & e1 & E1 & N1 & M1), S2 as (L2 & e2 & E2 & N2 & M2).
    exists e1, e2. split_and!; try done. pose proof (M1 v2 e2 L2 E2). pose proof (M2 v1 e1 L1 E1). lia.
  - destruct S1 as (L1 & e1 & E1 & N1 & _). by apply N1, (S2 v1).
  - destruct S2 as (L2 & e2 & E2 & N2 & _). by apply N2, (S1 v2).
Qed.

(** One order of iteration: that of the keys. *)
Definition key_order : HashOrder :=
  {| values_order := fun m => (map_to_list m).*2; values_order_perm := fun m => Permutation_refl _ |}.

Lemma eviction_victim_witness : exists r, @largest_dirty key_order OpenInodes_default = Some r.
Proof.
  destruct (eviction_victim key_order key_order OpenInodes_default) as (r & _ & Hr & _);
    [apply OpenInodes_default_wf|].
  by exists r.
Defined.
