(* ===== verification/Sql.v ===== *)
(** * Sql: the tables and the statements of the storage layer (src/db.rs)

    The four tables of the schema are maps from row ids to rows. A statement is
    the effect its SQL text describes. The engine that runs it is not part of the
    repository: a [World] says, for each statement in the order they are run,
    whether the engine fails it, what the clock shows, and which row id it gives
    to a new row. A failed statement changes nothing; a transaction that ends in
    an error is rolled back. *)

From S2P Require Import Prelude Effects Model Chunk.

(** What the operating system answers to opening or syncing a file. *)
Inductive IoError := IoNotFound (message : list byte) | IoOther (message : list byte).

Definition io_message (e : IoError) : list byte :=
  match e with IoNotFound m | IoOther m => m end.

Class World := {
  fault : nat -> option SqlError;         (* outcome of the nth engine call *)
  clock : nat -> SystemTime;              (* [SystemTime::now()] at that point *)
  new_rowid : gset Z -> option Z;         (* id for a row inserted without one *)
  conversion_message : Z -> list byte;    (* text of a failed column conversion *)
  constraint_message : Z -> list byte;    (* text of a failure of a statement, by code *)
  pragma_value : nat -> list byte -> Z;   (* a PRAGMA query with an integer result *)
  pragma_text : nat -> list byte -> list byte;
  db_path : option (list byte);           (* [Connection::path] *)
  open_result : nat -> list byte -> option IoError;   (* [File::open]; None is success *)
  sync_result : nat -> list byte -> option IoError;   (* [File::sync_data] *)
  mount_uid : Z;                          (* libc::getuid() *)
  mount_gid : Z }.                        (* libc::getgid() *)

(** What SQLite documents of a fresh row id: unused; positive when the ids in use
    are; an i64. [None] is its SQLITE_FULL. A constraint error is raised for a violated
    constraint, which the statements say themselves. And what rusqlite documents of
    [QueryReturnedNoRows]: it reports a query without rows, not a failure. *)
Class EngineLaws (w : World) : Prop := {
  new_rowid_fresh : forall s r, new_rowid s = Some r -> r ∉ s;
  new_rowid_pos : forall s r, new_rowid s = Some r -> set_Forall (fun x => 0 < x) s -> 0 < r;
  new_rowid_max : forall s r, new_rowid s = Some r -> r <= I64_MAX;
  fault_not_empty : forall n, fault n <> Some QueryReturnedNoRows;
  fault_not_constraint : forall n x m, fault n <> Some (SqliteFailure ConstraintViolation x m) }.

Record InodeRow := mkInodeRow {
  r_kind : Z; r_mode : Z; r_uid : Z; r_gid : Z; r_size : Z;
  r_atime_ns : Z; r_mtime_ns : Z; r_ctime_ns : Z; r_nlink : Z }.

Record DirentRow := mkDirentRow { d_parent : Z; d_name : list byte; d_child : Z }.

#[global] Instance DirentRow_eq_dec : EqDecision DirentRow.
Proof. solve_decision. Defined.

Record Tables := mkTables {
  t_inodes : gmap Z InodeRow;
  t_dirents : gmap Z DirentRow;
  t_chunks : gmap Z (list byte);
  t_symlinks : gmap Z (list byte) }.

(** A connection: the tables and the number of engine and clock calls so far. *)
Record Conn := mkConn { tables : Tables; ticks : nat }.

Abbreviation DbM := (M Conn DbError).

Definition with_inodes (t : Tables) v := mkTables v (t_dirents t) (t_chunks t) (t_symlinks t).
Definition with_dirents (t : Tables) v := mkTables (t_inodes t) v (t_chunks t) (t_symlinks t).
Definition with_chunks (t : Tables) v := mkTables (t_inodes t) (t_dirents t) v (t_symlinks t).
Definition with_symlinks (t : Tables) v := mkTables (t_inodes t) (t_dirents t) (t_chunks t) v.

Section engine.
Context `{World}.

Definition tick (c : Conn) : Conn := mkConn (tables c) (S (ticks c)).

(** One statement: a new table state and a result, or a constraint failure. *)
Definition stmt {A} (f : Tables -> (Tables * A) + SqlError) : DbM A := fun c =>
  match fault (ticks c) with
  | Some e => Err (from_sql_error e) (tick c)
  | None =>
      match f (tables c) with
      | inl (t, a) => Ok a (mkConn t (S (ticks c)))
      | inr e => Err (from_sql_error e) (tick c)
      end
  end.

Definition execute (f : Tables -> Tables) : DbM unit := stmt (fun t => inl (f t, tt)).
Definition query {A} (f : Tables -> A) : DbM A := stmt (fun t => inl (t, f t)).

(** [query_row]: no row is [QueryReturnedNoRows]. *)
Definition query_row {A} (f : Tables -> option A) : DbM A :=
  stmt (fun t => match f t with
                 | Some a => inl (t, a)
                 | None => inr QueryReturnedNoRows
                 end).

(** [rows.next()?] *)
Definition next_row : DbM unit := execute id.

Definition now_ts : DbM Timestamp := fun c => Ok (from_system_time (clock (ticks c))) (tick c).

(** [let tx = conn.transaction()?; m; tx.commit()?]: dropping [tx] on an error
    rolls back. *)
Definition transaction {A} (m : DbM A) : DbM A := fun c =>
  match (execute id ;; a ← m; execute id ;; mret a) c with
  | Err e c' => Err e (mkConn (tables c) (ticks c'))
  | r => r
  end.
End engine.

(** An error that the engine raised, rather than the code or a constraint. *)
Definition engine_error `{World} (e : DbError) : Prop :=
  exists n se, fault n = Some se /\ e = from_sql_error se.

(** A world where every statement runs. *)
Definition no_faults `{World} : Prop := forall n, fault n = None.

Lemma no_faults_engine_error `{World} e : no_faults -> ~ engine_error e.
Proof. intros Hn (n & se & Hf & _). by rewrite Hn in Hf. Qed.

Lemma engine_error_found `{!EngineLaws W} : ~ engine_error (H := W) NotFound.
Proof.
  intros (n & [| |] & Hf & He); [by apply (fault_not_empty n)| |done].
  unfold from_sql_error, sqlite_failure in He. by repeat case_match.
Qed.

Section engine_rules.
Context `{World}.
Implicit Types (c : Conn) (e : DbError).

Lemma wp_stmt {A} f (Q : A -> Conn -> Prop) R c :
  (forall t a c', f (tables c) = inl (t, a) -> tables c' = t -> Q a c') ->
  (forall se c', f (tables c) = inr se -> tables c' = tables c -> R (from_sql_error se) c') ->
  (forall e c', engine_error e -> tables c' = tables c -> R e c') ->
  wp (stmt f) Q R c.
Proof.
  intros HQ Hc He. unfold wp, stmt. destruct (fault (ticks c)) as [se|] eqn:Hf.
  - apply He; [|done]. by exists (ticks c), se.
  - destruct (f (tables c)) as [[t a]|se] eqn:Hr; [by eapply HQ | by apply Hc].
Qed.

Lemma wp_execute f (Q : unit -> Conn -> Prop) R c :
  (forall c', tables c' = f (tables c) -> Q tt c') ->
  (forall e c', engine_error e -> tables c' = tables c -> R e c') ->
  wp (execute f) Q R c.
Proof. intros HQ HR. apply wp_stmt; [|done|done]. intros t [] c' [= <-] Hc. by apply HQ. Qed.

Lemma wp_query {A} f (Q : A -> Conn -> Prop) R c :
  (forall c', tables c' = tables c -> Q (f (tables c)) c') ->
  (forall e c', engine_error e -> tables c' = tables c -> R e c') ->
  wp (query f) Q R c.
Proof. intros HQ HR. apply wp_stmt; [|done|done]. intros t a c' [= <- <-] Hc. by apply HQ. Qed.

Lemma wp_query_row {A} f (Q : A -> Conn -> Prop) R c :
  (forall a c', f (tables c) = Some a -> tables c' = tables c -> Q a c') ->
  (forall c', f (tables c) = None -> tables c' = tables c -> R NotFound c') ->
  (forall e c', engine_error e -> tables c' = tables c -> R e c') ->
  wp (query_row f) Q R c.
Proof.
  intros HQ HN HR. apply wp_stmt; [| |done]; destruct (f (tables c)); try done.
  - intros t b c' [= <- <-] Hc. by apply HQ.
  - intros se c' [= <-] Hc. by apply HN.
Qed.

Lemma wp_next_row (Q : unit -> Conn -> Prop) R c :
  (forall c', tables c' = tables c -> Q tt c') ->
  (forall e c', engine_error e -> tables c' = tables c -> R e c') ->
  wp next_row Q R c.
Proof. exact (wp_execute id Q R c). Qed.

Lemma wp_now (Q : Timestamp -> Conn -> Prop) (R : DbError -> Conn -> Prop) c :
  (forall ts c', tables c' = tables c -> Q ts c') -> wp now_ts Q R c.
Proof. intros HQ. by apply HQ. Qed.

(** A transaction runs its body and commits, or leaves the tables as they were. *)
Lemma wp_transaction {A} (m : DbM A) (Q : A -> Conn -> Prop) R c :
  (forall c0, tables c0 = tables c ->
     wp m (fun a c1 => forall c', tables c' = tables c1 -> Q a c')
          (fun e _ => forall c', tables c' = tables c -> R e c') c0) ->
  (forall e c', engine_error e -> tables c' = tables c -> R e c') ->
  wp (transaction m) Q R c.
Proof.
  intros Hm HR.
  assert (wp (execute id ;; a ← m; execute id ;; mret a) Q
    (fun e _ => forall c', tables c' = tables c -> R e c') c) as Hwp.
  { apply wp_bind, wp_execute; [|by eauto]. intros c0 Hc0. apply wp_bind.
    eapply wp_mono; [by apply Hm| |done]. simpl. intros a c1 HQ.
    apply wp_bind, wp_execute; [|by eauto]. intros c2 Hc2. apply wp_ret. by apply HQ. }
  revert Hwp. unfold wp, transaction. case_match; auto.
Qed.
End engine_rules.

(** ** The statements *)

(** [SELECT ... FROM inodes WHERE ino = ?] *)
Definition select_inode (ino : Z) (t : Tables) : option InodeRow := t_inodes t !! i64 ino.

(** [UPDATE inodes SET ... WHERE ino = ?] *)
Definition update_inode (f : InodeRow -> InodeRow) (ino : Z) (t : Tables) : Tables :=
  with_inodes t (alter f (i64 ino) (t_inodes t)).

Definition row_set_size (size ns : Z) (r : InodeRow) : InodeRow :=
  mkInodeRow (r_kind r) (r_mode r) (r_uid r) (r_gid r) size (r_atime_ns r) ns ns (r_nlink r).

(** [INSERT INTO file_chunks ... ON CONFLICT (id) DO UPDATE SET data] *)
Definition upsert_chunk (key : Z) (data : list byte) (t : Tables) : Tables :=
  with_chunks t (<[key := data]> (t_chunks t)).

(** [DELETE FROM file_chunks WHERE id BETWEEN lo AND hi] *)
Definition delete_chunks (lo hi : Z) (t : Tables) : Tables :=
  with_chunks t (filter (fun e => ~ (lo <= e.1 <= hi)) (t_chunks t)).

(** [UPDATE file_chunks SET data = substr(data, 1, len)
     WHERE id = key AND length(data) > len] *)
Definition cut_chunk (key len : Z) (t : Tables) : Tables :=
  with_chunks t
    (alter (fun data => if len <? zlen data then take (Z.to_nat len) data else data) key
       (t_chunks t)).

(** Reads used by every other component. *)
Section reads.
Context `{World}.

Definition of_sum {A} (s : A + DbError) : DbM A :=
  match s with inl a => mret a | inr e => throw e end.

Definition inode_head (ino : Z) : DbM (FileKind * Z) :=
  r ← query_row (select_inode ino);
  k ← of_sum (from_i64 (r_kind r));
  mret (k, u64 (r_size r)).

Definition inode_kind_of (ino : Z) : DbM FileKind :=
  r ← query_row (select_inode ino);
  of_sum (from_i64 (r_kind r)).

Definition set_size (ino size : Z) (modified : Timestamp) : DbM unit :=
  execute (update_inode (row_set_size (i64 size) (to_ns modified)) ino).
End reads.

(** ** The data invariant of the tables *)

Definition row_kind (r : InodeRow) : option FileKind :=
  match from_i64 (r_kind r) with inl k => Some k | inr _ => None end.

Definition inode_row_ok (ino : Z) (r : InodeRow) : Prop :=
  1 <= ino <= MAX_INO /\ is_Some (row_kind r) /\ 0 <= r_size r <= I64_MAX /\
  (row_kind r = Some RegularFile -> r_size r <= MAX_FILE_SIZE).

(** Every chunk row belongs to an inode, is no longer than a chunk, and ends
    within the size of its inode: bytes past the stored size do not exist. *)
Definition chunk_row_ok (t : Tables) (key : Z) (data : list byte) : Prop :=
  exists ino c r, valid_chunk c /\ key = chunk_key ino c /\ t_inodes t !! ino = Some r /\
    row_kind r = Some RegularFile /\
    zlen data <= CHUNK_SIZE /\ c * CHUNK_SIZE + zlen data <= r_size r.

Record data_wf (t : Tables) : Prop := {
  dw_rows : forall ino r, t_inodes t !! ino = Some r -> inode_row_ok ino r;
  dw_chunks : forall key data, t_chunks t !! key = Some data -> chunk_row_ok t key data }.

Definition stored_chunk (t : Tables) (ino c : Z) : list byte :=
  default [] (t_chunks t !! chunk_key ino c).

(** The byte of [ino] at position [p]: zero in a hole. *)
Definition stored_byte (t : Tables) (ino p : Z) : byte :=
  zget (stored_chunk t ino (p / CHUNK_SIZE)) (p mod CHUNK_SIZE).

Section data_facts.
Implicit Types (t : Tables) (ino c p : Z).

Lemma ino_ok_valid ino r : inode_row_ok ino r -> valid_ino ino.
Proof. intros [? _]. unfold valid_ino. lia. Qed.

Lemma ino_ok_i64 ino r : inode_row_ok ino r -> i64 ino = ino.
Proof. intros [? _]. apply i64_id. clia. Qed.

Lemma valid_ino_i64 ino : valid_ino ino -> i64 ino = ino.
Proof. unfold valid_ino. intros. apply i64_id. clia. Qed.

Lemma valid_chunk_pos p : 0 <= p < MAX_FILE_SIZE -> valid_chunk (p / CHUNK_SIZE).
Proof. unfold valid_chunk. intros. clia. Qed.

(** A stored chunk ends within the size of its inode. *)
Lemma stored_chunk_bound t ino c r :
  data_wf t -> t_inodes t !! ino = Some r -> valid_ino ino -> valid_chunk c ->
  zlen (stored_chunk t ino c) = 0 \/
  (zlen (stored_chunk t ino c) <= CHUNK_SIZE /\
   c * CHUNK_SIZE + zlen (stored_chunk t ino c) <= r_size r).
Proof.
  intros Hwf Hr Hi Hc. unfold stored_chunk.
  destruct (t_chunks t !! chunk_key ino c) as [data|] eqn:Hd; [|by left]. right. simpl.
  destruct (dw_chunks _ Hwf _ _ Hd) as (ino' & c' & r' & Hc' & Hk & Hr' & _ & Hl & Hs).
  apply chunk_key_inj in Hk as [<- <-]; [|done..|by eapply ino_ok_valid, dw_rows|done].
  by simplify_eq.
Qed.

Lemma stored_chunk_le t ino c :
  data_wf t -> valid_ino ino -> valid_chunk c -> zlen (stored_chunk t ino c) <= CHUNK_SIZE.
Proof.
  intros Hwf Hi Hc. unfold stored_chunk.
  destruct (t_chunks t !! chunk_key ino c) as [data|] eqn:Hd; [|unfold zlen; simpl; clia].
  by destruct (dw_chunks _ Hwf _ _ Hd) as (? & ? & ? & ? & ? & ? & ? & ? & ?).
Qed.

(** Past the stored size a file reads as zeros. *)
Lemma stored_byte_past t ino p r :
  data_wf t -> t_inodes t !! ino = Some r -> valid_ino ino ->
  r_size r <= p -> 0 <= p < MAX_FILE_SIZE -> stored_byte t ino p = x00.
Proof.
  intros Hwf Hr Hi Hp Hm. unfold stored_byte. pose proof (valid_chunk_pos p Hm).
  apply zget_byte_out. intros Hz.
  destruct (stored_chunk_bound t ino (p / CHUNK_SIZE) r) as [|[_ Hb]]; [done..|lia|].
  pose proof (Z.div_mod p CHUNK_SIZE ltac:(clia)). lia.
Qed.
End data_facts.

#[export] Hint Resolve ino_ok_valid stored_chunk_le valid_chunk_pos : dbfs.
