(* ===== verification/DbData.v ===== *)
(** * DbData: file contents in the database (src/db.rs)

    Reading, writing, truncating and flushing the chunks of a file. The
    specification of a file is its size and the byte at each position,
    [stored_byte]; the chunk rows are how the database represents it. *)

From S2P Require Import Prelude Effects Model Chunk Sql.

Section data_ops.
Context `{World}.

(** One row of a range query, copied into the buffer; [None] of [copy_out] is a
    panic. *)
Definition copy_row (span : ChunkSpan) (out : list byte) (row : Z * list byte)
    : DbM (list byte) :=
  next_row ;;
  unwrap (copy_out span (chunk_index_of row.1) row.2 out).

Definition read_into (ino offset : Z) (out : list byte) : DbM (list byte) :=
  match ChunkSpan_new offset (zlen out) with
  | None => mret out
  | Some span =>
      if MAX_CHUNKS <=? span_first span then mret out
      else
        let last := Z.min (span_last span) (MAX_CHUNKS - 1) in
        rows ← query (fun t =>
          select_between (t_chunks t) (chunk_key ino (span_first span)) (chunk_key ino last));
        out ← fold_each rows (copy_row span) out;
        next_row ;;
        mret out
  end.

Definition read_file (ino offset sz : Z) : DbM (list byte) :=
  '(k, file_size) ← inode_head ino;
  match regular_file_error k with
  | Some e => throw e
  | None =>
      if (file_size <=? offset) || (sz =? 0) then mret []
      else read_into ino offset (zeros x00 (Z.min sz (file_size - offset)))
  end.

(** One chunk of a write: replaced when it is covered in full, otherwise read,
    extended with zeros and patched. *)
Definition write_chunk (ino : Z) (span : ChunkSpan) (data : list byte) (chunk_index : Z)
    : DbM unit :=
  let p := piece span chunk_index in
  input ← unwrap (slice data (buf_start p) (buf_end p));
  let key := chunk_key ino chunk_index in
  if is_full_chunk p then execute (upsert_chunk key input)
  else
    found ← query (fun t => t_chunks t !! key);
    next_row ;;
    let scratch := default [] found in
    let scratch :=
      if zlen scratch <? chunk_end p then extend scratch (chunk_end p) x00 else scratch in
    scratch ← unwrap (copy_from_slice scratch (chunk_start p) (chunk_end p) input);
    execute (upsert_chunk key scratch).

(** One write of a batch; the accumulator is (new size, bytes written). *)
Definition write_one (ino : Z) (acc : Z * Z) (w : Z * list byte) : DbM (Z * Z) :=
  let '(offset, data) := w in
  match ChunkSpan_new offset (zlen data) with
  | None => mret acc
  | Some span =>
      for_each (zrange (span_first span) (span_last span)) (write_chunk ino span data) ;;
      mret (Z.max acc.1 (offset + zlen data), acc.2 + zlen data)
  end.

Definition write_file_batch_at (ino : Z) (writes : list (Z * list byte))
    (modified : Timestamp) : DbM Z :=
  '(k, size) ← inode_head ino;
  match regular_file_error k with
  | Some e => throw e
  | None =>
      if forallb (fun w => zlen w.2 =? 0) writes then mret 0
      else if existsb (fun w => MAX_FILE_SIZE <? Z.min U64_MAX (w.1 + zlen w.2)) writes
      then throw FileTooLarge
      else
        written ← transaction (
          acc ← fold_each writes (write_one ino) (size, 0);
          set_size ino acc.1 modified ;;
          mret acc.2);
        mret (u32 written)
  end.

Definition write_file_batch (ino : Z) (writes : list (Z * list byte)) : DbM Z :=
  now ← now_ts; write_file_batch_at ino writes now.

Definition write_file (ino offset : Z) (data : list byte) : DbM Z :=
  write_file_batch ino [(offset, data)].

(** The buffer after the copy, and how many bytes were stored. *)
Definition read_chunk_into (ino chunk_index : Z) (dst : list byte) : DbM (list byte * Z) :=
  found ← query (fun t => t_chunks t !! chunk_key ino chunk_index);
  next_row ;;
  match found with
  | None => mret (dst, 0)
  | Some data =>
      let len := Z.min (zlen data) (zlen dst) in
      d ← unwrap (slice data 0 len);
      dst ← unwrap (copy_from_slice dst 0 len d);
      mret (dst, len)
  end.

Definition replace_chunks (ino size : Z) (chunks : list (Z * list byte)) (now : Timestamp)
    : DbM unit :=
  transaction (
    for_each chunks (fun e => execute (upsert_chunk (chunk_key ino e.1) e.2)) ;;
    set_size ino size now).

Definition truncate_file (ino size : Z) : DbM unit :=
  k ← inode_kind_of ino;
  match regular_file_error k with
  | Some e => throw e
  | None =>
      if MAX_FILE_SIZE <? size then throw FileTooLarge
      else
        now ← now_ts;
        transaction (
          let '(first_key, last_key) := chunk_keys ino in
          (if size =? 0 then execute (delete_chunks first_key last_key)
           else
             let final_chunk_index := (size - 1) / CHUNK_SIZE in
             let final_chunk_len := (size - 1) mod CHUNK_SIZE + 1 in
             let final_key := chunk_key ino final_chunk_index in
             execute (delete_chunks (final_key + 1) last_key) ;;
             execute (cut_chunk final_key final_chunk_len)) ;;
          set_size ino size now)
  end.
End data_ops.

#[global] Arguments read_into : simpl never.

(** A regular file of the database. *)
Definition regular (t : Tables) (ino : Z) (r : InodeRow) : Prop :=
  t_inodes t !! ino = Some r /\ row_kind r = Some RegularFile.

Lemma row_kind_from_i64 r k : row_kind r = Some k <-> from_i64 (r_kind r) = inl k.
Proof. unfold row_kind. destruct (from_i64 (r_kind r)); naive_solver. Qed.

Section reads_spec.
Context `{World}.
Implicit Types (c : Conn) (ino offset p : Z).

(** [inode_head] of an existing inode with a valid kind. *)
Lemma wp_inode_head ino (Q : FileKind * Z -> Conn -> Prop) R c :
  data_wf (tables c) -> valid_ino ino ->
  (forall r k c', t_inodes (tables c) !! ino = Some r -> row_kind r = Some k ->
     inode_row_ok ino r -> tables c' = tables c -> Q (k, r_size r) c') ->
  (forall c', t_inodes (tables c) !! ino = None -> tables c' = tables c -> R NotFound c') ->
  (forall e c', engine_error e -> tables c' = tables c -> R e c') ->
  wp (inode_head ino) Q R c.
Proof.
  intros Hwf Hi HQ HN HR. unfold inode_head. apply wp_bind, wp_query_row.
  - intros r c' Hr Ht. unfold select_inode in Hr. rewrite valid_ino_i64 in Hr by done.
    pose proof (dw_rows _ Hwf _ _ Hr) as Hok. pose proof Hok as (_ & [k Hk] & Hsz & _).
    pose proof (proj1 (row_kind_from_i64 r k) Hk) as ->.
    apply wp_bind, wp_ret, wp_ret. unfold I64_MAX in Hsz. rewrite u64_id by lia. eauto.
  - intros c' Hn. unfold select_inode in Hn. rewrite valid_ino_i64 in Hn by done. auto.
  - auto.
Qed.

Lemma wp_inode_kind_of ino (Q : FileKind -> Conn -> Prop) R c :
  data_wf (tables c) -> valid_ino ino ->
  (forall r k c', t_inodes (tables c) !! ino = Some r -> row_kind r = Some k ->
     inode_row_ok ino r -> tables c' = tables c -> Q k c') ->
  (forall c', t_inodes (tables c) !! ino = None -> tables c' = tables c -> R NotFound c') ->
  (forall e c', engine_error e -> tables c' = tables c -> R e c') ->
  wp (inode_kind_of ino) Q R c.
Proof.
  intros Hwf Hi HQ HN HR. unfold inode_kind_of. apply wp_bind, wp_query_row.
  - intros r c' Hr Ht. unfold select_inode in Hr. rewrite valid_ino_i64 in Hr by done.
    pose proof (dw_rows _ Hwf _ _ Hr) as Hok. pose proof Hok as (_ & [k Hk] & _).
    pose proof (proj1 (row_kind_from_i64 r k) Hk) as ->. apply wp_ret. eauto.
  - intros c' Hn. unfold select_inode in Hn. rewrite valid_ino_i64 in Hn by done. auto.
  - auto.
Qed.

(** The rows of a range query over the chunks of [ino]. *)
Lemma select_chunks_rows t ino lo hi id d :
  data_wf t -> valid_ino ino -> valid_chunk lo -> valid_chunk hi ->
  (id, d) ∈ select_between (t_chunks t) (chunk_key ino lo) (chunk_key ino hi) <->
  exists k, valid_chunk k /\ lo <= k <= hi /\ id = chunk_key ino k /\
    t_chunks t !! id = Some d.
Proof.
  intros Hwf Hi Hlo Hhi. rewrite elem_of_select. split.
  - intros [Hd Hb]. destruct (dw_chunks _ Hwf _ _ Hd) as (ino' & k' & r & Hk' & -> & Hr' & _).
    apply chunk_key_between in Hb as [-> Hb]; eauto 10 using dw_rows with dbfs.
  - intros (k' & Hk' & Hb & -> & Hd). split; [done|]. by apply chunk_key_between.
Qed.

Definition chunk_rows (rows : list (Z * list byte)) : list (Z * list byte) :=
  (fun e => (chunk_index_of e.1, e.2)) <$> rows.

Lemma chunk_rows_app l1 l2 : chunk_rows (l1 ++ l2) = chunk_rows l1 ++ chunk_rows l2.
Proof. apply fmap_app. Qed.

Lemma chunk_rows_nodup t ino lo hi :
  data_wf t -> valid_ino ino -> valid_chunk lo -> valid_chunk hi ->
  NoDup (chunk_rows (select_between (t_chunks t) (chunk_key ino lo) (chunk_key ino hi))).*1.
Proof.
  intros Hwf Hi Hlo Hhi. unfold chunk_rows. rewrite <- list_fmap_compose.
  pose proof (select_between_nodup (t_chunks t) (chunk_key ino lo) (chunk_key ino hi)) as Hnd.
  revert Hnd.
  pose proof (fun id d => select_chunks_rows t ino lo hi id d Hwf Hi Hlo Hhi) as Hin.
  assert (forall id d, (id, d) ∈ select_between (t_chunks t) (chunk_key ino lo) (chunk_key ino hi) ->
    exists k, valid_chunk k /\ id = chunk_key ino k) as Hkey by (intros; naive_solver).
  clear Hin. revert Hkey. generalize (select_between (t_chunks t) (chunk_key ino lo) (chunk_key ino hi)).
  intros rows Hkey Hnd.
  replace ((fst ∘ (fun e : Z * list byte => (chunk_index_of e.1, e.2))) <$> rows)
    with (chunk_index_of <$> rows.*1) by (by rewrite <- list_fmap_compose).
  apply NoDup_fmap_2_strong; [|done].
  intros x y ([id d] & -> & Hx)%list_elem_of_fmap ([id' d'] & -> & Hy)%list_elem_of_fmap.
  apply Hkey in Hx as (k1 & Hk1 & ->). apply Hkey in Hy as (k2 & Hk2 & ->).
  simpl. rewrite !chunk_index_of_key by done. by intros ->.
Qed.

(** A range query finds the stored chunk of every index of the range. *)
Lemma select_chunks_assoc t ino lo hi k :
  data_wf t -> valid_ino ino -> valid_chunk lo -> valid_chunk hi -> valid_chunk k ->
  lo <= k <= hi ->
  assoc (chunk_rows (select_between (t_chunks t) (chunk_key ino lo) (chunk_key ino hi))) k =
    t_chunks t !! chunk_key ino k.
Proof.
  intros Hwf Hi Hlo Hhi Hk Hr. apply option_eq. intros d.
  rewrite assoc_Some by (by apply chunk_rows_nodup). unfold chunk_rows.
  rewrite list_elem_of_fmap. split.
  - intros ([id d'] & [= Hkey ->] & Hx).
    apply select_chunks_rows in Hx as (k' & Hk' & _ & -> & Hd); [|done..].
    simpl in Hkey. rewrite chunk_index_of_key in Hkey by done. by subst.
  - intros Hd. exists (chunk_key ino k, d). simpl. rewrite chunk_index_of_key by done.
    split; [done|]. apply select_chunks_rows; eauto 10.
Qed.

(** [read_into] copies the stored bytes over [out] and leaves the holes. *)
Lemma wp_read_into ino offset out (Q : list byte -> Conn -> Prop) R c :
  data_wf (tables c) -> valid_ino ino -> 0 <= offset ->
  offset + zlen out <= MAX_FILE_SIZE ->
  (forall out' c', tables c' = tables c -> zlen out' = zlen out ->
     (forall i, 0 <= i < zlen out -> zget out' i =
        if decide ((offset + i) mod CHUNK_SIZE <
                   zlen (stored_chunk (tables c) ino ((offset + i) / CHUNK_SIZE)))
        then stored_byte (tables c) ino (offset + i) else zget out i) ->
     Q out' c') ->
  (forall e c', engine_error e -> tables c' = tables c -> R e c') ->
  wp (read_into ino offset out) Q R c.
Proof.
  intros Hwf Hi Ho Hmax HQ HR. unfold read_into. pose proof (zlen_nonneg out).
  destruct (decide (zlen out = 0)) as [Hz|Hnz].
  { rewrite Hz. simpl. apply wp_ret. apply HQ; [done..|lia]. }
  destruct (ChunkSpan_new_ok offset (zlen out)) as (s & -> & Hok & Hs & He); [lia..|clia|].
  assert (valid_chunk (span_first s) /\ valid_chunk (span_last s) /\
    span_first s <= span_last s) as (Hf & Hl & Hfl).
  { destruct Hok as (? & ? & -> & ->). unfold valid_chunk. clia. }
  destruct (Z.leb_spec MAX_CHUNKS (span_first s)) as [|_]; [unfold valid_chunk in *; lia|].
  rewrite Z.min_l by (unfold valid_chunk in *; lia).
  apply wp_bind, wp_query; [|done]. intros c1 Hc1. cbv beta.
  set (rows := select_between _ _ _).
  assert (forall id d, (id, d) ∈ rows -> span_first s <= chunk_index_of id <= span_last s) as Hrow.
  { intros id d Hin. apply select_chunks_rows in Hin as (k & Hk & Hr & -> & _); [|done..].
    by rewrite chunk_index_of_key. }
  pose proof (chunk_rows_nodup _ ino _ _ Hwf Hi Hf Hl) as Hnd. fold rows in Hnd.
  apply wp_bind. eapply wp_mono; [eapply (wp_fold_each rows _ out
    (fun done out' c' => tables c' = tables c /\ overlaid s (chunk_rows done) out out')
    (fun e c' => R e c')) | | done].
  - split; [done | apply overlaid_nil].
  - intros dn [id d] rest out' c' Heq [Ht Hov]. unfold copy_row. apply wp_bind, wp_next_row.
    + intros c2 Hc2. rewrite chunk_rows_app.
      rewrite Heq, chunk_rows_app, fmap_app in Hnd. apply NoDup_app in Hnd as (_ & Hnot & _).
      destruct (overlaid_step s (chunk_rows dn) out out' (chunk_index_of id) d)
        as (out2 & Hco & Hov2); [done|lia|done| | |].
      * intros Hin. apply (Hnot _ Hin). simpl. by left.
      * apply (Hrow id d). rewrite Heq. set_solver.
      * simpl. eapply wp_unwrap; [done|]. split; [congruence|done].
    + intros e c2 Hee Hc2. apply HR; [done|congruence].
  - cbv beta. intros out' c' [Ht [Hlen Hov]]. apply wp_bind, wp_next_row.
    + intros c2 Hc2. apply wp_ret. apply HQ; [congruence|done|]. intros i Hir.
      rewrite Hov by done. rewrite Hs.
      pose proof (span_chunk_of s i Hok) as Hsp. rewrite Hs, He in Hsp.
      specialize (Hsp ltac:(lia)). subst rows.
      rewrite select_chunks_assoc by (done || apply valid_chunk_pos; lia).
      unfold stored_byte, stored_chunk.
      destruct (t_chunks (tables c) !! _) as [d|]; [done|]. simpl.
      rewrite decide_False; [done|]. unfold zlen. simpl. clia.
    + intros e c2 Hee Hc2. apply HR; [done|congruence].
Qed.

Lemma zget_stored_hole t ino p :
  0 <= p -> zlen (stored_chunk t ino (p / CHUNK_SIZE)) <= p mod CHUNK_SIZE ->
  stored_byte t ino p = x00.
Proof. intros Hp Hl. unfold stored_byte. apply zget_byte_out. lia. Qed.

(** Into a zeroed buffer: exactly the bytes of the file. *)
Lemma wp_read_into_zeros ino offset n (Q : list byte -> Conn -> Prop) R c :
  data_wf (tables c) -> valid_ino ino -> 0 <= offset -> 0 <= n ->
  offset + n <= MAX_FILE_SIZE ->
  (forall out c', tables c' = tables c -> zlen out = n ->
     (forall i, 0 <= i < n -> zget out i = stored_byte (tables c) ino (offset + i)) ->
     Q out c') ->
  (forall e c', engine_error e -> tables c' = tables c -> R e c') ->
  wp (read_into ino offset (zeros x00 n)) Q R c.
Proof.
  intros Hwf Hi Ho Hn Hmax HQ HR.
  assert (zlen (zeros x00 n) = n) as Hz by (by apply zlen_zeros).
  apply wp_read_into; [done..|by rewrite Hz| |done].
  intros out c' Ht Hl Hout. rewrite Hz in *. apply HQ; [done..|]. intros i Hir.
  rewrite Hout by done. case_decide; [done|]. rewrite zget_zeros, decide_True by done.
  by rewrite zget_stored_hole by lia.
Qed.

(** [read_file]: the bytes from [offset] up to [sz] of them or the end of file. *)
Lemma wp_read_file ino offset sz (Q : list byte -> Conn -> Prop) R c :
  data_wf (tables c) -> valid_ino ino -> 0 <= offset -> 0 <= sz ->
  (forall r out c', regular (tables c) ino r -> tables c' = tables c ->
     zlen out = Z.max 0 (Z.min sz (r_size r - offset)) ->
     (forall i, 0 <= i < zlen out -> zget out i = stored_byte (tables c) ino (offset + i)) ->
     Q out c') ->
  (forall r k e c', t_inodes (tables c) !! ino = Some r -> row_kind r = Some k ->
     regular_file_error k = Some e -> tables c' = tables c -> R e c') ->
  (forall c', t_inodes (tables c) !! ino = None -> tables c' = tables c -> R NotFound c') ->
  (forall e c', engine_error e -> tables c' = tables c -> R e c') ->
  wp (read_file ino offset sz) Q R c.
Proof.
  intros Hwf Hi Ho Hsz HQ HK HN HR. unfold read_file. apply wp_bind, wp_inode_head; [done..| |done|done].
  intros r k c1 Hr Hk Hrow Hc1. cbv beta iota.
  destruct (regular_file_error k) as [e|] eqn:Hke; [apply wp_throw; eauto|].
  assert (k = RegularFile) as -> by (by destruct k).
  assert (r_size r <= MAX_FILE_SIZE) as Hm by (by apply Hrow).
  destruct (Z.leb_spec (r_size r) offset), (Z.eqb_spec sz 0); simpl.
  1-3: apply wp_ret, (HQ r); try done; unfold zlen; simpl; lia.
  apply wp_read_into_zeros; rewrite ?Hc1; try done; try lia.
  intros out c2 Hc2 Hl Hout. apply (HQ r); [done|congruence|lia|].
  by rewrite Hl.
Qed.
End reads_spec.

(** ** Writing: chunk rows as an update of the file's bytes *)

(** [t'] differs from [t] in the contents and the row of [ino] only. *)
Record same_but_file (ino : Z) (t t' : Tables) : Prop := {
  sbf_dirents : t_dirents t' = t_dirents t;
  sbf_symlinks : t_symlinks t' = t_symlinks t;
  sbf_inodes : forall i, i <> ino -> t_inodes t' !! i = t_inodes t !! i;
  sbf_chunks : forall i c, valid_ino i -> valid_chunk c -> i <> ino ->
    stored_chunk t' i c = stored_chunk t i c }.

#[global] Instance same_but_file_preorder ino : PreOrder (same_but_file ino).
Proof.
  split; [by intros t; constructor|].
  intros t1 t2 t3 [H1 H2 H3 H4] [G1 G2 G3 G4]. constructor; intros; [congruence..| |].
  - rewrite G3, H3; done.
  - rewrite G4, H4; done.
Qed.

(** The bytes of a file after a write of [w.2] at [w.1]. *)
Definition write_bytes (f : Z -> byte) (w : Z * list byte) (p : Z) : byte :=
  if decide (w.1 <= p < w.1 + zlen w.2) then zget w.2 (p - w.1) else f p.

Definition write_size (size : Z) (w : Z * list byte) : Z :=
  if zlen w.2 =? 0 then size else Z.max size (w.1 + zlen w.2).

Definition row_head (r : InodeRow) : Z * Z := (r_kind r, r_size r).

Section chunk_updates.
Implicit Types (t : Tables) (ino c p : Z).

Lemma stored_chunk_upsert t ino c d ino' c' :
  valid_ino ino -> valid_chunk c -> valid_ino ino' -> valid_chunk c' ->
  stored_chunk (upsert_chunk (chunk_key ino c) d t) ino' c' =
    if decide (ino' = ino /\ c' = c) then d else stored_chunk t ino' c'.
Proof.
  intros Hi Hc Hi' Hc'. unfold stored_chunk, upsert_chunk. simpl. case_decide as Hd.
  - destruct Hd as [-> ->]. by rewrite lookup_insert_eq.
  - rewrite lookup_insert_ne; [done|]. intros Hk. apply Hd.
    apply chunk_key_inj in Hk as [-> ->]; done.
Qed.

Lemma stored_byte_upsert t ino c d ino' p :
  valid_ino ino -> valid_chunk c -> valid_ino ino' -> 0 <= p < MAX_FILE_SIZE ->
  stored_byte (upsert_chunk (chunk_key ino c) d t) ino' p =
    if decide (ino' = ino /\ p / CHUNK_SIZE = c) then zget d (p mod CHUNK_SIZE)
    else stored_byte t ino' p.
Proof.
  intros. unfold stored_byte. rewrite stored_chunk_upsert by eauto using valid_chunk_pos.
  by case_decide.
Qed.

Lemma upsert_same_but t ino c d :
  valid_ino ino -> valid_chunk c ->
  same_but_file ino t (upsert_chunk (chunk_key ino c) d t).
Proof.
  intros. constructor; try done. intros i c' **.
  rewrite stored_chunk_upsert by done. rewrite decide_False; [done|naive_solver].
Qed.

Lemma update_same_but t ino f :
  valid_ino ino -> same_but_file ino t (update_inode f ino t).
Proof.
  intros Hi. constructor; try done. intros i Hne. simpl.
  rewrite valid_ino_i64 by done. by rewrite lookup_alter_ne.
Qed.

Lemma upsert_data_wf t ino c d r :
  data_wf t -> valid_chunk c -> regular t ino r ->
  zlen d <= CHUNK_SIZE -> c * CHUNK_SIZE + zlen d <= r_size r ->
  data_wf (upsert_chunk (chunk_key ino c) d t).
Proof.
  intros [Hr Hd] Hc [Hi Hk] Hl Hs. constructor; [done|]. intros key data Hkey. simpl in Hkey.
  apply lookup_insert_Some in Hkey as [[<- <-]|[_ Hkey]]; [by exists ino, c, r|].
  apply Hd in Hkey as (i & c' & r' & ?). by exists i, c', r'.
Qed.

(** [t] with the size of [ino] raised or cut to [size]: the state in which the
    rows of a running transaction are consistent. *)
Definition sized (ino size : Z) t : Tables := update_inode (row_set_size size 0) ino t.

Lemma sized_lookup t ino size r :
  valid_ino ino -> t_inodes t !! ino = Some r ->
  t_inodes (sized ino size t) !! ino = Some (row_set_size size 0 r).
Proof. intros Hi Hr. simpl. rewrite valid_ino_i64 by done. by rewrite lookup_alter_eq, Hr. Qed.

Lemma sized_data_wf t ino r size :
  data_wf t -> regular t ino r -> r_size r <= size <= MAX_FILE_SIZE ->
  data_wf (sized ino size t).
Proof.
  intros Hwf [Hr Hk] Hs. pose proof (dw_rows _ Hwf _ _ Hr) as Hok.
  pose proof (ino_ok_valid _ _ Hok) as Hi. constructor.
  - intros i r' Hi'. simpl in Hi'. rewrite valid_ino_i64 in Hi' by done.
    destruct (decide (i = ino)) as [->|Hne].
    + rewrite lookup_alter_eq, Hr in Hi'. injection Hi' as <-.
      destruct Hok as (? & ? & ? & ?). split_and!; simpl; try done; unfold I64_MAX in *; clia.
    + rewrite lookup_alter_ne in Hi' by done. by apply (dw_rows _ Hwf).
  - intros key d Hd. destruct (dw_chunks _ Hwf _ _ Hd) as (i & c & r' & Hc & Hk' & Hr' & Hk2 & Hl & He).
    destruct (decide (i = ino)) as [->|Hne].
    + exists ino, c, (row_set_size size 0 r'). rewrite (sized_lookup _ _ _ r') by done.
      simplify_eq. split_and!; try done. simpl. lia.
    + exists i, c, r'. simpl. rewrite valid_ino_i64 by done. by rewrite lookup_alter_ne.
Qed.

(** The invariant reads only the kind and the size of a row. *)
Lemma data_wf_same_heads t t' :
  t_chunks t' = t_chunks t ->
  (forall i, row_head <$> t_inodes t' !! i = row_head <$> t_inodes t !! i) ->
  data_wf t -> data_wf t'.
Proof.
  intros Hc Hh [H1 H2]. constructor.
  - intros i r' Hr'. pose proof (Hh i) as Hi. rewrite Hr' in Hi.
    destruct (t_inodes t !! i) as [r|] eqn:Hr; [|done]. injection Hi as Hk Hs.
    specialize (H1 i r Hr). unfold inode_row_ok, row_kind in *. by rewrite Hk, Hs.
  - intros key d Hd. rewrite Hc in Hd. destruct (H2 key d Hd) as (i & c & r & ? & ? & Hr & Hk & ? & Hs).
    pose proof (Hh i) as Hi. rewrite Hr in Hi.
    destruct (t_inodes t' !! i) as [r'|] eqn:Hr'; [|done]. injection Hi as Hk' Hs'.
    exists i, c, r'. unfold row_kind in *. rewrite Hk', Hs'. done.
Qed.

(** Setting the size for good, with any time stamp. *)
Lemma data_wf_set_size t ino size ns :
  data_wf (sized ino size t) -> data_wf (update_inode (row_set_size size ns) ino t).
Proof.
  apply data_wf_same_heads; [done|]. intros i. simpl.
  destruct (decide (i = i64 ino)) as [->|]; [|by rewrite !lookup_alter_ne].
  rewrite !lookup_alter_eq. by destruct (t_inodes t !! i64 ino).
Qed.
End chunk_updates.

Section write_spec.
Context `{World}.
Implicit Types (c : Conn) (t : Tables) (ino p : Z).

(** A running write of [ino] that will end at size [sz]: the rows of the
    transaction are consistent for that size. *)
Definition writing (ino sz : Z) (r : InodeRow) (t0 t : Tables) : Prop :=
  same_but_file ino t0 t /\ t_inodes t = t_inodes t0 /\ regular t ino r /\
  valid_ino ino /\ r_size r <= sz <= MAX_FILE_SIZE /\ data_wf (sized ino sz t).

Lemma writing_chunk_le ino sz r t0 t k :
  writing ino sz r t0 t -> valid_chunk k -> zlen (stored_chunk t ino k) <= CHUNK_SIZE.
Proof.
  intros (_ & _ & _ & Hi & _ & Hwf) Hk. exact (stored_chunk_le (sized ino sz t) ino k Hwf Hi Hk).
Qed.

Lemma writing_chunk_end ino sz r t0 t k :
  writing ino sz r t0 t -> valid_chunk k ->
  zlen (stored_chunk t ino k) = 0 \/ k * CHUNK_SIZE + zlen (stored_chunk t ino k) <= sz.
Proof.
  intros (_ & _ & [Hr _] & Hi & _ & Hwf) Hk.
  destruct (stored_chunk_bound (sized ino sz t) ino k (row_set_size sz 0 r)) as [Hz|[_ Hb]];
    [done|by apply sized_lookup|done..|by left|by right].
Qed.

Lemma writing_upsert ino sz r t0 t k d :
  writing ino sz r t0 t -> valid_chunk k -> zlen d <= CHUNK_SIZE ->
  k * CHUNK_SIZE + zlen d <= sz ->
  writing ino sz r t0 (upsert_chunk (chunk_key ino k) d t).
Proof.
  intros (Hsb & Hin & Hreg & Hi & Hsz & Hwf) Hk Hl He. split_and!; try done; try lia.
  - etrans; [done|]. by apply upsert_same_but.
  - apply (upsert_data_wf (sized ino sz t) ino k d (row_set_size sz 0 r)); [done|done| |done|done].
    split; [by apply sized_lookup, Hreg | apply Hreg].
Qed.

(** The bytes a write puts into chunk [k] of the stored file. *)
Definition piece_written (t : Tables) (ino : Z) (s : ChunkSpan) (data : list byte) (k o : Z)
    : byte :=
  if decide (chunk_start (piece s k) <= o < chunk_end (piece s k))
  then zget data (buf_start (piece s k) + (o - chunk_start (piece s k)))
  else zget (stored_chunk t ino k) o.

Definition span_written (t : Tables) (ino : Z) (s : ChunkSpan) (data : list byte) (k p : Z)
    : byte :=
  if decide (p / CHUNK_SIZE = k /\ span_start s <= p < span_end s)
  then zget data (p - span_start s) else stored_byte t ino p.

Lemma piece_chunk_valid s k :
  span_ok s -> span_end s <= MAX_FILE_SIZE -> span_first s <= k <= span_last s ->
  valid_chunk k.
Proof. intros (? & ? & Hf & Hl) He Hk. unfold valid_chunk. rewrite Hf, Hl in Hk. clia. Qed.

Lemma upsert_piece t ino s data k d p :
  span_ok s -> span_end s <= MAX_FILE_SIZE -> valid_ino ino ->
  span_first s <= k <= span_last s ->
  (forall o, 0 <= o < CHUNK_SIZE -> zget d o = piece_written t ino s data k o) ->
  0 <= p < MAX_FILE_SIZE ->
  stored_byte (upsert_chunk (chunk_key ino k) d t) ino p = span_written t ino s data k p.
Proof.
  intros Hok Hend Hi Hk Hd Hp. pose proof (piece_chunk_valid _ _ Hok Hend Hk) as Hv.
  pose proof (piece_bounds s k Hok Hk) as Hb. cbv zeta in Hb.
  pose proof (piece_covers s k (p - span_start s) Hok Hk) as Hcov.
  rewrite stored_byte_upsert by done. unfold span_written.
  destruct (decide (p / CHUNK_SIZE = k)) as [<-|Hqk]; [|by rewrite !decide_False by tauto].
  assert (0 < CHUNK_SIZE) by clia. pose proof (Z.div_mod p CHUNK_SIZE).
  pose proof (Z.mod_pos_bound p CHUNK_SIZE).
  rewrite decide_True, Hd by (done || lia). unfold piece_written.
  replace (span_start s + (p - span_start s)) with p in Hcov by lia.
  destruct (decide (span_start s <= p < span_end s)) as [Hin|Hout].
  - pose proof (proj1 (Hcov ltac:(lia)) eq_refl).
    rewrite !decide_True by (done || lia). f_equal. lia.
  - rewrite !decide_False; [done|tauto|lia].
Qed.

(** The row of a partial chunk: read, extended with zeros and patched. *)
Lemma partial_chunk t ino s data k :
  let p := piece s k in
  let old := stored_chunk t ino k in
  span_ok s -> span_first s <= k <= span_last s -> zlen data = span_end s - span_start s ->
  exists d,
    copy_from_slice
      (if zlen old <? chunk_end p then extend old (chunk_end p) x00 else old)
      (chunk_start p) (chunk_end p) (sub data (buf_start p) (buf_end p)) = Some d /\
    zlen d = Z.max (zlen old) (chunk_end p) /\
    forall o, 0 <= o -> zget d o = piece_written t ino s data k o.
Proof.
  intros p old Hok Hk Hlen. pose proof (piece_bounds s k Hok Hk) as Hb. cbv zeta in Hb.
  fold p in Hb. set (scratch := if zlen old <? chunk_end p then _ else _).
  assert (zlen scratch = Z.max (zlen old) (chunk_end p)) as Hsc.
  { unfold scratch. destruct (Z.ltb_spec (zlen old) (chunk_end p)); [rewrite zlen_extend|]; lia. }
  assert (zlen (sub data (buf_start p) (buf_end p)) = chunk_end p - chunk_start p) as Hsl
    by (rewrite zlen_sub; lia).
  eexists. split; [apply copy_from_slice_Some; lia|]. rewrite zlen_patch by lia.
  split; [done|]. intros o Ho. rewrite zget_patch, Hsl by lia. unfold piece_written. fold p old.
  replace (chunk_start p + (chunk_end p - chunk_start p)) with (chunk_end p) by lia.
  case_decide; [rewrite zget_sub by lia; by rewrite decide_True by lia|].
  unfold scratch. destruct (Z.ltb_spec (zlen old) (chunk_end p)); [|done].
  rewrite zget_extend by lia. case_decide; [|done]. by rewrite zget_byte_out by lia.
Qed.

(** One chunk of a write: the bytes of its piece, the rest as it was. *)
Lemma wp_write_chunk ino sz r t0 s data k Q R c :
  writing ino sz r t0 (tables c) -> span_ok s -> span_end s <= sz ->
  zlen data = span_end s - span_start s -> span_first s <= k <= span_last s ->
  (forall c', writing ino sz r t0 (tables c') ->
     (forall p, 0 <= p < MAX_FILE_SIZE ->
        stored_byte (tables c') ino p = span_written (tables c) ino s data k p) -> Q tt c') ->
  (forall e c', engine_error e -> R e c') ->
  wp (write_chunk ino s data k) Q R c.
Proof.
  intros Hw Hok Hend Hlen Hk HQ HR. unfold write_chunk.
  pose proof (piece_bounds s k Hok Hk) as Hb. cbv zeta in Hb.
  assert (valid_ino ino /\ sz <= MAX_FILE_SIZE) as [Hi Hm] by (destruct Hw as (?&?&?&?&?&?); split; [done|lia]).
  pose proof (piece_chunk_valid _ _ Hok ltac:(lia) Hk) as Hv.
  assert (forall d c', zlen d <= CHUNK_SIZE -> k * CHUNK_SIZE + zlen d <= sz ->
    (forall o, 0 <= o < CHUNK_SIZE -> zget d o = piece_written (tables c) ino s data k o) ->
    tables c' = upsert_chunk (chunk_key ino k) d (tables c) -> Q tt c') as Hput.
  { intros d c' Hl He Hd Hc'. apply HQ; rewrite Hc'; [by apply writing_upsert|].
    intros p Hp. apply upsert_piece; done || lia. }
  apply wp_bind. eapply wp_unwrap; [by apply slice_Some; lia|].
  destruct (is_full_chunk (piece s k)) eqn:Hfull.
  - apply andb_true_iff in Hfull as [Hcs%Z.eqb_eq Hce%Z.eqb_eq].
    apply wp_execute; [|by eauto]. intros c' Hc'.
    eapply Hput; [| | |exact Hc']; [rewrite zlen_sub by lia; lia..|].
    intros o Ho. rewrite zget_sub by lia. unfold piece_written.
    rewrite !decide_True by lia. f_equal. lia.
  - apply wp_bind, wp_query; [|by eauto]. intros c1 Hc1. cbv beta.
    apply wp_bind, wp_next_row; [|by eauto]. intros c2 Hc2.
    pose proof (writing_chunk_le _ _ _ _ _ _ Hw Hv). pose proof (writing_chunk_end _ _ _ _ _ _ Hw Hv).
    destruct (partial_chunk (tables c) ino s data k) as (d & Hd & Hdl & Hdo); [done..|].
    change (default [] (t_chunks (tables c) !! chunk_key ino k)) with (stored_chunk (tables c) ino k).
    apply wp_bind. eapply wp_unwrap; [exact Hd|]. apply wp_execute; [|by eauto].
    intros c' Hc'. eapply Hput; [| | |rewrite Hc', Hc2, Hc1; done]; [lia..|].
    intros o Ho. apply Hdo. lia.
Qed.

Lemma wp_write_one ino sz r t0 acc w (Q : Z * Z -> Conn -> Prop) R c :
  writing ino sz r t0 (tables c) -> 0 <= w.1 ->
  (zlen w.2 <> 0 -> w.1 + zlen w.2 <= sz) ->
  (forall c', writing ino sz r t0 (tables c') ->
     (forall p, 0 <= p < MAX_FILE_SIZE ->
        stored_byte (tables c') ino p = write_bytes (stored_byte (tables c) ino) w p) ->
     Q (write_size acc.1 w, acc.2 + zlen w.2) c') ->
  (forall e c', engine_error e -> R e c') ->
  wp (write_one ino acc w) Q R c.
Proof.
  intros Hw Ho Hfit HQ HR. destruct w as [offset data]. unfold write_one, write_size in *.
  cbn [fst snd] in *. pose proof (zlen_nonneg data).
  destruct (Z.eqb_spec (zlen data) 0) as [Hz|Hnz].
  { rewrite Hz in *. simpl. apply wp_ret. rewrite Z.add_0_r in HQ. destruct acc. apply HQ; [done|].
    intros p Hp. unfold write_bytes. cbn [fst snd]. by rewrite Hz, decide_False by lia. }
  assert (sz <= MAX_FILE_SIZE) by (destruct Hw as (?&?&?&?&?&?); lia).
  destruct (ChunkSpan_new_ok offset (zlen data)) as (s & -> & Hok & Hs & He); [lia..|clia|].
  apply wp_bind. wp_call (wp_for_each (zrange (span_first s) (span_last s)) _
    (fun dn c' => writing ino sz r t0 (tables c') /\
       forall p, 0 <= p < MAX_FILE_SIZE -> stored_byte (tables c') ino p =
         if decide (p / CHUNK_SIZE ∈ dn) then write_bytes (stored_byte (tables c) ino) (offset, data) p
         else stored_byte (tables c) ino p) R).
  - split; [done|]. intros p Hp. by rewrite decide_False by set_solver.
  - intros dn k rest c' Heq [Hw' Hb]. assert (span_first s <= k <= span_last s) as Hk.
    { apply elem_of_zrange. rewrite Heq. set_solver. }
    apply (wp_write_chunk ino sz r t0); [done|done|lia|lia|done| |done].
    intros c2 Hw2 Hb2. split; [done|]. intros p Hp. rewrite Hb2 by done.
    unfold span_written. rewrite Hb, Hs, He by done. unfold write_bytes. cbn [fst snd].
    assert (p / CHUNK_SIZE ∈ dn ++ [k] <-> p / CHUNK_SIZE ∈ dn \/ p / CHUNK_SIZE = k)
      by (by rewrite elem_of_app, list_elem_of_singleton).
    repeat case_decide; tauto || done.
  - intros _ c' [Hw' Hb]. apply wp_ret. apply HQ; [done|]. intros p Hp. rewrite Hb by done.
    case_decide as Hin; [done|]. unfold write_bytes. cbn [fst snd]. rewrite decide_False; [done|].
    intros Hin'. apply Hin, elem_of_zrange. pose proof (span_chunk_of s (p - offset) Hok) as Hsp.
    rewrite Hs, He in Hsp. replace (offset + (p - offset)) with p in Hsp by lia. apply Hsp. lia.
  - done.
Qed.

Lemma write_size_le sz w : sz <= write_size sz w.
Proof. unfold write_size. case_match; lia. Qed.

Lemma foldl_write_size_le ws sz : sz <= foldl write_size sz ws.
Proof.
  revert sz. induction ws as [|w ws IH]; intros sz; simpl; [lia|].
  pose proof (write_size_le sz w). specialize (IH (write_size sz w)). lia.
Qed.

Lemma foldl_write_size_fits ws sz w :
  w ∈ ws -> zlen w.2 <> 0 -> w.1 + zlen w.2 <= foldl write_size sz ws.
Proof.
  intros [l1 [l2 ->]]%list_elem_of_split Hz. rewrite foldl_app. simpl.
  etrans; [|apply foldl_write_size_le]. unfold write_size.
  destruct (Z.eqb_spec (zlen w.2) 0); lia.
Qed.

Lemma foldl_write_size_max ws sz m :
  sz <= m -> (forall w, w ∈ ws -> w.1 + zlen w.2 <= m) -> foldl write_size sz ws <= m.
Proof.
  revert sz. induction ws as [|w ws IH]; intros sz Hs Hw; simpl; [done|].
  apply IH; [|set_solver]. unfold write_size. pose proof (Hw w ltac:(set_solver)).
  case_match; lia.
Qed.

(** The loop of a batch, inside its transaction. *)
Lemma wp_write_all ino sz r t0 size ws (Q : Z * Z -> Conn -> Prop) R c :
  writing ino sz r t0 (tables c) -> (forall w, w ∈ ws -> 0 <= w.1) ->
  (forall w, w ∈ ws -> zlen w.2 <> 0 -> w.1 + zlen w.2 <= sz) ->
  (forall c', writing ino sz r t0 (tables c') ->
     (forall p, 0 <= p < MAX_FILE_SIZE ->
        stored_byte (tables c') ino p = foldl write_bytes (stored_byte (tables c) ino) ws p) ->
     Q (foldl write_size size ws, foldl (fun n w => n + zlen w.2) 0 ws) c') ->
  (forall e c', engine_error e -> R e c') ->
  wp (fold_each ws (write_one ino) (size, 0)) Q R c.
Proof.
  intros Hw Hpos Hfit HQ HR.
  wp_call (wp_fold_each ws (write_one ino) (size, 0) (fun dn acc c' =>
    writing ino sz r t0 (tables c') /\
    acc = (foldl write_size size dn, foldl (fun n w => n + zlen w.2) 0 dn) /\
    forall p, 0 <= p < MAX_FILE_SIZE ->
      stored_byte (tables c') ino p = foldl write_bytes (stored_byte (tables c) ino) dn p) R).
  - done.
  - intros dn w rest acc c' Heq (Hw' & -> & Hb). assert (w ∈ ws) by (rewrite Heq; set_solver).
    apply (wp_write_one ino sz r t0); [done|by apply Hpos|by apply Hfit| |done].
    intros c2 Hw2 Hb2. rewrite !foldl_app. split_and!; [done|done|]. intros p Hp.
    rewrite Hb2 by done. simpl. unfold write_bytes at 1 3. by rewrite Hb.
  - intros acc c' (Hw' & -> & Hb). by apply HQ.
  - done.
Qed.

(** The whole effect of a change to one file: its bytes are [f], its size [sz],
    its times [ns]; nothing else moves. *)
Record file_set (ino sz ns : Z) (f : Z -> byte) (t t' : Tables) : Prop := {
  fs_same : same_but_file ino t t';
  fs_inodes : t_inodes t' = alter (row_set_size sz ns) ino (t_inodes t);
  fs_wf : data_wf t';
  fs_bytes : forall p, 0 <= p < MAX_FILE_SIZE -> stored_byte t' ino p = f p }.

Lemma file_set_regular ino sz ns f t t' r :
  file_set ino sz ns f t t' -> regular t ino r -> regular t' ino (row_set_size sz ns r).
Proof.
  intros Hf [Hr Hk]. split; [|done]. rewrite (fs_inodes _ _ _ _ _ _ Hf). by rewrite lookup_alter_eq, Hr.
Qed.

(** Ends a change: the size and the times are set and the rows are consistent. *)
Lemma wp_set_size_sized ino sz r t0 ns c (Q : unit -> Conn -> Prop) (R : DbError -> Conn -> Prop) :
  same_but_file ino t0 (tables c) -> t_inodes (tables c) = t_inodes t0 ->
  regular (tables c) ino r -> valid_ino ino -> data_wf (sized ino sz (tables c)) ->
  (forall c', file_set ino sz (to_ns ns) (stored_byte (tables c) ino) t0 (tables c') -> Q tt c') ->
  (forall e c', engine_error e -> R e c') ->
  wp (set_size ino sz ns) Q R c.
Proof.
  intros Hsb Hin [Hr Hk] Hi Hwf HQ HR. apply wp_execute; [|by eauto]. intros c' Hc'.
  assert (i64 sz = sz) as Hsz.
  { pose proof (dw_rows _ Hwf _ _ (sized_lookup _ _ _ _ Hi Hr)) as (_ & _ & Hb & _).
    simpl in Hb. unfold I64_MAX in Hb. apply i64_id. lia. }
  apply HQ. rewrite Hc', Hsz. constructor.
  - etrans; [exact Hsb|]. by apply update_same_but.
  - simpl. by rewrite Hin, valid_ino_i64.
  - by apply data_wf_set_size.
  - done.
Qed.

Definition too_large (w : Z * list byte) : Prop := MAX_FILE_SIZE < w.1 + zlen w.2.

Lemma too_large_spec ws :
  existsb (fun w : Z * list byte => MAX_FILE_SIZE <? Z.min U64_MAX (w.1 + zlen w.2)) ws = true <->
  Exists too_large ws.
Proof.
  rewrite existsb_exists, Exists_exists. setoid_rewrite list_elem_of_In.
  unfold too_large, U64_MAX. split; intros (w & Hin & Hw); exists w; (split; [done|]).
  - apply Z.ltb_lt in Hw. lia.
  - apply Z.ltb_lt. clia.
Qed.

Lemma wp_write_file_batch_at ino ws modified (Q : Z -> Conn -> Prop) R c :
  data_wf (tables c) -> valid_ino ino -> (forall w, w ∈ ws -> 0 <= w.1) ->
  (forall r c', regular (tables c) ino r -> Forall (fun w => zlen w.2 = 0) ws ->
     tables c' = tables c -> Q 0 c') ->
  (forall r c', regular (tables c) ino r -> Forall (fun w => ~ too_large w) ws ->
     file_set ino (foldl write_size (r_size r) ws) (to_ns modified)
       (foldl write_bytes (stored_byte (tables c) ino) ws) (tables c) (tables c') ->
     Q (u32 (foldl (fun n w => n + zlen w.2) 0 ws)) c') ->
  (forall r c', regular (tables c) ino r -> Exists too_large ws ->
     tables c' = tables c -> R FileTooLarge c') ->
  (forall r k e c', t_inodes (tables c) !! ino = Some r -> row_kind r = Some k ->
     regular_file_error k = Some e -> tables c' = tables c -> R e c') ->
  (forall c', t_inodes (tables c) !! ino = None -> tables c' = tables c -> R NotFound c') ->
  (forall e c', engine_error e -> tables c' = tables c -> R e c') ->
  wp (write_file_batch_at ino ws modified) Q R c.
Proof.
  intros Hwf Hi Hpos HQ0 HQ HL HK HN HR. unfold write_file_batch_at.
  apply wp_bind, wp_inode_head; [done..| |done|done]. intros r k c1 Hr Hk Hrow Hc1. cbv beta iota.
  destruct (regular_file_error k) as [e|] eqn:Hke; [apply wp_throw; eauto|].
  assert (k = RegularFile) as -> by (by destruct k).
  assert (regular (tables c) ino r) as Hreg by done.
  destruct (forallb _ ws) eqn:Hall.
  { apply wp_ret, (HQ0 r); [done| |done]. apply Forall_forall. intros w Hw.
    rewrite forallb_forall in Hall. by apply Z.eqb_eq, Hall, list_elem_of_In. }
  destruct (existsb _ ws) eqn:Hbig.
  { apply wp_throw, (HL r); [done| |done]. by apply too_large_spec. }
  assert (Forall (fun w => ~ too_large w) ws) as Hsmall.
  { apply Forall_Exists_neg. intros Hex%too_large_spec. congruence. }
  set (sz := foldl write_size (r_size r) ws).
  assert (sz <= MAX_FILE_SIZE) as Hmax.
  { apply foldl_write_size_max; [by apply Hrow|]. intros w Hw.
    rewrite Forall_forall in Hsmall. specialize (Hsmall w Hw). unfold too_large in Hsmall. lia. }
  assert (r_size r <= sz) by apply foldl_write_size_le.
  apply wp_bind, wp_transaction; [|by intros; apply HR; congruence]. intros c2 Hc2.
  apply wp_bind. assert (Ht2 : tables c2 = tables c) by congruence.
  apply (wp_write_all ino sz r (tables c)).
  - rewrite Ht2. split_and!; try done. by apply (sized_data_wf _ _ r).
  - done.
  - intros w Hw Hz. by apply foldl_write_size_fits.
  - intros c3 Hw3 Hb3. apply wp_bind. destruct Hw3 as (Hsb & Hin & Hreg3 & _ & _ & Hwf3).
    apply (wp_set_size_sized ino sz r (tables c)); [done..| |].
    + intros c4 Hf. apply wp_ret. intros c' Hc'. apply wp_ret, (HQ r); [done..|].
      rewrite Hc'. destruct Hf. constructor; try done. intros p Hp.
      rewrite fs_bytes0, Hb3 by done. by rewrite Ht2.
    + intros e c4 He c' Hc'. apply HR; congruence.
  - intros e c3 He c' Hc'. apply HR; congruence.
Qed.

(** A stored chunk copied over the start of [dst]. *)
Lemma wp_read_chunk_into ino k dst (Q : list byte * Z -> Conn -> Prop) R c :
  (forall dst' c', tables c' = tables c ->
     let n := Z.min (zlen (stored_chunk (tables c) ino k)) (zlen dst) in
     zlen dst' = zlen dst ->
     (forall i, 0 <= i -> zget dst' i =
        if decide (i < n) then zget (stored_chunk (tables c) ino k) i else zget dst i) ->
     Q (dst', n) c') ->
  (forall e c', engine_error e -> tables c' = tables c -> R e c') ->
  wp (read_chunk_into ino k dst) Q R c.
Proof.
  intros HQ HR. unfold read_chunk_into, stored_chunk in *.
  apply wp_bind, wp_query; [|done]. intros c1 Hc1. cbv beta.
  apply wp_bind, wp_next_row; [|intros; apply HR; congruence]. intros c2 Hc2.
  assert (tables c2 = tables c) as Ht by congruence. pose proof (zlen_nonneg dst).
  destruct (t_chunks (tables c) !! chunk_key ino k) as [d|]; cbn [default] in HQ.
  - pose proof (zlen_nonneg d). change (from_option _ _ _) with d in HQ.
    set (n := Z.min (zlen d) (zlen dst)) in *.
    assert (zlen (sub d 0 n) = n) by (rewrite zlen_sub; lia).
    apply wp_bind. eapply wp_unwrap; [apply slice_Some; lia|].
    apply wp_bind. eapply wp_unwrap; [apply copy_from_slice_Some; lia|].
    apply wp_ret, HQ; [done|by apply zlen_patch; lia|]. intros i Hi. change (id d) with d. fold n.
    rewrite zget_patch by lia. repeat case_decide; try lia; [|done].
    rewrite zget_sub by lia. rewrite decide_True by lia. f_equal. lia.
  - apply wp_ret. change (zlen []) with 0 in HQ.
    specialize (HQ dst c2 Ht). cbv zeta in HQ. rewrite Z.min_l in HQ by lia.
    apply HQ; [done|]. intros i Hi. by rewrite decide_False by lia.
Qed.

Definition chunk_fits (sz : Z) (e : Z * list byte) : Prop :=
  valid_chunk e.1 /\ zlen e.2 <= CHUNK_SIZE /\ e.1 * CHUNK_SIZE + zlen e.2 <= sz.

(** The bytes of a file whose chunks [chunks] are replaced. *)
Definition replaced_byte (t : Tables) (ino : Z) (chunks : list (Z * list byte)) (p : Z) : byte :=
  match assoc chunks (p / CHUNK_SIZE) with
  | Some d => zget d (p mod CHUNK_SIZE)
  | None => stored_byte t ino p
  end.

Lemma wp_replace_chunks ino sz chunks now r (Q : unit -> Conn -> Prop) R c :
  data_wf (tables c) -> valid_ino ino -> regular (tables c) ino r ->
  r_size r <= sz <= MAX_FILE_SIZE -> NoDup chunks.*1 -> Forall (chunk_fits sz) chunks ->
  (forall c', file_set ino sz (to_ns now) (replaced_byte (tables c) ino chunks)
     (tables c) (tables c') -> Q tt c') ->
  (forall e c', engine_error e -> tables c' = tables c -> R e c') ->
  wp (replace_chunks ino sz chunks now) Q R c.
Proof.
  intros Hwf Hi Hreg Hsz Hnd Hfit HQ HR. apply wp_transaction; [|done]. intros c0 Hc0.
  apply wp_bind. wp_call (wp_for_each chunks _ (fun dn c' =>
    writing ino sz r (tables c) (tables c') /\
    forall p, 0 <= p < MAX_FILE_SIZE ->
      stored_byte (tables c') ino p = replaced_byte (tables c) ino dn p)
    (fun e _ => engine_error e)).
  - rewrite Hc0. split; [|done]. split_and!; try done; [apply Hreg..|lia|lia|].
    by apply (sized_data_wf _ _ r).
  - intros dn [k d] rest c1 Heq [Hw Hb]. apply wp_execute; [|done]. intros c2 Hc2. rewrite Hc2.
    rewrite Forall_forall in Hfit. destruct (Hfit (k, d)) as (Hk & Hl & He); [set_solver|].
    split; [by apply writing_upsert|]. intros p Hp. cbn [fst snd].
    rewrite stored_byte_upsert, Hb by done. unfold replaced_byte.
    rewrite assoc_snoc. rewrite Heq, fmap_app in Hnd. apply NoDup_app in Hnd as (_ & Hnot & _).
    destruct (decide (p / CHUNK_SIZE = k)) as [->|Hne].
    + rewrite decide_True by done. rewrite (proj2 (assoc_None dn k)), decide_True; [done|done|].
      intros Hin. apply (Hnot _ Hin). simpl. by left.
    + rewrite decide_False by tauto. rewrite (decide_False (P := k = _)) by done.
      by destruct (assoc dn _).
  - intros _ c1 [(Hsb & Hin & Hr1 & _ & _ & Hwf1) Hb].
    apply (wp_set_size_sized ino sz r (tables c)); [done..| |].
    + intros c2 Hf c' Hc'. apply HQ. rewrite Hc'. destruct Hf. constructor; try done.
      intros p Hp. by rewrite fs_bytes0, Hb.
    + intros e c2 He c' Hc'. by apply HR.
  - intros e c1 He c' Hc'. by apply HR.
Qed.
End write_spec.

(** ** Truncation *)

Section truncate_spec.
Context `{World}.
Implicit Types (c : Conn) (t : Tables) (ino p : Z).

(** The statements of [truncate_file] on the chunk rows. *)
Definition cut_rows (ino size : Z) (t : Tables) : Tables :=
  let '(first_key, last_key) := chunk_keys ino in
  if size =? 0 then delete_chunks first_key last_key t
  else
    let key := chunk_key ino ((size - 1) / CHUNK_SIZE) in
    cut_chunk key ((size - 1) mod CHUNK_SIZE + 1) (delete_chunks (key + 1) last_key t).

Definition cut_row (size k : Z) (row : option (list byte)) : option (list byte) :=
  if decide (k * CHUNK_SIZE < size)
  then take (Z.to_nat (size - k * CHUNK_SIZE)) <$> row else None.

Lemma delete_chunks_lookup t lo hi key :
  t_chunks (delete_chunks lo hi t) !! key =
    if decide (lo <= key <= hi) then None else t_chunks t !! key.
Proof.
  simpl. rewrite map_lookup_filter. destruct (t_chunks t !! key); simpl; [|by case_decide].
  case_guard; case_decide; simpl in *; tauto || done.
Qed.

Lemma cut_chunk_lookup t k n key :
  t_chunks (cut_chunk k n t) !! key =
    if decide (key = k) then take (Z.to_nat n) <$> t_chunks t !! key else t_chunks t !! key.
Proof.
  simpl. case_decide as Hk; [|by rewrite lookup_alter_ne].
  rewrite Hk, lookup_alter_eq. destruct (t_chunks t !! k) as [d|]; [|done]. simpl. f_equal.
  destruct (Z.ltb_spec n (zlen d)); [done|]. rewrite take_ge; [done|].
  unfold zlen in *. lia.
Qed.

Lemma last_chunk_valid : valid_chunk (MAX_CHUNKS - 1).
Proof. unfold valid_chunk. clia. Qed.

(** Every chunk row of the file is cut at [size]; those past it are gone. *)
Lemma cut_rows_lookup t ino size k :
  valid_ino ino -> 0 <= size <= MAX_FILE_SIZE -> valid_chunk k ->
  (forall d, t_chunks t !! chunk_key ino k = Some d -> zlen d <= CHUNK_SIZE) ->
  t_chunks (cut_rows ino size t) !! chunk_key ino k =
    cut_row size k (t_chunks t !! chunk_key ino k).
Proof.
  intros Hi Hs Hk Hd. pose proof last_chunk_valid as Hlast.
  unfold cut_rows, cut_row, chunk_keys. pose proof Hk as [Hk0 Hk1].
  assert (0 < CHUNK_SIZE) by clia. destruct (Z.eqb_spec size 0) as [->|Hnz].
  - rewrite delete_chunks_lookup, decide_True, decide_False; [done|clia|].
    apply chunk_key_between; try done; unfold valid_chunk; lia.
  - set (q := (size - 1) / CHUNK_SIZE). assert (valid_chunk q) as Hq.
    { unfold valid_chunk, q. clia. }
    rewrite cut_chunk_lookup, delete_chunks_lookup.
    pose proof (chunk_key_eq ino k Hi Hk). pose proof (chunk_key_eq ino q Hi Hq).
    pose proof (chunk_key_eq ino _ Hi Hlast).
    destruct (decide (k = q)) as [->|Hne].
    + rewrite (decide_True (P := _ = _)) by done. rewrite decide_False by lia.
      rewrite decide_True by (unfold q; clia). do 2 f_equal. unfold q. clia.
    + rewrite (decide_False (P := _ = _)) by lia.
      destruct (decide (k * CHUNK_SIZE < size)) as [Hlt|Hge].
      * assert (k < q) by (unfold q in *; clia). rewrite decide_False by lia.
        destruct (t_chunks t !! chunk_key ino k) as [d|]; [|done]. simpl.
        specialize (Hd d eq_refl). rewrite take_ge; [done|].
        assert ((k + 1) * CHUNK_SIZE <= size - 1) by (unfold q in *; clia).
        unfold zlen in Hd. lia.
      * rewrite decide_True; [done|]. assert (q < k) by (unfold q in *; clia). lia.
Qed.

Lemma cut_rows_other t ino size i k :
  valid_ino ino -> 0 <= size <= MAX_FILE_SIZE -> valid_ino i -> valid_chunk k -> i <> ino ->
  t_chunks (cut_rows ino size t) !! chunk_key i k = t_chunks t !! chunk_key i k.
Proof.
  intros Hi Hs Hi' Hk Hne. pose proof last_chunk_valid as Hlast.
  unfold cut_rows, chunk_keys. pose proof Hk as [Hk0 Hk1].
  assert (0 < CHUNK_SIZE) by clia. pose proof (chunk_key_eq i k Hi' Hk).
  pose proof (chunk_key_eq ino _ Hi Hlast).
  assert (valid_chunk 0) as Hz0 by (unfold valid_chunk; clia).
  pose proof (chunk_key_eq ino _ Hi Hz0).
  destruct (Z.eqb_spec size 0) as [->|Hnz].
  - rewrite delete_chunks_lookup, decide_False; [done|]. clia.
  - assert (valid_chunk ((size - 1) / CHUNK_SIZE)) as Hq by (unfold valid_chunk; clia).
    pose proof (chunk_key_eq ino _ Hi Hq).
    rewrite cut_chunk_lookup, delete_chunks_lookup.
    rewrite !decide_False; [done|clia|clia].
Qed.

Lemma cut_rows_sub t ino size key d :
  t_chunks (cut_rows ino size t) !! key = Some d -> is_Some (t_chunks t !! key).
Proof.
  unfold cut_rows, chunk_keys. destruct (size =? 0); [|rewrite cut_chunk_lookup];
    rewrite delete_chunks_lookup; repeat case_decide; try done;
    destruct (t_chunks t !! key); done.
Qed.

Lemma cut_rows_heads t ino size :
  t_inodes (cut_rows ino size t) = t_inodes t /\
  t_dirents (cut_rows ino size t) = t_dirents t /\
  t_symlinks (cut_rows ino size t) = t_symlinks t.
Proof. unfold cut_rows, chunk_keys. by destruct (size =? 0). Qed.

Lemma cut_rows_same t ino size :
  valid_ino ino -> 0 <= size <= MAX_FILE_SIZE -> same_but_file ino t (cut_rows ino size t).
Proof.
  intros Hi Hs. destruct (cut_rows_heads t ino size) as (E1 & E2 & E3).
  constructor; [done|done|by rewrite E1|]. intros. unfold stored_chunk.
  by rewrite cut_rows_other.
Qed.

Lemma chunk_at_le t ino k d :
  data_wf t -> t_chunks t !! chunk_key ino k = Some d -> zlen d <= CHUNK_SIZE.
Proof. intros Hwf Hd. by destruct (dw_chunks _ Hwf _ _ Hd) as (? & ? & ? & ? & ? & ? & ? & ? & ?). Qed.

Lemma cut_rows_byte t ino size p :
  data_wf t -> valid_ino ino -> 0 <= size <= MAX_FILE_SIZE -> 0 <= p < MAX_FILE_SIZE ->
  stored_byte (cut_rows ino size t) ino p = if decide (p < size) then stored_byte t ino p else x00.
Proof.
  intros Hwf Hi Hs Hp. pose proof (valid_chunk_pos p Hp) as Hk. unfold stored_byte, stored_chunk.
  rewrite cut_rows_lookup by eauto using chunk_at_le. unfold cut_row.
  assert (0 < CHUNK_SIZE) by clia. pose proof (Z.div_mod p CHUNK_SIZE ltac:(lia)).
  pose proof (Z.mod_pos_bound p CHUNK_SIZE ltac:(lia)).
  destruct (decide (p / CHUNK_SIZE * CHUNK_SIZE < size)) as [Hlt|Hge].
  - destruct (t_chunks t !! _) as [d|]; simpl; [|rewrite zget_nil; by case_decide].
    rewrite zget_take. repeat case_decide; lia || done.
  - rewrite decide_False by lia. exact (zget_nil (p mod CHUNK_SIZE)).
Qed.

Lemma cut_rows_wf t ino size r :
  data_wf t -> regular t ino r -> 0 <= size <= MAX_FILE_SIZE ->
  data_wf (sized ino size (cut_rows ino size t)).
Proof.
  intros Hwf [Hr Hk] Hs. pose proof (dw_rows _ Hwf _ _ Hr) as Hok.
  pose proof (ino_ok_valid _ _ Hok) as Hi. destruct (cut_rows_heads t ino size) as (E1 & _ & _).
  constructor.
  - intros i r' Hi'. simpl in Hi'. rewrite E1, valid_ino_i64 in Hi' by done.
    destruct (decide (i = ino)) as [->|Hne].
    + rewrite lookup_alter_eq, Hr in Hi'. injection Hi' as <-.
      destruct Hok as (? & ? & ? & ?). split_and!; simpl; try done; unfold I64_MAX in *; clia.
    + rewrite lookup_alter_ne in Hi' by done. by apply (dw_rows _ Hwf).
  - intros key d Hd. change (t_chunks (cut_rows ino size t) !! key = Some d) in Hd.
    pose proof (cut_rows_sub _ _ _ _ _ Hd) as [d0 Hd0].
    destruct (dw_chunks _ Hwf _ _ Hd0) as (i & k & r' & Hk' & -> & Hr' & Hk2 & Hl & He).
    exists i, k, (if decide (i = ino) then row_set_size size 0 r' else r').
    simpl. rewrite E1, valid_ino_i64 by done. destruct (decide (i = ino)) as [->|Hne].
    + rewrite cut_rows_lookup, Hd0 in Hd by eauto using chunk_at_le. unfold cut_row in Hd.
      case_decide; [|done]. injection Hd as <-. rewrite lookup_alter_eq, Hr'.
      split_and!; try done; unfold zlen in *; rewrite length_take; simpl; lia.
    + rewrite cut_rows_other, Hd0 in Hd by eauto using ino_ok_valid, dw_rows.
      injection Hd as <-. by rewrite lookup_alter_ne.
Qed.

(** [truncate_file]: the bytes below both sizes stay, the rest is zero. *)
Lemma wp_truncate_file ino size (Q : unit -> Conn -> Prop) R c :
  data_wf (tables c) -> valid_ino ino -> 0 <= size ->
  (forall r now c', regular (tables c) ino r -> size <= MAX_FILE_SIZE ->
     file_set ino size (to_ns now)
       (fun p => if decide (p < size) then stored_byte (tables c) ino p else x00)
       (tables c) (tables c') -> Q tt c') ->
  (forall r c', regular (tables c) ino r -> MAX_FILE_SIZE < size ->
     tables c' = tables c -> R FileTooLarge c') ->
  (forall r k e c', t_inodes (tables c) !! ino = Some r -> row_kind r = Some k ->
     regular_file_error k = Some e -> tables c' = tables c -> R e c') ->
  (forall c', t_inodes (tables c) !! ino = None -> tables c' = tables c -> R NotFound c') ->
  (forall e c', engine_error e -> tables c' = tables c -> R e c') ->
  wp (truncate_file ino size) Q R c.
Proof.
  intros Hwf Hi Hs HQ HL HK HN HR. unfold truncate_file.
  apply wp_bind, wp_inode_kind_of; [done..| |done|done]. intros r k c1 Hr Hk Hrow Hc1. cbv beta iota.
  destruct (regular_file_error k) as [e|] eqn:Hke; [apply wp_throw; eauto|].
  assert (k = RegularFile) as -> by (by destruct k).
  destruct (Z.ltb_spec MAX_FILE_SIZE size); [by apply wp_throw, (HL r)|].
  apply wp_bind, wp_now. intros now c2 Hc2. apply wp_transaction; [|intros; apply HR; congruence].
  intros c3 Hc3. assert (Ht3 : tables c3 = tables c) by congruence.
  assert (forall e c' , engine_error e -> forall c'', tables c'' = tables c2 -> R e c'') as HR'
    by (intros; apply HR; congruence).
  enough (forall c4, tables c4 = cut_rows ino size (tables c) ->
    wp (set_size ino size now) (fun a c5 => forall c', tables c' = tables c5 -> Q a c')
      (fun e _ => forall c', tables c' = tables c2 -> R e c') c4) as Hend.
  { unfold cut_rows, chunk_keys in Hend |- *. apply wp_bind.
    destruct (size =? 0); [|apply wp_bind]; (apply wp_execute; [|by eauto]); intros c4 Hc4;
      [|apply wp_execute; [|by eauto]; intros c5 Hc5]; apply Hend; congruence. }
  intros c4 Hc4. apply (wp_set_size_sized ino size r (tables c)).
  - rewrite Hc4. by apply cut_rows_same.
  - rewrite Hc4. apply cut_rows_heads.
  - rewrite Hc4. split; [|done]. by destruct (cut_rows_heads (tables c) ino size) as (-> & _).
  - done.
  - rewrite Hc4. by apply (cut_rows_wf _ _ _ r).
  - intros c5 Hf c' Hc'. apply (HQ r now); [done|lia|]. rewrite Hc'. destruct Hf.
    constructor; try done. intros p Hp. rewrite fs_bytes0, Hc4 by done. by apply cut_rows_byte.
  - eauto.
Qed.
End truncate_spec.
