(* ===== verification/DbNames.v ===== *)
(** * DbNames: names, links and inode rows in the database (src/db.rs)

    The operations on directory entries: lookup, listing, creation, links,
    removal and rename, with the inode rows and link counts they keep. The
    statements are modelled with the schema's constraints: the unique index on
    (parent, name), and the foreign keys with their cascades. *)

From S2P Require Import Prelude Effects Model Chunk Sql.

Definition NAME_MAX : Z := 255.

Inductive NewNode :=
  | NewDirectory (mode : Z)
  | NewFile (mode : Z)
  | NewSymlink (target : list byte).

(** ** Rows and statements *)

(** The row of [inodes] with id [ino], if any. *)
Definition has_inode (ino : Z) (t : Tables) : bool := bool_decide (is_Some (t_inodes t !! ino)).

Definition entry_is (parent : Z) (name : list byte) (e : Z * DirentRow) : Prop :=
  d_parent e.2 = parent /\ d_name e.2 = name.

#[global] Instance entry_is_dec parent name e : Decision (entry_is parent name e).
Proof. unfold entry_is. apply _. Defined.

(** [WHERE parent_ino = ? AND name = ?]; the unique index leaves at most one. *)
Definition find_entry (parent : Z) (name : list byte) (t : Tables) : option (Z * DirentRow) :=
  head (filter (entry_is parent name) (map_to_list (t_dirents t))).

(** [SELECT parent_ino FROM dirents WHERE child_ino = ?], first row. *)
Definition find_parent (child : Z) (t : Tables) : option Z :=
  (fun e => d_parent e.2) <$>
    head (filter (fun e => d_child e.2 = child) (map_to_list (t_dirents t))).

(** Entries of a directory, in the order of their ids. *)
Definition entries_after (parent after : Z) (t : Tables) : list (Z * DirentRow) :=
  filter (fun e => d_parent e.2 = parent /\ after < e.1)
    (merge_sort key_le (map_to_list (t_dirents t))).

(** [JOIN inodes i ON i.ino = d.child_ino] *)
Definition join_child (t : Tables) (e : Z * DirentRow) : option (Z * DirentRow * InodeRow) :=
  r ← t_inodes t !! d_child e.2; Some (e, r).

Definition UNIQUE_FAILURE `{World} : SqlError :=
  SqliteFailure ConstraintViolation SQLITE_CONSTRAINT_UNIQUE
    (constraint_message SQLITE_CONSTRAINT_UNIQUE).
Definition FOREIGN_KEY_FAILURE `{World} : SqlError :=
  SqliteFailure ConstraintViolation SQLITE_CONSTRAINT_FOREIGNKEY
    (constraint_message SQLITE_CONSTRAINT_FOREIGNKEY).
Definition PRIMARY_KEY_FAILURE `{World} : SqlError :=
  SqliteFailure ConstraintViolation SQLITE_CONSTRAINT_PRIMARYKEY
    (constraint_message SQLITE_CONSTRAINT_PRIMARYKEY).
Definition FULL_FAILURE `{World} : SqlError :=
  SqliteFailure DiskFull SQLITE_FULL (constraint_message SQLITE_FULL).

Section statements.
Context `{World}.

(** [INSERT INTO dirents (parent_ino, name, child_ino)] *)
Definition insert_dirent (parent : Z) (name : list byte) (child : Z) (t : Tables)
    : (Tables * unit) + SqlError :=
  match new_rowid (dom (t_dirents t)) with
  | None => inr FULL_FAILURE
  | Some id =>
      match find_entry parent name t with
      | Some _ => inr UNIQUE_FAILURE
      | None =>
          if has_inode parent t && has_inode child t
          then inl (with_dirents t (<[id := mkDirentRow parent name child]> (t_dirents t)), tt)
          else inr FOREIGN_KEY_FAILURE
      end
  end.

(** [DELETE FROM dirents WHERE parent_ino = ? AND name = ?] *)
Definition delete_entry (parent : Z) (name : list byte) (t : Tables) : Tables :=
  with_dirents t (filter (fun e => ~ entry_is parent name e) (t_dirents t)).

(** [UPDATE dirents SET parent_ino, name WHERE parent_ino = ? AND name = ?] *)
Definition move_entry (parent : Z) (name : list byte) (new_parent : Z) (new_name : list byte)
    (t : Tables) : (Tables * unit) + SqlError :=
  match find_entry parent name t with
  | None => inl (t, tt)
  | Some (id, d) =>
      match find_entry new_parent new_name t with
      | Some (id', _) => if bool_decide (id' <> id) then inr UNIQUE_FAILURE else inl (t, tt)
      | None =>
          if has_inode new_parent t
          then inl (with_dirents t
                 (<[id := mkDirentRow new_parent new_name (d_child d)]> (t_dirents t)), tt)
          else inr FOREIGN_KEY_FAILURE
      end
  end.

(** [INSERT INTO inodes (...)] without an id; returns [last_insert_rowid()]. *)
Definition insert_inode (r : InodeRow) (t : Tables) : (Tables * Z) + SqlError :=
  match new_rowid (dom (t_inodes t)) with
  | None => inr FULL_FAILURE
  | Some ino => inl (with_inodes t (<[ino := r]> (t_inodes t)), ino)
  end.

(** [INSERT INTO symlink_targets (ino, target)] *)
Definition insert_symlink (ino : Z) (target : list byte) (t : Tables)
    : (Tables * unit) + SqlError :=
  match t_symlinks t !! ino with
  | Some _ => inr PRIMARY_KEY_FAILURE
  | None =>
      if has_inode ino t
      then inl (with_symlinks t (<[ino := target]> (t_symlinks t)), tt)
      else inr FOREIGN_KEY_FAILURE
  end.

(** [DELETE FROM inodes WHERE ino = ?], with the cascades of the foreign keys of
    [dirents] and [symlink_targets]. *)
Definition delete_inode_row (ino : Z) (t : Tables) : Tables :=
  match t_inodes t !! i64 ino with
  | None => t
  | Some _ =>
      mkTables (delete (i64 ino) (t_inodes t))
        (filter (fun e => d_parent e.2 <> i64 ino /\ d_child e.2 <> i64 ino) (t_dirents t))
        (t_chunks t) (delete (i64 ino) (t_symlinks t))
  end.
End statements.

Definition row_touch (ns : Z) (r : InodeRow) : InodeRow :=
  mkInodeRow (r_kind r) (r_mode r) (r_uid r) (r_gid r) (r_size r) (r_atime_ns r) ns ns (r_nlink r).

Definition row_add_nlink (delta : Z) (r : InodeRow) : InodeRow :=
  mkInodeRow (r_kind r) (r_mode r) (r_uid r) (r_gid r) (r_size r) (r_atime_ns r)
    (r_mtime_ns r) (r_ctime_ns r) (r_nlink r + delta).

Definition row_set_nlink (nlink ctime_ns : Z) (r : InodeRow) : InodeRow :=
  mkInodeRow (r_kind r) (r_mode r) (r_uid r) (r_gid r) (r_size r) (r_atime_ns r)
    (r_mtime_ns r) ctime_ns nlink.

Definition row_set_metadata (mode uid gid atime_ns mtime_ns ctime_ns : Z) (r : InodeRow)
    : InodeRow :=
  mkInodeRow (r_kind r) mode uid gid (r_size r) atime_ns mtime_ns ctime_ns (r_nlink r).

(** [ORDER BY d.name] *)
Definition name_le (e1 e2 : Z * DirentRow * InodeRow) : Prop :=
  bytes_le (d_name e1.1.2) (d_name e2.1.2).

#[global] Instance name_le_dec e1 e2 : Decision (name_le e1 e2).
Proof. unfold name_le, bytes_le. apply _. Defined.

Section operations.
Context `{World}.

Definition check_name (name : list byte) : DbM unit :=
  if NAME_MAX <? zlen name then throw NameTooLong else mret tt.

(** The closure of [query_row]: a kind it does not know is a conversion failure. *)
Definition inode_from_row (ino : Z) (r : InodeRow) : DbM Inode :=
  match from_i64 (r_kind r) with
  | inr _ => throw (from_sql_error (OtherSqlError (conversion_message 1)))
  | inl k =>
      mret (mkInode (u64 ino) k (u32 (r_mode r)) (u32 (r_uid r)) (u32 (r_gid r))
        (u64 (r_size r)) (from_ns (r_atime_ns r)) (from_ns (r_mtime_ns r))
        (from_ns (r_ctime_ns r)) (u32 (r_nlink r)))
  end.

Definition get_inode (ino : Z) : DbM Inode :=
  r ← query_row (select_inode ino);
  inode_from_row (i64 ino) r.

Definition lookup (parent_ino : Z) (name : list byte) : DbM Inode :=
  check_name name ;;
  found ← query_row (fun t => e ← find_entry (i64 parent_ino) name t; join_child t e);
  inode_from_row (d_child found.1.2) found.2.

Definition dir_entry (e : Z * DirentRow * InodeRow) : DbM DirEntry :=
  next_row ;;
  match from_i64 (r_kind e.2) with
  | inr _ => throw (from_sql_error (OtherSqlError (conversion_message 2)))
  | inl k => mret (mkDirEntry (d_name e.1.2) (u64 (d_child e.1.2)) k)
  end.

Definition list_dir (ino : Z) : DbM (list DirEntry) :=
  k ← inode_kind_of ino;
  if negb (bool_decide (k = Directory)) then throw NotDirectory
  else
    rows ← query (fun t => omap (join_child t)
      (filter (fun e => d_parent e.2 = i64 ino) (map_to_list (t_dirents t))));
    entries ← fold_each (merge_sort name_le rows)
      (fun acc e => d ← dir_entry e; mret (acc ++ [d])) [];
    next_row ;;
    mret entries.

(** The rows of a directory stream; [emit] returns its state and whether to
    stop. *)
Fixpoint emit_rows {X} (rows : list (Z * DirentRow * InodeRow))
    (emit : X -> Z -> list byte -> Z -> FileKind -> X * bool) (acc : X) : DbM X :=
  match rows with
  | [] => next_row ;; mret acc
  | (id, d, r) :: rows =>
      next_row ;;
      kind ← of_sum (from_i64 (r_kind r));
      let '(acc, stop) := emit acc id (d_name d) (u64 (d_child d)) kind in
      if (stop : bool) then mret acc else emit_rows rows emit acc
  end.

Definition read_dir_after {X} (ino after_id : Z)
    (emit : X -> Z -> list byte -> Z -> FileKind -> X * bool) (acc : X) : DbM X :=
  k ← inode_kind_of ino;
  if negb (bool_decide (k = Directory)) then throw NotDirectory
  else
    rows ← query (fun t => omap (join_child t) (entries_after (i64 ino) after_id t));
    emit_rows rows emit acc.

Definition parent_of_dir (ino : Z) : DbM Z :=
  if ino =? 1 then mret 1
  else p ← query_row (find_parent (i64 ino)); mret (u64 p).

Definition touch_dir (ino : Z) (now : Timestamp) : DbM unit :=
  execute (update_inode (row_touch (to_ns now)) ino).

Definition add_directory_nlink (ino delta : Z) : DbM unit :=
  execute (update_inode (row_add_nlink delta) ino).

Definition delete_inode_rows (ino : Z) : DbM unit :=
  let '(first, last) := chunk_keys ino in
  execute (delete_chunks first last) ;;
  execute (delete_inode_row ino).

Definition drop_unlinked_inode (target : Inode) (now : Timestamp) (is_open : bool)
    : DbM unit :=
  if bool_decide (i_kind target = Directory) then delete_inode_rows (i_ino target)
  else if (1 <? i_nlink target) || is_open then
    let nlink := Z.max 0 (i_nlink target - 1) in
    execute (update_inode (row_set_nlink nlink (to_ns now)) (i_ino target))
  else delete_inode_rows (i_ino target).

Definition node_fields (node : NewNode) : FileKind * Z * Z :=
  match node with
  | NewDirectory mode => (Directory, mode, 0)
  | NewFile mode => (RegularFile, mode, 0)
  | NewSymlink target => (Symlink, 511, zlen target)
  end.

Definition create_node (parent_ino : Z) (name : list byte) (node : NewNode) (uid gid : Z)
    : DbM Inode :=
  check_name name ;;
  k ← inode_kind_of parent_ino;
  if negb (bool_decide (k = Directory)) then throw NotDirectory
  else
    now ← now_ts;
    let '(kind, mode, size) := node_fields node in
    let nlink := if bool_decide (kind = Directory) then 2 else 1 in
    let parent_delta := if bool_decide (kind = Directory) then 1 else 0 in
    transaction (
      id ← stmt (insert_inode (mkInodeRow (as_i64 kind) mode uid gid (i64 size)
                   (to_ns now) (to_ns now) (to_ns now) nlink));
      let ino := u64 id in
      if MAX_INO <? ino then throw NoSpace
      else
        stmt (insert_dirent (i64 parent_ino) name (i64 ino)) ;;
        (match node with
         | NewSymlink target => stmt (insert_symlink (i64 ino) target)
         | _ => mret tt
         end) ;;
        touch_dir parent_ino now ;;
        (if parent_delta =? 0 then mret tt else add_directory_nlink parent_ino parent_delta) ;;
        mret (mkInode ino kind mode uid gid size now now now nlink)).

Definition create_dir (parent_ino : Z) (name : list byte) (mode uid gid : Z) : DbM Inode :=
  create_node parent_ino name (NewDirectory mode) uid gid.
Definition create_file (parent_ino : Z) (name : list byte) (mode uid gid : Z) : DbM Inode :=
  create_node parent_ino name (NewFile mode) uid gid.
Definition create_symlink (parent_ino : Z) (name target : list byte) (uid gid : Z)
    : DbM Inode :=
  create_node parent_ino name (NewSymlink target) uid gid.

Definition read_symlink (ino : Z) : DbM (list byte) :=
  k ← inode_kind_of ino;
  if negb (bool_decide (k = Symlink)) then throw InvalidInput
  else query_row (fun t => t_symlinks t !! i64 ino).

Definition delete_inode (ino : Z) : DbM unit := transaction (delete_inode_rows ino).

Definition link (ino new_parent_ino : Z) (new_name : list byte) : DbM Inode :=
  check_name new_name ;;
  inode ← get_inode ino;
  if bool_decide (i_kind inode = Directory) then throw IsDirectory
  else
    k ← inode_kind_of new_parent_ino;
    if negb (bool_decide (k = Directory)) then throw NotDirectory
    else
      now ← now_ts;
      let new_nlink := u32 (i_nlink inode + 1) in
      transaction (
        stmt (insert_dirent (i64 new_parent_ino) new_name (i64 ino)) ;;
        execute (update_inode (row_set_nlink new_nlink (to_ns now)) ino) ;;
        touch_dir new_parent_ino now) ;;
      mret (mkInode (i_ino inode) (i_kind inode) (i_mode inode) (i_uid inode) (i_gid inode)
        (i_size inode) (i_atime inode) (i_mtime inode) now new_nlink).

Definition unlink_entry (parent_ino : Z) (name : list byte) (target : Inode) (is_open : bool)
    : DbM unit :=
  if bool_decide (i_kind target = Directory) then throw IsDirectory
  else
    now ← now_ts;
    transaction (
      execute (delete_entry (i64 parent_ino) name) ;;
      drop_unlinked_inode target now is_open ;;
      touch_dir parent_ino now).

Definition unlink_file (parent_ino : Z) (name : list byte) : DbM unit :=
  target ← lookup parent_ino name;
  unlink_entry parent_ino name target false.

Definition child_count (ino : Z) (t : Tables) : Z :=
  Z.of_nat (size (filter (fun e : Z * DirentRow => d_parent e.2 = ino) (t_dirents t))).

Definition remove_dir (parent_ino : Z) (name : list byte) : DbM unit :=
  target ← lookup parent_ino name;
  if negb (bool_decide (i_kind target = Directory)) then throw NotDirectory
  else
    now ← now_ts;
    transaction (
      n ← query (child_count (i64 (i_ino target)));
      if negb (n =? 0) then throw DirectoryNotEmpty
      else
        execute (delete_entry (i64 parent_ino) name) ;;
        delete_inode_rows (i_ino target) ;;
        touch_dir parent_ino now ;;
        add_directory_nlink parent_ino (-1)).

(** The [while current != 1] loop; [optional()] turns a missing row into [None]. *)
Fixpoint ancestor_loop (fuel : nat) (current possible_ancestor : Z) : DbM bool :=
  match fuel with
  | O => out_of_fuel
  | S fuel =>
      if current =? 1 then mret false
      else
        parent ← query (find_parent (i64 current));
        match parent with
        | None => mret false
        | Some parent =>
            let parent := u64 parent in
            if parent =? possible_ancestor then mret true
            else ancestor_loop fuel parent possible_ancestor
        end
  end.

(** One round per inode is enough in a tree. *)
Definition is_descendant (ino possible_ancestor : Z) : DbM bool :=
  if ino =? possible_ancestor then mret true
  else
    n ← gets (fun c => size (t_inodes (tables c)));
    ancestor_loop (S n) ino possible_ancestor.

(** What the kinds of the two inodes allow. *)
Definition replace_error (source target : FileKind) (nonempty : bool) : option DbError :=
  match source, target with
  | RegularFile, Directory | Symlink, Directory => Some IsDirectory
  | Directory, RegularFile | Directory, Symlink => Some NotDirectory
  | Directory, Directory => if nonempty then Some DirectoryNotEmpty else None
  | _, _ => None
  end.

Definition lookup_optional (parent_ino : Z) (name : list byte) : DbM (option Inode) :=
  match_result (lookup parent_ino name)
    (fun i => mret (Some i))
    (fun e => if bool_decide (e = NotFound) then mret None else throw e).

Definition check_replace (source target : Inode) : DbM unit :=
  nonempty ←
    (if bool_decide (i_kind source = Directory /\ i_kind target = Directory)
     then l ← list_dir (i_ino target); mret (negb (bool_decide (l = [])))
     else mret false);
  match replace_error (i_kind source) (i_kind target) nonempty with
  | Some e => throw e
  | None => mret tt
  end.

Definition rename_tx (parent_ino : Z) (name : list byte) (new_parent_ino : Z)
    (new_name : list byte) (source : Inode) (existing_target : option Inode)
    (now : Timestamp) (is_open : Z -> bool) : DbM unit :=
  let source_is_dir := bool_decide (i_kind source = Directory) in
  let target_is_dir := bool_decide (i_kind <$> existing_target = Some Directory) in
  (match existing_target with
   | Some target =>
       execute (delete_entry (i64 new_parent_ino) new_name) ;;
       drop_unlinked_inode target now (is_open (i_ino target))
   | None => mret tt
   end) ;;
  stmt (move_entry (i64 parent_ino) name (i64 new_parent_ino) new_name) ;;
  touch_dir parent_ino now ;;
  (if new_parent_ino =? parent_ino then mret tt else touch_dir new_parent_ino now) ;;
  (if source_is_dir && negb (parent_ino =? new_parent_ino)
   then add_directory_nlink parent_ino (-1) ;; add_directory_nlink new_parent_ino 1
   else mret tt) ;;
  (if target_is_dir then add_directory_nlink new_parent_ino (-1) else mret tt).

Definition rename_entry (parent_ino : Z) (name : list byte) (new_parent_ino : Z)
    (new_name : list byte) (noreplace : bool) (is_open : Z -> bool) : DbM (option Inode) :=
  check_name new_name ;;
  source ← lookup parent_ino name;
  k ← inode_kind_of new_parent_ino;
  if negb (bool_decide (k = Directory)) then throw NotDirectory
  else
    cycle ← (if bool_decide (i_kind source = Directory)
             then is_descendant new_parent_ino (i_ino source) else mret false);
    if (cycle : bool) then throw InvalidInput
    else if (parent_ino =? new_parent_ino) && bool_decide (name = new_name) then mret None
    else
      existing_target ← lookup_optional new_parent_ino new_name;
      if noreplace && bool_decide (is_Some existing_target) then throw AlreadyExists
      else
        (match existing_target with
         | Some target => check_replace source target
         | None => mret tt
         end) ;;
        now ← now_ts;
        transaction (rename_tx parent_ino name new_parent_ino new_name source
                       existing_target now is_open) ;;
        mret existing_target.

Definition rename (parent_ino : Z) (name : list byte) (new_parent_ino : Z)
    (new_name : list byte) : DbM unit :=
  rename_entry parent_ino name new_parent_ino new_name false (fun _ => false) ;; mret tt.

Definition update_metadata (ino : Z) (update : MetadataUpdate) : DbM Inode :=
  inode ← get_inode ino;
  now ← now_ts;
  let mode := default (i_mode inode) (mu_mode update) in
  let uid := default (i_uid inode) (mu_uid update) in
  let gid := default (i_gid inode) (mu_gid update) in
  let atime := default (i_atime inode) (mu_atime update) in
  let mtime := default (i_mtime inode) (mu_mtime update) in
  execute (update_inode (row_set_metadata mode uid gid (to_ns atime) (to_ns mtime)
                           (to_ns now)) ino) ;;
  get_inode ino.
End operations.
