(* ===== verification/Tree.v ===== *)
(** * Tree: the directory tree as an invariant of the tables

    What the entries, link counts and symlink targets promise: unique names, one
    entry per directory, link counts that match the entries, and every directory
    reachable from the root. The steps of the name operations are pure functions
    on the tables here; each one preserves the invariant. *)

From S2P Require Import Prelude Effects Model Chunk Sql DbData DbNames.

(** ** Counting entries *)

Section counting.
Context (P : DirentRow -> Prop) `{forall d, Decision (P d)}.
Implicit Types (m : gmap Z DirentRow) (d : DirentRow).

Definition entry_count m : Z := Z.of_nat (size (filter (fun e : Z * DirentRow => P e.2) m)).

Definition weight d : Z := if decide (P d) then 1 else 0.

Lemma entry_count_nonneg m : 0 <= entry_count m.
Proof. unfold entry_count. lia. Qed.

Lemma entry_count_insert m k d :
  m !! k = None -> entry_count (<[k := d]> m) = entry_count m + weight d.
Proof.
  intros Hk. unfold entry_count, weight. rewrite map_filter_insert. simpl.
  assert (filter (fun e : Z * DirentRow => P e.2) m !! k = None) as Hf.
  { apply map_lookup_filter_None. by left. }
  case_decide.
  - rewrite map_size_insert_None by done. lia.
  - rewrite delete_id by done. lia.
Qed.

Lemma entry_count_delete m k d :
  m !! k = Some d -> entry_count (delete k m) = entry_count m - weight d.
Proof.
  intros Hk. pose proof (entry_count_insert (delete k m) k d) as Hi.
  rewrite lookup_delete_eq, insert_delete_id in Hi by done. rewrite Hi by done. lia.
Qed.

Lemma entry_count_replace m k d d' :
  m !! k = Some d -> entry_count (<[k := d']> m) = entry_count m - weight d + weight d'.
Proof.
  intros Hk. rewrite <- insert_delete_eq, entry_count_insert by (by rewrite lookup_delete_eq).
  by rewrite (entry_count_delete _ _ d).
Qed.

Lemma entry_count_zero m :
  entry_count m = 0 <-> forall k d, m !! k = Some d -> ~ P d.
Proof.
  unfold entry_count. split.
  - intros Hz k d Hk HP. assert (filter (fun e : Z * DirentRow => P e.2) m = ∅) as He.
    { apply map_size_empty_inv. lia. }
    pose proof (map_filter_empty_not_lookup _ m k d He) as Hn. simpl in Hn. tauto.
  - intros Hn. rewrite (map_empty_filter_2 _ m); [by rewrite map_size_empty|].
    intros k d Hk. by apply (Hn k).
Qed.

Lemma entry_count_pos m k d : m !! k = Some d -> P d -> 0 < entry_count m.
Proof.
  intros Hk HP. pose proof (entry_count_nonneg m).
  enough (entry_count m <> 0) by lia. rewrite entry_count_zero. intros Hn. by apply (Hn k d).
Qed.

Lemma entry_count_one m k1 d1 k2 d2 :
  entry_count m <= 1 -> m !! k1 = Some d1 -> P d1 -> m !! k2 = Some d2 -> P d2 -> k1 = k2.
Proof.
  intros Hc H1 HP1 H2 HP2. destruct (decide (k1 = k2)) as [|Hne]; [done|].
  pose proof (entry_count_delete m k1 d1 H1) as Hd. unfold weight in Hd.
  rewrite decide_True in Hd by done.
  pose proof (entry_count_pos (delete k1 m) k2 d2) as Hp.
  rewrite lookup_delete_ne in Hp by done. specialize (Hp H2 HP2). lia.
Qed.

Lemma entry_count_le m : entry_count m <= Z.of_nat (size m).
Proof. unfold entry_count. pose proof (map_size_filter (fun e : Z * DirentRow => P e.2) m). lia. Qed.
End counting.

Lemma entry_count_ext (P Q : DirentRow -> Prop) `{forall d, Decision (P d)}
    `{forall d, Decision (Q d)} m :
  (forall k d, m !! k = Some d -> P d <-> Q d) -> entry_count P m = entry_count Q m.
Proof.
  intros Hext. unfold entry_count. do 2 f_equal. apply map_filter_ext. intros k d Hk. simpl.
  by apply (Hext k).
Qed.

(** ** The invariant *)

Definition kind_of (t : Tables) (ino : Z) : option FileKind := t_inodes t !! ino ≫= row_kind.

Definition links (t : Tables) (ino : Z) : Z :=
  entry_count (fun d => d_child d = ino) (t_dirents t).

Definition subdirs (t : Tables) (ino : Z) : Z :=
  entry_count (fun d => d_parent d = ino /\ kind_of t (d_child d) = Some Directory) (t_dirents t).

(** [ino] is [n] entries below the root. *)
Inductive chain (m : gmap Z DirentRow) : Z -> nat -> Prop :=
  | chain_root : chain m 1 0
  | chain_step k d n : m !! k = Some d -> chain m (d_parent d) n -> chain m (d_child d) (S n).

(** [ino] is in the subtree of [a]. *)
Inductive under (m : gmap Z DirentRow) (a : Z) : Z -> Prop :=
  | under_refl : under m a a
  | under_step k d : m !! k = Some d -> under m a (d_parent d) -> under m a (d_child d).

Definition rooted (m : gmap Z DirentRow) (ino : Z) : Prop := exists n, chain m ino n.

Record names_wf (t : Tables) : Prop := {
  nw_root : kind_of t 1 = Some Directory;
  nw_unique : forall k1 d1 k2 d2,
    t_dirents t !! k1 = Some d1 -> t_dirents t !! k2 = Some d2 ->
    d_parent d1 = d_parent d2 -> d_name d1 = d_name d2 -> k1 = k2;
  nw_entry : forall k d, t_dirents t !! k = Some d ->
    0 < k <= I64_MAX /\ kind_of t (d_parent d) = Some Directory /\
    is_Some (kind_of t (d_child d)) /\ zlen (d_name d) <= NAME_MAX;
  nw_nlink : forall i r, t_inodes t !! i = Some r ->
    r_nlink r = if decide (kind_of t i = Some Directory) then 2 + subdirs t i else links t i;
  nw_dirs : forall i, kind_of t i = Some Directory ->
    links t i = (if decide (i = 1) then 0 else 1) /\ rooted (t_dirents t) i;
  nw_symlinks : forall i, is_Some (t_symlinks t !! i) <-> kind_of t i = Some Symlink }.

(** The invariant of the whole database. *)
Definition fs_wf (t : Tables) : Prop := data_wf t /\ names_wf t.

(** ** Tables up to times, modes and owners *)

Definition row_shape (r : InodeRow) : Z * Z * Z := (r_kind r, r_size r, r_nlink r).

#[global] Instance Tables_equiv : Equiv Tables := fun t t' =>
  t_dirents t = t_dirents t' /\ t_chunks t = t_chunks t' /\ t_symlinks t = t_symlinks t' /\
  forall i, row_shape <$> t_inodes t !! i = row_shape <$> t_inodes t' !! i.

#[global] Instance Tables_equivalence : Equivalence (≡@{Tables}).
Proof.
  split.
  - by intros t.
  - intros t1 t2 (H1 & H2 & H3 & H4). by split_and!.
  - intros t1 t2 t3 (H1 & H2 & H3 & H4) (G1 & G2 & G3 & G4).
    split_and!; [congruence..|]. intros i. by rewrite H4.
Qed.

Section shape.
Implicit Types (t : Tables) (i : Z).

Lemma equiv_row t t' i r :
  t ≡ t' -> t_inodes t !! i = Some r ->
  exists r', t_inodes t' !! i = Some r' /\ r_kind r' = r_kind r /\ r_size r' = r_size r /\
    r_nlink r' = r_nlink r.
Proof.
  intros (_ & _ & _ & H) Hr. specialize (H i). rewrite Hr in H.
  destruct (t_inodes t' !! i) as [r'|]; [|done]. injection H as -> -> ->. by exists r'.
Qed.

#[global] Instance kind_of_proper : Proper ((≡) ==> eq ==> eq) kind_of.
Proof.
  intros t t' Ht i ? <-. unfold kind_of. destruct (t_inodes t !! i) as [r|] eqn:Hr.
  - destruct (equiv_row t t' i r Ht Hr) as (r' & -> & Hk & _). simpl. unfold row_kind.
    by rewrite Hk.
  - destruct (t_inodes t' !! i) as [r'|] eqn:Hr'; [|done]. symmetry in Ht.
    destruct (equiv_row t' t i r' Ht Hr') as (? & ? & _). congruence.
Qed.

#[global] Instance links_proper : Proper ((≡) ==> eq ==> eq) links.
Proof. intros t t' (Hd & _) i ? <-. unfold links. by rewrite Hd. Qed.

#[global] Instance subdirs_proper : Proper ((≡) ==> eq ==> eq) subdirs.
Proof.
  intros t t' Ht i ? <-. unfold subdirs. rewrite (proj1 Ht).
  apply entry_count_ext. intros k d _. by rewrite (kind_of_proper t t' Ht _ _ eq_refl).
Qed.

(** The names read only the kinds and the link counts of the rows. *)
Lemma names_wf_heads t t' :
  t_dirents t' = t_dirents t -> t_symlinks t' = t_symlinks t ->
  (forall i, (fun r => (r_kind r, r_nlink r)) <$> t_inodes t' !! i =
             (fun r => (r_kind r, r_nlink r)) <$> t_inodes t !! i) ->
  names_wf t -> names_wf t'.
Proof.
  intros Hd Hs Hh [H1 H2 H3 H4 H5 H6].
  assert (forall i, kind_of t' i = kind_of t i) as Hk.
  { intros i. unfold kind_of, row_kind. specialize (Hh i).
    destruct (t_inodes t !! i), (t_inodes t' !! i); try done. injection Hh as Hk _. simpl. by rewrite Hk. }
  assert (forall i, links t' i = links t i) as Hl by (intros; unfold links; by rewrite Hd).
  assert (forall i, subdirs t' i = subdirs t i) as Hsd.
  { intros i. unfold subdirs. rewrite Hd. apply entry_count_ext. intros k d _. by rewrite Hk. }
  constructor.
  - by rewrite Hk.
  - by rewrite Hd.
  - intros k d Hkd. rewrite !Hk. rewrite Hd in Hkd. by apply H3.
  - intros i r' Hr'. rewrite Hk, Hsd, Hl. specialize (Hh i). rewrite Hr' in Hh.
    destruct (t_inodes t !! i) as [r|] eqn:Hr; [|done]. injection Hh as _ ->. by apply H4.
  - intros i Hi. rewrite Hk in Hi. rewrite Hl, Hd. by apply H5.
  - intros i. rewrite Hs, Hk. apply H6.
Qed.

#[global] Instance names_wf_proper : Proper ((≡) ==> impl) names_wf.
Proof.
  intros t t' (Hd & _ & Hs & Hi) Hwf. revert Hwf. apply names_wf_heads; [done..|]. intros i.
  specialize (Hi i). destruct (t_inodes t !! i), (t_inodes t' !! i); try done.
  injection Hi as ?. simpl. congruence.
Qed.

#[global] Instance data_wf_proper : Proper ((≡) ==> impl) data_wf.
Proof.
  intros t t' (_ & Hc & _ & Hi) Hwf. revert Hwf. apply data_wf_same_heads; [by symmetry|]. intros i.
  specialize (Hi i). destruct (t_inodes t !! i), (t_inodes t' !! i); try done.
  injection Hi as ?. unfold row_head. simpl. congruence.
Qed.

#[global] Instance fs_wf_proper : Proper ((≡) ==> impl) fs_wf.
Proof. intros t t' Ht [Hd Hn]. split; by rewrite <- Ht. Qed.

#[global] Instance stored_byte_proper : Proper ((≡) ==> eq ==> eq ==> eq) stored_byte.
Proof. intros t t' (_ & Hc & _) ? ? <- ? ? <-. unfold stored_byte, stored_chunk. by rewrite Hc. Qed.

(** A change of times, mode or owner. *)
Lemma update_inode_equiv f ino t :
  (forall r, row_shape (f r) = row_shape r) -> update_inode f ino t ≡ t.
Proof.
  intros Hf. split_and!; try done. intros i. simpl.
  destruct (decide (i = i64 ino)) as [->|]; [|by rewrite lookup_alter_ne].
  rewrite lookup_alter_eq. destruct (t_inodes t !! i64 ino); simpl; [by rewrite Hf|done].
Qed.

#[global] Instance update_inode_proper f ino :
  (forall r r', row_shape r = row_shape r' -> row_shape (f r) = row_shape (f r')) ->
  Proper ((≡) ==> (≡)) (update_inode f ino).
Proof.
  intros Hf t t' (Hd & Hc & Hs & Hi). split_and!; try done. intros i. simpl.
  specialize (Hi i). destruct (decide (i = i64 ino)) as [->|]; [|by rewrite !lookup_alter_ne].
  rewrite !lookup_alter_eq. destruct (t_inodes t !! i64 ino), (t_inodes t' !! i64 ino); try done.
  simpl in *. f_equal. apply Hf. congruence.
Qed.
End shape.

(** ** The steps *)

Definition put_entry (k : Z) (d : DirentRow) (t : Tables) : Tables :=
  with_dirents t (<[k := d]> (t_dirents t)).

Definition drop_entry (k : Z) (t : Tables) : Tables :=
  with_dirents t (delete k (t_dirents t)).

Definition add_nlink (ino delta : Z) (t : Tables) : Tables :=
  update_inode (row_add_nlink delta) ino t.

Definition put_inode (ino : Z) (r : InodeRow) (t : Tables) : Tables :=
  with_inodes t (<[ino := r]> (t_inodes t)).

Definition put_symlink (ino : Z) (target : list byte) (t : Tables) : Tables :=
  with_symlinks t (<[ino := target]> (t_symlinks t)).

(** [delete_inode_rows] *)
Definition remove_inode (ino : Z) (t : Tables) : Tables :=
  delete_inode_row ino (delete_chunks (chunk_key ino 0) (chunk_key ino (MAX_CHUNKS - 1)) t).

#[global] Instance add_nlink_proper ino delta : Proper ((≡) ==> (≡)) (add_nlink ino delta).
Proof.
  apply update_inode_proper. intros r r' Heq. unfold row_shape in *. simpl. congruence.
Qed.

Section chains.
Implicit Types (m : gmap Z DirentRow) (i : Z).

Lemma chain_mono m m' i n : m ⊆ m' -> chain m i n -> chain m' i n.
Proof.
  intros Hm. induction 1 as [|k d n Hk _ IH]; [constructor|].
  by apply (chain_step m' k); [eapply lookup_weaken|].
Qed.

(** Removing the entry of an inode that is nobody's parent. *)
Lemma chain_delete_leaf m k d i n :
  m !! k = Some d -> (forall k' d', m !! k' = Some d' -> d_parent d' <> d_child d) ->
  i <> d_child d -> chain m i n -> chain (delete k m) i n.
Proof.
  intros Hk Hleaf Hi Hc. revert Hi. induction Hc as [|k' d' n Hk' _ IH]; intros Hi; [constructor|].
  apply (chain_step _ k'); [|by apply IH, (Hleaf k')].
  rewrite lookup_delete_ne; [done|]. intros ->. by simplify_eq.
Qed.

Lemma under_trans m a b i : under m a b -> under m b i -> under m a i.
Proof. intros Hab. induction 1; [done|]. by eapply under_step. Qed.

(** A subtree that does not hold [i] leaves the chain of [i] alone. *)
Lemma chain_outside m m' a i n :
  (forall k d, m !! k = Some d -> d_child d <> a -> m' !! k = Some d) ->
  chain m i n -> ~ under m a i -> chain m' i n.
Proof.
  intros Hm. induction 1 as [|k d n Hk _ IH]; intros Hu; [constructor|].
  apply (chain_step m' k).
  - apply Hm; [done|]. intros <-. apply Hu. constructor.
  - apply IH. intros Hp. apply Hu. by eapply under_step.
Qed.
End chains.

Section step_facts.
Implicit Types (t : Tables) (i k : Z) (d : DirentRow).

Lemma kind_of_row t i r : t_inodes t !! i = Some r -> kind_of t i = row_kind r.
Proof. intros Hr. unfold kind_of. by rewrite Hr. Qed.

Lemma kind_of_update f ino t i :
  (forall r, r_kind (f r) = r_kind r) -> kind_of (update_inode f ino t) i = kind_of t i.
Proof.
  intros Hf. unfold kind_of. simpl. destruct (decide (i = i64 ino)) as [->|].
  - rewrite lookup_alter_eq. destruct (t_inodes t !! i64 ino); simpl; [|done].
    unfold row_kind. by rewrite Hf.
  - by rewrite lookup_alter_ne.
Qed.

Lemma kind_of_add_nlink ino delta t i : kind_of (add_nlink ino delta t) i = kind_of t i.
Proof. by apply kind_of_update. Qed.

Lemma add_nlink_row ino delta t i r :
  valid_ino ino -> t_inodes (add_nlink ino delta t) !! i = Some r ->
  exists r0, t_inodes t !! i = Some r0 /\ r_kind r = r_kind r0 /\ r_size r = r_size r0 /\
    r_nlink r = r_nlink r0 + if decide (i = ino) then delta else 0.
Proof.
  intros Hi Hr. simpl in Hr. rewrite valid_ino_i64 in Hr by done. case_decide as Hd.
  - subst. rewrite lookup_alter_eq in Hr. apply fmap_Some in Hr as (r0 & Hr0 & ->).
    by exists r0.
  - rewrite lookup_alter_ne in Hr by done. exists r. by rewrite Z.add_0_r.
Qed.

Lemma links_put t k d i :
  t_dirents t !! k = None ->
  links (put_entry k d t) i = links t i + weight (fun d => d_child d = i) d.
Proof. apply entry_count_insert. Qed.

Lemma links_drop t k d i :
  t_dirents t !! k = Some d ->
  links (drop_entry k t) i = links t i - weight (fun d => d_child d = i) d.
Proof. apply entry_count_delete. Qed.

Lemma links_replace t k d d' i :
  t_dirents t !! k = Some d -> d_child d' = d_child d ->
  links (put_entry k d' t) i = links t i.
Proof.
  intros Hk Hd. unfold links. simpl. rewrite (entry_count_replace _ _ _ d) by done.
  unfold weight. rewrite Hd. lia.
Qed.

Lemma subdirs_put t k d i :
  t_dirents t !! k = None ->
  subdirs (put_entry k d t) i =
    subdirs t i + weight (fun d => d_parent d = i /\ kind_of t (d_child d) = Some Directory) d.
Proof. apply entry_count_insert. Qed.

Lemma subdirs_drop t k d i :
  t_dirents t !! k = Some d ->
  subdirs (drop_entry k t) i =
    subdirs t i - weight (fun d => d_parent d = i /\ kind_of t (d_child d) = Some Directory) d.
Proof. apply entry_count_delete. Qed.

Lemma subdirs_replace t k d d' i :
  t_dirents t !! k = Some d ->
  subdirs (put_entry k d' t) i = subdirs t i
    - weight (fun d => d_parent d = i /\ kind_of t (d_child d) = Some Directory) d
    + weight (fun d => d_parent d = i /\ kind_of t (d_child d) = Some Directory) d'.
Proof. apply entry_count_replace. Qed.

(** Counts of tables with the same entries and the same kinds of children. *)
Lemma subdirs_ext t t' i :
  t_dirents t' = t_dirents t ->
  (forall k d, t_dirents t !! k = Some d -> kind_of t' (d_child d) = kind_of t (d_child d)) ->
  subdirs t' i = subdirs t i.
Proof.
  intros Hd Hk. unfold subdirs. rewrite Hd. apply entry_count_ext. intros k d Hkd.
  by rewrite (Hk k d).
Qed.
End step_facts.

(** Unfolds counts and weights, and decides the cases. *)
Ltac count_cases :=
  unfold weight in *; repeat case_decide; simplify_eq; try (done || lia || tauto || intuition congruence).

(** A fresh entry for [d]: its id is new and its directory has no such name. *)
Definition entry_vacant (t : Tables) (k : Z) (d : DirentRow) : Prop :=
  t_dirents t !! k = None /\ 0 < k <= I64_MAX /\ zlen (d_name d) <= NAME_MAX /\
  kind_of t (d_parent d) = Some Directory /\
  forall k' d', t_dirents t !! k' = Some d' -> d_parent d' = d_parent d ->
    d_name d' <> d_name d.

Section steps.
Implicit Types (t : Tables) (i k : Z) (d : DirentRow).

Lemma put_unique t k d :
  names_wf t -> entry_vacant t k d -> forall k1 d1 k2 d2,
  t_dirents (put_entry k d t) !! k1 = Some d1 -> t_dirents (put_entry k d t) !! k2 = Some d2 ->
  d_parent d1 = d_parent d2 -> d_name d1 = d_name d2 -> k1 = k2.
Proof.
  intros Hwf (_ & _ & _ & _ & Hv) k1 d1 k2 d2 H1 H2 Hp Hn. simpl in *.
  apply lookup_insert_Some in H1 as [[<- <-]|[Hn1 H1]], H2 as [[<- <-]|[Hn2 H2]].
  - done.
  - by destruct (Hv k2 d2 H2).
  - by destruct (Hv k1 d1 H1).
  - by apply (nw_unique _ Hwf k1 d1 k2 d2).
Qed.

Lemma put_entry_ok t t' k d :
  names_wf t -> entry_vacant t k d -> is_Some (kind_of t' (d_child d)) ->
  (forall i, is_Some (kind_of t i) -> kind_of t' i = kind_of t i) ->
  t_dirents t' = t_dirents (put_entry k d t) ->
  forall k1 d1, t_dirents t' !! k1 = Some d1 ->
  0 < k1 <= I64_MAX /\ kind_of t' (d_parent d1) = Some Directory /\
  is_Some (kind_of t' (d_child d1)) /\ zlen (d_name d1) <= NAME_MAX.
Proof.
  intros Hwf (_ & Hk & Hl & Hp & _) Hc Hkinds -> k1 d1 H1. simpl in H1.
  apply lookup_insert_Some in H1 as [[<- <-]|[_ H1]].
  - rewrite Hkinds by (by rewrite Hp). done.
  - destruct (nw_entry _ Hwf k1 d1 H1) as (H2 & H3 & H4 & H5).
    rewrite !Hkinds by (done || by rewrite H3). done.
Qed.

Lemma rooted_put t k d i :
  t_dirents t !! k = None -> rooted (t_dirents t) i -> rooted (t_dirents (put_entry k d t)) i.
Proof. intros Hk [n Hn]. exists n. eapply chain_mono; [|done]. by apply insert_subseteq. Qed.

(** A second name of a file. *)
Lemma names_wf_link t k d K :
  names_wf t -> entry_vacant t k d -> valid_ino (d_child d) ->
  kind_of t (d_child d) = Some K -> K <> Directory ->
  names_wf (add_nlink (d_child d) 1 (put_entry k d t)).
Proof.
  intros Hwf Hv Hi Hk HK. pose proof Hv as (Hf & _).
  assert (forall i, kind_of (add_nlink (d_child d) 1 (put_entry k d t)) i = kind_of t i) as Hkind
    by (intros; by rewrite kind_of_add_nlink).
  assert (forall i, subdirs (add_nlink (d_child d) 1 (put_entry k d t)) i = subdirs t i) as Hsub.
  { intros i. rewrite (subdirs_ext (put_entry k d t)) by (done || intros; apply Hkind).
    rewrite subdirs_put by done. count_cases. }
  assert (forall i, links (add_nlink (d_child d) 1 (put_entry k d t)) i =
    links t i + weight (fun d => d_child d = i) d) as Hlinks by (intros; by apply links_put).
  constructor.
  - rewrite Hkind. by apply nw_root.
  - exact (put_unique t k d Hwf Hv).
  - eapply (put_entry_ok t); [done..| |intros; apply Hkind|done]. rewrite Hkind. by eexists.
  - intros i r Hr. rewrite Hkind, Hsub, Hlinks.
    apply add_nlink_row in Hr as (r0 & Hr0 & _ & _ & ->); [|done].
    rewrite (nw_nlink _ Hwf i r0 Hr0). count_cases.
  - intros i Hd. rewrite Hkind in Hd. rewrite Hlinks. destruct (nw_dirs _ Hwf i Hd) as [Hl Hr].
    split; [count_cases|]. by apply rooted_put.
  - intros i. rewrite Hkind. exact (nw_symlinks _ Hwf i).
Qed.

(** The tables after [create_node]. *)
Definition create_tables (k : Z) (d : DirentRow) (r : InodeRow) (sym : option (list byte)) t
    : Tables :=
  let t1 := put_entry k d (put_inode (d_child d) r t) in
  let t2 := match sym with Some target => put_symlink (d_child d) target t1 | None => t1 end in
  if decide (row_kind r = Some Directory) then add_nlink (d_parent d) 1 t2 else t2.

Lemma create_dirents k d r sym t :
  t_dirents (create_tables k d r sym t) = <[k := d]> (t_dirents t).
Proof. unfold create_tables. by destruct sym; case_decide. Qed.

Lemma create_symlinks k d r sym t :
  t_symlinks (create_tables k d r sym t) =
    match sym with
    | Some target => <[d_child d := target]> (t_symlinks t)
    | None => t_symlinks t
    end.
Proof. unfold create_tables. by destruct sym; case_decide. Qed.

Lemma create_chunks k d r sym t : t_chunks (create_tables k d r sym t) = t_chunks t.
Proof. unfold create_tables. by destruct sym; case_decide. Qed.

Lemma create_row k d r sym t i r' :
  valid_ino (d_parent d) -> d_parent d <> d_child d ->
  t_inodes (create_tables k d r sym t) !! i = Some r' ->
  (i = d_child d /\ r' = r) \/
  (i <> d_child d /\ exists r0, t_inodes t !! i = Some r0 /\ r_kind r' = r_kind r0 /\
     r_size r' = r_size r0 /\ r_nlink r' = r_nlink r0 +
       weight (fun d => d_parent d = i /\ row_kind r = Some Directory) d).
Proof.
  intros Hi Hne Hr. assert (t_inodes (create_tables k d r sym t) =
    if decide (row_kind r = Some Directory)
    then alter (row_add_nlink 1) (d_parent d) (<[d_child d := r]> (t_inodes t))
    else <[d_child d := r]> (t_inodes t)) as E.
  { unfold create_tables. destruct sym; case_decide; simpl; by rewrite ?valid_ino_i64. }
  rewrite E in Hr. clear E. unfold weight. destruct (decide (i = d_child d)) as [->|Hn].
  - left. split; [done|]. case_decide; [rewrite lookup_alter_ne in Hr by done|];
      rewrite lookup_insert_eq in Hr; congruence.
  - right. split; [done|]. destruct (decide (row_kind r = Some Directory)) as [HD|HD].
    + destruct (decide (i = d_parent d)) as [->|Hp].
      * rewrite lookup_alter_eq, lookup_insert_ne in Hr by done.
        apply fmap_Some in Hr as (r0 & Hr0 & ->). exists r0. by rewrite decide_True.
      * rewrite lookup_alter_ne, lookup_insert_ne in Hr by done. exists r'.
        rewrite decide_False by naive_solver. by rewrite Z.add_0_r.
    + rewrite lookup_insert_ne in Hr by done. exists r'.
      rewrite decide_False by naive_solver. by rewrite Z.add_0_r.
Qed.

Lemma create_kind k d r sym t i :
  kind_of (create_tables k d r sym t) i = if decide (i = d_child d) then row_kind r else kind_of t i.
Proof.
  assert (forall t0, kind_of t0 i = kind_of (put_inode (d_child d) r t) i ->
    kind_of t0 i = if decide (i = d_child d) then row_kind r else kind_of t i) as H.
  { intros t0 ->. unfold kind_of. simpl. case_decide as Hd.
    - by rewrite Hd, lookup_insert_eq.
    - by rewrite lookup_insert_ne. }
  apply H. unfold create_tables. cbv zeta.
  destruct (decide (row_kind r = Some Directory)); [rewrite kind_of_add_nlink|]; by destruct sym.
Qed.

(** An inode that is not there has no entries. *)
Lemma absent_entries t i :
  names_wf t -> kind_of t i = None ->
  (forall k d, t_dirents t !! k = Some d -> d_child d <> i /\ d_parent d <> i) /\
  links t i = 0 /\ subdirs t i = 0.
Proof.
  intros Hwf Hi.
  assert (forall k d, t_dirents t !! k = Some d -> d_child d <> i /\ d_parent d <> i) as H.
  { intros k d Hk. destruct (nw_entry _ Hwf k d Hk) as (_ & H1 & [x H2] & _).
    split; intros <-; congruence. }
  split_and!; [done|..]; apply entry_count_zero; intros k d Hk; specialize (H k d Hk); tauto.
Qed.

Lemma names_wf_create t k d r sym :
  names_wf t -> entry_vacant t k d -> t_inodes t !! d_child d = None ->
  valid_ino (d_parent d) -> is_Some (row_kind r) ->
  r_nlink r = (if decide (row_kind r = Some Directory) then 2 else 1) ->
  (is_Some sym <-> row_kind r = Some Symlink) ->
  names_wf (create_tables k d r sym t).
Proof.
  intros Hwf Hv Hnew Hi Hrk Hnl Hsym. pose proof Hv as (Hf & _ & _ & Hpd & _).
  set (ino := d_child d) in *. set (T := create_tables k d r sym t).
  assert (kind_of t ino = None) as Hnone by (unfold kind_of; by rewrite Hnew).
  assert (d_parent d <> ino) as Hne by congruence.
  destruct (absent_entries t ino Hwf Hnone) as (Hout & Hl0 & Hs0).
  pose proof (fun i => create_kind k d r sym t i) as Hkind. fold ino T in Hkind.
  assert (forall i, is_Some (kind_of t i) -> kind_of T i = kind_of t i) as Hkeep.
  { intros i [K HK]. rewrite Hkind. destruct (decide (i = ino)); congruence. }
  assert (t_dirents T = t_dirents (put_entry k d t)) as HdT by apply create_dirents.
  assert (forall i, links T i = links t i + weight (fun d => d_child d = i) d) as Hlinks.
  { intros i. unfold links. rewrite HdT. by apply links_put. }
  assert (forall i, subdirs T i = subdirs t i +
    weight (fun d => d_parent d = i /\ row_kind r = Some Directory) d) as Hsub.
  { intros i. unfold subdirs. rewrite HdT. simpl. rewrite entry_count_insert by done. f_equal.
    - apply entry_count_ext. intros k1 d1 H1. destruct (Hout k1 d1 H1). rewrite Hkind.
      by rewrite decide_False.
    - unfold weight. rewrite Hkind. fold ino. by rewrite (decide_True (P := ino = ino)). }
  constructor.
  - rewrite Hkeep; [|rewrite nw_root by done; by eexists]. by apply nw_root.
  - rewrite HdT. exact (put_unique t k d Hwf Hv).
  - apply (put_entry_ok t T k d); try done. fold ino. by rewrite Hkind, decide_True.
  - intros i r' Hr'. rewrite Hlinks, Hsub, Hkind.
    destruct (create_row k d r sym t i r' Hi Hne Hr') as [[-> ->]|(Hn & r0 & Hr0 & _ & _ & ->)].
    + fold ino. rewrite Hl0, Hs0, Hnl. count_cases.
    + fold ino in Hn. rewrite (decide_False (P := i = ino)), (nw_nlink _ Hwf i r0 Hr0) by done.
      unfold weight. fold ino. count_cases.
  - intros i HD. rewrite Hlinks. rewrite Hkind in HD. destruct (decide (i = ino)) as [Hd|Hd].
    + rewrite Hd. split.
      * rewrite Hl0. unfold weight. fold ino. rewrite decide_True by done.
        rewrite decide_False; [done|]. intros ->. rewrite (nw_root _ Hwf) in Hnone. done.
      * destruct (nw_dirs _ Hwf (d_parent d) Hpd) as [_ Hr].
        apply (rooted_put t k d) in Hr as [n Hr]; [|done]. exists (S n). rewrite HdT.
        apply (chain_step _ k); [apply lookup_insert_eq|done].
    + destruct (nw_dirs _ Hwf i HD) as [Hl Hr]. split; [|rewrite HdT; by apply rooted_put].
      rewrite Hl. unfold weight. fold ino. rewrite (decide_False (P := ino = i)) by done. lia.
  - intros i. rewrite Hkind. unfold T. rewrite create_symlinks. fold ino.
    pose proof (nw_symlinks _ Hwf i) as Hs. destruct (decide (i = ino)) as [Hd|Hd].
    + subst i. destruct sym; [rewrite lookup_insert_eq; naive_solver|].
      rewrite Hs, Hnone. split; [done|]. intros Hx. apply Hsym in Hx. by destruct Hx.
    + destruct sym; [rewrite lookup_insert_ne by done|]; done.
Qed.

Lemma drop_lookup t k k' d :
  t_dirents (drop_entry k t) !! k' = Some d <-> k <> k' /\ t_dirents t !! k' = Some d.
Proof. apply lookup_delete_Some. Qed.

Lemma drop_unique t k :
  names_wf t -> forall k1 d1 k2 d2,
  t_dirents (drop_entry k t) !! k1 = Some d1 -> t_dirents (drop_entry k t) !! k2 = Some d2 ->
  d_parent d1 = d_parent d2 -> d_name d1 = d_name d2 -> k1 = k2.
Proof.
  intros Hwf k1 d1 k2 d2 [_ H1]%drop_lookup [_ H2]%drop_lookup.
  by apply (nw_unique _ Hwf).
Qed.

(** A directory stays reachable when the entry of something that is not a parent
    goes away. *)
Lemma rooted_drop t k d i :
  t_dirents t !! k = Some d -> i <> d_child d ->
  (forall k' d', t_dirents t !! k' = Some d' -> d_parent d' <> d_child d) ->
  rooted (t_dirents t) i -> rooted (t_dirents (drop_entry k t)) i.
Proof. intros Hk Hi Hleaf [n Hn]. exists n. by eapply chain_delete_leaf. Qed.

Lemma file_not_parent t d K :
  names_wf t -> kind_of t (d_child d) = Some K -> K <> Directory ->
  forall k' d', t_dirents t !! k' = Some d' -> d_parent d' <> d_child d.
Proof.
  intros Hwf HK Hne k' d' Hk' Heq. destruct (nw_entry _ Hwf k' d' Hk') as (_ & Hp & _).
  congruence.
Qed.

(** One name of a file goes away. *)
Lemma names_wf_unlink t k d K :
  names_wf t -> t_dirents t !! k = Some d -> valid_ino (d_child d) ->
  kind_of t (d_child d) = Some K -> K <> Directory ->
  names_wf (add_nlink (d_child d) (-1) (drop_entry k t)).
Proof.
  intros Hwf Hk Hi HK Hne. set (T := add_nlink (d_child d) (-1) (drop_entry k t)).
  assert (forall i, kind_of T i = kind_of t i) as Hkind
    by (intros; unfold T; by rewrite kind_of_add_nlink).
  assert (forall i, links T i = links t i - weight (fun d => d_child d = i) d) as Hlinks
    by (intros; by apply links_drop).
  assert (forall i, subdirs T i = subdirs t i) as Hsub.
  { intros i. rewrite (subdirs_ext (drop_entry k t)) by (done || intros; apply Hkind).
    rewrite (subdirs_drop _ _ d) by done. count_cases. }
  constructor.
  - rewrite Hkind. by apply nw_root.
  - exact (drop_unique t k Hwf).
  - intros k1 d1 [_ H1]%drop_lookup. rewrite !Hkind. by apply (nw_entry _ Hwf).
  - intros i r Hr. rewrite Hkind, Hsub, Hlinks.
    apply add_nlink_row in Hr as (r0 & Hr0 & _ & _ & ->); [|done].
    rewrite (nw_nlink _ Hwf i r0 Hr0). count_cases.
  - intros i Hd. rewrite Hkind in Hd. rewrite Hlinks. destruct (nw_dirs _ Hwf i Hd) as [Hl Hr].
    split; [count_cases|]. apply (rooted_drop t k d); try done; [congruence|].
    by eapply file_not_parent.
  - intros i. rewrite Hkind. exact (nw_symlinks _ Hwf i).
Qed.

Lemma remove_inodes t i : valid_ino i -> t_inodes (remove_inode i t) = delete i (t_inodes t).
Proof.
  intros Hi. unfold remove_inode, delete_inode_row. rewrite valid_ino_i64 by done. simpl.
  destruct (t_inodes t !! i) eqn:E; [done|]. simpl. by rewrite delete_id.
Qed.

Lemma remove_kind t i j :
  valid_ino i -> kind_of (remove_inode i t) j = if decide (j = i) then None else kind_of t j.
Proof.
  intros Hi. unfold kind_of. rewrite remove_inodes by done. case_decide as Hd.
  - subst. by rewrite lookup_delete_eq.
  - by rewrite lookup_delete_ne.
Qed.

Lemma remove_dirents t i :
  valid_ino i ->
  (forall k d, t_dirents t !! k = Some d -> d_child d <> i /\ d_parent d <> i) ->
  t_dirents (remove_inode i t) = t_dirents t.
Proof.
  intros Hi Hout. unfold remove_inode, delete_inode_row. rewrite valid_ino_i64 by done. simpl.
  destruct (t_inodes t !! i); [|done]. simpl. apply map_filter_id. intros k d Hk. simpl.
  destruct (Hout k d Hk). done.
Qed.

Lemma remove_symlinks t i j :
  valid_ino i -> names_wf t ->
  is_Some (t_symlinks (remove_inode i t) !! j) <-> j <> i /\ is_Some (t_symlinks t !! j).
Proof.
  intros Hi Hwf. unfold remove_inode, delete_inode_row. rewrite valid_ino_i64 by done. simpl.
  pose proof (nw_symlinks _ Hwf i) as Hs. unfold kind_of in Hs.
  destruct (t_inodes t !! i); simpl.
  - rewrite lookup_delete_is_Some. naive_solver.
  - split; [|tauto]. intros Hj. split; [|done]. intros ->. apply Hs in Hj. done.
Qed.

(** A file that has no name left. *)
Lemma names_wf_remove t i K :
  names_wf t -> valid_ino i -> kind_of t i = Some K -> K <> Directory -> links t i = 0 ->
  names_wf (remove_inode i t).
Proof.
  intros Hwf Hi HK Hne Hl.
  assert (forall k d, t_dirents t !! k = Some d -> d_child d <> i /\ d_parent d <> i) as Hout.
  { intros k d Hk. split.
    - exact (proj1 (entry_count_zero _ _) Hl k d Hk).
    - intros Hp. destruct (nw_entry _ Hwf k d Hk) as (_ & Hd & _). congruence. }
  pose proof (fun j => remove_kind t i j Hi) as Hkind.
  pose proof (remove_dirents t i Hi Hout) as HdT.
  assert (forall j, links (remove_inode i t) j = links t j) as Hlinks
    by (intros; unfold links; by rewrite HdT).
  assert (forall j, subdirs (remove_inode i t) j = subdirs t j) as Hsub.
  { intros j. apply subdirs_ext; [done|]. intros k d Hk. rewrite Hkind.
    destruct (Hout k d Hk). by rewrite decide_False. }
  constructor.
  - rewrite Hkind, decide_False; [by apply nw_root|]. intros <-. rewrite nw_root in HK; congruence.
  - rewrite HdT. apply (nw_unique _ Hwf).
  - rewrite HdT. intros k d Hk. destruct (Hout k d Hk). rewrite !Hkind, !decide_False by done.
    by apply (nw_entry _ Hwf).
  - intros j r Hr. rewrite remove_inodes in Hr by done. apply lookup_delete_Some in Hr as [Hn Hr].
    rewrite Hkind, Hsub, Hlinks, (decide_False (P := j = i)) by done. by apply nw_nlink.
  - intros j Hd. rewrite Hkind in Hd. case_decide; [done|]. rewrite Hlinks, HdT.
    by apply nw_dirs.
  - intros j. rewrite remove_symlinks, Hkind by done. rewrite (nw_symlinks _ Hwf j).
    case_decide; naive_solver.
Qed.

(** The one entry of a directory. *)
Lemma dir_one_entry t k1 d1 k2 d2 :
  names_wf t -> kind_of t (d_child d1) = Some Directory ->
  t_dirents t !! k1 = Some d1 -> t_dirents t !! k2 = Some d2 -> d_child d2 = d_child d1 ->
  k1 = k2.
Proof.
  intros Hwf Hd H1 H2 Heq. apply (entry_count_one (fun d => d_child d = d_child d1) (t_dirents t) k1 d1 k2 d2); try done.
  destruct (nw_dirs _ Hwf _ Hd) as [Hl _]. unfold links in Hl. rewrite Hl. case_decide; lia.
Qed.

Lemma dir_entry_not_root t k d :
  names_wf t -> t_dirents t !! k = Some d -> d_child d <> 1.
Proof.
  intros Hwf Hk Heq. destruct (nw_dirs _ Hwf 1 (nw_root _ Hwf)) as [Hl _].
  rewrite decide_True in Hl by done. apply (proj1 (entry_count_zero _ _) Hl k d Hk Heq).
Qed.

(** An empty directory goes away. *)
Lemma names_wf_rmdir t k d :
  names_wf t -> t_dirents t !! k = Some d -> valid_ino (d_child d) -> valid_ino (d_parent d) ->
  kind_of t (d_child d) = Some Directory ->
  (forall k' d', t_dirents t !! k' = Some d' -> d_parent d' <> d_child d) ->
  names_wf (add_nlink (d_parent d) (-1) (remove_inode (d_child d) (drop_entry k t))).
Proof.
  intros Hwf Hk Hi Hp HK Hleaf. set (c := d_child d) in *.
  set (T := add_nlink (d_parent d) (-1) (remove_inode c (drop_entry k t))).
  assert (forall k' d', t_dirents (drop_entry k t) !! k' = Some d' ->
    d_child d' <> c /\ d_parent d' <> c) as Hout.
  { intros k' d' [Hne Hk']%drop_lookup. split; [|by apply (Hleaf k')].
    intros Hc. apply Hne. by apply (dir_one_entry t k d k' d'). }
  destruct (nw_entry _ Hwf k d Hk) as (_ & Hpd & _).
  assert (c <> 1) as Hc1 by (by apply (dir_entry_not_root t k d)).
  assert (d_parent d <> c) as Hpc by (by apply (Hleaf k)).
  assert (forall j, kind_of T j = if decide (j = c) then None else kind_of t j) as Hkind.
  { intros j. unfold T. rewrite kind_of_add_nlink.
    exact (remove_kind (drop_entry k t) c j Hi). }
  assert (t_dirents T = t_dirents (drop_entry k t)) as HdT by exact (remove_dirents (drop_entry k t) c Hi Hout).
  assert (forall j, links T j = links t j - weight (fun d => d_child d = j) d) as Hlinks.
  { intros j. unfold links. rewrite HdT. by apply links_drop. }
  assert (forall j, subdirs T j = subdirs t j -
    weight (fun d => d_parent d = j /\ kind_of t (d_child d) = Some Directory) d) as Hsub.
  { intros j. rewrite <- (subdirs_drop _ k) by done. apply subdirs_ext; [done|].
    intros k' d' Hk'. destruct (Hout k' d' Hk'). by rewrite Hkind, decide_False. }
  constructor.
  - rewrite Hkind, decide_False by done. by apply nw_root.
  - rewrite HdT. exact (drop_unique t k Hwf).
  - rewrite HdT. intros k' d' Hk'. destruct (Hout k' d' Hk'). rewrite !Hkind, !decide_False by done.
    apply drop_lookup in Hk' as [_ Hk']. by apply (nw_entry _ Hwf).
  - intros j r Hr. apply add_nlink_row in Hr as (r0 & Hr0 & _ & _ & ->); [|done].
    rewrite remove_inodes in Hr0 by done. apply lookup_delete_Some in Hr0 as [Hn Hr0].
    rewrite Hkind, Hsub, Hlinks, (decide_False (P := j = c)) by done.
    rewrite (nw_nlink _ Hwf j r0 Hr0). unfold weight. fold c. count_cases.
  - intros j Hd. rewrite Hkind in Hd. destruct (decide (j = c)); [done|].
    destruct (nw_dirs _ Hwf j Hd) as [Hl Hr]. rewrite Hlinks, HdT. split.
    + unfold weight. fold c. rewrite (decide_False (P := c = j)) by done. lia.
    + by apply (rooted_drop t k d).
  - intros j. change (t_symlinks T) with (t_symlinks (remove_inode c (drop_entry k t))).
    rewrite Hkind. destruct (decide (j = c)) as [->|Hn].
    + split; [|done]. unfold remove_inode, delete_inode_row. rewrite valid_ino_i64 by done. simpl.
      unfold kind_of in HK. destruct (t_inodes t !! c); [|done]. simpl. rewrite lookup_delete_eq.
      by intros [].
    + rewrite <- (nw_symlinks _ Hwf j). unfold remove_inode, delete_inode_row.
      rewrite valid_ino_i64 by done. simpl. destruct (t_inodes t !! c); [|done]. simpl.
      by rewrite lookup_delete_ne.
Qed.

(** The tables after an entry moved to a free name. *)
Definition moved (d : DirentRow) (np : Z) (nn : list byte) : DirentRow :=
  mkDirentRow np nn (d_child d).

Definition move_tables (k : Z) (d : DirentRow) (np : Z) (nn : list byte) t : Tables :=
  let t1 := put_entry k (moved d np nn) t in
  if decide (kind_of t (d_child d) = Some Directory)
  then add_nlink np 1 (add_nlink (d_parent d) (-1) t1) else t1.

Lemma move_dirents k d np nn t :
  t_dirents (move_tables k d np nn t) = <[k := moved d np nn]> (t_dirents t).
Proof. unfold move_tables. by case_decide. Qed.

Lemma move_kind k d np nn t i : kind_of (move_tables k d np nn t) i = kind_of t i.
Proof. unfold move_tables. case_decide; by rewrite ?kind_of_add_nlink. Qed.

Lemma move_row k d np nn t i r :
  valid_ino np -> valid_ino (d_parent d) ->
  t_inodes (move_tables k d np nn t) !! i = Some r ->
  exists r0, t_inodes t !! i = Some r0 /\ r_kind r = r_kind r0 /\ r_size r = r_size r0 /\
    r_nlink r = r_nlink r0
      + weight (fun d => np = i /\ kind_of t (d_child d) = Some Directory) d
      - weight (fun d => d_parent d = i /\ kind_of t (d_child d) = Some Directory) d.
Proof.
  intros Hnp Hp Hr. unfold move_tables in Hr. unfold weight.
  destruct (decide (kind_of t (d_child d) = Some Directory)).
  - apply add_nlink_row in Hr as (r1 & Hr1 & Hk1 & Hs1 & Hn1); [|done].
    apply add_nlink_row in Hr1 as (r0 & Hr0 & Hk0 & Hs0 & Hn0); [|done].
    exists r0. split_and!; [done|congruence|congruence|]. rewrite Hn1, Hn0.
    rewrite (decide_ext (np = i /\ _) (i = np)) by naive_solver.
    rewrite (decide_ext (d_parent d = i /\ _) (i = d_parent d)) by naive_solver.
    repeat case_decide; lia.
  - exists r. rewrite !decide_False by tauto. split_and!; done || lia.
Qed.

(** Nothing is in the subtree of an inode that is nobody's parent. *)
Lemma under_leaf (m : gmap Z DirentRow) c i :
  (forall k d, m !! k = Some d -> d_parent d <> c) -> under m c i -> i = c.
Proof. intros Hleaf. induction 1 as [|k d Hk _ IH]; [done|]. by destruct (Hleaf k d Hk). Qed.

Lemma rooted_move t k d np nn i :
  t_dirents t !! k = Some d -> rooted (t_dirents t) np ->
  ~ under (t_dirents t) (d_child d) np ->
  rooted (t_dirents t) i -> rooted (<[k := moved d np nn]> (t_dirents t)) i.
Proof.
  intros Hk [n0 Hnp] Hu [n Hi]. set (m' := <[k := _]> _).
  assert (chain m' np n0) as Hnp'.
  { apply (chain_outside (t_dirents t) _ (d_child d)); [|done..]. intros k' d' Hk' Hne.
    unfold m'. rewrite lookup_insert_ne; [done|]. intros ->. by simplify_eq. }
  induction Hi as [|k' d' n Hk' _ [n' IH]].
  - exists 0%nat. constructor.
  - destruct (decide (k' = k)) as [->|Hne].
    + simplify_eq. exists (S n0). change (d_child d) with (d_child (moved d np nn)).
      apply (chain_step m' k); [apply lookup_insert_eq|done].
    + exists (S n'). apply (chain_step m' k'); [|done]. unfold m'. by rewrite lookup_insert_ne.
Qed.

(** The new place of an entry: a directory outside its own subtree, a free name. *)
Definition place_ok t (d : DirentRow) (np : Z) (nn : list byte) : Prop :=
  kind_of t np = Some Directory /\ zlen nn <= NAME_MAX /\
  ~ under (t_dirents t) (d_child d) np /\
  forall k' d', t_dirents t !! k' = Some d' -> d_parent d' = np -> d_name d' <> nn.

Lemma move_unique t k d np nn :
  names_wf t -> place_ok t d np nn -> forall k1 d1 k2 d2,
  <[k := moved d np nn]> (t_dirents t) !! k1 = Some d1 ->
  <[k := moved d np nn]> (t_dirents t) !! k2 = Some d2 ->
  d_parent d1 = d_parent d2 -> d_name d1 = d_name d2 -> k1 = k2.
Proof.
  intros Hwf (_ & _ & _ & Hfree) k1 d1 k2 d2 H1 H2 Hp Hn.
  apply lookup_insert_Some in H1 as [[<- <-]|[Hn1 H1]], H2 as [[<- <-]|[Hn2 H2]].
  - done.
  - by destruct (Hfree k2 d2 H2).
  - by destruct (Hfree k1 d1 H1).
  - by apply (nw_unique _ Hwf k1 d1 k2 d2).
Qed.

Lemma names_wf_move t k d np nn :
  names_wf t -> t_dirents t !! k = Some d -> place_ok t d np nn ->
  valid_ino np -> valid_ino (d_parent d) ->
  names_wf (move_tables k d np nn t).
Proof.
  intros Hwf Hk Hplace Hnp Hp. pose proof Hplace as (Hnd & Hlen & Hu & Hfree).
  set (T := move_tables k d np nn t).
  assert (t_dirents T = <[k := moved d np nn]> (t_dirents t)) as HdT by apply move_dirents.
  assert (forall i, kind_of T i = kind_of t i) as Hkind by (intros; apply move_kind).
  assert (forall i, links T i = links t i) as Hlinks.
  { intros i. unfold links. rewrite HdT. by apply (links_replace t k d). }
  assert (forall i, subdirs T i = subdirs t i
    - weight (fun d => d_parent d = i /\ kind_of t (d_child d) = Some Directory) d
    + weight (fun d => np = i /\ kind_of t (d_child d) = Some Directory) d) as Hsub.
  { intros i. pose proof (subdirs_replace t k d (moved d np nn) i Hk) as Hr.
    rewrite <- (subdirs_ext (put_entry k (moved d np nn) t) T i) in Hr; [exact Hr|exact HdT|].
    intros; apply Hkind. }
  constructor.
  - rewrite Hkind. by apply nw_root.
  - rewrite HdT. by apply move_unique.
  - rewrite HdT. intros k' d' Hk'. rewrite !Hkind. destruct (nw_entry _ Hwf k d Hk) as (H1 & _ & H2 & _).
    apply lookup_insert_Some in Hk' as [[<- <-]|[_ Hk']]; [done|by apply (nw_entry _ Hwf)].
  - intros i r Hr. rewrite Hkind, Hsub, Hlinks.
    apply move_row in Hr as (r0 & Hr0 & _ & _ & ->); [|done..].
    rewrite (nw_nlink _ Hwf i r0 Hr0). destruct (nw_entry _ Hwf k d Hk) as (_ & Hpd & _). count_cases.
  - intros i Hd. rewrite Hkind in Hd. destruct (nw_dirs _ Hwf i Hd) as [Hl Hr]. rewrite Hlinks, HdT.
    split; [done|]. apply rooted_move; [done| |done..]. by apply nw_dirs.
  - intros i. rewrite Hkind. assert (t_symlinks T = t_symlinks t) as ->
      by (unfold T, move_tables; by case_decide). exact (nw_symlinks _ Hwf i).
Qed.
End steps.

(** ** The data invariant under the same steps *)

Section data_steps.
Implicit Types (t : Tables) (i k : Z) (d : DirentRow).

Lemma data_wf_same t t' :
  t_inodes t' = t_inodes t -> t_chunks t' = t_chunks t -> data_wf t -> data_wf t'.
Proof. intros Hi Hc. apply data_wf_same_heads; [done|]. intros i. by rewrite Hi. Qed.

Lemma data_wf_update f ino t :
  (forall r, row_head (f r) = row_head r) -> data_wf t -> data_wf (update_inode f ino t).
Proof.
  intros Hf. apply data_wf_same_heads; [done|]. intros i. simpl.
  destruct (decide (i = i64 ino)) as [->|]; [|by rewrite lookup_alter_ne].
  rewrite lookup_alter_eq. destruct (t_inodes t !! i64 ino); simpl; [by rewrite Hf|done].
Qed.

Lemma data_wf_put_inode t i r :
  data_wf t -> t_inodes t !! i = None -> inode_row_ok i r -> data_wf (put_inode i r t).
Proof.
  intros [Hr Hc] Hn Hok. constructor.
  - intros j r' Hj. simpl in Hj. apply lookup_insert_Some in Hj as [[<- <-]|[_ Hj]]; [done|by apply Hr].
  - intros key data Hk. destruct (Hc key data Hk) as (j & c & r' & Hv & -> & Hj & Hrest).
    exists j, c, r'. split_and!; try done; [|apply Hrest..]. simpl.
    rewrite lookup_insert_ne; [done|]. intros ->. congruence.
Qed.

Lemma data_wf_create k d r sym t :
  data_wf t -> t_inodes t !! d_child d = None -> inode_row_ok (d_child d) r ->
  data_wf (create_tables k d r sym t).
Proof.
  intros Hwf Hn Hok. pose proof (data_wf_put_inode _ _ _ Hwf Hn Hok) as H1.
  unfold create_tables.
  destruct sym; case_decide; try (apply data_wf_update; [done|]); revert H1; by apply data_wf_same.
Qed.

Lemma first_chunk_valid : valid_chunk 0.
Proof. unfold valid_chunk. clia. Qed.

(** The chunk rows of an inode, and only those, lie in its key range. *)
Lemma remove_chunks_lookup t i j c :
  valid_ino i -> valid_ino j -> valid_chunk c ->
  t_chunks (remove_inode i t) !! chunk_key j c =
    if decide (j = i) then None else t_chunks t !! chunk_key j c.
Proof.
  intros Hi Hj Hc.
  assert (t_chunks (remove_inode i t) =
    t_chunks (delete_chunks (chunk_key i 0) (chunk_key i (MAX_CHUNKS - 1)) t)) as ->.
  { unfold remove_inode, delete_inode_row. rewrite valid_ino_i64 by done. simpl.
    by destruct (t_inodes t !! i). }
  rewrite delete_chunks_lookup.
  pose proof (chunk_key_between i c 0 (MAX_CHUNKS - 1) j Hi first_chunk_valid last_chunk_valid Hj Hc).
  unfold valid_chunk in Hc. destruct (decide (j = i)); [rewrite decide_True|rewrite decide_False];
    done || (intuition lia).
Qed.

Lemma stored_chunk_remove t i j c :
  valid_ino i -> valid_ino j -> valid_chunk c -> j <> i ->
  stored_chunk (remove_inode i t) j c = stored_chunk t j c.
Proof. intros. unfold stored_chunk. rewrite remove_chunks_lookup by done. by rewrite decide_False. Qed.

Lemma data_wf_remove t i : data_wf t -> valid_ino i -> data_wf (remove_inode i t).
Proof.
  intros Hwf Hi. constructor; rewrite ?remove_inodes by done.
  - intros j r [_ Hj]%lookup_delete_Some. by apply (dw_rows _ Hwf).
  - intros key data Hk.
    assert (is_Some (t_chunks t !! key)) as [data0 Hk0].
    { unfold remove_inode, delete_inode_row in Hk. rewrite valid_ino_i64 in Hk by done.
      simpl in Hk. destruct (t_inodes t !! i); simpl in Hk;
      apply map_lookup_filter_Some in Hk as [Hk _]; by eexists. }
    destruct (dw_chunks _ Hwf _ _ Hk0) as (j & c & r & Hc & -> & Hj & Hrest).
    rewrite remove_chunks_lookup in Hk by eauto using ino_ok_valid, dw_rows.
    destruct (decide (j = i)); [done|]. simplify_eq. exists j, c, r.
    rewrite remove_inodes, lookup_delete_ne by done. done.
Qed.

Lemma data_wf_move k d np nn t : data_wf t -> data_wf (move_tables k d np nn t).
Proof.
  intros Hwf. unfold move_tables. case_decide; [do 2 (apply data_wf_update; [done|])|];
    revert Hwf; by apply data_wf_same.
Qed.
End data_steps.

(** ** Depth *)

Section depth.
Implicit Types (t : Tables) (i : Z).

(** A directory has one chain to the root. *)
Lemma chain_unique t i n n' :
  names_wf t -> kind_of t i = Some Directory ->
  chain (t_dirents t) i n -> chain (t_dirents t) i n' -> n = n'.
Proof.
  intros Hwf Hd Hc. revert n' Hd. induction Hc as [|k d n Hk _ IH]; intros n' Hd Hc'.
  - inversion Hc' as [|k d n1 Hk _ Hd']; [done|]. by destruct (dir_entry_not_root t k d Hwf Hk).
  - destruct (nw_entry _ Hwf k d Hk) as (_ & Hp & _).
    inversion Hc' as [Heq|k2 d2 n2 Hk2 Hc2 Heq].
    + by destruct (dir_entry_not_root t k d Hwf Hk).
    + assert (k2 = k) as -> by (by apply (dir_one_entry t k2 d2 k d); rewrite ?Heq).
      simplify_eq. f_equal. by apply IH.
Qed.

(** The directories above [i], each at a smaller depth. *)
Lemma chain_ancestors t i n :
  names_wf t -> kind_of t i = Some Directory -> chain (t_dirents t) i n ->
  exists l, length l = n /\ NoDup l /\
    forall j, j ∈ l -> kind_of t j = Some Directory /\ exists n', (n' < n)%nat /\ chain (t_dirents t) j n'.
Proof.
  intros Hwf Hd Hc. revert Hd. induction Hc as [|k d n Hk Hc IH]; intros Hd.
  - exists []. split_and!; [done|constructor|by intros j ?%elem_of_nil].
  - destruct (nw_entry _ Hwf k d Hk) as (_ & Hp & _). destruct (IH Hp) as (l & Hl & Hnd & Hin).
    exists (d_parent d :: l). split_and!.
    + simpl. by rewrite Hl.
    + constructor; [|done]. intros Hx. destruct (Hin _ Hx) as (_ & n' & Hlt & Hc').
      assert (n' = n) by (by apply (chain_unique t (d_parent d))). lia.
    + intros j [->|Hj]%elem_of_cons; [by eauto|].
      destruct (Hin j Hj) as (Hjd & n' & Hlt & Hc'). split; [done|].
      exists n'. split; [lia|done].
Qed.

(** A directory is no deeper than there are inodes. *)
Lemma chain_bound t i n :
  names_wf t -> kind_of t i = Some Directory -> chain (t_dirents t) i n ->
  (n <= size (t_inodes t))%nat.
Proof.
  intros Hwf Hd Hc. destruct (chain_ancestors t i n Hwf Hd Hc) as (l & <- & Hnd & Hin).
  rewrite <- size_dom, <- (size_list_to_set (C := gset Z)) by done.
  apply subseteq_size. intros j Hj%elem_of_list_to_set.
  destruct (Hin j Hj) as [Hjd _]. apply elem_of_dom. unfold kind_of in Hjd.
  destruct (t_inodes t !! j); done.
Qed.
End depth.
