(* ===== verification/NamesSpec.v ===== *)
(** * NamesSpec: what the name operations do (src/db.rs)

    A triple per operation of [DbNames]: its result and its effect on the tables
    on success, and the error it returns otherwise with the tables as they were.
    The effects are the steps of [Tree], up to times ([≡]). *)

From S2P Require Import Prelude Effects Model Chunk Sql DbData DbNames Tree.

(** ** Finding entries *)

Section finding.
Implicit Types (t : Tables) (k p : Z) (d : DirentRow).

Lemma find_entry_Some t p n k d :
  names_wf t ->
  find_entry p n t = Some (k, d) <-> t_dirents t !! k = Some d /\ d_parent d = p /\ d_name d = n.
Proof.
  intros Hwf. unfold find_entry.
  assert (forall e, e ∈ filter (entry_is p n) (map_to_list (t_dirents t)) <->
    t_dirents t !! e.1 = Some e.2 /\ d_parent e.2 = p /\ d_name e.2 = n) as Hin.
  { intros [k' d']. rewrite list_elem_of_filter, elem_of_map_to_list. unfold entry_is. simpl. tauto. }
  split.
  - intros Hh%head_Some_elem_of. by apply Hin in Hh.
  - intros (Hk & Hp & Hn). destruct (filter _ _) as [|[k' d'] l] eqn:Hf.
    + specialize (Hin (k, d)). apply proj2 in Hin. by apply elem_of_nil in Hin.
    + destruct (proj1 (Hin (k', d'))) as (Hk' & Hp' & Hn'); [by left|]. simpl in *.
      assert (k' = k) as -> by (apply (nw_unique _ Hwf k' d' k d); congruence). congruence.
Qed.

Lemma find_entry_None t p n :
  find_entry p n t = None <->
  forall k d, t_dirents t !! k = Some d -> d_parent d = p -> d_name d <> n.
Proof.
  unfold find_entry. rewrite head_None. split.
  - intros Hf k d Hk Hp Hn.
    assert ((k, d) ∈ filter (entry_is p n) (map_to_list (t_dirents t))) as Hin.
    { rewrite list_elem_of_filter, elem_of_map_to_list. done. }
    rewrite Hf in Hin. by apply elem_of_nil in Hin.
  - intros Hn. apply elem_of_nil_inv. intros [k d].
    rewrite list_elem_of_filter, elem_of_map_to_list. intros [[Hp He] Hk]. by apply (Hn k d).
Qed.

Lemma find_parent_Some t i p :
  find_parent i t = Some p -> exists k d, t_dirents t !! k = Some d /\ d_child d = i /\ d_parent d = p.
Proof.
  unfold find_parent. intros ([k d] & Hh & ->)%fmap_Some. exists k, d.
  apply head_Some_elem_of, list_elem_of_filter in Hh as [Hc Hk].
  by apply elem_of_map_to_list in Hk.
Qed.

Lemma find_parent_None t i :
  find_parent i t = None -> forall k d, t_dirents t !! k = Some d -> d_child d <> i.
Proof.
  unfold find_parent. intros Hf%fmap_None%head_None k d Hk Hc.
  assert ((k, d) ∈ filter (fun e => d_child e.2 = i) (map_to_list (t_dirents t))) as Hin.
  { rewrite list_elem_of_filter, elem_of_map_to_list. done. }
  rewrite Hf in Hin. by apply elem_of_nil in Hin.
Qed.

(** The deleted entries are the one that was found. *)
Lemma delete_entry_found t p n k d :
  names_wf t -> find_entry p n t = Some (k, d) -> delete_entry p n t = drop_entry k t.
Proof.
  intros Hwf Hf. pose proof Hf as (Hk & Hp & Hn)%find_entry_Some; [|done].
  unfold delete_entry, drop_entry. f_equal. apply map_eq. intros k'.
  rewrite map_lookup_filter. destruct (decide (k' = k)) as [->|Hne].
  - rewrite lookup_delete_eq, Hk. simpl. case_guard; [|done]. simpl in *. unfold entry_is in *. tauto.
  - rewrite lookup_delete_ne by done. destruct (t_dirents t !! k') as [d'|] eqn:Hk'; [|done].
    simpl. case_guard as Hg; [done|]. exfalso. apply Hne.
    destruct Hg as [Hp' Hn']. simpl in *. apply (nw_unique _ Hwf k' d' k d); congruence.
Qed.
End finding.

(** The [Inode] that a row is read as. *)
Definition inode_view (ino : Z) (r : InodeRow) (k : FileKind) : Inode :=
  mkInode (u64 ino) k (u32 (r_mode r)) (u32 (r_uid r)) (u32 (r_gid r)) (u64 (r_size r))
    (from_ns (r_atime_ns r)) (from_ns (r_mtime_ns r)) (from_ns (r_ctime_ns r)) (u32 (r_nlink r)).

(** Name [n] of directory [p] is entry [k], of the inode with row [r]. *)
Record resolves (t : Tables) (p : Z) (n : list byte) (k : Z) (d : DirentRow) (r : InodeRow)
    (K : FileKind) : Prop := {
  rs_find : find_entry p n t = Some (k, d);
  rs_entry : t_dirents t !! k = Some d;
  rs_parent : d_parent d = p;
  rs_name : d_name d = n;
  rs_row : t_inodes t !! d_child d = Some r;
  rs_kind : row_kind r = Some K }.

Section reads_spec.
Context `{World}.
Implicit Types (c : Conn) (t : Tables).

Lemma wp_inode_from_row ino r k (Q : Inode -> Conn -> Prop) R c :
  row_kind r = Some k -> Q (inode_view ino r k) c -> wp (inode_from_row ino r) Q R c.
Proof.
  intros Hk HQ. unfold inode_from_row.
  pose proof (proj1 (row_kind_from_i64 r k) Hk) as ->. by apply wp_ret.
Qed.

Lemma wp_get_inode ino (Q : Inode -> Conn -> Prop) R c :
  data_wf (tables c) -> valid_ino ino ->
  (forall r k c', t_inodes (tables c) !! ino = Some r -> row_kind r = Some k ->
     tables c' = tables c -> Q (inode_view ino r k) c') ->
  (forall c', t_inodes (tables c) !! ino = None -> tables c' = tables c -> R NotFound c') ->
  (forall e c', engine_error e -> tables c' = tables c -> R e c') ->
  wp (get_inode ino) Q R c.
Proof.
  intros Hwf Hi HQ HN HR. unfold get_inode. apply wp_bind, wp_query_row; [| |done].
  - intros r c' Hr Ht. unfold select_inode in Hr. rewrite valid_ino_i64 in Hr by done.
    pose proof (dw_rows _ Hwf _ _ Hr) as (_ & [k Hk] & _). rewrite valid_ino_i64 by done.
    apply (wp_inode_from_row _ _ k); [done|]. by apply HQ.
  - intros c' Hn Ht. unfold select_inode in Hn. rewrite valid_ino_i64 in Hn by done. by apply HN.
Qed.

Lemma resolves_child t p n k d r K :
  fs_wf t -> resolves t p n k d r K -> valid_ino (d_child d) /\ kind_of t (d_child d) = Some K.
Proof.
  intros [Hd _] Hr. split; [by eapply ino_ok_valid, dw_rows, Hr|].
  rewrite (kind_of_row _ _ r) by apply Hr. apply Hr.
Qed.

Lemma find_resolves t p n k d :
  fs_wf t -> find_entry p n t = Some (k, d) -> exists r K, resolves t p n k d r K.
Proof.
  intros [Hd Hn] Hf. pose proof Hf as (Hk & Hp & He)%find_entry_Some; [|done].
  destruct (nw_entry _ Hn k d Hk) as (_ & _ & [K HK] & _). unfold kind_of in HK.
  destruct (t_inodes (t) !! d_child d) as [r|] eqn:Hr; [|done]. by exists r, K.
Qed.

Lemma wp_lookup parent name (Q : Inode -> Conn -> Prop) R c :
  fs_wf (tables c) -> valid_ino parent ->
  (forall k d r K c', zlen name <= NAME_MAX -> resolves (tables c) parent name k d r K ->
     tables c' = tables c -> Q (inode_view (d_child d) r K) c') ->
  (forall c', NAME_MAX < zlen name -> tables c' = tables c -> R NameTooLong c') ->
  (forall c', find_entry parent name (tables c) = None -> tables c' = tables c -> R NotFound c') ->
  (forall e c', engine_error e -> tables c' = tables c -> R e c') ->
  wp (lookup parent name) Q R c.
Proof.
  intros Hwf Hi HQ HL HN HR. unfold lookup, check_name. apply wp_bind.
  destruct (Z.ltb_spec NAME_MAX (zlen name)); [by apply wp_throw, HL|]. apply wp_ret.
  rewrite valid_ino_i64 by done. apply wp_bind, wp_query_row; [| |done].
  - intros [[k d] r] c' Hf Ht. apply bind_Some in Hf as ([k0 d0] & Hf & Hj).
    unfold join_child in Hj. apply bind_Some in Hj as (r0 & Hr0 & [= <- <- <-]). simpl.
    destruct (find_resolves _ _ _ _ _ Hwf Hf) as (r & K & Hres).
    pose proof (rs_row _ _ _ _ _ _ _ Hres) as Hr. simpl in Hr0. simplify_eq.
    apply (wp_inode_from_row _ _ K); [apply Hres|]. by apply (HQ k0).
  - intros c' Hf Ht. apply HN; [|done].
    destruct (find_entry parent name (tables c)) as [[k d]|] eqn:He; [|done].
    destruct (find_resolves _ _ _ _ _ Hwf He) as (r & K & Hres).
    simpl in Hf. unfold join_child in Hf. simpl in Hf. rewrite (rs_row _ _ _ _ _ _ _ Hres) in Hf. done.
Qed.

(** A directory check: [inode_kind_of] compared with [Directory]. *)
Lemma wp_is_directory ino {A} (m : DbM A) (Q : A -> Conn -> Prop) R c :
  data_wf (tables c) -> valid_ino ino ->
  (forall c', kind_of (tables c) ino = Some Directory -> tables c' = tables c -> wp m Q R c') ->
  (forall c', (exists K, kind_of (tables c) ino = Some K /\ K <> Directory) ->
     tables c' = tables c -> R NotDirectory c') ->
  (forall c', t_inodes (tables c) !! ino = None -> tables c' = tables c -> R NotFound c') ->
  (forall e c', engine_error e -> tables c' = tables c -> R e c') ->
  wp (k ← inode_kind_of ino;
      if negb (bool_decide (k = Directory)) then throw NotDirectory else m) Q R c.
Proof.
  intros Hwf Hi HQ HD HN HR. apply wp_bind, wp_inode_kind_of; [done..| |done|done].
  intros r k c' Hr Hk _ Ht. pose proof (kind_of_row _ _ _ Hr) as Hkind. rewrite Hk in Hkind.
  case_bool_decide as Hd; simpl; [subst; by apply HQ|]. apply wp_throw, HD; [by eexists|done].
Qed.
End reads_spec.

(** ** Creation *)

Definition node_sym (node : NewNode) : option (list byte) :=
  match node with NewSymlink target => Some target | _ => None end.

Definition node_kind (node : NewNode) : FileKind := (node_fields node).1.1.
Definition node_size (node : NewNode) : Z := (node_fields node).2.
Definition node_nlink (node : NewNode) : Z :=
  if bool_decide (node_kind node = Directory) then 2 else 1.

Definition node_row (node : NewNode) (uid gid : Z) (now : Timestamp) : InodeRow :=
  mkInodeRow (as_i64 (node_kind node)) (node_fields node).1.2 uid gid (i64 (node_size node))
    (to_ns now) (to_ns now) (to_ns now) (node_nlink node).

Definition node_inode (ino : Z) (node : NewNode) (uid gid : Z) (now : Timestamp) : Inode :=
  mkInode ino (node_kind node) (node_fields node).1.2 uid gid (node_size node) now now now
    (node_nlink node).

(** A new node in the tables: a fresh inode with the row of the node, and a fresh
    entry for it. *)
Record created (t t' : Tables) (parent : Z) (name : list byte) (node : NewNode)
    (uid gid : Z) (now : Timestamp) (k ino : Z) : Prop := {
  cr_name : zlen name <= NAME_MAX;
  cr_vacant : entry_vacant t k (mkDirentRow parent name ino);
  cr_new : t_inodes t !! ino = None;
  cr_ino : 1 <= ino <= MAX_INO;
  cr_row : t_inodes t' !! ino = Some (node_row node uid gid now);
  cr_equiv : t' ≡ create_tables k (mkDirentRow parent name ino) (node_row node uid gid now)
                    (node_sym node) t;
  cr_wf : fs_wf t' }.

Section create_spec.
Context `{World}.
Implicit Types (c : Conn) (t : Tables) (node : NewNode).

Lemma node_row_kind node uid gid now : row_kind (node_row node uid gid now) = Some (node_kind node).
Proof. unfold row_kind, node_row. cbn [r_kind]. by rewrite from_i64_as_i64. Qed.

Lemma node_row_ok node uid gid now ino :
  1 <= ino <= MAX_INO -> node_size node <= I64_MAX ->
  inode_row_ok ino (node_row node uid gid now).
Proof.
  intros Hi Hs. unfold inode_row_ok. rewrite node_row_kind. simpl.
  assert (0 <= node_size node) as Hpos
    by (destruct node; unfold node_size; simpl; try apply zlen_nonneg; lia).
  unfold I64_MAX in *. rewrite i64_id by lia. split_and!; [lia|lia|done|lia|lia|].
  intros [= Hk]. assert (node_size node = 0) as -> by (by destruct node). clia.
Qed.

Lemma node_nlink_row node uid gid now :
  r_nlink (node_row node uid gid now) =
    if decide (row_kind (node_row node uid gid now) = Some Directory) then 2 else 1.
Proof.
  rewrite node_row_kind. unfold node_row, node_nlink. cbn [r_nlink].
  case_bool_decide; case_decide; congruence.
Qed.

Lemma node_sym_kind node uid gid now :
  is_Some (node_sym node) <-> row_kind (node_row node uid gid now) = Some Symlink.
Proof. rewrite node_row_kind. destruct node; simpl; unfold is_Some; naive_solver. Qed.

Lemma created_wf t parent name node uid gid now k ino :
  fs_wf t -> valid_ino parent -> node_size node <= I64_MAX ->
  entry_vacant t k (mkDirentRow parent name ino) -> t_inodes t !! ino = None ->
  1 <= ino <= MAX_INO ->
  fs_wf (create_tables k (mkDirentRow parent name ino) (node_row node uid gid now)
           (node_sym node) t).
Proof.
  intros [Hd Hn] Hp Hs Hv Hnew Hi. split.
  - apply data_wf_create; [done|done|]. by apply node_row_ok.
  - apply names_wf_create; try done.
    + rewrite node_row_kind. by eexists.
    + apply node_nlink_row.
    + apply node_sym_kind.
Qed.

(** The rest of the transaction, once the inode row is in. *)
Lemma wp_create_rest parent name node uid gid now k ino t (Q : Inode -> Conn -> Prop)
    (R : DbError -> Conn -> Prop) c :
  fs_wf t -> valid_ino parent -> node_size node <= I64_MAX -> zlen name <= NAME_MAX ->
  entry_vacant t k (mkDirentRow parent name ino) -> t_inodes t !! ino = None ->
  1 <= ino <= MAX_INO ->
  tables c = put_entry k (mkDirentRow parent name ino) (put_inode ino (node_row node uid gid now) t) ->
  (forall c', created t (tables c') parent name node uid gid now k ino ->
     Q (node_inode ino node uid gid now) c') ->
  (forall e c', engine_error e -> R e c') ->
  wp ((match node with
       | NewSymlink target => stmt (insert_symlink ino target)
       | _ => mret tt
       end) ;;
      touch_dir parent now ;;
      (if (if bool_decide (node_kind node = Directory) then 1 else 0) =? 0 then mret tt
       else add_directory_nlink parent (if bool_decide (node_kind node = Directory) then 1 else 0)) ;;
      mret (node_inode ino node uid gid now)) Q R c.
Proof.
  intros Hwf Hp Hs Hl Hv Hnew Hi Hc HQ HR. set (d := mkDirentRow parent name ino) in *.
  set (r := node_row node uid gid now) in *.
  assert (valid_ino ino) as Hvi by (unfold valid_ino; lia).
  assert (ino <> parent) as Hne.
  { intros <-. destruct Hv as (_ & _ & _ & Hpd & _). unfold kind_of in Hpd. simpl in Hpd.
    by rewrite Hnew in Hpd. }
  set (T := match node_sym node with
            | Some target => put_symlink ino target (tables c) | None => tables c end).
  assert (t_inodes T = <[ino := r]> (t_inodes t)) as HTi
    by (unfold T; rewrite Hc; by destruct (node_sym node)).
  assert (forall c', tables c' = T -> wp (touch_dir parent now ;;
      (if (if bool_decide (node_kind node = Directory) then 1 else 0) =? 0 then mret tt
       else add_directory_nlink parent (if bool_decide (node_kind node = Directory) then 1 else 0)) ;;
      mret (node_inode ino node uid gid now)) Q R c') as Hrest.
  { intros c1 Hc1. apply wp_bind, wp_execute; [|by eauto]. intros c2 Hc2.
    rewrite Hc1 in Hc2. unfold create_tables in *.
    pose proof (update_inode_equiv (row_touch (to_ns now)) parent T ltac:(done)) as He.
    pose proof (created_wf t parent name node uid gid now k ino Hwf Hp Hs Hv Hnew Hi) as Hcw.
    fold d r in Hcw.
    assert (forall c', tables c' ≡ create_tables k d r (node_sym node) t ->
      t_inodes (tables c') !! ino = Some r -> wp (mret (node_inode ino node uid gid now)) Q R c') as Hend.
    { intros c' Heq Hrow. apply wp_ret, HQ. constructor; try done. by rewrite Heq. }
    assert (row_kind r = Some (node_kind node)) as Hrk by apply node_row_kind.
    unfold create_tables in Hend. cbv zeta in Hend. change (d_child d) with ino in Hend.
    rewrite <- Hc in Hend. fold T in Hend. rewrite Hrk in Hend. change (d_parent d) with parent in Hend.
    apply wp_bind. case_bool_decide as Hk; simpl.
    - apply wp_execute; [|by eauto]. intros c3 Hc3. rewrite Hk, decide_True in Hend by done.
      apply Hend; rewrite Hc3, Hc2; simpl.
      + by apply add_nlink_proper.
      + rewrite valid_ino_i64 by done. by rewrite !lookup_alter_ne, HTi, lookup_insert_eq.
    - apply wp_ret. rewrite decide_False in Hend by congruence. apply Hend; rewrite Hc2; [done|].
      simpl. rewrite valid_ino_i64 by done. by rewrite lookup_alter_ne, HTi, lookup_insert_eq. }
  assert (names_wf t) as Hn by apply Hwf.
  apply wp_bind. destruct node; simpl in T; try by apply wp_ret, Hrest.
  apply wp_stmt; [| |by eauto].
  - intros t' [] c' Hins Hc'. apply Hrest. rewrite Hc'. unfold insert_symlink in Hins.
    destruct (t_symlinks (tables c) !! ino); [done|]. destruct (has_inode _ _); [|done].
    by injection Hins as <-.
  - intros se c' Hins Hc'. exfalso. unfold insert_symlink in Hins. rewrite Hc in Hins. simpl in Hins.
    pose proof (nw_symlinks _ Hn ino) as Hsym. unfold kind_of in Hsym. rewrite Hnew in Hsym. simpl in Hsym.
    destruct (t_symlinks t !! ino); [by specialize (proj1 Hsym ltac:(by eexists))|].
    unfold has_inode in Hins. simpl in Hins. rewrite lookup_insert_eq in Hins. done.
Qed.

(** What a fresh row id gives. *)
Lemma rowid_facts {A} `{!EngineLaws W} (m : gmap Z A) i :
  new_rowid (World := W) (dom m) = Some i -> (forall k, is_Some (m !! k) -> 0 < k) ->
  m !! i = None /\ 0 < i <= I64_MAX.
Proof.
  intros Hi Hpos. pose proof (new_rowid_fresh _ _ Hi) as Hf. rewrite not_elem_of_dom in Hf.
  split; [done|]. split; [|by eapply new_rowid_max].
  eapply new_rowid_pos; [done|]. intros k Hk%elem_of_dom. by apply Hpos.
Qed.

(** The engine has no id left: for an entry, or for an inode that chunk keys can hold. *)
Definition entries_full t : Prop := new_rowid (dom (t_dirents t)) = None.
Definition inodes_full t : Prop := forall i, new_rowid (dom (t_inodes t)) = Some i -> MAX_INO < i.

(** Inserting an entry: it is there, or the constraint that fails. *)
Lemma insert_dirent_spec `{!EngineLaws W} t t0 parent name child :
  names_wf t0 -> t_dirents t = t_dirents t0 -> zlen name <= NAME_MAX ->
  kind_of t0 parent = Some Directory -> is_Some (t_inodes t !! parent) ->
  is_Some (t_inodes t !! child) ->
  (exists k, insert_dirent (H := W) parent name child t =
       inl (put_entry k (mkDirentRow parent name child) t, tt) /\
     entry_vacant t0 k (mkDirentRow parent name child)) \/
  (insert_dirent (H := W) parent name child t = inr (UNIQUE_FAILURE (H := W)) /\
     is_Some (find_entry parent name t0)) \/
  (insert_dirent (H := W) parent name child t = inr (FULL_FAILURE (H := W)) /\
     new_rowid (World := W) (dom (t_dirents t0)) = None).
Proof.
  intros Hn Hd Hl Hk Hp Hc. unfold insert_dirent. rewrite Hd.
  assert (find_entry parent name t = find_entry parent name t0) as -> by (unfold find_entry; by rewrite Hd).
  destruct (new_rowid (dom (t_dirents t0))) as [k|] eqn:Hnew; [|by right; right].
  destruct (find_entry parent name t0) as [[k' d']|] eqn:Hf.
  - right. left. split; [done|by eexists].
  - left. exists k. unfold has_inode. rewrite !bool_decide_true by done. simpl.
    split; [by rewrite <- Hd|].
    apply rowid_facts in Hnew as [Hfresh Hpos].
    + split_and!; try done; [apply Hpos..|]. by apply find_entry_None.
    + intros k0 [d0 Hk0]. destruct (nw_entry _ Hn k0 d0 Hk0) as [? _]. lia.
Qed.

Lemma wp_create_node `{!EngineLaws H} parent name node uid gid (Q : Inode -> Conn -> Prop) R c :
  fs_wf (tables c) -> valid_ino parent -> node_size node <= I64_MAX ->
  (forall now k ino c', created (tables c) (tables c') parent name node uid gid now k ino ->
     Q (node_inode ino node uid gid now) c') ->
  (forall c', NAME_MAX < zlen name -> tables c' = tables c -> R NameTooLong c') ->
  (forall c', (exists K, kind_of (tables c) parent = Some K /\ K <> Directory) ->
     tables c' = tables c -> R NotDirectory c') ->
  (forall c', t_inodes (tables c) !! parent = None -> tables c' = tables c -> R NotFound c') ->
  (forall c', is_Some (find_entry parent name (tables c)) -> tables c' = tables c ->
     R AlreadyExists c') ->
  (forall c', entries_full (tables c) \/ inodes_full (tables c) -> tables c' = tables c ->
     R NoSpace c') ->
  (forall e c', engine_error e -> tables c' = tables c -> R e c') ->
  wp (create_node parent name node uid gid) Q R c.
Proof.
  intros Hwf Hp Hs HQ HL HD HN HE HF HR. unfold create_node, check_name. apply wp_bind.
  destruct (Z.ltb_spec NAME_MAX (zlen name)); [by apply wp_throw, HL|]. apply wp_ret.
  pose proof Hwf as [Hd Hn]. apply wp_is_directory; [done..| |done|done|done].
  intros c1 Hkp Hc1. apply wp_bind, wp_now. intros now c2 Hc2.
  destruct (node_fields node) as [[kind mode] size] eqn:Hnf.
  assert (tables c2 = tables c) as Ht2 by congruence.
  apply wp_transaction; [|intros; apply HR; congruence]. intros c3 Hc3.
  apply wp_bind, wp_stmt.
  - intros t ino c4 Hins Hc4. unfold insert_inode in Hins.
    rewrite Hc3, Ht2 in Hins.
    destruct (new_rowid (dom (t_inodes (tables c)))) as [ino'|] eqn:Hid; [|done].
    pose proof Hid as Hid'. apply rowid_facts in Hid as [Hnew Hpos];
      [|intros i [r Hr]; pose proof (dw_rows _ Hd _ _ Hr) as [? _]; lia].
    injection Hins as <- <-. unfold I64_MAX in Hpos. rewrite (u64_id ino') by lia.
    rewrite (i64_id ino') by lia. rewrite valid_ino_i64 by done. cbv zeta.
    destruct (Z.ltb_spec MAX_INO ino'); 
      [apply wp_throw; intros; apply HF; [right; unfold inodes_full; congruence|congruence]|].
    set (r := mkInodeRow _ _ _ _ _ _ _ _ _) in Hc4.
    assert (r = node_row node uid gid now) as Hr
      by (unfold r, node_row, node_nlink, node_kind, node_size; by rewrite Hnf).
    assert (is_Some (t_inodes (tables c) !! parent)) as Hpar.
    { unfold kind_of in Hkp. destruct (t_inodes (tables c) !! parent); [by eexists|done]. }
    assert (parent <> ino') as Hne by (intros ->; rewrite Hnew in Hpar; by destruct Hpar).
    apply wp_bind, wp_stmt; [| |intros; apply HR; congruence];
      destruct (insert_dirent_spec (tables c4) (tables c) parent name ino')
        as [(k & E & Hv)|[[E Hex]|[E Hfull]]]; rewrite ?E; rewrite ?Hc4; try done;
      try (simpl; rewrite ?lookup_insert_eq, ?lookup_insert_ne by done; by eauto).
    + intros t' [] c5 [= <-] Hc5. 
      pose proof (wp_create_rest parent name node uid gid now k ino' (tables c)) as Hrest.
      unfold node_inode, node_kind, node_size, node_nlink, node_kind in Hrest. rewrite Hnf in Hrest. simpl in Hrest.
      assert (size <= I64_MAX) by (unfold node_size in Hs; by rewrite Hnf in Hs).
      apply Hrest; try done; [lia|by rewrite Hc5, <- Hr| |].
      * intros c6 Hcr c' Hc'. rewrite <- Hc' in Hcr.
        pose proof (HQ now k ino' c' Hcr) as HQ'.
        unfold node_inode, node_kind, node_size, node_nlink, node_kind in HQ'. by rewrite Hnf in HQ'.
      * intros e c6 He c' Hc'. apply HR; congruence.
    + intros se c5 [= <-] Hc5 c' Hc'. apply HE; congruence.
    + intros se c5 [= <-] Hc5 c' Hc'. apply HF; [by left|congruence].
  - intros se c4 Hins Hc4. unfold insert_inode in Hins. rewrite Hc3, Ht2 in Hins.
    destruct (new_rowid _) eqn:Hid; [done|].
    injection Hins as <-. intros c' Hc'. apply HF; [right; unfold inodes_full; congruence|congruence].
  - intros e c4 He Hc4 c' Hc'. apply HR; congruence.
Qed.
End create_spec.

(** ** Links and removal *)

Section link_steps.
Implicit Types (t : Tables) (k : Z) (d : DirentRow).

Lemma nlink_fits t i r :
  names_wf t -> t_inodes t !! i = Some r -> kind_of t i <> Some Directory ->
  Z.of_nat (size (t_dirents t)) < U32_MAX ->
  r_nlink r = links t i /\ u32 (r_nlink r) = r_nlink r /\ u32 (r_nlink r + 1) = r_nlink r + 1.
Proof.
  intros Hn Hr Hk Hroom. rewrite (nw_nlink _ Hn i r Hr), decide_False by done.
  pose proof (entry_count_nonneg (fun d => d_child d = i) (t_dirents t)).
  pose proof (entry_count_le (fun d => d_child d = i) (t_dirents t)).
  unfold links, U32_MAX in *. by rewrite !u32_id by lia.
Qed.

Lemma set_nlink_equiv t ino r delta n ns :
  valid_ino ino -> t_inodes t !! ino = Some r -> n = r_nlink r + delta ->
  update_inode (row_set_nlink n ns) ino t ≡ add_nlink ino delta t.
Proof.
  intros Hi Hr ->. split_and!; try done. intros j. simpl. rewrite valid_ino_i64 by done.
  destruct (decide (j = ino)) as [->|]; [|by rewrite !lookup_alter_ne].
  by rewrite !lookup_alter_eq, Hr.
Qed.

Lemma remove_after_nlink t i delta :
  valid_ino i -> remove_inode i (add_nlink i delta t) = remove_inode i t.
Proof.
  intros Hi. unfold remove_inode, delete_inode_row, add_nlink, update_inode.
  rewrite !valid_ino_i64 by done. simpl. rewrite lookup_alter_eq.
  assert (forall m : gmap Z InodeRow, delete i (alter (row_add_nlink delta) i m) = delete i m) as Hda.
  { intros m. apply map_eq. intros j. destruct (decide (j = i)) as [->|];
      [by rewrite !lookup_delete_eq|by rewrite !lookup_delete_ne, lookup_alter_ne]. }
  destruct (t_inodes t !! i) eqn:E; simpl; [by rewrite Hda|].
  unfold with_inodes, delete_chunks, with_chunks. f_equal. apply map_eq. intros j. simpl.
  destruct (decide (j = i)) as [->|]; [by rewrite lookup_alter_eq, E|by rewrite lookup_alter_ne].
Qed.

Lemma touch_equiv t ino now : update_inode (row_touch (to_ns now)) ino t ≡ t.
Proof. by apply update_inode_equiv. Qed.

(** What removing entry [k] of a file leaves: the inode with one link less, or no
    inode when this was its last name and nobody keeps it. *)
Definition unlink_tables k d (keep : bool) t : Tables :=
  if keep then add_nlink (d_child d) (-1) (drop_entry k t)
  else remove_inode (d_child d) (drop_entry k t).

Lemma unlink_wf t k d r K keep :
  fs_wf t -> t_dirents t !! k = Some d -> t_inodes t !! d_child d = Some r ->
  row_kind r = Some K -> K <> Directory -> (keep = false -> r_nlink r <= 1) ->
  fs_wf (unlink_tables k d keep t).
Proof.
  intros [Hd Hn] Hk Hr HK Hne Hkeep. assert (valid_ino (d_child d)) as Hi
    by (by eapply ino_ok_valid, dw_rows).
  assert (kind_of t (d_child d) = Some K) as Hkind by (by rewrite (kind_of_row _ _ r)).
  pose proof (names_wf_unlink t k d K Hn Hk Hi Hkind Hne) as Hn'.
  assert (data_wf (drop_entry k t)) as Hd' by (revert Hd; by apply data_wf_same).
  unfold unlink_tables. destruct keep.
  - split; [by apply data_wf_update|done].
  - split; [by apply data_wf_remove|]. rewrite <- (remove_after_nlink _ _ (-1)) by done.
    apply (names_wf_remove _ _ K); try done; [by rewrite kind_of_add_nlink|].
    change (links (add_nlink (d_child d) (-1) (drop_entry k t)) (d_child d))
      with (links (drop_entry k t) (d_child d)). rewrite (links_drop _ _ d) by done.
    pose proof (nw_nlink _ Hn _ _ Hr) as Hnl. rewrite decide_False in Hnl by congruence.
    specialize (Hkeep eq_refl).
    pose proof (entry_count_pos (fun d' => d_child d' = d_child d) (t_dirents t) k d Hk eq_refl).
    unfold weight. rewrite decide_True by done. unfold links in *. lia.
Qed.

(** What removing the entry of an empty directory leaves. *)
Definition rmdir_tables k d t : Tables :=
  add_nlink (d_parent d) (-1) (remove_inode (d_child d) (drop_entry k t)).

Lemma rmdir_wf t k d :
  fs_wf t -> t_dirents t !! k = Some d -> kind_of t (d_child d) = Some Directory ->
  child_count (d_child d) t = 0 -> fs_wf (rmdir_tables k d t).
Proof.
  intros [Hd Hn] Hk HK Hempty.
  assert (forall i K, kind_of t i = Some K -> valid_ino i) as Hvalid.
  { intros i K Hi. unfold kind_of in Hi. destruct (t_inodes t !! i) as [r|] eqn:Hr; [|done].
    by eapply ino_ok_valid, dw_rows. }
  destruct (nw_entry _ Hn k d Hk) as (_ & Hp & _).
  split.
  - apply data_wf_update; [done|]. apply data_wf_remove; [|by eapply Hvalid].
    revert Hd. by apply data_wf_same.
  - apply names_wf_rmdir; try done; [by eapply Hvalid..|].
    intros k' d' Hk'. exact (proj1 (entry_count_zero (fun d' => d_parent d' = d_child d) _) Hempty k' d' Hk').
Qed.
End link_steps.

Section removal_spec.
Context `{World}.
Implicit Types (c : Conn) (t : Tables).

Lemma wp_delete_inode_rows ino (Q : unit -> Conn -> Prop) (R : DbError -> Conn -> Prop) c :
  (forall c', tables c' = remove_inode ino (tables c) -> Q tt c') ->
  (forall e c', engine_error e -> R e c') ->
  wp (delete_inode_rows ino) Q R c.
Proof.
  intros HQ HR. unfold delete_inode_rows, chunk_keys. apply wp_bind, wp_execute; [|by eauto].
  intros c1 Hc1. apply wp_execute; [|by eauto]. intros c2 Hc2. apply HQ. by rewrite Hc2, Hc1.
Qed.

(** The inode of a removed entry. *)
Lemma wp_drop_unlinked t k d r K now is_open (Q : unit -> Conn -> Prop)
    (R : DbError -> Conn -> Prop) c :
  fs_wf t -> t_dirents t !! k = Some d -> t_inodes t !! d_child d = Some r ->
  row_kind r = Some K -> Z.of_nat (size (t_dirents t)) < U32_MAX ->
  tables c = drop_entry k t ->
  (forall c', tables c' ≡ (if bool_decide (K = Directory)
       then remove_inode (d_child d) (drop_entry k t)
       else unlink_tables k d ((1 <? r_nlink r) || is_open) t) -> Q tt c') ->
  (forall e c', engine_error e -> R e c') ->
  wp (drop_unlinked_inode (inode_view (d_child d) r K) now is_open) Q R c.
Proof.
  intros [Hd Hn] Hk Hr HK Hroom Hc HQ HR. unfold drop_unlinked_inode, inode_view.
  cbn [i_kind i_nlink i_ino]. pose proof (dw_rows _ Hd _ _ Hr) as Hok.
  pose proof (ino_ok_valid _ _ Hok) as Hi.
  assert (u64 (d_child d) = d_child d) as -> by (apply u64_id; unfold valid_ino in Hi; clia).
  case_bool_decide as HD.
  { apply wp_delete_inode_rows; [|done]. intros c' Hc'. apply HQ. by rewrite Hc', Hc. }
  destruct (nlink_fits t (d_child d) r Hn Hr) as (Hl & -> & _); [|done|].
  { rewrite (kind_of_row _ _ r) by done. congruence. }
  pose proof (entry_count_pos (fun d' => d_child d' = d_child d) (t_dirents t) k d Hk eq_refl) as Hpos.
  unfold unlink_tables in *. destruct ((1 <? r_nlink r) || is_open).
  - apply wp_execute; [|by eauto]. intros c' Hc'. apply HQ. rewrite Hc', Hc.
    apply (set_nlink_equiv _ _ r); [done|done|]. unfold links in Hl. lia.
  - apply wp_delete_inode_rows; [|done]. intros c' Hc'. apply HQ. by rewrite Hc', Hc.
Qed.

Lemma wp_delete_inode ino (Q : unit -> Conn -> Prop) R c :
  (forall c', tables c' = remove_inode ino (tables c) -> Q tt c') ->
  (forall e c', engine_error e -> tables c' = tables c -> R e c') ->
  wp (delete_inode ino) Q R c.
Proof.
  intros HQ HR. apply wp_transaction; [|done]. intros c0 Hc0.
  apply wp_delete_inode_rows; [|by eauto]. intros c1 Hc1 c' Hc'. apply HQ. congruence.
Qed.

(** [unlink_entry] of a name that resolves. *)
Lemma wp_unlink_entry parent name k d r K is_open (Q : unit -> Conn -> Prop) R c :
  fs_wf (tables c) -> valid_ino parent -> resolves (tables c) parent name k d r K ->
  Z.of_nat (size (t_dirents (tables c))) < U32_MAX ->
  (forall c', K <> Directory ->
     tables c' ≡ unlink_tables k d ((1 <? r_nlink r) || is_open) (tables c) ->
     fs_wf (tables c') -> Q tt c') ->
  (K = Directory -> R IsDirectory c) ->
  (forall e c', engine_error e -> tables c' = tables c -> R e c') ->
  wp (unlink_entry parent name (inode_view (d_child d) r K) is_open) Q R c.
Proof.
  intros Hwf Hp Hres Hroom HQ HD HR. unfold unlink_entry. cbn [inode_view i_kind].
  case_bool_decide as Hk; [by apply wp_throw, HD|]. apply wp_bind, wp_now. intros now c1 Hc1.
  apply wp_transaction; [|intros; apply HR; congruence]. intros c2 Hc2.
  rewrite valid_ino_i64 by done. apply wp_bind, wp_execute; [|intros; apply HR; congruence].
  intros c3 Hc3. assert (tables c2 = tables c) as Ht by congruence.
  rewrite Ht, (delete_entry_found _ _ _ k d) in Hc3 by (apply Hwf || apply Hres).
  apply wp_bind. apply (wp_drop_unlinked (tables c) k d r K); try done; try apply Hres.
  - intros c4 Hc4. rewrite bool_decide_false in Hc4 by done.
    apply wp_execute; [|intros; apply HR; congruence]. intros c5 Hc5 c' Hc'.
    assert (tables c' ≡ unlink_tables k d ((1 <? r_nlink r) || is_open) (tables c)) as Heq.
    { rewrite Hc', Hc5. by rewrite touch_equiv. }
    apply HQ; [done..|]. rewrite Heq. apply (unlink_wf _ k d r K); try apply Hres; try done.
    intros [Hl _]%orb_false_iff. by apply Z.ltb_ge in Hl.
  - intros e c4 He c' Hc'. apply HR; congruence.
Qed.

Lemma wp_remove_dir parent name (Q : unit -> Conn -> Prop) R c :
  fs_wf (tables c) -> valid_ino parent ->
  (forall k d r c', resolves (tables c) parent name k d r Directory ->
     child_count (d_child d) (tables c) = 0 ->
     tables c' ≡ rmdir_tables k d (tables c) -> fs_wf (tables c') -> Q tt c') ->
  (forall c', NAME_MAX < zlen name -> tables c' = tables c -> R NameTooLong c') ->
  (forall c', find_entry parent name (tables c) = None -> tables c' = tables c -> R NotFound c') ->
  (forall k d r K c', resolves (tables c) parent name k d r K -> K <> Directory ->
     tables c' = tables c -> R NotDirectory c') ->
  (forall k d r c', resolves (tables c) parent name k d r Directory ->
     child_count (d_child d) (tables c) <> 0 -> tables c' = tables c -> R DirectoryNotEmpty c') ->
  (forall e c', engine_error e -> tables c' = tables c -> R e c') ->
  wp (remove_dir parent name) Q R c.
Proof.
  intros Hwf Hp HQ HL HN HD HE HR. unfold remove_dir. apply wp_bind, wp_lookup; [done..| |done|done|done].
  intros k d r K c1 Hl Hres Hc1. cbn [inode_view i_kind i_ino].
  case_bool_decide as Hk; simpl; [|by apply wp_throw, (HD k d r K)]. subst K.
  destruct (resolves_child _ _ _ _ _ _ _ Hwf Hres) as [Hi Hkind].
  assert (u64 (d_child d) = d_child d) as -> by (apply u64_id; unfold valid_ino in Hi; clia).
  rewrite (valid_ino_i64 (d_child d)), (valid_ino_i64 parent) by done.
  apply wp_bind, wp_now. intros now c2 Hc2.
  apply wp_transaction; [|intros; apply HR; congruence]. intros c3 Hc3.
  assert (tables c3 = tables c) as Ht by congruence.
  apply wp_bind, wp_query; [|intros; apply HR; congruence]. intros c4 Hc4. rewrite Ht.
  destruct (Z.eqb_spec (child_count (d_child d) (tables c)) 0) as [Hz|Hz]; simpl;
    [|apply wp_throw; intros c' Hc'; apply (HE k d r); [done..|congruence]].
  apply wp_bind, wp_execute; [|intros; apply HR; congruence]. intros c5 Hc5.
  assert (tables c4 = tables c) as Ht4 by congruence.
  rewrite Ht4, (delete_entry_found _ _ _ k d) in Hc5 by (apply Hwf || apply Hres).
  apply wp_bind, wp_delete_inode_rows; [|intros; apply HR; congruence]. intros c6 Hc6.
  apply wp_bind, wp_execute; [|intros; apply HR; congruence]. intros c7 Hc7.
  apply wp_execute; [|intros; apply HR; congruence]. intros c8 Hc8 c' Hc'.
  assert (tables c' ≡ rmdir_tables k d (tables c)) as Heq.
  { rewrite Hc', Hc8, Hc7, Hc6, Hc5. unfold rmdir_tables. rewrite (rs_parent _ _ _ _ _ _ _ Hres).
    apply add_nlink_proper. apply touch_equiv. }
  apply (HQ k d r); [done..|]. rewrite Heq. apply rmdir_wf; try done. apply Hres.
Qed.
End removal_spec.

Section link_spec.
Context `{World}.
Implicit Types (c : Conn) (t : Tables).

(** A second name: a fresh entry and one link more. *)
Definition link_tables (k : Z) (d : DirentRow) (t : Tables) : Tables :=
  add_nlink (d_child d) 1 (put_entry k d t).

Lemma link_wf t k d r K :
  fs_wf t -> entry_vacant t k d -> t_inodes t !! d_child d = Some r -> row_kind r = Some K ->
  K <> Directory -> fs_wf (link_tables k d t).
Proof.
  intros [Hd Hn] Hv Hr HK Hne. split.
  - apply data_wf_update; [done|]. revert Hd. by apply data_wf_same.
  - apply (names_wf_link _ _ _ K); try done; [by eapply ino_ok_valid, dw_rows|].
    by rewrite (kind_of_row _ _ r).
Qed.

Lemma wp_link `{!EngineLaws H} ino parent name (Q : Inode -> Conn -> Prop) R c :
  fs_wf (tables c) -> valid_ino ino -> valid_ino parent ->
  Z.of_nat (size (t_dirents (tables c))) < U32_MAX ->
  (forall k r K now c', t_inodes (tables c) !! ino = Some r -> row_kind r = Some K ->
     K <> Directory -> entry_vacant (tables c) k (mkDirentRow parent name ino) ->
     tables c' ≡ link_tables k (mkDirentRow parent name ino) (tables c) -> fs_wf (tables c') ->
     Q (mkInode (u64 ino) K (u32 (r_mode r)) (u32 (r_uid r)) (u32 (r_gid r)) (u64 (r_size r))
          (from_ns (r_atime_ns r)) (from_ns (r_mtime_ns r)) now (r_nlink r + 1)) c') ->
  (forall c', NAME_MAX < zlen name -> tables c' = tables c -> R NameTooLong c') ->
  (forall c', t_inodes (tables c) !! ino = None \/ t_inodes (tables c) !! parent = None ->
     tables c' = tables c -> R NotFound c') ->
  (forall c', kind_of (tables c) ino = Some Directory -> tables c' = tables c -> R IsDirectory c') ->
  (forall c', (exists K, kind_of (tables c) parent = Some K /\ K <> Directory) ->
     tables c' = tables c -> R NotDirectory c') ->
  (forall c', is_Some (find_entry parent name (tables c)) -> tables c' = tables c ->
     R AlreadyExists c') ->
  (forall c', entries_full (tables c) -> tables c' = tables c -> R NoSpace c') ->
  (forall e c', engine_error e -> tables c' = tables c -> R e c') ->
  wp (link ino parent name) Q R c.
Proof.
  intros Hwf Hi Hp Hroom HQ HL HN HI HD HE HF HR. unfold link, check_name. apply wp_bind.
  destruct (Z.ltb_spec NAME_MAX (zlen name)); [by apply wp_throw, HL|]. apply wp_ret.
  pose proof Hwf as [Hd Hn].
  apply wp_bind, wp_get_inode; [done..| |by eauto|done]. intros r K c1 Hr HK Hc1.
  cbn [inode_view i_kind i_ino i_mode i_uid i_gid i_size i_atime i_mtime i_nlink].
  assert (kind_of (tables c) ino = Some K) as Hkind by (by rewrite (kind_of_row _ _ r)).
  case_bool_decide as HKd; [by apply wp_throw, HI; congruence|].
  apply wp_is_directory; rewrite ?Hc1; [done..| |done|by eauto|done].
  intros c2 Hpd Hc2. apply wp_bind, wp_now. intros now c3 Hc3. apply wp_bind.
  destruct (nlink_fits (tables c) ino r Hn Hr) as (Hl & -> & Hl1); [congruence|done|]. rewrite Hl1.
  assert (tables c3 = tables c) as Ht by congruence. rewrite !valid_ino_i64 by done.
  apply wp_transaction; [|intros; apply HR; congruence]. intros c4 Hc4.
  assert (is_Some (t_inodes (tables c) !! parent)) as Hpar.
  { unfold kind_of in Hpd. destruct (t_inodes (tables c) !! parent); [by eexists|done]. }
  apply wp_bind, wp_stmt; [| |intros; apply HR; congruence];
    destruct (insert_dirent_spec (tables c4) (tables c) parent name ino)
      as [(k & E & Hv)|[[E Hex]|[E Hfull]]]; rewrite ?E; rewrite ?Hc4, ?Ht; try done; try by eexists.
  - intros t' [] c5 [= <-] Hc5. apply wp_bind, wp_execute; [|intros; apply HR; congruence].
    intros c6 Hc6. apply wp_execute; [|intros; apply HR; congruence]. intros c7 Hc7 c' Hc'.
    apply wp_ret. set (d := mkDirentRow parent name ino) in *.
    assert (tables c' ≡ link_tables k d (tables c)) as Heq.
    { rewrite Hc', Hc7, touch_equiv, Hc6, Hc5. by apply (set_nlink_equiv _ _ r). }
    apply (HQ k r K now); try done. rewrite Heq. by apply (link_wf _ k d r K).
  - intros se c5 [= <-] Hc5 c' Hc'. apply HE; congruence.
  - intros se c5 [= <-] Hc5 c' Hc'. apply HF; [done|congruence].
Qed.

Lemma wp_read_symlink ino (Q : list byte -> Conn -> Prop) R c :
  fs_wf (tables c) -> valid_ino ino ->
  (forall target c', t_symlinks (tables c) !! ino = Some target -> tables c' = tables c ->
     Q target c') ->
  (forall K c', kind_of (tables c) ino = Some K -> K <> Symlink -> tables c' = tables c ->
     R InvalidInput c') ->
  (forall c', t_inodes (tables c) !! ino = None -> tables c' = tables c -> R NotFound c') ->
  (forall e c', engine_error e -> tables c' = tables c -> R e c') ->
  wp (read_symlink ino) Q R c.
Proof.
  intros [Hd Hn] Hi HQ HK HN HR. unfold read_symlink.
  apply wp_bind, wp_inode_kind_of; [done..| |done|done]. intros r k c1 Hr Hk _ Hc1.
  assert (kind_of (tables c) ino = Some k) as Hkind by (by rewrite (kind_of_row _ _ r)).
  case_bool_decide as Hs; simpl; [|apply wp_throw; by eapply HK]. subst k.
  rewrite valid_ino_i64 by done. apply wp_query_row; rewrite Hc1.
  - intros target c2 Ht Hc2. by apply HQ.
  - intros c2 Ht. pose proof (proj2 (nw_symlinks _ Hn ino) Hkind) as [x Hx]. congruence.
  - intros e c2 He Hc2. by apply HR.
Qed.

Lemma wp_update_metadata ino u (Q : Inode -> Conn -> Prop) R c :
  fs_wf (tables c) -> valid_ino ino ->
  (forall r r' K c', t_inodes (tables c) !! ino = Some r -> row_kind r = Some K ->
     t_inodes (tables c') !! ino = Some r' ->
     r_mode r' = default (u32 (r_mode r)) (mu_mode u) ->
     r_uid r' = default (u32 (r_uid r)) (mu_uid u) ->
     r_gid r' = default (u32 (r_gid r)) (mu_gid u) ->
     r_atime_ns r' = to_ns (default (from_ns (r_atime_ns r)) (mu_atime u)) ->
     r_mtime_ns r' = to_ns (default (from_ns (r_mtime_ns r)) (mu_mtime u)) ->
     (forall j, j <> ino -> t_inodes (tables c') !! j = t_inodes (tables c) !! j) ->
     tables c' ≡ tables c -> fs_wf (tables c') -> Q (inode_view ino r' K) c') ->
  (forall c', t_inodes (tables c) !! ino = None -> tables c' = tables c -> R NotFound c') ->
  (forall e c', engine_error e ->
     (forall j, j <> ino -> t_inodes (tables c') !! j = t_inodes (tables c) !! j) ->
     tables c' ≡ tables c -> fs_wf (tables c') -> R e c') ->
  wp (update_metadata ino u) Q R c.
Proof.
  intros Hwf Hi HQ HN HR. unfold update_metadata. pose proof Hwf as [Hd _].
  apply wp_bind, wp_get_inode; [done..| |done|intros e c' He Ht; apply HR; by rewrite ?Ht].
  intros r K c1 Hr HK Hc1. cbn [inode_view i_mode i_uid i_gid i_atime i_mtime].
  apply wp_bind, wp_now. intros now c2 Hc2. assert (tables c2 = tables c) as Ht by congruence.
  apply wp_bind, wp_execute; [|intros e c' He Ht'; apply HR; by rewrite ?Ht', ?Ht].
  intros c3 Hc3. rewrite Ht in Hc3.
  assert (tables c3 ≡ tables c) as Heq by (rewrite Hc3; by apply update_inode_equiv).
  assert (fs_wf (tables c3)) as Hwf3 by (by rewrite Heq).
  assert (forall j, j <> ino -> t_inodes (tables c3) !! j = t_inodes (tables c) !! j) as Hothers.
  { intros j Hj. rewrite Hc3. simpl. by rewrite valid_ino_i64, lookup_alter_ne by done. }
  apply wp_get_inode; [apply Hwf3|done|..].
  - intros r' K' c4 Hr' HK' Hc4. pose proof Hr' as Hr2. rewrite Hc3 in Hr2. simpl in Hr2.
    rewrite valid_ino_i64, lookup_alter_eq, Hr in Hr2 by done. injection Hr2 as Hr2.
    assert (K' = K) as -> by (rewrite <- Hr2 in HK'; unfold row_kind in *; simpl in *; congruence).
    apply (HQ r r' K); rewrite ?Hc4; try done; by subst r'.
  - intros c4 Hn Hc4. rewrite Hc3 in Hn. simpl in Hn.
    by rewrite valid_ino_i64, lookup_alter_eq, Hr in Hn.
  - intros e c4 He Hc4. apply HR; by rewrite ?Hc4.
Qed.
End link_spec.

(** ** Listing *)

Lemma bytes_leb_total l1 l2 : bytes_le l1 l2 \/ bytes_le l2 l1.
Proof.
  unfold bytes_le. revert l2. induction l1 as [|x l1 IH]; intros [|y l2]; simpl; auto.
  destruct (N.ltb_spec (Byte.to_N x) (Byte.to_N y)); [by left|].
  destruct (N.ltb_spec (Byte.to_N y) (Byte.to_N x)); [by right|].
  rewrite (proj2 (N.eqb_eq _ _)), (proj2 (N.eqb_eq (Byte.to_N y) _)) by lia. simpl. apply IH.
Qed.

#[global] Instance name_le_total : Total name_le.
Proof. intros e1 e2. apply bytes_leb_total. Qed.

Lemma head_of_rows {A} (l : list A) : l = [] \/ exists x, x ∈ l.
Proof. destruct l as [|x l]; [by left|right; exists x; by left]. Qed.

Lemma omap_join_fst t (l : list (Z * DirentRow)) :
  (forall e, e ∈ l -> is_Some (join_child t e)) -> (omap (join_child t) l).*1 = l.
Proof.
  induction l as [|e l IH]; intros Hj; [done|]. simpl.
  destruct (Hj e) as [x Hx]; [by left|]. rewrite Hx.
  unfold join_child in Hx. apply bind_Some in Hx as (r & _ & [= <-]).
  rewrite fmap_cons. f_equal. apply IH. intros e' He'. apply Hj. by right.
Qed.

Lemma entry_joins t k d :
  names_wf t -> t_dirents t !! k = Some d -> is_Some (join_child t (k, d)).
Proof.
  intros Hn Hk. destruct (nw_entry _ Hn k d Hk) as (_ & _ & [K HK] & _).
  unfold kind_of in HK. unfold join_child. simpl.
  destruct (t_inodes t !! d_child d); [by eexists|done].
Qed.

Lemma entries_after_sorted p after t : StronglySorted Z.lt (entries_after p after t).*1.
Proof.
  unfold entries_after.
  assert (NoDup (merge_sort key_le (map_to_list (t_dirents t))).*1) as Hnd.
  { rewrite merge_sort_Permutation. apply NoDup_fst_map_to_list. }
  assert (StronglySorted key_le (merge_sort key_le (map_to_list (t_dirents t)))) as Hs
    by apply (StronglySorted_merge_sort _).
  revert Hnd Hs. generalize (merge_sort key_le (map_to_list (t_dirents t))).
  induction l as [|e l IH]; intros Hnd Hs; [constructor|].
  apply StronglySorted_inv in Hs as [Hs Hall]. apply NoDup_cons in Hnd as [Hnot Hnd].
  rewrite filter_cons. case_decide; [|by apply IH]. simpl. constructor; [by apply IH|].
  rewrite Forall_forall in Hall. apply Forall_forall. intros k Hk.
  apply list_elem_of_fmap in Hk as (e' & -> & He'). apply list_elem_of_filter in He' as [_ He'].
  specialize (Hall e' He'). unfold key_le in Hall. enough (e.1 <> e'.1) by lia.
  intros Heq. apply Hnot. rewrite Heq. by apply list_elem_of_fmap_2.
Qed.

Section listing_spec.
Context `{World}.
Implicit Types (c : Conn) (t : Tables).

(** A directory entry of [p], joined with its inode. *)
Definition entry_row t (p : Z) (e : Z * DirentRow * InodeRow) : Prop :=
  t_dirents t !! e.1.1 = Some e.1.2 /\ d_parent e.1.2 = p /\ t_inodes t !! d_child e.1.2 = Some e.2.

Lemma elem_of_joined t p (l : list (Z * DirentRow)) :
  (forall e, e ∈ l <-> t_dirents t !! e.1 = Some e.2 /\ d_parent e.2 = p) ->
  forall e, e ∈ omap (join_child t) l <-> entry_row t p e.
Proof.
  intros Hl [[k d] r]. rewrite list_elem_of_omap. unfold entry_row, join_child. simpl. split.
  - intros ([k' d'] & Hin & Hj). apply bind_Some in Hj as (r' & Hr & [= <- <- <-]).
    apply Hl in Hin as [? ?]. done.
  - intros (Hk & Hp & Hr). exists (k, d). rewrite Hl. split; [done|]. simpl. by rewrite Hr.
Qed.

Definition dir_entry_view (e : Z * DirentRow * InodeRow) : DirEntry :=
  mkDirEntry (d_name e.1.2) (u64 (d_child e.1.2)) (default RegularFile (row_kind e.2)).

Lemma wp_dir_entries t (rows : list (Z * DirentRow * InodeRow)) (Q : list DirEntry -> Conn -> Prop)
    (R : DbError -> Conn -> Prop) c :
  (forall e, e ∈ rows -> is_Some (row_kind e.2)) -> tables c = t ->
  (forall c', tables c' = t -> Q (dir_entry_view <$> rows) c') ->
  (forall e c', engine_error e -> tables c' = t -> R e c') ->
  wp (fold_each rows (fun acc e => d ← dir_entry e; mret (acc ++ [d])) []) Q R c.
Proof.
  intros Hk Hc HQ HR.
  wp_call (wp_fold_each rows _ [] (fun dn acc c' => acc = dir_entry_view <$> dn /\ tables c' = t) R).
  - done.
  - intros dn e rest acc c' Heq [-> Ht]. unfold dir_entry. apply wp_bind, wp_bind, wp_next_row.
    + intros c2 Hc2. destruct (Hk e) as [k He]; [rewrite Heq; set_solver|].
      pose proof (proj1 (row_kind_from_i64 _ _) He) as ->. apply wp_ret, wp_ret.
      split; [|congruence]. rewrite fmap_app. simpl. unfold dir_entry_view. by rewrite He.
    + intros e' c2 Hee Hc2. apply HR; congruence.
  - intros acc c' [-> Ht]. by apply HQ.
  - done.
Qed.

Lemma wp_list_dir ino (Q : list DirEntry -> Conn -> Prop) R c :
  fs_wf (tables c) -> valid_ino ino ->
  (forall rows c', kind_of (tables c) ino = Some Directory ->
     (forall e, e ∈ rows <-> entry_row (tables c) ino e) -> Sorted name_le rows -> NoDup rows ->
     tables c' = tables c -> Q (dir_entry_view <$> rows) c') ->
  (forall c', (exists K, kind_of (tables c) ino = Some K /\ K <> Directory) ->
     tables c' = tables c -> R NotDirectory c') ->
  (forall c', t_inodes (tables c) !! ino = None -> tables c' = tables c -> R NotFound c') ->
  (forall e c', engine_error e -> tables c' = tables c -> R e c') ->
  wp (list_dir ino) Q R c.
Proof.
  intros [Hd Hn] Hi HQ HD HN HR. unfold list_dir.
  apply wp_is_directory; [done..| |done|done|done]. intros c1 Hk Hc1.
  apply wp_bind, wp_query; [|intros; apply HR; congruence]. intros c2 Hc2. cbv beta.
  rewrite valid_ino_i64, Hc1 by done. set (rows := omap _ _).
  assert (forall e, e ∈ rows <-> entry_row (tables c) ino e) as Hrows.
  { apply elem_of_joined. intros [k d]. rewrite list_elem_of_filter, elem_of_map_to_list. tauto. }
  assert (NoDup rows) as Hnd.
  { apply (NoDup_fmap_1 fst). subst rows. rewrite omap_join_fst.
    - apply NoDup_filter, NoDup_map_to_list.
    - intros [k d] He. apply list_elem_of_filter in He as [_ He%elem_of_map_to_list].
      by apply entry_joins. }
  pose proof (merge_sort_Permutation name_le rows) as Hperm.
  apply wp_bind. apply (wp_dir_entries (tables c)); [|congruence| |intros; apply HR; congruence].
  - intros e He. rewrite Hperm, Hrows in He. destruct He as (_ & _ & Hr).
    apply (dw_rows _ Hd _ _ Hr).
  - intros c3 Hc3. apply wp_bind, wp_next_row; [|intros; apply HR; congruence].
    intros c4 Hc4. apply wp_ret, HQ; [done| | | |congruence].
    + intros e. by rewrite Hperm.
    + apply Sorted_merge_sort, _.
    + by rewrite Hperm.
Qed.

(** The loop of [read_dir_after], without the database. *)
Fixpoint emit_all {X} (rows : list (Z * DirentRow * InodeRow))
    (emit : X -> Z -> list byte -> Z -> FileKind -> X * bool) (acc : X) : X :=
  match rows with
  | [] => acc
  | e :: rows =>
      let '(acc, stop) := emit acc e.1.1 (d_name e.1.2) (u64 (d_child e.1.2))
                            (default RegularFile (row_kind e.2)) in
      if (stop : bool) then acc else emit_all rows emit acc
  end.

Lemma wp_emit_rows {X} t rows emit (acc : X) (Q : X -> Conn -> Prop) (R : DbError -> Conn -> Prop) c :
  (forall e, e ∈ rows -> is_Some (row_kind e.2)) -> tables c = t ->
  (forall c', tables c' = t -> Q (emit_all rows emit acc) c') ->
  (forall e c', engine_error e -> tables c' = t -> R e c') ->
  wp (emit_rows rows emit acc) Q R c.
Proof.
  revert acc c. induction rows as [|[[k d] r] rows IH]; intros acc c Hk Hc HQ HR; simpl.
  - apply wp_bind, wp_next_row; [|intros; apply HR; congruence]. intros c1 Hc1.
    apply wp_ret, HQ. congruence.
  - apply wp_bind, wp_next_row; [|intros; apply HR; congruence]. intros c1 Hc1.
    destruct (Hk (k, d, r)) as [K HK]; [by left|]. simpl in HK.
    pose proof (proj1 (row_kind_from_i64 _ _) HK) as ->. apply wp_bind, wp_ret.
    simpl in HQ. rewrite HK in HQ. simpl in HQ.
    destruct (emit acc k (d_name d) (u64 (d_child d)) K) as [acc' [|]]; [apply wp_ret, HQ; congruence|].
    apply IH; [|congruence|done|done]. intros e He. apply Hk. by right.
Qed.

(** The rows of the query: the entries after [after], by increasing id. *)
Lemma joined_rows t ino after :
  names_wf t ->
  let rows := omap (join_child t) (entries_after ino after t) in
  (forall e, e ∈ rows <-> entry_row t ino e /\ after < e.1.1) /\ StronglySorted Z.lt rows.*1.*1.
Proof.
  intros Hn rows. split.
  - intros [[k d] r]. subst rows. rewrite list_elem_of_omap. unfold entries_after, entry_row, join_child. simpl.
    split.
    + intros ([k' d'] & Hin & Hj). apply bind_Some in Hj as (r' & Hr & [= <- <- <-]).
      rewrite list_elem_of_filter, merge_sort_Permutation, elem_of_map_to_list in Hin. simpl in *. tauto.
    + intros ((Hkd & Hp & Hr) & Ha). exists (k, d).
      rewrite list_elem_of_filter, merge_sort_Permutation, elem_of_map_to_list. simpl.
      rewrite Hr. split; [tauto|done].
  - subst rows. rewrite omap_join_fst; [apply entries_after_sorted|].
    intros e He. unfold entries_after in He.
    rewrite list_elem_of_filter, merge_sort_Permutation in He. destruct He as [_ He].
    destruct e as [k d]. apply elem_of_map_to_list in He. by apply entry_joins.
Qed.

(** Entries of a directory by increasing id, after [after]. *)
Lemma wp_read_dir_after {X} ino after emit (acc : X) (Q : X -> Conn -> Prop) R c :
  fs_wf (tables c) -> valid_ino ino ->
  (forall rows c', kind_of (tables c) ino = Some Directory ->
     (forall e, e ∈ rows <-> entry_row (tables c) ino e /\ after < e.1.1) ->
     StronglySorted Z.lt rows.*1.*1 ->
     tables c' = tables c -> Q (emit_all rows emit acc) c') ->
  (forall c', (exists K, kind_of (tables c) ino = Some K /\ K <> Directory) ->
     tables c' = tables c -> R NotDirectory c') ->
  (forall c', t_inodes (tables c) !! ino = None -> tables c' = tables c -> R NotFound c') ->
  (forall e c', engine_error e -> tables c' = tables c -> R e c') ->
  wp (read_dir_after ino after emit acc) Q R c.
Proof.
  intros [Hd Hn] Hi HQ HD HN HR. unfold read_dir_after.
  apply wp_is_directory; [done..| |done|done|done]. intros c1 Hk Hc1.
  apply wp_bind, wp_query; [|intros; apply HR; congruence]. intros c2 Hc2. cbv beta.
  rewrite valid_ino_i64, Hc1 by done. destruct (joined_rows (tables c) ino after Hn) as [Hrows Hsort].
  apply (wp_emit_rows (tables c)); [|congruence| |intros; apply HR; congruence].
  - intros e He. apply Hrows in He as ((_ & _ & Hr) & _). apply (dw_rows _ Hd _ _ Hr).
  - intros c3 Hc3. apply HQ; [done..|congruence].
Qed.
End listing_spec.

(** ** Rename *)

Section rename_spec.
Context `{World}.
Implicit Types (c : Conn) (t : Tables).

Lemma under_parent t k d a :
  names_wf t -> t_dirents t !! k = Some d -> kind_of t (d_child d) = Some Directory ->
  d_child d <> a -> under (t_dirents t) a (d_child d) <-> under (t_dirents t) a (d_parent d).
Proof.
  intros Hn Hk Hd Hne. split; [|by apply (under_step _ _ k)].
  inversion 1 as [|k2 d2 Hk2 Hu Heq]; [done|].
  assert (k2 = k) as -> by (by apply (dir_one_entry t k2 d2 k d); rewrite ?Heq). by simplify_eq.
Qed.

(** The walk to the root ends, and finds the ancestor exactly when it is one. *)
Lemma wp_ancestor_loop fuel t current a n (Q : bool -> Conn -> Prop) (R : DbError -> Conn -> Prop) c :
  fs_wf t -> tables c = t -> kind_of t current = Some Directory ->
  chain (t_dirents t) current n -> (n < fuel)%nat -> current <> a ->
  (forall b c', tables c' = t -> (b = true <-> under (t_dirents t) a current) -> Q b c') ->
  (forall e c', engine_error e -> tables c' = t -> R e c') ->
  wp (ancestor_loop fuel current a) Q R c.
Proof.
  intros [Hd Hn]. revert current n c. induction fuel as [|fuel IH]; intros current n c Hc Hk Hch Hlt Hne HQ HR; [lia|].
  simpl. assert (valid_ino current) as Hi.
  { unfold kind_of in Hk. destruct (t_inodes t !! current) as [r|] eqn:Hr; [|done].
    by eapply ino_ok_valid, dw_rows. }
  destruct (Z.eqb_spec current 1) as [->|H1].
  { apply wp_ret, HQ; [done|]. split; [done|]. inversion 1 as [|k d Hkd _ Heq]; [done|].
    by destruct (dir_entry_not_root t k d Hn Hkd). }
  inversion Hch as [|k d n' Hkd Hch' Heq]; [done|]. subst current n.
  apply wp_bind, wp_query; [|intros; apply HR; congruence]. intros c1 Hc1. rewrite Hc.
  rewrite valid_ino_i64 by done. destruct (find_parent (d_child d) t) as [p|] eqn:Hf;
    [|by destruct (find_parent_None t _ Hf k d Hkd)].
  apply find_parent_Some in Hf as (k2 & d2 & Hk2 & Hc2 & <-).
  assert (k2 = k) as -> by (by apply (dir_one_entry t k2 d2 k d); rewrite ?Hc2). simplify_eq.
  destruct (nw_entry _ Hn k d Hkd) as (_ & Hp & _).
  assert (u64 (d_parent d) = d_parent d) as ->.
  { unfold kind_of in Hp. destruct (t_inodes (tables c) !! d_parent d) as [r|] eqn:Hr; [|done].
    pose proof (ino_ok_valid _ _ (dw_rows _ Hd _ _ Hr)) as [? ?]. apply u64_id. clia. }
  destruct (Z.eqb_spec (d_parent d) a) as [<-|Hpa].
  - apply wp_ret, HQ; [done|]. split; [intros _|done]. by apply (under_step _ _ k); [|constructor].
  - eapply (IH (d_parent d) n'); [congruence|done|done|lia|done| |done].
    intros b c2 Ht Hb. apply HQ; [done|]. rewrite Hb. symmetry. by apply (under_parent _ k d).
Qed.

Lemma wp_is_descendant ino a (Q : bool -> Conn -> Prop) (R : DbError -> Conn -> Prop) c :
  fs_wf (tables c) -> kind_of (tables c) ino = Some Directory ->
  (forall b c', tables c' = tables c -> (b = true <-> under (t_dirents (tables c)) a ino) -> Q b c') ->
  (forall e c', engine_error e -> tables c' = tables c -> R e c') ->
  wp (is_descendant ino a) Q R c.
Proof.
  intros Hwf Hk HQ HR. unfold is_descendant. destruct (Z.eqb_spec ino a) as [->|Hne].
  - apply wp_ret, HQ; [done|]. split; [constructor|done].
  - apply wp_bind, wp_gets. pose proof Hwf as [_ Hn]. destruct (nw_dirs _ Hn ino Hk) as [_ [n Hch]].
    apply (wp_ancestor_loop _ (tables c) ino a n); try done.
    pose proof (chain_bound _ _ _ Hn Hk Hch). lia.
Qed.

Lemma wp_lookup_optional `{!EngineLaws H} parent name (Q : option Inode -> Conn -> Prop) R c :
  fs_wf (tables c) -> valid_ino parent -> zlen name <= NAME_MAX ->
  (forall k d r K c', resolves (tables c) parent name k d r K ->
     tables c' = tables c -> Q (Some (inode_view (d_child d) r K)) c') ->
  (forall c', find_entry parent name (tables c) = None -> tables c' = tables c -> Q None c') ->
  (forall e c', engine_error e -> tables c' = tables c -> R e c') ->
  wp (lookup_optional parent name) Q R c.
Proof.
  intros Hwf Hp Hl HQ HN HR. unfold lookup_optional. apply wp_match_result, wp_lookup; [done..| | | |].
  - intros k d r K c' _ Hres Hc'. apply wp_ret. by apply (HQ k d r K).
  - lia.
  - intros c' Hf Hc'. rewrite bool_decide_true by done. apply wp_ret. by apply HN.
  - intros e c' He Hc'. case_bool_decide as Hd; [subst; by apply engine_error_found in He|]. apply wp_throw. by apply HR.
Qed.
End rename_spec.

(** What a rename replaces: nothing, or an entry with its inode. *)
Definition Replaced : Type := option (Z * DirentRow * InodeRow * FileKind).

(** The tables without the replaced entry; the link count of the directory of a
    replaced directory is settled last. *)
Definition without_target (tgt : Replaced) (is_open : Z -> bool) (t : Tables) : Tables :=
  match tgt with
  | None => t
  | Some (k, d, r, K) =>
      if bool_decide (K = Directory) then remove_inode (d_child d) (drop_entry k t)
      else unlink_tables k d ((1 <? r_nlink r) || is_open (d_child d)) t
  end.

Definition replaced_tables (tgt : Replaced) (is_open : Z -> bool) (t : Tables) : Tables :=
  match tgt with
  | Some (_, d, _, Directory) => add_nlink (d_parent d) (-1) (without_target tgt is_open t)
  | _ => without_target tgt is_open t
  end.

(** A rename that passed its checks: entry [(k, d)] of an inode of kind [K] moves to
    name [nn] of directory [np], over [tgt]. *)
Record rename_ok (t : Tables) (k : Z) (d : DirentRow) (r : InodeRow) (K : FileKind)
    (np : Z) (nn : list byte) (tgt : Replaced) : Prop := {
  ro_source : resolves t (d_parent d) (d_name d) k d r K;
  ro_parent : kind_of t np = Some Directory;
  ro_name : zlen nn <= NAME_MAX;
  ro_acyclic : K = Directory -> ~ under (t_dirents t) (d_child d) np;
  ro_moves : ~ (d_parent d = np /\ d_name d = nn);
  ro_target : match tgt with
    | None => find_entry np nn t = None
    | Some (k2, d2, r2, K2) => resolves t np nn k2 d2 r2 K2 /\
        (K = Directory <-> K2 = Directory) /\
        (K2 = Directory -> child_count (d_child d2) t = 0)
    end }.

Section rename_steps.
Implicit Types (t : Tables) (k : Z) (d : DirentRow).

Lemma under_mono (m m' : gmap Z DirentRow) a i : m ⊆ m' -> under m a i -> under m' a i.
Proof.
  intros Hm. induction 1 as [|k d Hk _ IH]; [constructor|].
  apply (under_step _ _ k); [by eapply lookup_weaken|done].
Qed.

Lemma kind_valid t i K : data_wf t -> kind_of t i = Some K -> valid_ino i.
Proof.
  intros Hd Hi. unfold kind_of in Hi. destruct (t_inodes t !! i) as [r|] eqn:Hr; [|done].
  by eapply ino_ok_valid, dw_rows.
Qed.

(** Removing the entry of an inode nobody refers to otherwise. *)
Lemma remove_drop_dirents t k d :
  valid_ino (d_child d) -> t_dirents t !! k = Some d ->
  (forall k' d', t_dirents t !! k' = Some d' -> d_child d' = d_child d -> k' = k) ->
  (forall k' d', t_dirents t !! k' = Some d' -> d_parent d' <> d_child d) ->
  t_dirents (remove_inode (d_child d) (drop_entry k t)) = delete k (t_dirents t).
Proof.
  intros Hi Hk Hone Hleaf. apply remove_dirents; [done|]. intros k' d' [Hne Hk']%drop_lookup.
  split; [|by apply (Hleaf k')]. intros Hc. apply Hne. symmetry. by apply (Hone k' d').
Qed.

Lemma last_link_unique t k d r K :
  names_wf t -> t_dirents t !! k = Some d -> t_inodes t !! d_child d = Some r ->
  row_kind r = Some K -> K <> Directory -> r_nlink r <= 1 ->
  forall k' d', t_dirents t !! k' = Some d' -> d_child d' = d_child d -> k' = k.
Proof.
  intros Hn Hk Hr HK Hne Hl k' d' Hk' Hc.
  apply (entry_count_one (fun d' => d_child d' = d_child d) (t_dirents t) k' d' k d); try done.
  pose proof (nw_nlink _ Hn _ _ Hr) as Hnl. rewrite decide_False in Hnl;
    [unfold links in Hnl; lia|]. rewrite (kind_of_row _ _ r) by done. congruence.
Qed.

Lemma unlink_dirents t k d r K keep :
  fs_wf t -> t_dirents t !! k = Some d -> t_inodes t !! d_child d = Some r ->
  row_kind r = Some K -> K <> Directory -> (keep = false -> r_nlink r <= 1) ->
  t_dirents (unlink_tables k d keep t) = delete k (t_dirents t).
Proof.
  intros [Hd Hn] Hk Hr HK Hne Hkeep. unfold unlink_tables. destruct keep; [done|].
  apply remove_drop_dirents; [by eapply ino_ok_valid, dw_rows|done| |].
  - apply (last_link_unique t k d r K); auto.
  - eapply file_not_parent; [done| |done]. by rewrite (kind_of_row _ _ r).
Qed.

Lemma rmdir_dirents t k d :
  fs_wf t -> t_dirents t !! k = Some d -> kind_of t (d_child d) = Some Directory ->
  child_count (d_child d) t = 0 ->
  t_dirents (remove_inode (d_child d) (drop_entry k t)) = delete k (t_dirents t).
Proof.
  intros [Hd Hn] Hk HK Hempty. apply remove_drop_dirents; [by eapply kind_valid|done| |].
  - intros k' d' Hk' Hc. symmetry. by apply (dir_one_entry t k d k' d').
  - intros k' d' Hk'. exact (proj1 (entry_count_zero (fun d' => d_parent d' = d_child d) _) Hempty k' d' Hk').
Qed.

Lemma unlink_kind t k d keep i :
  valid_ino (d_child d) ->
  kind_of (unlink_tables k d keep t) i =
    if decide (keep = false /\ i = d_child d) then None else kind_of t i.
Proof.
  intros Hi. unfold unlink_tables. destruct keep.
  - rewrite kind_of_add_nlink, decide_False by naive_solver. done.
  - rewrite remove_kind by done. by rewrite (decide_ext (i = d_child d) (false = false /\ i = d_child d)) by tauto.
Qed.

Lemma add_nlink_comm a x b y t :
  valid_ino a -> valid_ino b -> add_nlink a x (add_nlink b y t) ≡ add_nlink b y (add_nlink a x t).
Proof.
  intros Ha Hb. split_and!; try done. intros i. simpl. rewrite !valid_ino_i64 by done.
  destruct (decide (i = a)) as [->|Ha'], (decide (a = b)) as [->|Hab].
  - rewrite !lookup_alter_eq. destruct (t_inodes t !! b); [|done]. unfold row_shape. simpl. do 2 f_equal. lia.
  - rewrite lookup_alter_eq, !lookup_alter_ne by done. by rewrite lookup_alter_eq.
  - by rewrite !lookup_alter_ne.
  - rewrite lookup_alter_ne by done. destruct (decide (i = b)) as [->|Hb'].
    + by rewrite !lookup_alter_eq, lookup_alter_ne.
    + by rewrite !lookup_alter_ne.
Qed.

Lemma add_nlink_cancel a t : valid_ino a -> add_nlink a 1 (add_nlink a (-1) t) ≡ t.
Proof.
  intros Ha. split_and!; try done. intros i. simpl. rewrite !valid_ino_i64 by done.
  destruct (decide (i = a)) as [->|]; [|by rewrite !lookup_alter_ne].
  rewrite !lookup_alter_eq. destruct (t_inodes t !! a); [|done]. unfold row_shape. simpl. do 2 f_equal. lia.
Qed.

#[global] Instance put_entry_proper k d : Proper ((≡) ==> (≡)) (put_entry k d).
Proof. intros t t' (Hd & Hc & Hs & Hi). split_and!; simpl; congruence || done. Qed.
Lemma replaced_dirents tgt is_open t :
  t_dirents (replaced_tables tgt is_open t) = t_dirents (without_target tgt is_open t).
Proof. unfold replaced_tables. by destruct tgt as [[[[? ?] ?] []]|]. Qed.

Lemma replaced_kind tgt is_open t i :
  kind_of (replaced_tables tgt is_open t) i = kind_of (without_target tgt is_open t) i.
Proof. unfold replaced_tables. destruct tgt as [[[[? ?] ?] []]|]; by rewrite ?kind_of_add_nlink. Qed.

End rename_steps.

Section rename_facts.
Context (t : Tables) (k : Z) (d : DirentRow) (r : InodeRow) (K : FileKind) (np : Z)
  (nn : list byte) (tgt : Replaced) (is_open : Z -> bool).
Hypothesis (Hwf : fs_wf t) (Hok : rename_ok t k d r K np nn tgt).

Lemma target_entry k2 d2 r2 K2 :
  tgt = Some (k2, d2, r2, K2) ->
  t_dirents t !! k2 = Some d2 /\ k2 <> k /\ valid_ino (d_child d2) /\
  kind_of t (d_child d2) = Some K2 /\ d_parent d2 = np.
Proof.
  intros E. pose proof (ro_target _ _ _ _ _ _ _ _ Hok) as Ht. rewrite E in Ht.
  destruct Ht as (Hres & _). destruct (resolves_child _ _ _ _ _ _ _ Hwf Hres).
  pose proof (ro_source _ _ _ _ _ _ _ _ Hok) as Hs. destruct Hres, Hs.
  split_and!; try done. intros ->. apply (ro_moves _ _ _ _ _ _ _ _ Hok). simplify_eq. done.
Qed.

Lemma target_keep (d2 : DirentRow) (r2 : InodeRow) :
  (1 <? r_nlink r2) || is_open (d_child d2) = false -> r_nlink r2 <= 1.
Proof. intros [H _]%orb_false_iff. by apply Z.ltb_ge in H. Qed.

Lemma without_dirents :
  t_dirents (without_target tgt is_open t) =
    match tgt with None => t_dirents t | Some (k2, _, _, _) => delete k2 (t_dirents t) end.
Proof.
  pose proof target_entry as Hte. pose proof (ro_target _ _ _ _ _ _ _ _ Hok) as Ht.
  destruct tgt as [[[[k2 d2] r2] K2]|]; [|done]. simpl.
  destruct (Hte _ _ _ _ eq_refl) as (Hk2 & _ & Hi & HK2 & _).
  destruct Ht as (Hres & _ & Hempty).
  case_bool_decide as HD; [subst; by apply rmdir_dirents; auto|].
  apply (unlink_dirents _ _ _ r2 K2); try apply Hres; try done. by apply target_keep.
Qed.

(** The replaced inode goes away only when nothing else refers to it. *)
Lemma without_kind i :
  kind_of (without_target tgt is_open t) i = kind_of t i \/
  (exists k2 d2 r2 K2, tgt = Some (k2, d2, r2, K2) /\ i = d_child d2 /\
     (forall k' d', t_dirents t !! k' = Some d' -> d_child d' = d_child d2 -> k' = k2) /\
     (forall k' d', t_dirents t !! k' = Some d' -> d_parent d' <> d_child d2)).
Proof.
  pose proof target_entry as Hte. pose proof (ro_target _ _ _ _ _ _ _ _ Hok) as Ht.
  destruct tgt as [[[[k2 d2] r2] K2]|]; [|by left]. simpl.
  destruct (Hte _ _ _ _ eq_refl) as (Hk2 & _ & Hi & HK2 & _).
  destruct Ht as (Hres & _ & Hempty).
  destruct Hwf as [Hd Hn]. case_bool_decide as HD.
  - rewrite remove_kind by done. case_decide as Hc; [|by left]. right. subst.
    exists k2, d2, r2, Directory. split_and!; try done.
    + intros k' d' Hk' Hc. symmetry. by apply (dir_one_entry t k2 d2 k' d').
    + intros k' d' Hk'. specialize (Hempty eq_refl).
      exact (proj1 (entry_count_zero (fun d' => d_parent d' = d_child d2) _) Hempty k' d' Hk').
  - rewrite unlink_kind by done. case_decide as Hc; [|by left]. right. destruct Hc as [Hkeep ->].
    exists k2, d2, r2, K2. split_and!; try done.
    + apply (last_link_unique t k2 d2 r2 K2); try done; try apply Hres.
      by eapply target_keep.
    + by eapply file_not_parent.
Qed.

Lemma without_kind_parent : kind_of (without_target tgt is_open t) np = Some Directory.
Proof.
  pose proof (ro_parent _ _ _ _ _ _ _ _ Hok) as Hp.
  destruct (without_kind np) as [->|(k2 & d2 & r2 & K2 & E & Hnp & _ & Hleaf)]; [done|].
  destruct (target_entry _ _ _ _ E) as (Hk2 & _ & _ & _ & Hp2). destruct (Hleaf k2 d2 Hk2). congruence.
Qed.

Lemma source_kind : kind_of t (d_child d) = Some K.
Proof.
  pose proof (ro_source _ _ _ _ _ _ _ _ Hok) as Hs.
  by destruct (resolves_child _ _ _ _ _ _ _ Hwf Hs).
Qed.

Lemma without_kind_source : kind_of (without_target tgt is_open t) (d_child d) = Some K.
Proof.
  pose proof source_kind as Hk.
  destruct (without_kind (d_child d)) as [->|(k2 & d2 & r2 & K2 & E & Hc & Hone & _)]; [done|].
  destruct (target_entry _ _ _ _ E) as (_ & Hne & _). exfalso. apply Hne. symmetry.
  apply (Hone k d); [|done]. apply Hok.
Qed.

Lemma replaced_wf : fs_wf (replaced_tables tgt is_open t).
Proof.
  pose proof target_entry as Hte. pose proof (ro_target _ _ _ _ _ _ _ _ Hok) as Ht.
  unfold replaced_tables, without_target. destruct tgt as [[[[k2 d2] r2] K2]|]; [|done].
  destruct (Hte _ _ _ _ eq_refl) as (Hk2 & _ & Hi & HK2 & _).
  destruct Ht as (Hres & _ & Hempty).
  destruct (decide (K2 = Directory)) as [->|HD].
  - rewrite bool_decide_true by done. apply (rmdir_wf t k2 d2); auto.
  - rewrite bool_decide_false by done.
    assert (fs_wf (unlink_tables k2 d2 ((1 <? r_nlink r2) || is_open (d_child d2)) t)) as Hw.
    { apply (unlink_wf _ _ _ r2 K2); try apply Hres; try done. by eapply target_keep. }
    by destruct K2.
Qed.

(** After the replacement the new name is free and the source still there. *)
Lemma replaced_source : t_dirents (without_target tgt is_open t) !! k = Some d.
Proof.
  pose proof target_entry as Hte. rewrite without_dirents. destruct tgt as [[[[k2 d2] r2] K2]|]; [|apply Hok].
  destruct (Hte _ _ _ _ eq_refl) as (_ & Hne & _). rewrite lookup_delete_ne by done. apply Hok.
Qed.

Lemma replaced_free : find_entry np nn (without_target tgt is_open t) = None.
Proof.
  apply find_entry_None. intros k' d' Hk' Hp Hn. rewrite without_dirents in Hk'.
  pose proof (ro_target _ _ _ _ _ _ _ _ Hok) as Ht. destruct Hwf as [_ Hnw].
  destruct tgt as [[[[k2 d2] r2] K2]|].
  - apply lookup_delete_Some in Hk' as [Hne Hk']. destruct Ht as (Hres & _). destruct Hres.
    apply Hne. symmetry. by apply (nw_unique _ Hnw k' d' k2 d2); congruence.
  - rewrite find_entry_None in Ht. by apply (Ht k' d').
Qed.

Lemma replaced_place : place_ok (replaced_tables tgt is_open t) d np nn.
Proof.
  split_and!.
  - rewrite replaced_kind. apply without_kind_parent.
  - apply Hok.
  - intros Hu. rewrite replaced_dirents, without_dirents in Hu.
    assert (under (t_dirents t) (d_child d) np) as Hu'.
    { destruct tgt as [[[[k2 d2] r2] K2]|]; [|done]. eapply under_mono; [|done]. apply delete_subseteq. }
    destruct (decide (K = Directory)) as [HD|HD]; [by eapply ro_acyclic|].
    pose proof source_kind as Hsk. pose proof (ro_parent _ _ _ _ _ _ _ _ Hok) as Hnp.
    assert (np = d_child d); [|congruence]. destruct Hwf as [_ Hn].
    eapply under_leaf; [|done]. by eapply file_not_parent.
  - intros k' d' Hk' Hp. rewrite replaced_dirents in Hk'.
    pose proof (proj1 (find_entry_None _ _ _) replaced_free k' d' Hk' Hp). done.
Qed.

(** The result of the whole rename. *)
Definition renamed_tables : Tables := move_tables k d np nn (replaced_tables tgt is_open t).

Lemma parent_valid : valid_ino (d_parent d) /\ valid_ino np.
Proof.
  destruct Hwf as [Hd Hn]. pose proof (ro_source _ _ _ _ _ _ _ _ Hok) as Hs.
  destruct (nw_entry _ Hn k d) as (_ & Hp & _); [apply Hs|].
  pose proof (ro_parent _ _ _ _ _ _ _ _ Hok). split; by eapply kind_valid.
Qed.

Lemma renamed_wf : fs_wf renamed_tables.
Proof.
  pose proof replaced_wf as [Hd Hn]. pose proof parent_valid as [Hp Hnp]. split.
  - by apply data_wf_move.
  - apply names_wf_move; try done; [|by apply replaced_place].
    rewrite replaced_dirents. apply replaced_source.
Qed.
End rename_facts.

Definition target_inode (tgt : Replaced) : option Inode :=
  (fun e => inode_view (d_child e.1.1.2) e.1.2 e.2) <$> tgt.

(** The link counts of the two directories, as the code settles them. *)
Definition settled (source_is_dir target_is_dir : bool) (p np : Z) (t : Tables) : Tables :=
  let t1 := if source_is_dir && negb (p =? np) then add_nlink np 1 (add_nlink p (-1) t) else t in
  if target_is_dir then add_nlink np (-1) t1 else t1.

Lemma settled_renamed t k d r K np nn tgt is_open :
  fs_wf t -> rename_ok t k d r K np nn tgt ->
  settled (bool_decide (K = Directory)) (bool_decide (i_kind <$> target_inode tgt = Some Directory))
    (d_parent d) np (put_entry k (moved d np nn) (without_target tgt is_open t)) ≡
  renamed_tables t k d np nn tgt is_open.
Proof.
  intros Hwf Hok. pose proof (parent_valid _ _ _ _ _ _ _ _ Hwf Hok) as [Hp Hnp].
  pose proof (without_kind_source t k d r K np nn tgt is_open Hwf Hok) as Hk.
  pose proof (target_entry t k d r K np nn tgt Hwf Hok) as Hte.
  pose proof (ro_target _ _ _ _ _ _ _ _ Hok) as Ht.
  set (T := put_entry k (moved d np nn) (without_target tgt is_open t)).
  assert (renamed_tables t k d np nn tgt is_open =
    let T1 := if bool_decide (i_kind <$> target_inode tgt = Some Directory) then add_nlink np (-1) T else T in
    if decide (K = Directory) then add_nlink np 1 (add_nlink (d_parent d) (-1) T1) else T1) as ->.
  { unfold renamed_tables, move_tables. rewrite replaced_kind, Hk.
    rewrite (decide_ext (Some K = Some Directory) (K = Directory)) by (split; congruence).
    unfold replaced_tables, T. destruct tgt as [[[[k2 d2] r2] K2]|]; [|done].
    destruct (Hte _ _ _ _ eq_refl) as (_ & _ & _ & _ & ->). by destruct K2. }
  assert (K <> Directory -> bool_decide (i_kind <$> target_inode tgt = Some Directory) = false) as Hnd.
  { intros HK. apply bool_decide_false. destruct tgt as [[[[k2 d2] r2] K2]|]; [|done].
    destruct Ht as (_ & Hiff & _). simpl. intros [= ->]. tauto. }
  unfold settled. cbv zeta. destruct (decide (K = Directory)) as [HK|HK];
    [rewrite (bool_decide_true (K = Directory)) by done|by rewrite Hnd, bool_decide_false by done].
  destruct (Z.eqb_spec (d_parent d) np) as [->|Hne]; simpl; destruct (bool_decide (_ = Some _)).
  - by rewrite add_nlink_cancel.
  - by rewrite add_nlink_cancel.
  - rewrite add_nlink_comm by done. by rewrite (add_nlink_comm np (-1) (d_parent d)).
  - done.
Qed.

Section rename_triple.
Context `{World}.
Implicit Types (c : Conn) (t : Tables).

Lemma inode_of_valid i : valid_ino i -> u64 i = i.
Proof. unfold valid_ino. intros. apply u64_id. clia. Qed.

(** The first statements of the transaction: the replaced entry and its inode. *)
Lemma wp_replace_target t k d r K np nn tgt now is_open (Q : unit -> Conn -> Prop)
    (R : DbError -> Conn -> Prop) c :
  fs_wf t -> rename_ok t k d r K np nn tgt -> Z.of_nat (size (t_dirents t)) < U32_MAX ->
  tables c = t ->
  (forall c', tables c' ≡ without_target tgt is_open t -> Q tt c') ->
  (forall e c', engine_error e -> R e c') ->
  wp (match target_inode tgt with
      | Some target =>
          execute (delete_entry np nn) ;; drop_unlinked_inode target now (is_open (i_ino target))
      | None => mret tt
      end) Q R c.
Proof.
  intros Hwf Hok Hroom Hc HQ HR. pose proof (ro_target _ _ _ _ _ _ _ _ Hok) as Ht.
  pose proof (target_entry t k d r K np nn tgt Hwf Hok) as Hte.
  destruct tgt as [[[[k2 d2] r2] K2]|]; simpl; [|by apply wp_ret, HQ; rewrite Hc].
  destruct (Hte _ _ _ _ eq_refl) as (Hk2 & _ & Hi & _). destruct Ht as (Hres & _).
  rewrite inode_of_valid by done.
  apply wp_bind, wp_execute; [|by eauto]. intros c1 Hc1.
  rewrite Hc, (delete_entry_found _ _ _ k2 d2) in Hc1 by (apply Hwf || apply Hres).
  apply (wp_drop_unlinked t k2 d2 r2 K2); try done; apply Hres.
Qed.

Lemma wp_settle sd td p np c (Q : unit -> Conn -> Prop) (R : DbError -> Conn -> Prop) :
  (forall c', tables c' = settled sd td p np (tables c) -> Q tt c') ->
  (forall e c', engine_error e -> R e c') ->
  wp ((if sd && negb (p =? np) then add_directory_nlink p (-1) ;; add_directory_nlink np 1
       else mret tt) ;;
      (if td then add_directory_nlink np (-1) else mret tt)) Q R c.
Proof.
  intros HQ HR. unfold settled in HQ. apply wp_bind.
  destruct (sd && negb (p =? np)); [apply wp_bind, wp_execute; [|by eauto]; intros c1 Hc1;
    apply wp_execute; [|by eauto]; intros c2 Hc2|apply wp_ret];
  (destruct td; [apply wp_execute; [|by eauto]; intros c3 Hc3|apply wp_ret]);
  apply HQ; unfold add_nlink; congruence.
Qed.

#[global] Instance settled_proper sd td p np : Proper ((≡) ==> (≡)) (settled sd td p np).
Proof.
  intros t t' Ht. unfold settled. destruct (sd && negb (p =? np)), td; by rewrite ?Ht.
Qed.

(** The move, the times and the link counts of the directories. *)
Lemma wp_rename_tx t k d r K np nn tgt now is_open (Q : unit -> Conn -> Prop)
    (R : DbError -> Conn -> Prop) c :
  fs_wf t -> rename_ok t k d r K np nn tgt -> Z.of_nat (size (t_dirents t)) < U32_MAX ->
  tables c = t ->
  (forall c', tables c' ≡ renamed_tables t k d np nn tgt is_open -> Q tt c') ->
  (forall e c', engine_error e -> R e c') ->
  wp (rename_tx (d_parent d) (d_name d) np nn (inode_view (d_child d) r K) (target_inode tgt)
        now is_open) Q R c.
Proof.
  intros Hwf Hok Hroom Hc HQ HR. pose proof (parent_valid _ _ _ _ _ _ _ _ Hwf Hok) as [Hp Hnp].
  unfold rename_tx. rewrite !valid_ino_i64 by done. cbn [inode_view i_kind].
  apply wp_bind. apply (wp_replace_target t k d r K np nn tgt now is_open); try done.
  intros c1 Hc1. set (B := without_target tgt is_open t) in *.
  pose proof (replaced_source t k d r K np nn tgt is_open Hwf Hok) as Hsrc. fold B in Hsrc.
  pose proof (replaced_free t k d r K np nn tgt is_open Hwf Hok) as Hfree. fold B in Hfree.
  pose proof (without_kind_parent t k d r K np nn tgt is_open Hwf Hok) as HkB. fold B in HkB.
  pose proof (replaced_wf t k d r K np nn tgt is_open Hwf Hok) as [_ HnR].
  assert (t_dirents (tables c1) = t_dirents B) as Hdir by apply Hc1.
  assert (find_entry (d_parent d) (d_name d) B = Some (k, d)) as Hf.
  { assert (find_entry (d_parent d) (d_name d) (replaced_tables tgt is_open t) = Some (k, d)) as H1.
    { apply find_entry_Some; [done|]. rewrite (replaced_dirents _ _ _). done. }
    unfold find_entry in *. by rewrite (replaced_dirents _ _ _) in H1. }
  assert (move_entry (d_parent d) (d_name d) np nn (tables c1) =
    inl (put_entry k (moved d np nn) (tables c1), tt)) as Hmove.
  { unfold move_entry.
    assert (forall p n, find_entry p n (tables c1) = find_entry p n B) as Hfe
      by (intros; unfold find_entry; by rewrite Hdir).
    rewrite !Hfe, Hf, Hfree. unfold has_inode. rewrite bool_decide_true; [done|].
    rewrite <- Hc1 in HkB. unfold kind_of in HkB. destruct (t_inodes (tables c1) !! np); [by eexists|done]. }
  apply wp_bind, wp_stmt; rewrite ?Hmove; [|by intros|by eauto]. intros t2 [] c2 [= <-] Hc2.
  apply wp_bind, wp_execute; [|by eauto]. intros c3 Hc3.
  assert (tables c3 ≡ put_entry k (moved d np nn) B) as Ht3.
  { rewrite Hc3, touch_equiv, Hc2. by apply put_entry_proper. }
  apply wp_bind.
  assert (forall c', tables c' ≡ put_entry k (moved d np nn) B ->
    wp ((if bool_decide (K = Directory) && negb (d_parent d =? np)
         then add_directory_nlink (d_parent d) (-1) ;; add_directory_nlink np 1 else mret tt) ;;
        (if bool_decide (i_kind <$> target_inode tgt = Some Directory)
         then add_directory_nlink np (-1) else mret tt)) Q R c') as Hend.
  { intros c4 Hc4. apply wp_settle; [|done]. intros c5 Hc5. apply HQ.
    rewrite Hc5, Hc4. by apply (settled_renamed t k d r K). }
  destruct (Z.eqb_spec np (d_parent d)); [by apply wp_ret, Hend|].
  apply wp_execute; [|by eauto]. intros c4 Hc4. apply Hend. by rewrite Hc4, touch_equiv.
Qed.

(** Why a rename is refused. *)
Inductive rename_refused (t : Tables) (p : Z) (n : list byte) (np : Z) (nn : list byte)
    (noreplace : bool) : DbError -> Prop :=
  | rr_long : NAME_MAX < zlen n \/ NAME_MAX < zlen nn ->
      rename_refused t p n np nn noreplace NameTooLong
  | rr_missing : find_entry p n t = None \/ t_inodes t !! np = None ->
      rename_refused t p n np nn noreplace NotFound
  | rr_parent K : kind_of t np = Some K -> K <> Directory ->
      rename_refused t p n np nn noreplace NotDirectory
  | rr_cycle k d r : resolves t p n k d r Directory -> under (t_dirents t) (d_child d) np ->
      rename_refused t p n np nn noreplace InvalidInput
  | rr_exists : noreplace = true -> is_Some (find_entry np nn t) ->
      rename_refused t p n np nn noreplace AlreadyExists
  | rr_kinds k d r K k2 d2 r2 K2 e : resolves t p n k d r K -> resolves t np nn k2 d2 r2 K2 ->
      replace_error K K2 (negb (child_count (d_child d2) t =? 0)) = Some e ->
      rename_refused t p n np nn noreplace e.

Lemma rows_child_count t p rows :
  names_wf t -> (forall e, e ∈ rows <-> entry_row t p e) -> rows = [] <-> child_count p t = 0.
Proof.
  intros Hn Hrows. unfold child_count. fold (entry_count (fun d => d_parent d = p) (t_dirents t)).
  rewrite entry_count_zero. split.
  - intros -> k d Hk Hp. destruct (entry_joins t k d Hn Hk) as [x Hx].
    unfold join_child in Hx. apply bind_Some in Hx as (r & Hr & _).
    assert ((k, d, r) ∈ []) as Hin by (by apply Hrows). by apply elem_of_nil in Hin.
  - intros Hz. apply elem_of_nil_inv. intros e He. apply Hrows in He as (Hk & Hp & _).
    by apply (Hz _ _ Hk).
Qed.

Lemma wp_check_replace p n np nn k d r K k2 d2 r2 K2 (Q : unit -> Conn -> Prop) R c :
  fs_wf (tables c) -> resolves (tables c) p n k d r K -> resolves (tables c) np nn k2 d2 r2 K2 ->
  (forall c', tables c' = tables c -> (K = Directory <-> K2 = Directory) ->
     (K2 = Directory -> child_count (d_child d2) (tables c) = 0) -> Q tt c') ->
  (forall e c', tables c' = tables c ->
     replace_error K K2 (negb (child_count (d_child d2) (tables c) =? 0)) = Some e -> R e c') ->
  (forall e c', engine_error e -> tables c' = tables c -> R e c') ->
  wp (check_replace (inode_view (d_child d) r K) (inode_view (d_child d2) r2 K2)) Q R c.
Proof.
  intros Hwf Hs Ht HQ HE HR. unfold check_replace. cbn [inode_view i_kind i_ino].
  destruct (resolves_child _ _ _ _ _ _ _ Hwf Ht) as [Hi2 Hk2]. rewrite inode_of_valid by done.
  assert (forall b c', tables c' = tables c ->
    (K = Directory -> K2 = Directory -> b = negb (child_count (d_child d2) (tables c) =? 0)) ->
    wp (match replace_error K K2 b with Some e => throw e | None => mret tt end) Q R c') as Hend.
  { intros b c' Hc' Hb. destruct (replace_error K K2 b) as [e|] eqn:He.
    - apply wp_throw, HE; [done|]. destruct K, K2; try done. by rewrite <- Hb.
    - apply wp_ret, HQ; [done|by destruct K, K2|]. intros ->. destruct K; try done.
      rewrite Hb in He by done. by destruct (Z.eqb_spec (child_count (d_child d2) (tables c)) 0). }
  apply wp_bind. case_bool_decide as Hboth.
  - destruct Hboth as [-> ->]. pose proof Hwf as [Hd Hn].
    apply wp_bind, wp_list_dir; [done..| | | |].
    + intros rows c1 _ Hrows _ _ Hc1. apply wp_ret, Hend; [done|]. intros _ _.
      pose proof (rows_child_count _ _ _ Hn Hrows) as Hz. f_equal.
      destruct (Z.eqb_spec (child_count (d_child d2) (tables c)) 0) as [Heq|Hne].
      * apply bool_decide_true. by rewrite (proj2 Hz).
      * apply bool_decide_false. intros Hnil%fmap_nil_inv. tauto.
    + intros c1 (K' & HK' & Hne). congruence.
    + intros c1 Hnone. destruct Ht. congruence.
    + intros e c1 He Hc1. by apply HR.
  - apply wp_ret, Hend; [done|]. tauto.
Qed.

(** The move itself, once the target is known. *)
Lemma wp_rename_commit t k d r K np nn tgt is_open (Q : option Inode -> Conn -> Prop) R c :
  fs_wf t -> Z.of_nat (size (t_dirents t)) < U32_MAX -> tables c = t -> rename_ok t k d r K np nn tgt ->
  (forall c', tables c' ≡ renamed_tables t k d np nn tgt is_open -> fs_wf (tables c') -> Q (target_inode tgt) c') ->
  (forall e c', engine_error e -> tables c' = t -> R e c') ->
  wp (now ← now_ts;
      transaction (rename_tx (d_parent d) (d_name d) np nn (inode_view (d_child d) r K)
        (target_inode tgt) now is_open) ;; mret (target_inode tgt)) Q R c.
Proof.
  intros Hwf Hroom Hc Hok HQ HR. apply wp_bind, wp_now. intros now c1 Hc1.
  apply wp_bind, wp_transaction; [|intros; apply HR; congruence]. intros c2 Hc2.
  apply (wp_rename_tx t k d r K np nn tgt); [done|done|done|congruence| |].
  - intros c3 Hc3 c' Hc'. apply wp_ret, HQ; rewrite Hc'; [done|]. rewrite Hc3. by apply (renamed_wf _ _ _ r K).
  - intros e c3 He c' Hc'. apply HR; congruence.
Qed.

(** A move that is in order as far as source and place go. *)
Lemma wp_rename_onto `{!EngineLaws H} k d r K np nn noreplace is_open (Q : option Inode -> Conn -> Prop) R c :
  let t := tables c in
  fs_wf t -> valid_ino np -> zlen nn <= NAME_MAX -> Z.of_nat (size (t_dirents t)) < U32_MAX ->
  resolves t (d_parent d) (d_name d) k d r K ->
  (forall tgt, match tgt with
     | None => find_entry np nn t = None
     | Some (k2, d2, r2, K2) => resolves t np nn k2 d2 r2 K2 /\ (K = Directory <-> K2 = Directory) /\
         (K2 = Directory -> child_count (d_child d2) t = 0)
     end -> rename_ok t k d r K np nn tgt) ->
  (forall tgt c', rename_ok t k d r K np nn tgt -> (noreplace = true -> tgt = None) ->
     tables c' ≡ renamed_tables t k d np nn tgt is_open -> fs_wf (tables c') -> Q (target_inode tgt) c') ->
  (forall e c', rename_refused t (d_parent d) (d_name d) np nn noreplace e -> tables c' = t -> R e c') ->
  (forall e c', engine_error e -> tables c' = t -> R e c') ->
  wp (existing_target ← lookup_optional np nn;
      if noreplace && bool_decide (is_Some existing_target) then throw AlreadyExists
      else
        (match existing_target with
         | Some target => check_replace (inode_view (d_child d) r K) target
         | None => mret tt
         end) ;;
        now ← now_ts;
        transaction (rename_tx (d_parent d) (d_name d) np nn (inode_view (d_child d) r K) existing_target now is_open) ;;
        mret existing_target) Q R c.
Proof.
  intros t. subst t. intros Hwf Hnp Hnn Hroom Hres Hmk HQ HE HR. pose proof Hwf as [Hd Hn].
  apply wp_bind, wp_lookup_optional; [done|done|lia| | |done].
  - intros k2 d2 r2 K2 c1 Hres2 Hc1. rewrite (bool_decide_true (is_Some _)), andb_true_r by by eexists.
    destruct noreplace.
    { apply wp_throw, HE; [|done]. constructor; [done|]. eexists. apply Hres2. }
    apply wp_bind. apply (wp_check_replace (d_parent d) (d_name d) np nn k d r K k2 d2 r2 K2); rewrite ?Hc1.
    + done.
    + done.
    + done.
    + intros c2 Hc2 Hiff Hz.
      apply (wp_rename_commit (tables c) k d r K np nn (Some (k2, d2, r2, K2))); [done|done|congruence|by apply Hmk| |done].
      intros c' Hc'. apply (HQ (Some (k2, d2, r2, K2))); [by apply Hmk|done|done].
    + intros e c2 Hc2 He. apply HE; [|congruence]. by apply (rr_kinds _ _ _ _ _ _ k d r K k2 d2 r2 K2).
    + intros e c2 He Hc2. apply HR; congruence.
  - intros c1 Hnone Hc1. rewrite (bool_decide_false (is_Some _)), andb_false_r by by intros [].
    apply wp_bind, wp_ret. apply (wp_rename_commit (tables c) k d r K np nn None); [done|done|done|by apply Hmk| |done].
    intros c' Hc'. apply (HQ None); [by apply Hmk|done|done].
Qed.

Lemma wp_rename_entry `{!EngineLaws H} p n np nn noreplace is_open (Q : option Inode -> Conn -> Prop) R c :
  fs_wf (tables c) -> valid_ino p -> valid_ino np ->
  Z.of_nat (size (t_dirents (tables c))) < U32_MAX ->
  (forall c', is_Some (find_entry p n (tables c)) -> p = np -> n = nn -> tables c' = tables c ->
     Q None c') ->
  (forall k d r K tgt c', d_parent d = p -> d_name d = n ->
     rename_ok (tables c) k d r K np nn tgt -> (noreplace = true -> tgt = None) ->
     tables c' ≡ renamed_tables (tables c) k d np nn tgt is_open -> fs_wf (tables c') ->
     Q (target_inode tgt) c') ->
  (forall e c', rename_refused (tables c) p n np nn noreplace e -> tables c' = tables c -> R e c') ->
  (forall e c', engine_error e -> tables c' = tables c -> R e c') ->
  wp (rename_entry p n np nn noreplace is_open) Q R c.
Proof.
  intros Hwf Hp Hnp Hroom HQ0 HQ HE HR. unfold rename_entry, check_name. apply wp_bind.
  destruct (Z.ltb_spec NAME_MAX (zlen nn)) as [|Hnn]; [by apply wp_throw, HE; [constructor; right|]|].
  apply wp_ret, wp_bind. pose proof Hwf as [Hd Hn].
  apply wp_lookup; [done..| |by intros; apply HE; [constructor; left|]|
    by intros; apply HE; [constructor; left|]|done].
  intros k d r K c1 _ Hres Hc1. cbn [inode_view i_kind i_ino].
  destruct (resolves_child _ _ _ _ _ _ _ Hwf Hres) as [Hi Hk]. rewrite inode_of_valid by done.
  apply wp_is_directory; rewrite ?Hc1; [done|done| | | |done].
  2: { intros c2 (K' & HK' & Hne) Hc2. apply HE; [by apply (rr_parent _ _ _ _ _ _ K')|done]. }
  2: { intros c2 Hnone Hc2. apply HE; [constructor; by right|done]. }
  intros c2 Hkp Hc2. apply wp_bind.
  apply (wp_mono _ (fun b c' => tables c' = tables c /\
      (b = true <-> K = Directory /\ under (t_dirents (tables c)) (d_child d) np))
    _ (fun e c' => engine_error e /\ tables c' = tables c)); [| |by intros e c' []; apply HR].
  { destruct (bool_decide_reflect (K = Directory)) as [HK|HK].
    - apply wp_is_descendant; rewrite ?Hc2; [done|done| |by intros; split; [|congruence]].
      intros b c3 Hc3 Hb. split; [congruence|tauto].
    - apply wp_ret. split; [done|]. split; [done|tauto]. }
  intros b c3 [Hc3 Hb]. destruct b.
  { destruct (proj1 Hb eq_refl) as [-> Hu]. apply wp_throw, HE; [by apply (rr_cycle _ _ _ _ _ _ k d r)|done]. }
  destruct Hres as [Hf Hkd <- <- Hr HK].
  destruct ((d_parent d =? np) && bool_decide (d_name d = nn)) eqn:Hsame.
  { apply andb_true_iff in Hsame as [Hpe%Z.eqb_eq Hne%bool_decide_eq_true].
    apply wp_ret, HQ0; [|done..]. by eexists. }
  apply (wp_rename_onto k d r K np nn); rewrite ?Hc3; [done..| |by intros; eapply HQ|done|done].
  intros tgt Ht. constructor; try done.
  - intros HKd Hu. by specialize (proj2 Hb (conj HKd Hu)).
  - intros [Hpe Hne]. by rewrite Hpe, Z.eqb_refl, bool_decide_true in Hsame.
Qed.
End rename_triple.
