(* ===== verification/NamesView.v ===== *)
(** * NamesView: the directory tree as a function

    [child_of t p n] is the inode that name [n] of directory [p] stands for; each
    operation on names changes this function at one or two places. *)

From S2P Require Import Prelude Effects Model Chunk Sql DbData DbNames Tree NamesSpec.

Definition child_of (t : Tables) (p : Z) (n : list byte) : option Z :=
  (fun e => d_child e.2) <$> find_entry p n t.

Section view.
Implicit Types (t : Tables) (p c k : Z) (n : list byte) (d : DirentRow).

Lemma child_of_Some t p n c :
  names_wf t ->
  child_of t p n = Some c <-> exists k d, t_dirents t !! k = Some d /\ d_parent d = p /\ d_name d = n /\ d_child d = c.
Proof.
  intros Hwf. unfold child_of. rewrite fmap_Some. split.
  - intros ([k d] & Hf & ->). apply find_entry_Some in Hf as (? & ? & ?); [|done]. by exists k, d.
  - intros (k & d & Hk & Hp & Hn & <-). exists (k, d). split; [|done]. by apply find_entry_Some.
Qed.

Lemma child_of_None t p n :
  child_of t p n = None <-> find_entry p n t = None.
Proof. unfold child_of. by rewrite fmap_None. Qed.

Lemma child_of_resolves t p n k d r K : resolves t p n k d r K -> child_of t p n = Some (d_child d).
Proof. intros []. unfold child_of. by rewrite rs_find. Qed.

Lemma child_of_ext t t' p n : t_dirents t' = t_dirents t -> child_of t' p n = child_of t p n.
Proof. intros Hd. unfold child_of, find_entry. by rewrite Hd. Qed.

(** ** Changes of one entry *)

Lemma find_delete t t' k d p n :
  names_wf t -> names_wf t' -> t_dirents t !! k = Some d -> t_dirents t' = delete k (t_dirents t) ->
  find_entry p n t' = if decide (p = d_parent d /\ n = d_name d) then None else find_entry p n t.
Proof.
  intros Hwf Hwf' Hk Hd. case_decide as Hpn.
  - destruct Hpn as [-> ->]. apply find_entry_None. intros k' d' Hk' Hp Hn.
    rewrite Hd in Hk'. apply lookup_delete_Some in Hk' as [Hne Hk'].
    apply Hne. by apply (nw_unique _ Hwf k d k' d').
  - apply option_eq. intros [k' d']. rewrite !find_entry_Some, Hd by done.
    rewrite lookup_delete_Some. split; [tauto|]. intros (Hk' & Hp & Hn). split_and!; try done.
    intros <-. apply Hpn. simplify_eq. done.
Qed.

Lemma find_insert t t' k d p n :
  names_wf t -> names_wf t' -> t_dirents t !! k = None -> t_dirents t' = <[k := d]> (t_dirents t) ->
  find_entry p n t' = if decide (p = d_parent d /\ n = d_name d) then Some (k, d) else find_entry p n t.
Proof.
  intros Hwf Hwf' Hk Hd. case_decide as Hpn.
  - destruct Hpn as [-> ->]. apply find_entry_Some; [done|]. by rewrite Hd, lookup_insert_eq.
  - apply option_eq. intros [k' d']. rewrite !find_entry_Some, Hd by done. rewrite lookup_insert_Some.
    split; [intros ([[_ <-]|[_ ?]] & <- & <-); [by destruct Hpn|done]|].
    intros (Hk' & ?). split; [|done]. right. split; [|done]. intros <-. congruence.
Qed.

(** An entry moves to a free place. *)
Lemma find_move t t' k d np nn p n :
  names_wf t -> names_wf t' -> t_dirents t !! k = Some d ->
  t_dirents t' = <[k := moved d np nn]> (t_dirents t) ->
  find_entry p n t' =
    if decide (p = np /\ n = nn) then Some (k, moved d np nn)
    else if decide (p = d_parent d /\ n = d_name d) then None else find_entry p n t.
Proof.
  intros Hwf Hwf' Hk Hd. case_decide as Hpn; [|case_decide as Hold].
  - destruct Hpn as [-> ->]. apply find_entry_Some; [done|]. by rewrite Hd, lookup_insert_eq.
  - destruct Hold as [-> ->]. apply find_entry_None. intros k' d' Hk' Hp Hn.
    rewrite Hd in Hk'. apply lookup_insert_Some in Hk' as [[_ <-]|[Hne Hk']].
    + apply Hpn. by subst.
    + apply Hne. by apply (nw_unique _ Hwf k d k' d').
  - apply option_eq. intros [k' d']. rewrite !find_entry_Some, Hd by done. rewrite lookup_insert_Some.
    split; [intros ([[_ <-]|[_ ?]] & <- & <-); [by destruct Hpn|done]|].
    intros (Hk' & Hp & Hn). split; [|done]. right. split; [|done]. intros <-. apply Hold. simplify_eq. done.
Qed.

(** ** The operations *)

Lemma find_unlink t t' p n k d r K keep p' n' :
  fs_wf t -> fs_wf t' -> resolves t p n k d r K -> K <> Directory ->
  (keep = false -> r_nlink r <= 1) -> t' ≡ unlink_tables k d keep t ->
  find_entry p' n' t' = if decide (p' = p /\ n' = n) then None else find_entry p' n' t.
Proof.
  intros Hwf Hwf' Hres HK Hkeep (Hd & _). destruct Hres as [_ Hk <- <- Hr HrK].
  rewrite (unlink_dirents t k d r K keep) in Hd by done.
  apply (find_delete t t' k d); try done; [apply Hwf|apply Hwf'].
Qed.

Lemma find_rmdir t t' p n k d r p' n' :
  fs_wf t -> fs_wf t' -> resolves t p n k d r Directory -> child_count (d_child d) t = 0 ->
  t' ≡ rmdir_tables k d t ->
  find_entry p' n' t' = if decide (p' = p /\ n' = n) then None else find_entry p' n' t.
Proof.
  intros Hwf Hwf' Hres Hz (Hd & _). destruct (resolves_child _ _ _ _ _ _ _ Hwf Hres) as [_ Hkind].
  destruct Hres as [_ Hk <- <- Hr HrK]. change (t_dirents (rmdir_tables k d t)) with
    (t_dirents (remove_inode (d_child d) (drop_entry k t))) in Hd.
  rewrite (rmdir_dirents t k d) in Hd by done.
  apply (find_delete t t' k d); try done; [apply Hwf|apply Hwf'].
Qed.

Lemma find_created t t' p n node uid gid now k ino p' n' :
  fs_wf t -> created t t' p n node uid gid now k ino ->
  find_entry p' n' t' =
    if decide (p' = p /\ n' = n) then Some (k, mkDirentRow p n ino) else find_entry p' n' t.
Proof.
  intros Hwf []. destruct cr_equiv as (Hd & _). rewrite create_dirents in Hd.
  apply (find_insert t t' k (mkDirentRow p n ino)); try done; [apply Hwf|apply cr_wf|apply cr_vacant].
Qed.

Lemma find_linked t t' p n k ino p' n' :
  fs_wf t -> fs_wf t' -> entry_vacant t k (mkDirentRow p n ino) ->
  t' ≡ link_tables k (mkDirentRow p n ino) t ->
  find_entry p' n' t' =
    if decide (p' = p /\ n' = n) then Some (k, mkDirentRow p n ino) else find_entry p' n' t.
Proof.
  intros Hwf Hwf' Hv (Hd & _).
  apply (find_insert t t' k (mkDirentRow p n ino)); try done; [apply Hwf|apply Hwf'|apply Hv].
Qed.

Lemma find_renamed t t' k d r K np nn tgt is_open p n :
  fs_wf t -> fs_wf t' -> rename_ok t k d r K np nn tgt -> t' ≡ renamed_tables t k d np nn tgt is_open ->
  find_entry p n t' =
    if decide (p = np /\ n = nn) then Some (k, moved d np nn)
    else if decide (p = d_parent d /\ n = d_name d) then None else find_entry p n t.
Proof.
  intros Hwf Hwf' Hok (Hd & _). unfold renamed_tables in Hd. rewrite move_dirents in Hd.
  pose proof (replaced_wf t k d r K np nn tgt is_open Hwf Hok) as Hw.
  pose proof (replaced_source t k d r K np nn tgt is_open Hwf Hok) as Hs.
  rewrite <- (replaced_dirents tgt is_open t) in Hs.
  rewrite (find_move (replaced_tables tgt is_open t) t' k d np nn); [|apply Hw|apply Hwf'|done|done].
  case_decide as H1; [done|]. case_decide as H2; [done|].
  pose proof (replaced_dirents tgt is_open t) as Hrd.
  rewrite (without_dirents t k d r K np nn tgt is_open Hwf Hok) in Hrd.
  pose proof (target_entry t k d r K np nn tgt Hwf Hok) as Hte.
  pose proof (ro_target _ _ _ _ _ _ _ _ Hok) as Htgt.
  destruct tgt as [[[[k2 d2] r2] K2]|]; [|unfold find_entry; by rewrite Hrd].
  destruct (Hte _ _ _ _ eq_refl) as (Hk2 & _). destruct Htgt as ([_ _ Hp2 Hn2 _ _] & _).
  rewrite (find_delete t _ k2 d2 p n); [|apply Hwf|apply Hw|done|done].
  rewrite decide_False; [done|]. rewrite Hp2, Hn2. done.
Qed.

(** ** The inodes that names stand for *)

(** The tree changes at one place: [name] of [parent] is [child] from now on. *)
Definition tree_set (T T' : Tables) (parent : Z) (name : list byte) (child : option Z) : Prop :=
  forall p n, child_of T' p n = if decide (p = parent /\ n = name) then child else child_of T p n.

Lemma child_of_unlink t t' p n k d r K keep p' n' :
  fs_wf t -> fs_wf t' -> resolves t p n k d r K -> K <> Directory ->
  (keep = false -> r_nlink r <= 1) -> t' ≡ unlink_tables k d keep t ->
  child_of t' p' n' = if decide (p' = p /\ n' = n) then None else child_of t p' n'.
Proof. intros. unfold child_of. erewrite (find_unlink t t') by eassumption. by repeat case_decide. Qed.

Lemma child_of_rmdir t t' p n k d r p' n' :
  fs_wf t -> fs_wf t' -> resolves t p n k d r Directory -> child_count (d_child d) t = 0 ->
  t' ≡ rmdir_tables k d t ->
  child_of t' p' n' = if decide (p' = p /\ n' = n) then None else child_of t p' n'.
Proof. intros. unfold child_of. erewrite (find_rmdir t t') by eassumption. by repeat case_decide. Qed.

Lemma child_of_created t t' p n node uid gid now k ino p' n' :
  fs_wf t -> created t t' p n node uid gid now k ino ->
  child_of t' p' n' = if decide (p' = p /\ n' = n) then Some ino else child_of t p' n'.
Proof. intros. unfold child_of. erewrite (find_created t t') by eassumption. by repeat case_decide. Qed.

Lemma child_of_linked t t' p n k ino p' n' :
  fs_wf t -> fs_wf t' -> entry_vacant t k (mkDirentRow p n ino) ->
  t' ≡ link_tables k (mkDirentRow p n ino) t ->
  child_of t' p' n' = if decide (p' = p /\ n' = n) then Some ino else child_of t p' n'.
Proof. intros. unfold child_of. erewrite (find_linked t t') by eassumption. by repeat case_decide. Qed.

Lemma child_of_renamed t t' k d r K np nn tgt is_open p n :
  fs_wf t -> fs_wf t' -> rename_ok t k d r K np nn tgt -> t' ≡ renamed_tables t k d np nn tgt is_open ->
  child_of t' p n =
    if decide (p = np /\ n = nn) then Some (d_child d)
    else if decide (p = d_parent d /\ n = d_name d) then None else child_of t p n.
Proof. intros. unfold child_of. erewrite (find_renamed t t') by eassumption. by repeat case_decide. Qed.

(** The kinds and the symlinks after a creation. *)
Lemma created_kind t t' p n node uid gid now k ino i :
  created t t' p n node uid gid now k ino ->
  kind_of t' i = if decide (i = ino) then Some (node_kind node) else kind_of t i.
Proof. intros []. by rewrite cr_equiv, create_kind, node_row_kind. Qed.

Lemma created_symlinks t t' p n node uid gid now k ino i :
  fs_wf t -> created t t' p n node uid gid now k ino ->
  t_symlinks t' !! i = if decide (i = ino) then node_sym node else t_symlinks t !! i.
Proof.
  intros [_ Hn] []. destruct cr_equiv as (_ & _ & -> & _). rewrite create_symlinks. simpl.
  case_decide as Hi; [subst i|by destruct (node_sym node); rewrite ?lookup_insert_ne].
  destruct (node_sym node); [by rewrite lookup_insert_eq|].
  destruct (t_symlinks t !! ino) eqn:Hs; [|done]. exfalso.
  assert (kind_of t ino = Some Symlink) as Hk by (apply (nw_symlinks _ Hn); by eexists).
  unfold kind_of in Hk. by rewrite cr_new in Hk.
Qed.

(** ** Kinds and symlinks after a removal *)

(** Nothing but inode [c] may go. *)
Definition loses c t t' : Prop :=
  t_symlinks t' ⊆ t_symlinks t /\
  forall i, kind_of t' i = kind_of t i \/ (i = c /\ kind_of t' i = None).

Lemma loses_proper c t t1 t2 : t1 ≡ t2 -> loses c t t1 -> loses c t t2.
Proof.
  intros Heq [Hs Hk]. split; [by rewrite <- (proj1 (proj2 (proj2 Heq)))|].
  intros i. rewrite <- Heq. apply Hk.
Qed.

Lemma loses_trans c t1 t2 t3 : loses c t1 t2 -> loses c t2 t3 -> loses c t1 t3.
Proof.
  intros [S1 K1] [S2 K2]. split; [by etrans|]. intros i.
  destruct (K2 i) as [->|?]; [apply K1|by right].
Qed.

Lemma loses_nothing c t t' :
  t_symlinks t' = t_symlinks t -> (forall i, kind_of t' i = kind_of t i) -> loses c t t'.
Proof. intros Hs Hk. split; [by rewrite Hs|]. auto. Qed.

Lemma loses_add_nlink c i delta t : loses c t (add_nlink i delta t).
Proof. apply loses_nothing; [done|]. intros j. apply kind_of_add_nlink. Qed.

Lemma loses_remove c t : valid_ino c -> loses c t (remove_inode c t).
Proof.
  intros Hc. split.
  - unfold remove_inode, delete_inode_row. rewrite valid_ino_i64 by done. simpl.
    destruct (t_inodes t !! c); [apply delete_subseteq|done].
  - intros i. rewrite remove_kind by done. case_decide; auto.
Qed.

Lemma loses_unlink t k d keep : valid_ino (d_child d) -> loses (d_child d) t (unlink_tables k d keep t).
Proof.
  intros Hc. unfold unlink_tables. destruct keep; [exact (loses_add_nlink _ _ _ (drop_entry k t))|].
  exact (loses_remove _ (drop_entry k t) Hc).
Qed.

Lemma loses_rmdir t k d : valid_ino (d_child d) -> loses (d_child d) t (rmdir_tables k d t).
Proof.
  intros Hc. eapply loses_trans; [exact (loses_remove _ (drop_entry k t) Hc)|apply loses_add_nlink].
Qed.

Lemma loses_moved c t k d np nn : loses c t (move_tables k d np nn t).
Proof.
  apply loses_nothing; [unfold move_tables; by case_decide|]. intros i. apply move_kind.
Qed.

Lemma loses_renamed t k d r K np nn k2 d2 r2 K2 is_open :
  fs_wf t -> rename_ok t k d r K np nn (Some (k2, d2, r2, K2)) ->
  loses (d_child d2) t (renamed_tables t k d np nn (Some (k2, d2, r2, K2)) is_open).
Proof.
  intros Hwf Hok. destruct (target_entry _ _ _ _ _ _ _ _ Hwf Hok _ _ _ _ eq_refl) as (_ & _ & Hv & _).
  eapply loses_trans; [|apply loses_moved]. unfold replaced_tables, without_target.
  destruct K2; [by apply loses_unlink|by apply (loses_rmdir t k2 d2)|by apply loses_unlink].
Qed.
End view.
