(* ===== verification/DbVolume.v ===== *)
(** * DbVolume: durability and volume statistics (src/db.rs)

    [sync_durable] makes committed transactions durable by syncing the write-ahead
    log, or the database file when there is none; [volume_usage] and the pragma
    queries read what the engine reports. *)

From stdpp Require Import strings.
From S2P Require Import Prelude Effects Model Chunk Sql.

(** Text of the code as bytes. *)
Definition text (s : String.string) : list byte := String.list_byte_of_string s.

Record VolumeUsage := mkVolumeUsage {
  vu_page_size : Z; vu_page_count : Z; vu_freelist_count : Z; vu_files : Z }.

Section volume_ops.
Context `{World}.

(** A file operation of the operating system, numbered like engine calls. *)
Definition io (result : nat -> list byte -> option IoError) (path : list byte)
    : M Conn IoError unit := fun c =>
  match result (ticks c) path with
  | Some e => Err e (tick c)
  | None => Ok tt (tick c)
  end.

Definition path_with_suffix (path suffix : list byte) : list byte := path ++ suffix.

Definition sync_database_file (path : list byte) : M Conn IoError unit :=
  let wal_path := path_with_suffix path (text "-wal") in
  match_result (io open_result wal_path)
    (fun _ => io sync_result wal_path)
    (fun e => match e with
              | IoNotFound _ => io open_result path ;; io sync_result path
              | _ => throw e
              end).

Definition sync_durable : DbM unit :=
  match db_path with
  | None => mret tt
  | Some path =>
      if bool_decide (path = []) || bool_decide (path = text ":memory:") then mret tt
      else fun c =>
        match sync_database_file path c with
        | Ok a c' => Ok a c'
        | Err e c' => Err (Sqlite (io_message e)) c'
        | Panic => Panic
        | OutOfFuel => OutOfFuel
        end
  end.

(** Only the pragmas the tests and tools need; anything else is refused, so the
    name is never pasted into SQL. *)
Definition pragma_query (name : list byte) : DbM (list byte) :=
  if existsb (fun n => bool_decide (text n = name))
       ["busy_timeout"; "foreign_keys"; "journal_mode"; "synchronous"; "user_version"]%string
  then mret (text "PRAGMA " ++ name)
  else throw InvalidInput.

(** A query that reads nothing from the tables. *)
Definition query_engine {A} (f : nat -> A) : DbM A := fun c => query (fun _ => f (ticks c)) c.

Definition pragma_i64 (name : list byte) : DbM Z :=
  sql ← pragma_query name; query_engine (fun n => pragma_value n sql).
Definition pragma_string (name : list byte) : DbM (list byte) :=
  sql ← pragma_query name; query_engine (fun n => pragma_text n sql).

Definition volume_usage : DbM VolumeUsage :=
  page_size ← query_engine (fun n => pragma_value n (text "PRAGMA page_size"));
  page_count ← query_engine (fun n => pragma_value n (text "PRAGMA page_count"));
  freelist_count ← query_engine (fun n => pragma_value n (text "PRAGMA freelist_count"));
  files ← query (fun t => Z.of_nat (size (t_inodes t)));
  mret (mkVolumeUsage (u64 page_size) (u64 page_count) (u64 freelist_count) (u64 files)).
End volume_ops.

Section volume_spec.
Context `{World}.
Implicit Types c : Conn.


Lemma wp_io result path c :
  wp (io result path) (fun _ c' => tables c' = tables c) (fun _ c' => tables c' = tables c) c.
Proof. unfold wp, io. by destruct (result _ _). Qed.

(** Syncing never changes the tables; its errors are engine-side messages. *)
Lemma wp_sync_durable (Q : unit -> Conn -> Prop) (R : DbError -> Conn -> Prop) c :
  (forall c', tables c' = tables c -> Q tt c') ->
  (forall m c', tables c' = tables c -> R (Sqlite m) c') ->
  wp sync_durable Q R c.
Proof.
  intros HQ HR. unfold sync_durable. destruct db_path as [path|]; [|by apply wp_ret, HQ].
  destruct (_ || _); [by apply wp_ret, HQ|].
  assert (wp (sync_database_file path) (fun _ c' => tables c' = tables c)
    (fun _ c' => tables c' = tables c) c) as Hs.
  { unfold sync_database_file. apply wp_match_result.
    wp_call (wp_io open_result (path_with_suffix path (text "-wal")) c).
    - intros _ c1 Hc1. wp_call (wp_io sync_result (path_with_suffix path (text "-wal")) c1);
        intros; congruence.
    - intros e c1 Hc1. destruct e; [|by apply wp_throw]. apply wp_bind.
      wp_call (wp_io open_result path c1); [|intros; congruence].
      intros _ c2 Hc2. wp_call (wp_io sync_result path c2); intros; congruence. }
  unfold wp in *. destruct (sync_database_file path c) as [[] c'|e c'| |]; auto.
Qed.
End volume_spec.
