(* ===== verification/Schema.v ===== *)
(** * Schema: opening a database and bringing it up to date (src/db.rs)

    A database file may have been made by any version of the program: its tables are
    missing, in an old layout or in the current one. [Db_open] creates what is missing,
    migrates old layouts in one transaction, and repairs what a crash left behind. *)

From stdpp Require Import strings pretty.
From S2P Require Import Prelude Effects Model Chunk Sql DbData DbNames DbVolume.

Definition SCHEMA_VERSION : Z := 4.

(** ** Tables in their layouts *)

Inductive Table := Inodes | Dirents | FileChunks | SymlinkTargets.

#[global] Instance Table_eq_dec : EqDecision Table.
Proof. solve_decision. Defined.

(** A row of [inodes] with a time in two columns. *)
Record SplitRow := mkSplitRow {
  s_kind : Z; s_mode : Z; s_uid : Z; s_gid : Z; s_size : Z;
  s_atime : Z; s_mtime : Z; s_ctime : Z; s_nlink : Z;
  s_atime_nsec : Z; s_mtime_nsec : Z; s_ctime_nsec : Z }.

(** Up to version 3 times are split, and before version 1 the columns of the nanoseconds
    may be missing: [columns] lists those that are there. *)
Inductive InodesTable :=
  | SplitInodes (columns : list string) (rows : gmap Z SplitRow)
  | NsInodes (rows : gmap Z InodeRow).

(** Before version 3 entries have no id. *)
Inductive DirentsTable :=
  | KeyedDirents (rows : gmap (Z * list byte) Z)
  | IdDirents (rows : gmap Z DirentRow).

(** Before version 4 chunks are keyed by two columns. *)
Inductive ChunksTable :=
  | PairChunks (rows : gmap (Z * Z) (list byte))
  | KeyChunks (rows : gmap Z (list byte)).

Record Disk := mkDisk {
  k_inodes : option InodesTable;
  k_dirents : option DirentsTable;
  k_chunks : option ChunksTable;
  k_symlinks : option (gmap Z (list byte));
  k_indexes : list string;                 (* of dirents *)
  k_version : Z }.                         (* PRAGMA user_version *)

Definition empty_disk : Disk := mkDisk None None None None [] 0.

(** A connection to a database file. *)
Record DiskConn := mkDiskConn { dc_disk : Disk; dc_foreign_keys : Z; dc_ticks : nat }.

Abbreviation InitM := (M DiskConn DbError).

Definition with_k_inodes (d : Disk) v :=
  mkDisk v (k_dirents d) (k_chunks d) (k_symlinks d) (k_indexes d) (k_version d).
Definition with_k_dirents (d : Disk) v :=
  mkDisk (k_inodes d) v (k_chunks d) (k_symlinks d) (k_indexes d) (k_version d).
Definition with_k_chunks (d : Disk) v :=
  mkDisk (k_inodes d) (k_dirents d) v (k_symlinks d) (k_indexes d) (k_version d).
Definition with_k_symlinks (d : Disk) v :=
  mkDisk (k_inodes d) (k_dirents d) (k_chunks d) v (k_indexes d) (k_version d).
Definition with_k_indexes (d : Disk) v :=
  mkDisk (k_inodes d) (k_dirents d) (k_chunks d) (k_symlinks d) v (k_version d).
Definition with_k_version (d : Disk) v :=
  mkDisk (k_inodes d) (k_dirents d) (k_chunks d) (k_symlinks d) (k_indexes d) v.

(** [PRAGMA table_info]: the names of the columns; none of a table that is missing. *)
Definition table_columns (table : Table) (d : Disk) : list string :=
  match table with
  | Inodes =>
      match k_inodes d with
      | None => []
      | Some (SplitInodes columns _) =>
          ["ino"; "kind"; "mode"; "uid"; "gid"; "size"; "atime"; "mtime"; "ctime"; "nlink"]%string ++ columns
      | Some (NsInodes _) =>
          ["ino"; "kind"; "mode"; "uid"; "gid"; "size"; "atime_ns"; "mtime_ns"; "ctime_ns"; "nlink"]%string
      end
  | Dirents =>
      match k_dirents d with
      | None => []
      | Some (KeyedDirents _) => ["parent_ino"; "name"; "child_ino"]%string
      | Some (IdDirents _) => ["id"; "parent_ino"; "name"; "child_ino"]%string
      end
  | FileChunks =>
      match k_chunks d with
      | None => []
      | Some (PairChunks _) => ["ino"; "chunk_index"; "data"]%string
      | Some (KeyChunks _) => ["id"; "data"]%string
      end
  | SymlinkTargets =>
      match k_symlinks d with None => [] | Some _ => ["ino"; "target"]%string end
  end.

(** The tables that the storage layer works on, when the layout is the current one. *)
Definition tables_of (d : Disk) : option Tables :=
  match k_inodes d, k_dirents d, k_chunks d, k_symlinks d with
  | Some (NsInodes i), Some (IdDirents e), Some (KeyChunks c), Some s => Some (mkTables i e c s)
  | _, _, _, _ => None
  end.

Definition with_tables (d : Disk) (t : Tables) : Disk :=
  mkDisk (Some (NsInodes (t_inodes t))) (Some (IdDirents (t_dirents t))) (Some (KeyChunks (t_chunks t)))
    (Some (t_symlinks t)) (k_indexes d) (k_version d).

(** The primary result code of a statement on columns that are not there. *)
Definition SQLITE_ERROR : Z := 1.

Section schema.
Context `{World}.

(** ** Statements *)

Definition dtick (c : DiskConn) : DiskConn := mkDiskConn (dc_disk c) (dc_foreign_keys c) (S (dc_ticks c)).

Definition sql {A} (f : Disk -> (Disk * A) + SqlError) : InitM A := fun c =>
  match fault (dc_ticks c) with
  | Some e => Err (from_sql_error e) (dtick c)
  | None =>
      match f (dc_disk c) with
      | inl (d, a) => Ok a (mkDiskConn d (dc_foreign_keys c) (S (dc_ticks c)))
      | inr e => Err (from_sql_error e) (dtick c)
      end
  end.

Definition sql_change (f : Disk -> Disk) : InitM unit := sql (fun d => inl (f d, tt)).
Definition sql_query {A} (f : Disk -> A) : InitM A := sql (fun d => inl (d, f d)).

(** [PRAGMA foreign_keys], a setting of the connection. *)
Definition foreign_keys : InitM Z := fun c => sql_query (fun _ => dc_foreign_keys c) c.
Definition set_foreign_keys (value : Z) : InitM unit := fun c =>
  match fault (dc_ticks c) with
  | Some e => Err (from_sql_error e) (dtick c)
  | None => Ok tt (mkDiskConn (dc_disk c) value (S (dc_ticks c)))
  end.

(** [unchecked_transaction ... commit]: an error rolls the file back. *)
Definition disk_transaction {A} (m : InitM A) : InitM A := fun c =>
  match (sql_change id ;; a ← m; sql_change id ;; mret a) c with
  | Err e c' => Err e (mkDiskConn (dc_disk c) (dc_foreign_keys c') (dc_ticks c'))
  | r => r
  end.

(** A statement that names a column of another layout. *)
Definition NO_SUCH_COLUMN : SqlError :=
  SqliteFailure (OtherCode SQLITE_ERROR) SQLITE_ERROR (constraint_message SQLITE_ERROR).

(** Statements on the tables in their current layout. *)
Definition on_tables {A} (m : DbM A) : InitM A := fun c =>
  match tables_of (dc_disk c) with
  | None => Err (from_sql_error NO_SUCH_COLUMN) (dtick c)
  | Some t =>
      match m (mkConn t (dc_ticks c)) with
      | Ok a c' => Ok a (mkDiskConn (with_tables (dc_disk c) (tables c')) (dc_foreign_keys c) (ticks c'))
      | Err e c' => Err e (mkDiskConn (with_tables (dc_disk c) (tables c')) (dc_foreign_keys c) (ticks c'))
      | Panic => Panic
      | OutOfFuel => OutOfFuel
      end
  end.

(** ** Migration *)

Definition table_has_column (table : Table) (column : string) : InitM bool :=
  names ← sql_query (table_columns table);
  mret (existsb (fun name => bool_decide (name = column)) names).

(** The new column has 0 in each row. *)
Definition add_column (column : string) (d : Disk) : Disk :=
  match k_inodes d with
  | Some (SplitInodes columns rows) =>
      let row r :=
        mkSplitRow (s_kind r) (s_mode r) (s_uid r) (s_gid r) (s_size r) (s_atime r) (s_mtime r) (s_ctime r)
          (s_nlink r)
          (if bool_decide (column = "atime_nsec"%string) then 0 else s_atime_nsec r)
          (if bool_decide (column = "mtime_nsec"%string) then 0 else s_mtime_nsec r)
          (if bool_decide (column = "ctime_nsec"%string) then 0 else s_ctime_nsec r) in
      with_k_inodes d (Some (SplitInodes (columns ++ [column]) (row <$> rows)))
  | _ => d
  end.

Definition ensure_nsec_columns : InitM unit :=
  for_each ["atime_nsec"; "mtime_nsec"; "ctime_nsec"]%string (fun column =>
    has ← table_has_column Inodes column;
    if has : bool then mret tt else sql_change (add_column column)).

Definition create_index (name : string) (d : Disk) : Disk :=
  if existsb (fun i => bool_decide (i = name)) (k_indexes d) then d
  else with_k_indexes d (k_indexes d ++ [name]).

(** Two entries of a name in one directory. *)
Definition duplicate_names (d : Disk) : bool :=
  match k_dirents d with
  | Some (IdDirents rows) =>
      negb (bool_decide (NoDup ((fun e => (d_parent e.2, d_name e.2)) <$> map_to_list rows)))
  | _ => false
  end.

Definition create_unique_index (name : string) (d : Disk) : (Disk * unit) + SqlError :=
  if existsb (fun i => bool_decide (i = name)) (k_indexes d) then inl (d, tt)
  else if duplicate_names d then inr UNIQUE_FAILURE
  else inl (with_k_indexes d (k_indexes d ++ [name]), tt).

(** [ORDER BY parent_ino, name] *)
Definition dirent_le (e1 e2 : (Z * list byte) * Z) : Prop :=
  e1.1.1 < e2.1.1 \/ (e1.1.1 = e2.1.1 /\ bytes_le e1.1.2 e2.1.2).

#[global] Instance dirent_le_dec e1 e2 : Decision (dirent_le e1 e2).
Proof. unfold dirent_le, bytes_le. apply _. Defined.

(** [INSERT INTO dirents_v3 SELECT .. ORDER BY parent_ino, name] *)
Definition give_ids (entries : list ((Z * list byte) * Z)) : option (gmap Z DirentRow) :=
  fold_left (fun acc e =>
    rows ← acc; id ← new_rowid (dom rows);
    Some (<[id := mkDirentRow e.1.1 e.1.2 e.2]> rows)) entries (Some ∅).

(** [CREATE TABLE dirents_v3; INSERT ..; DROP TABLE dirents; ALTER TABLE .. RENAME]; the
    indexes of [dirents] go with the old table. *)
Definition rebuild_dirents : InitM unit :=
  sql_change id ;;
  sql (fun d => match k_dirents d with
                | Some (KeyedDirents rows) =>
                    match give_ids (merge_sort dirent_le (map_to_list rows)) with
                    | Some rows => inl (with_k_indexes (with_k_dirents d (Some (IdDirents rows))) [], tt)
                    | None => inr FULL_FAILURE
                    end
                | _ => inr NO_SUCH_COLUMN
                end) ;;
  sql_change id ;;
  sql_change id.

(** The CASE expression of [merge_timestamp_columns]. *)
Definition ns (secs nsec : Z) : Z :=
  if 9223372035 <? secs then 9223372036854775807
  else if secs <? -9223372035 then -9223372036854775807 - 1
  else if secs <? 0 then secs * 1000000000 - nsec
  else secs * 1000000000 + nsec.

Definition merge_row (r : SplitRow) : InodeRow :=
  mkInodeRow (s_kind r) (s_mode r) (s_uid r) (s_gid r) (s_size r)
    (ns (s_atime r) (s_atime_nsec r)) (ns (s_mtime r) (s_mtime_nsec r)) (ns (s_ctime r) (s_ctime_nsec r))
    (s_nlink r).

(** [DROP TABLE inodes] deletes its rows first, and with foreign keys on the rows that
    refer to them. *)
Definition drop_inodes (foreign_keys : Z) (d : Disk) : Disk :=
  if foreign_keys =? 0 then d
  else
    mkDisk (k_inodes d)
      ((fun t => match t with KeyedDirents _ => KeyedDirents ∅ | IdDirents _ => IdDirents ∅ end) <$> k_dirents d)
      ((fun t => match t with PairChunks _ => PairChunks ∅ | KeyChunks rows => KeyChunks rows end) <$> k_chunks d)
      ((fun _ => ∅) <$> k_symlinks d) (k_indexes d) (k_version d).

Definition merge_timestamp_columns : InitM unit :=
  sql_change id ;;
  fk ← gets dc_foreign_keys;
  sql (fun d => match k_inodes d with
                | Some (SplitInodes columns rows) =>
                    if forallb (fun c => existsb (fun c' => bool_decide (c' = c)) columns)
                         ["atime_nsec"; "mtime_nsec"; "ctime_nsec"]%string
                    then inl (with_k_inodes (drop_inodes fk d) (Some (NsInodes (merge_row <$> rows))), tt)
                    else inr NO_SUCH_COLUMN
                | _ => inr NO_SUCH_COLUMN
                end) ;;
  sql_change id ;;
  sql_change id.

Definition inode_exists (d : Disk) (ino : Z) : bool :=
  match k_inodes d with
  | Some (SplitInodes _ rows) => bool_decide (is_Some (rows !! ino))
  | Some (NsInodes rows) => bool_decide (is_Some (rows !! ino))
  | None => false
  end.

(** [INSERT INTO file_chunks_v4 SELECT (ino << 24) | chunk_index, data ..] *)
Definition rekey (entries : list ((Z * Z) * list byte)) : option (gmap Z (list byte)) :=
  fold_left (fun acc e =>
    rows ← acc;
    match rows !! chunk_key e.1.1 e.1.2 with
    | Some _ => None
    | None => Some (<[chunk_key e.1.1 e.1.2 := e.2]> rows)
    end) entries (Some ∅).

Definition too_large_message (too_large : Z) : list byte :=
  text "cannot upgrade to schema version 4: " ++ text (pretty too_large) ++
  text " chunks belong to data past the 1 TiB file size limit".

Definition rekey_file_chunks : InitM unit :=
  too_large ← sql (fun d => match k_chunks d with
    | Some (PairChunks rows) =>
        inl (d, Z.of_nat (size (filter (fun e => MAX_CHUNKS <= e.1.2 \/ MAX_INO < e.1.1) rows)))
    | _ => inr NO_SUCH_COLUMN
    end);
  if 0 <? too_large then throw (Sqlite (too_large_message too_large))
  else
    sql_change id ;;
    sql_change id ;;
    sql (fun d => match k_chunks d with
      | Some (PairChunks rows) =>
          match rekey (map_to_list (filter (fun e => inode_exists d e.1.1 = true) rows)) with
          | Some rows => inl (with_k_chunks d (Some (KeyChunks rows)), tt)
          | None => inr PRIMARY_KEY_FAILURE
          end
      | _ => inr NO_SUCH_COLUMN
      end) ;;
    sql_change id ;;
    sql_change id.

Definition migrate_steps (version : Z) : InitM unit :=
  disk_transaction (
    has_ns ← table_has_column Inodes "mtime_ns";
    let split_timestamps := negb has_ns in
    (if (version <? 1) && split_timestamps then ensure_nsec_columns else mret tt) ;;
    (if version <? 2 then sql_change (create_index "dirents_child") else mret tt) ;;
    (if version <? 3 then
       has_id ← table_has_column Dirents "id";
       (if has_id : bool then mret tt else rebuild_dirents) ;;
       sql (create_unique_index "dirents_name") ;;
       sql_change (create_index "dirents_child") ;;
       sql_change (create_index "dirents_scan")
     else mret tt) ;;
    (if version <? 4 then
       (if split_timestamps : bool then merge_timestamp_columns else mret tt) ;;
       has_index ← table_has_column FileChunks "chunk_index";
       (if has_index : bool then rekey_file_chunks else mret tt)
     else mret tt) ;;
    sql_change (fun d => with_k_version d SCHEMA_VERSION)).

Definition migrate : InitM unit :=
  version ← sql_query k_version;
  if SCHEMA_VERSION <? version then throw (UnsupportedSchema version)
  else if version =? SCHEMA_VERSION then mret tt
  else
    fk ← foreign_keys;
    set_foreign_keys 0 ;;
    match_result (migrate_steps version)
      (fun _ => set_foreign_keys fk)
      (fun e => set_foreign_keys fk ;; throw e).

(** ** Start-up *)

(** [CREATE TABLE IF NOT EXISTS] *)
Definition create_inodes (d : Disk) : Disk :=
  match k_inodes d with None => with_k_inodes d (Some (NsInodes ∅)) | Some _ => d end.
Definition create_dirents (d : Disk) : Disk :=
  match k_dirents d with None => with_k_dirents d (Some (IdDirents ∅)) | Some _ => d end.
Definition create_file_chunks (d : Disk) : Disk :=
  match k_chunks d with None => with_k_chunks d (Some (KeyChunks ∅)) | Some _ => d end.
Definition create_symlink_targets (d : Disk) : Disk :=
  match k_symlinks d with None => with_k_symlinks d (Some ∅) | Some _ => d end.

(** [INSERT OR IGNORE INTO inodes .. VALUES (1, ..)] *)
Definition insert_root (uid gid now_ns : Z) (t : Tables) : Tables :=
  match t_inodes t !! 1 with
  | Some _ => t
  | None =>
      with_inodes t (<[1 := mkInodeRow (as_i64 Directory) 493 uid gid 0 now_ns now_ns now_ns 2]> (t_inodes t))
  end.

(** [UPDATE inodes SET uid, gid, ctime_ns WHERE ino = 1 AND uid = 0 AND gid = 0] *)
Definition own_row (uid gid now_ns : Z) (r : InodeRow) : InodeRow :=
  if (r_uid r =? 0) && (r_gid r =? 0)
  then mkInodeRow (r_kind r) (r_mode r) uid gid (r_size r) (r_atime_ns r) (r_mtime_ns r) now_ns (r_nlink r)
  else r.

Definition own_root (uid gid now_ns : Z) (t : Tables) : Tables :=
  with_inodes t (alter (own_row uid gid now_ns) 1 (t_inodes t)).

(** [SELECT COUNT( * ) FROM dirents d JOIN inodes child .. WHERE d.parent_ino = inodes.ino
    AND child.kind = ?] *)
Definition count_subdirs (t : Tables) (ino : Z) : Z :=
  Z.of_nat (size (filter (fun e : Z * DirentRow =>
    d_parent e.2 = ino /\ r_kind <$> t_inodes t !! d_child e.2 = Some (as_i64 Directory)) (t_dirents t))).

Definition counted_row (t : Tables) (ino : Z) (r : InodeRow) : InodeRow :=
  if r_kind r =? as_i64 Directory
  then mkInodeRow (r_kind r) (r_mode r) (r_uid r) (r_gid r) (r_size r) (r_atime_ns r) (r_mtime_ns r)
         (r_ctime_ns r) (2 + count_subdirs t ino)
  else r.

Definition recompute_directory_nlink (t : Tables) : Tables :=
  with_inodes t (map_imap (fun ino r => Some (counted_row t ino r)) (t_inodes t)).

(** [SELECT ino FROM inodes WHERE nlink = 0 AND ino != 1] *)
Definition orphans (t : Tables) : list Z :=
  (filter (fun e : Z * InodeRow => r_nlink e.2 = 0 /\ e.1 <> 1) (map_to_list (t_inodes t))).*1.

Definition repair : DbM unit :=
  now ← now_ts;
  execute (insert_root mount_uid mount_gid (to_ns now)) ;;
  execute (own_root mount_uid mount_gid (to_ns now)) ;;
  execute recompute_directory_nlink ;;
  orphans ← query orphans;
  for_each orphans (fun ino => delete_inode_rows (u64 ino)).

Definition initialize : InitM unit :=
  sql_change create_inodes ;;
  sql_change create_dirents ;;
  sql_change create_file_chunks ;;
  sql_change create_symlink_targets ;;
  migrate ;;
  on_tables repair.

(** The five pragmas of [Db::open]; only the first bears on the tables. *)
Definition Db_open : InitM unit :=
  sql_change id ;;
  set_foreign_keys 1 ;;
  sql_change id ;;
  sql_change id ;;
  sql_change id ;;
  sql_change id ;;
  initialize.

(** A new database that is never stored. *)
Definition open_in_memory : nat -> outcome DiskConn DbError unit := fun n =>
  (sql_change id ;; set_foreign_keys 1 ;; initialize) (mkDiskConn empty_disk 0 n).
End schema.
