(* ===== verification/SchemaSpec.v ===== *)
(** * SchemaSpec: migration keeps what the database says

    The content of a database file is what its tables say whatever their layout: the
    inodes with their times, the entries, the chunks of the inodes and the symlinks. A
    migration ends in the current layout with the same content, or leaves the file as it
    was. *)

From stdpp Require Import strings.
From S2P Require Import Prelude Effects Model Chunk Sql DbData DbNames DbVolume Schema.

(** ** Rules of the statements *)

Section rules.
Context `{World}.
Implicit Types (c : DiskConn) (d : Disk) (e : DbError).

Lemma wp_sql {A} f (Q : A -> DiskConn -> Prop) R c :
  (forall d a n, f (dc_disk c) = inl (d, a) -> Q a (mkDiskConn d (dc_foreign_keys c) n)) ->
  (forall se n, f (dc_disk c) = inr se -> R (from_sql_error se) (mkDiskConn (dc_disk c) (dc_foreign_keys c) n)) ->
  (forall e n, engine_error e -> R e (mkDiskConn (dc_disk c) (dc_foreign_keys c) n)) ->
  wp (sql f) Q R c.
Proof.
  intros HQ HE HR. unfold wp, sql. destruct (fault (dc_ticks c)) as [se|] eqn:Hf.
  - apply HR. by exists (dc_ticks c), se.
  - destruct (f (dc_disk c)) as [[d a]|se] eqn:Hr; [by apply HQ|by apply HE].
Qed.

Lemma wp_sql_change f (Q : unit -> DiskConn -> Prop) R c :
  (forall n, Q tt (mkDiskConn (f (dc_disk c)) (dc_foreign_keys c) n)) ->
  (forall e n, engine_error e -> R e (mkDiskConn (dc_disk c) (dc_foreign_keys c) n)) ->
  wp (sql_change f) Q R c.
Proof. intros HQ HR. apply wp_sql; [|done|done]. intros d [] n [= <-]. apply HQ. Qed.

Lemma wp_sql_query {A} f (Q : A -> DiskConn -> Prop) R c :
  (forall n, Q (f (dc_disk c)) (mkDiskConn (dc_disk c) (dc_foreign_keys c) n)) ->
  (forall e n, engine_error e -> R e (mkDiskConn (dc_disk c) (dc_foreign_keys c) n)) ->
  wp (sql_query f) Q R c.
Proof. intros HQ HR. apply wp_sql; [|done|done]. intros d a n [= <- <-]. apply HQ. Qed.

Lemma wp_foreign_keys (Q : Z -> DiskConn -> Prop) R c :
  (forall n, Q (dc_foreign_keys c) (mkDiskConn (dc_disk c) (dc_foreign_keys c) n)) ->
  (forall e n, engine_error e -> R e (mkDiskConn (dc_disk c) (dc_foreign_keys c) n)) ->
  wp foreign_keys Q R c.
Proof. intros HQ HR. exact (wp_sql_query (fun _ => dc_foreign_keys c) Q R c HQ HR). Qed.

Lemma wp_set_foreign_keys v (Q : unit -> DiskConn -> Prop) R c :
  (forall n, Q tt (mkDiskConn (dc_disk c) v n)) ->
  (forall e n, engine_error e -> R e (mkDiskConn (dc_disk c) (dc_foreign_keys c) n)) ->
  wp (set_foreign_keys v) Q R c.
Proof.
  intros HQ HR. unfold wp, set_foreign_keys. destruct (fault (dc_ticks c)) as [se|] eqn:Hf; [|apply HQ].
  apply HR. by exists (dc_ticks c), se.
Qed.

Lemma wp_table_has_column table column (Q : bool -> DiskConn -> Prop) R c :
  (forall n, Q (bool_decide (column ∈ table_columns table (dc_disk c)))
     (mkDiskConn (dc_disk c) (dc_foreign_keys c) n)) ->
  (forall e n, engine_error e -> R e (mkDiskConn (dc_disk c) (dc_foreign_keys c) n)) ->
  wp (table_has_column table column) Q R c.
Proof.
  intros HQ HR. apply wp_bind, wp_sql_query; [|done]. intros n. apply wp_ret.
  replace (existsb _ _) with (bool_decide (column ∈ table_columns table (dc_disk c))); [apply HQ|].
  apply eq_true_iff_eq. rewrite bool_decide_eq_true, existsb_exists. split.
  - intros Hin. exists column. split; [by apply list_elem_of_In|by apply bool_decide_eq_true].
  - intros (x & Hx & ->%bool_decide_eq_true). by apply list_elem_of_In.
Qed.

Lemma wp_disk_transaction {A} (m : InitM A) (Q : A -> DiskConn -> Prop) (R : DbError -> DiskConn -> Prop) c :
  (forall n, wp m
     (fun a c1 => (forall n', Q a (mkDiskConn (dc_disk c1) (dc_foreign_keys c1) n')) /\
        (forall e n', engine_error e -> R e (mkDiskConn (dc_disk c) (dc_foreign_keys c1) n')))
     (fun e c1 => forall n', R e (mkDiskConn (dc_disk c) (dc_foreign_keys c1) n'))
     (mkDiskConn (dc_disk c) (dc_foreign_keys c) n)) ->
  (forall e n, engine_error e -> R e (mkDiskConn (dc_disk c) (dc_foreign_keys c) n)) ->
  wp (disk_transaction m) Q R c.
Proof.
  intros Hm HR.
  assert (wp (sql_change id ;; a ← m; sql_change id ;; mret a) Q
    (fun e c1 => forall n', R e (mkDiskConn (dc_disk c) (dc_foreign_keys c1) n')) c) as Hwp.
  { apply wp_bind, wp_sql_change; [|by auto]. intros n. apply wp_bind.
    eapply wp_mono; [by apply Hm| |done]. simpl. intros a c1 [HQ HE].
    apply wp_bind, wp_sql_change; [|by auto]. intros n2. apply wp_ret. apply HQ. }
  revert Hwp. unfold wp, disk_transaction. case_match; auto.
Qed.
End rules.

(** ** The content of a file *)

(** The columns of nanoseconds. *)
Definition nsec_columns : list string := ["atime_nsec"; "mtime_nsec"; "ctime_nsec"]%string.

(** A column that is not there says 0. *)
Definition cell (columns : list string) (column : string) (v : Z) : Z :=
  if bool_decide (column ∈ columns) then v else 0.

Definition shown_row (columns : list string) (r : SplitRow) : InodeRow :=
  mkInodeRow (s_kind r) (s_mode r) (s_uid r) (s_gid r) (s_size r)
    (ns (s_atime r) (cell columns "atime_nsec" (s_atime_nsec r)))
    (ns (s_mtime r) (cell columns "mtime_nsec" (s_mtime_nsec r)))
    (ns (s_ctime r) (cell columns "ctime_nsec" (s_ctime_nsec r))) (s_nlink r).

Definition disk_row (d : Disk) (ino : Z) : option InodeRow :=
  match k_inodes d with
  | Some (SplitInodes columns rows) => shown_row columns <$> rows !! ino
  | Some (NsInodes rows) => rows !! ino
  | None => None
  end.

Definition disk_entry (d : Disk) (p : Z) (n : list byte) (child : Z) : Prop :=
  match k_dirents d with
  | Some (KeyedDirents rows) => rows !! (p, n) = Some child
  | Some (IdDirents rows) => exists k, rows !! k = Some (mkDirentRow p n child)
  | None => False
  end.

Definition disk_chunk (d : Disk) (ino x : Z) : option (list byte) :=
  match k_chunks d with
  | Some (PairChunks rows) => rows !! (ino, x)
  | Some (KeyChunks rows) => rows !! chunk_key ino x
  | None => None
  end.

(** The reference that a migration is compared with: each table brought up to date at once. *)
Definition upgraded_inodes (i : InodesTable) : gmap Z InodeRow :=
  match i with SplitInodes columns rows => shown_row columns <$> rows | NsInodes rows => rows end.

Definition upgraded_dirents `{World} (e : DirentsTable) : option (gmap Z DirentRow) :=
  match e with
  | KeyedDirents rows => give_ids (merge_sort dirent_le (map_to_list rows))
  | IdDirents rows => Some rows
  end.

Definition upgraded_chunks (inodes : gmap Z InodeRow) (c : ChunksTable) : option (gmap Z (list byte)) :=
  match c with
  | PairChunks rows => rekey (map_to_list (filter (fun e => is_Some (inodes !! e.1.1)) rows))
  | KeyChunks rows => Some rows
  end.

Definition upgraded `{World} (d : Disk) : option Tables :=
  inodes ← upgraded_inodes <$> k_inodes d;
  dirents ← k_dirents d ≫= upgraded_dirents;
  chunks ← k_chunks d ≫= upgraded_chunks inodes;
  symlinks ← k_symlinks d;
  Some (mkTables inodes dirents chunks symlinks).

(** The chunks of an inode that does not exist do not count. *)
Record same_content `{World} (d d' : Disk) : Prop := {
  sc_upgraded : upgraded d' = upgraded d;
  sc_row : forall ino, disk_row d' ino = disk_row d ino;
  sc_entry : forall p n child, disk_entry d' p n child <-> disk_entry d p n child;
  sc_chunk : forall ino x, valid_ino ino -> valid_chunk x -> is_Some (disk_row d ino) ->
    disk_chunk d' ino x = disk_chunk d ino x;
  sc_symlinks : k_symlinks d' = k_symlinks d }.

#[global] Instance same_content_preorder `{World} : PreOrder same_content.
Proof.
  split; [by intros d|]. intros d1 d2 d3 [E1 A1 B1 C1 D1] [E2 A2 B2 C2 D2]. constructor.
  - congruence.
  - intros ino. by rewrite A2.
  - intros p n child. by rewrite B2.
  - intros ino x Hi Hx Hr. rewrite C2 by (done || by rewrite A1). by apply C1.
  - congruence.
Qed.

(** Tables in the current layout are read as they are. *)
Lemma upgraded_current `{World} d t : tables_of d = Some t -> upgraded d = Some t.
Proof.
  unfold tables_of, upgraded. destruct (k_inodes d) as [[|]|], (k_dirents d) as [[|]|], (k_chunks d) as [[|]|],
    (k_symlinks d); by intros [= <-].
Qed.

(** A time that is merged from its two columns is the one the current version stores
    for it, except in the outermost second of the range on either side, of which all is
    clamped although the times at its start would fit. *)
Theorem merged_time secs nsec :
  0 <= nsec < NANOS_PER_SEC ->
  I64_MIN <= ns secs nsec <= I64_MAX /\
  (Z.abs secs <> 9223372036 -> ns secs nsec = to_ns (mkTimestamp secs nsec)) /\
  (secs = 9223372036 -> ns secs nsec = I64_MAX /\
     (nsec < 854775807 -> to_ns (mkTimestamp secs nsec) < I64_MAX)) /\
  (secs = -9223372036 -> ns secs nsec = I64_MIN /\
     (nsec < 854775808 -> I64_MIN < to_ns (mkTimestamp secs nsec))).
Proof.
  unfold ns, to_ns, I64_MIN, I64_MAX, NANOS_PER_SEC. simpl Model.secs. simpl Model.nsec. intros Hn.
  destruct (9223372035 <? secs) eqn:H1, (secs <? -9223372035) eqn:H2, (secs <? 0) eqn:H3; lia.
Qed.

Lemma merged_time_witness : ns 9223372036 0 = I64_MAX.
Proof. apply (merged_time 9223372036 0); done. Defined.

(** ** The layouts that the versions leave *)

Definition missing_columns (d : Disk) : Prop :=
  exists columns rows, k_inodes d = Some (SplitInodes columns rows) /\ ~ nsec_columns ⊆ columns.

Record layout_ok (d : Disk) : Prop := {
  lo_inodes : is_Some (k_inodes d);
  lo_dirents : is_Some (k_dirents d);
  lo_chunks : is_Some (k_chunks d);
  lo_symlinks : is_Some (k_symlinks d);
  lo_split : forall columns rows, k_inodes d = Some (SplitInodes columns rows) -> columns ⊆ nsec_columns;
  lo_columns : 1 <= k_version d -> ~ missing_columns d;
  lo_ids : 3 <= k_version d ->
    (exists rows, k_dirents d = Some (IdDirents rows)) /\ "dirents_name"%string ∈ k_indexes d;
  lo_unique : "dirents_name"%string ∈ k_indexes d -> duplicate_names d = false;
  lo_current : k_version d = 4 -> is_Some (tables_of d);
  lo_keys : forall rows ino x data, k_chunks d = Some (PairChunks rows) ->
    rows !! (ino, x) = Some data -> 0 <= ino /\ 0 <= x }.

(** What a finished migration leaves. *)
Definition current_layout (d : Disk) : Prop :=
  k_version d = SCHEMA_VERSION /\ is_Some (tables_of d) /\
  "dirents_name"%string ∈ k_indexes d /\ duplicate_names d = false.

(** Chunks that have no key in the current layout. *)
Definition chunks_past_limit (rows : gmap (Z * Z) (list byte)) : Z :=
  Z.of_nat (size (filter (fun e => MAX_CHUNKS <= e.1.2 \/ MAX_INO < e.1.1) rows)).

Section contents.
Context `{World}.
Implicit Types (d : Disk) (columns : list string).

(** The files that are refused, and the errors. *)
Inductive migrate_refused d : DbError -> Prop :=
  | refused_newer : SCHEMA_VERSION < k_version d -> migrate_refused d (UnsupportedSchema (k_version d))
  | refused_large rows : k_chunks d = Some (PairChunks rows) -> 0 < chunks_past_limit rows ->
      migrate_refused d (Sqlite (too_large_message (chunks_past_limit rows)))
  | refused_duplicate : duplicate_names d = true -> migrate_refused d (from_sql_error UNIQUE_FAILURE)
  | refused_full rows : k_dirents d = Some (KeyedDirents rows) ->
      give_ids (merge_sort dirent_le (map_to_list rows)) = None ->
      migrate_refused d (from_sql_error FULL_FAILURE).

(** *** Columns *)

Lemma cell_added columns column c v :
  column ∉ columns ->
  cell (columns ++ [column]) c (if bool_decide (column = c) then 0 else v) = cell columns c v.
Proof.
  intros Hn. unfold cell. destruct (decide (column = c)) as [->|Hne].
  - rewrite (bool_decide_eq_true_2 (c = c)) by done. rewrite (bool_decide_eq_false_2 (c ∈ columns)) by done.
    by destruct (bool_decide _).
  - rewrite (bool_decide_eq_false_2 (column = c)) by done. erewrite bool_decide_ext; [done|].
    rewrite elem_of_app, list_elem_of_singleton. naive_solver.
Qed.

Lemma add_column_content d columns rows column :
  k_inodes d = Some (SplitInodes columns rows) -> column ∉ columns ->
  same_content d (add_column column d).
Proof.
  intros Hi Hn. unfold add_column. rewrite Hi. constructor; try done.
  { unfold upgraded. rewrite Hi. cbn -[cell]. rewrite <- map_fmap_compose.
    erewrite (map_fmap_ext (shown_row (columns ++ [column]) ∘ _) (shown_row columns)); [done|].
    intros k r _. unfold shown_row, compose. simpl. by rewrite !cell_added. }
  intros ino. unfold disk_row. rewrite Hi. simpl. rewrite lookup_fmap.
  destruct (rows !! ino) as [r|]; [|done]. simpl. unfold shown_row. simpl.
  by rewrite !cell_added.
Qed.

Lemma create_index_content name d : same_content d (create_index name d).
Proof. unfold create_index. by case_match. Qed.

(** *** Entries *)

Lemma give_ids_snoc l e :
  give_ids (l ++ [e]) =
  (rows ← give_ids l; id ← new_rowid (dom rows); Some (<[id := mkDirentRow e.1.1 e.1.2 e.2]> rows)).
Proof. unfold give_ids. by rewrite fold_left_app. Qed.

Lemma give_ids_spec `{!EngineLaws H} l rows :
  give_ids l = Some rows ->
  (forall p n child, (exists k, rows !! k = Some (mkDirentRow p n child)) <-> ((p, n), child) ∈ l) /\
  map_Forall (fun k _ => 0 < k) rows /\
  (NoDup l.*1 -> forall k1 k2 e1 e2, rows !! k1 = Some e1 -> rows !! k2 = Some e2 ->
     d_parent e1 = d_parent e2 -> d_name e1 = d_name e2 -> k1 = k2).
Proof.
  revert rows. induction l as [|[[p0 n0] ch0] l IH] using rev_ind; intros rows.
  { intros [= <-]. split_and!; [|by apply map_Forall_empty|by intros _ k1 k2 e1 e2 ?%lookup_empty_Some].
    intros p n child. split; [by intros [k ?%lookup_empty_Some]|by intros ?%not_elem_of_nil]. }
  rewrite give_ids_snoc. intros (rows0 & H1 & (id & Hid & [= <-])%bind_Some)%bind_Some.
  destruct (IH _ H1) as (He & Hpos & Hun).
  assert (rows0 !! id = None) as Hfree.
  { apply not_elem_of_dom. by apply new_rowid_fresh. }
  split_and!.
  - intros p n child. rewrite elem_of_app, list_elem_of_singleton, <- He. simpl. split.
    + intros [k [[<- [= -> -> ->]]|[_ Hk]]%lookup_insert_Some]; [by right|left; by exists k].
    + intros [[k Hk]|[= -> -> ->]]; [|exists id; by rewrite lookup_insert_eq].
      exists k. rewrite lookup_insert_ne; [done|]. intros ->. congruence.
  - apply map_Forall_insert_2; [|done]. eapply new_rowid_pos; [done|].
    intros k [r Hk]%elem_of_dom. exact (Hpos k r Hk).
  - rewrite fmap_app. intros (Hnd & Hdis & _)%NoDup_app k1 k2 e1 e2.
    assert (forall k e, rows0 !! k = Some e -> d_parent e = p0 -> d_name e = n0 -> False) as Hno.
    { intros k [p n ch] Hk Hp Hname. simpl in Hp, Hname. subst. apply (Hdis (p0, n0)); [|by apply list_elem_of_here].
      apply list_elem_of_fmap. exists ((p0, n0), ch). split; [done|]. apply He. by exists k. }
    intros [[<- <-]|[_ Hk1]]%lookup_insert_Some [[<- <-]|[_ Hk2]]%lookup_insert_Some Hp Hname; [done| | |].
    + by destruct (Hno k2 e2).
    + by destruct (Hno k1 e1).
    + by eapply Hun.
Qed.

Lemma unique_no_duplicates d rows :
  k_dirents d = Some (IdDirents rows) ->
  (forall k1 k2 e1 e2, rows !! k1 = Some e1 -> rows !! k2 = Some e2 ->
     d_parent e1 = d_parent e2 -> d_name e1 = d_name e2 -> k1 = k2) ->
  duplicate_names d = false.
Proof.
  intros Hd Hun. unfold duplicate_names. rewrite Hd. apply negb_false_iff, bool_decide_eq_true_2.
  apply NoDup_fmap_2_strong; [|apply NoDup_map_to_list].
  intros [k1 e1] [k2 e2] Hk1%elem_of_map_to_list Hk2%elem_of_map_to_list [= Hp Hn].
  assert (k1 = k2) as <- by by eapply Hun. congruence.
Qed.

Lemma no_duplicates_unique d rows k1 k2 e1 e2 :
  duplicate_names d = false -> k_dirents d = Some (IdDirents rows) ->
  rows !! k1 = Some e1 -> rows !! k2 = Some e2 ->
  d_parent e1 = d_parent e2 -> d_name e1 = d_name e2 -> k1 = k2.
Proof.
  unfold duplicate_names. intros Hdup Hd. rewrite Hd in Hdup.
  apply negb_false_iff, bool_decide_eq_true_1 in Hdup. intros Hk1 Hk2 Hp Hn.
  apply elem_of_map_to_list in Hk1, Hk2.
  apply list_elem_of_lookup in Hk1 as [i1 Hi1]. apply list_elem_of_lookup in Hk2 as [i2 Hi2].
  assert (i1 = i2) as ->; [|congruence].
  eapply (NoDup_lookup _ i1 i2); [exact Hdup| |]; rewrite list_lookup_fmap; [by rewrite Hi1|].
  rewrite Hi2. simpl. by rewrite Hp, Hn.
Qed.

(** *** Chunks *)

Lemma rekey_snoc l e :
  rekey (l ++ [e]) =
  (rows ← rekey l;
   match rows !! chunk_key e.1.1 e.1.2 with
   | Some _ => None
   | None => Some (<[chunk_key e.1.1 e.1.2 := e.2]> rows)
   end).
Proof. unfold rekey. by rewrite fold_left_app. Qed.

(** Chunks with keys of their own are all stored under them. *)
Lemma rekey_spec l :
  NoDup l.*1 -> Forall (fun e => valid_ino e.1.1 /\ valid_chunk e.1.2) l ->
  exists rows, rekey l = Some rows /\
    forall key data, rows !! key = Some data <->
      exists ino x, key = chunk_key ino x /\ ((ino, x), data) ∈ l.
Proof.
  induction l as [|[[i0 x0] data0] l IH] using rev_ind.
  { intros _ _. exists ∅. split; [done|]. intros key data. rewrite lookup_empty. split; [done|].
    by intros (i & x & _ & ?%not_elem_of_nil). }
  rewrite fmap_app, NoDup_app, Forall_app, Forall_singleton. intros (Hnd & Hdis & _) [Hl [Hi0 Hx0]].
  destruct (IH Hnd Hl) as (rows & Hr & Hrows). rewrite rekey_snoc, Hr. simpl in *.
  assert (forall ino x data, ((ino, x), data) ∈ l -> chunk_key ino x <> chunk_key i0 x0) as Hne.
  { intros ino x data Hin Heq. rewrite Forall_forall in Hl. destruct (Hl _ Hin) as [Hi Hx]. simpl in *.
    destruct (chunk_key_inj ino x i0 x0) as [-> ->]; try done.
    apply (Hdis (i0, x0)); [|by apply list_elem_of_here]. apply list_elem_of_fmap. by exists ((i0, x0), data). }
  destruct (rows !! chunk_key i0 x0) as [b|] eqn:Hb.
  { apply Hrows in Hb as (ino & x & Heq & Hin). by destruct (Hne ino x b). }
  eexists. split; [done|]. intros key data. split.
  - intros [[<- <-]|[_ (ino & x & -> & Hin)%Hrows]]%lookup_insert_Some.
    + exists i0, x0. rewrite elem_of_app, list_elem_of_singleton. by split; [|right].
    + exists ino, x. rewrite elem_of_app. by split; [|left].
  - intros (ino & x & -> & [Hin|[= -> -> ->]%list_elem_of_singleton]%elem_of_app);
      [|by rewrite lookup_insert_eq].
    rewrite lookup_insert_ne by (intros ?; by eapply Hne). apply Hrows. by exists ino, x.
Qed.

Lemma within_limit rows ino x data :
  chunks_past_limit rows <= 0 -> rows !! (ino, x) = Some data -> x < MAX_CHUNKS /\ ino <= MAX_INO.
Proof.
  unfold chunks_past_limit. intros Hs Hl.
  assert (filter (fun e : (Z * Z) * list byte => MAX_CHUNKS <= e.1.2 \/ MAX_INO < e.1.1) rows = ∅) as Hemp.
  { apply map_size_empty_iff. lia. }
  destruct (decide (MAX_CHUNKS <= x \/ MAX_INO < ino)) as [Hbad|]; [|lia].
  apply (f_equal (fun m => m !! (ino, x))) in Hemp. rewrite lookup_empty in Hemp.
  by rewrite (map_lookup_filter_Some_2 _ _ _ _ Hl Hbad) in Hemp.
Qed.
End contents.

(** ** The steps *)

Section steps.
Context `{!EngineLaws H}.
Implicit Types (c : DiskConn) (d : Disk).

(** A failed step: why, with foreign keys as they are during a migration. *)
Definition failed (d0 : Disk) (e : DbError) (c : DiskConn) : Prop :=
  (engine_error e \/ migrate_refused d0 e) /\ dc_foreign_keys c = 0.

Lemma failed_engine d0 e d n : engine_error e -> failed d0 e (mkDiskConn d 0 n).
Proof. by split; [left|]. Qed.

#[local] Hint Resolve failed_engine : core.

Lemma has_column_split d columns rows column :
  k_inodes d = Some (SplitInodes columns rows) -> column ∈ nsec_columns ->
  column ∈ table_columns Inodes d <-> column ∈ columns.
Proof.
  intros Hi Hc. unfold table_columns. rewrite Hi, elem_of_app. split; [|by right].
  intros [Hin|]; [|done]. exfalso. revert Hin.
  unfold nsec_columns in Hc. rewrite !elem_of_cons, elem_of_nil in *. naive_solver.
Qed.

Lemma wp_ensure_nsec_columns d0 d columns rows n (Q : unit -> DiskConn -> Prop) :
  k_inodes d = Some (SplitInodes columns rows) ->
  (forall columns' rows' n', let d' := with_k_inodes d (Some (SplitInodes columns' rows')) in
     same_content d d' -> nsec_columns ⊆ columns' -> Q tt (mkDiskConn d' 0 n')) ->
  wp ensure_nsec_columns Q (failed d0) (mkDiskConn d 0 n).
Proof.
  intros Hi HQ. eapply wp_mono; [|intros [] c' HI; exact HI|done].
  eapply wp_mono; [apply (wp_for_each _ _ (fun done c => exists columns' rows' n',
    c = mkDiskConn (with_k_inodes d (Some (SplitInodes columns' rows'))) 0 n' /\
    same_content d (dc_disk c) /\ done ⊆ columns'))| |done].
  - exists columns, rows, n. split_and!; [|by simpl|set_solver]. destruct d; simpl in *. by rewrite Hi.
  - intros done column rest c Hl (cs & rs & n' & -> & Hsc & Hdone).
    assert (column ∈ nsec_columns) as Hin.
    { change nsec_columns with (["atime_nsec"; "mtime_nsec"; "ctime_nsec"]%string). rewrite Hl. set_solver. }
    apply wp_bind, wp_table_has_column; [|by auto]. intros n1. simpl.
    pose proof (has_column_split (with_k_inodes d (Some (SplitInodes cs rs))) cs rs column eq_refl Hin) as Hcol.
    case_bool_decide as Hb.
    + apply wp_ret. exists cs, rs, n1. rewrite Hcol in Hb. split_and!; [done|done|set_solver].
    + apply wp_sql_change; [|by auto]. intros n2. rewrite Hcol in Hb.
      pose proof (add_column_content (with_k_inodes d (Some (SplitInodes cs rs))) cs rs column eq_refl Hb) as Hadd.
      eexists _, _, n2. split_and!; [reflexivity| |set_solver]. simpl. by transitivity (with_k_inodes d (Some (SplitInodes cs rs))).
  - intros [] c (cs & rs & n' & -> & Hsc & Hdone). by apply HQ.
Qed.

(** The entries get ids, and the indexes of the old table go. *)
Lemma wp_rebuild_dirents d0 d rows n (Q : unit -> DiskConn -> Prop) :
  k_dirents d = Some (KeyedDirents rows) -> k_dirents d0 = k_dirents d ->
  (forall rows' n', let d' := with_k_indexes (with_k_dirents d (Some (IdDirents rows'))) [] in
     same_content d d' -> duplicate_names d' = false -> Q tt (mkDiskConn d' 0 n')) ->
  wp rebuild_dirents Q (failed d0) (mkDiskConn d 0 n).
Proof.
  intros Hd Hd0 HQ. apply wp_bind, wp_sql_change; [|by auto]. intros n1. apply wp_bind, wp_sql; [| |by auto].
  - intros d' [] n2. simpl. rewrite Hd.
    destruct (give_ids (merge_sort dirent_le (map_to_list rows))) as [rows'|] eqn:Hg; [|done]. intros [= <-].
    apply wp_bind, wp_sql_change; [|by auto]. intros n3. apply wp_sql_change; [|by auto]. intros n4.
    destruct (give_ids_spec _ _ Hg) as (He & _ & Hun). rewrite merge_sort_Permutation in Hun.
    specialize (Hun (NoDup_fst_map_to_list rows)). apply HQ; [|by eapply unique_no_duplicates].
    constructor; [|done| |done|done].
    { unfold upgraded. rewrite Hd. simpl. by rewrite Hg. }
    intros p m child. unfold disk_entry. rewrite Hd. simpl.
    by rewrite He, merge_sort_Permutation, elem_of_map_to_list.
  - intros se n2. simpl. rewrite Hd. case_match; [done|]. intros [= <-].
    split; [right|done]. eapply refused_full; [|done]. by rewrite Hd0.
Qed.

(** With foreign keys off, only the columns of the times change. *)
Lemma wp_merge_timestamp_columns d0 d columns rows n (Q : unit -> DiskConn -> Prop) :
  k_inodes d = Some (SplitInodes columns rows) -> nsec_columns ⊆ columns ->
  (forall n', let d' := with_k_inodes d (Some (NsInodes (merge_row <$> rows))) in
     same_content d d' -> Q tt (mkDiskConn d' 0 n')) ->
  wp merge_timestamp_columns Q (failed d0) (mkDiskConn d 0 n).
Proof.
  intros Hi Hsub HQ.
  assert (forallb (fun x => existsb (fun y => bool_decide (y = x)) columns) nsec_columns = true) as Hall.
  { apply forallb_forall. intros x Hx%list_elem_of_In. apply existsb_exists. exists x.
    split; [|by apply bool_decide_eq_true]. apply list_elem_of_In. set_solver. }
  simpl in Hall. apply wp_bind, wp_sql_change; [|by auto]. intros n1. apply wp_bind, wp_gets. simpl.
  apply wp_bind, wp_sql; [| |by auto].
  - intros d' [] n2. simpl. rewrite Hi, Hall. intros [= <-].
    apply wp_bind, wp_sql_change; [|by auto]. intros n3. apply wp_sql_change; [|by auto]. intros n4.
    assert (forall r, merge_row r = shown_row columns r) as Hrow.
    { intros r. unfold shown_row, merge_row, cell.
      by rewrite !bool_decide_eq_true_2 by (apply Hsub; unfold nsec_columns; set_solver). }
    apply HQ. constructor; [| |done..].
    + unfold upgraded. rewrite Hi. simpl. by rewrite (map_fmap_ext merge_row (shown_row columns)) by auto.
    + intros ino. unfold disk_row. rewrite Hi. simpl. rewrite lookup_fmap.
      destruct (rows !! ino) as [r|]; [|done]. simpl. by rewrite Hrow.
  - intros se n2. simpl. by rewrite Hi, Hall.
Qed.

(** The chunks of inodes get keys, the others go. *)
Lemma wp_rekey_file_chunks d0 d rows n (Q : unit -> DiskConn -> Prop) :
  k_chunks d = Some (PairChunks rows) -> k_chunks d0 = k_chunks d ->
  (forall ino x data, rows !! (ino, x) = Some data -> 0 <= ino /\ 0 <= x) ->
  (forall rows' n', let d' := with_k_chunks d (Some (KeyChunks rows')) in
     same_content d d' -> Q tt (mkDiskConn d' 0 n')) ->
  wp rekey_file_chunks Q (failed d0) (mkDiskConn d 0 n).
Proof.
  intros Hc Hc0 Hpos HQ. apply wp_bind, wp_sql; [| |by auto].
  2:{ intros se n1. simpl. by rewrite Hc. }
  intros d1 large n1. simpl. rewrite Hc. intros [= <- <-]. fold (chunks_past_limit rows).
  destruct (0 <? chunks_past_limit rows) eqn:Hlt.
  { apply wp_throw. split; [right|done]. apply refused_large; [congruence|lia]. }
  apply wp_bind, wp_sql_change; [|by auto]. intros n2. apply wp_bind, wp_sql_change; [|by auto]. intros n3.
  set (kept := filter (fun e : (Z * Z) * list byte => inode_exists d e.1.1 = true) rows).
  assert (forall ino x data, kept !! (ino, x) = Some data <->
    rows !! (ino, x) = Some data /\ inode_exists d ino = true) as Hkept.
  { intros. unfold kept. by rewrite map_lookup_filter_Some. }
  destruct (rekey_spec (map_to_list kept)) as (rows' & Hr & Hrows).
  { apply NoDup_fst_map_to_list. }
  { apply Forall_forall. intros [[ino x] data] [Hl _]%elem_of_map_to_list%Hkept. simpl.
    destruct (Hpos _ _ _ Hl). destruct (within_limit rows ino x data); [lia|done|].
    unfold valid_ino, valid_chunk. lia. }
  apply wp_bind, wp_sql; [| |by auto]; simpl; rewrite Hc; fold kept; rewrite Hr; [|done].
  intros d1 [] n4 [= <-]. apply wp_bind, wp_sql_change; [|by auto]. intros n5.
  apply wp_sql_change; [|by auto]. intros n6. apply HQ. constructor; [|done|done| |done].
  { unfold upgraded. rewrite Hc. simpl. destruct (k_inodes d) as [i|] eqn:Hino; [|done]. simpl.
    replace (filter (fun e : (Z * Z) * list byte => is_Some (upgraded_inodes i !! e.1.1)) rows) with kept; [by rewrite Hr|].
    apply map_filter_ext. intros [ino x] data _. simpl. unfold inode_exists. rewrite Hino.
    destruct i; simpl; rewrite ?bool_decide_eq_true, ?lookup_fmap, ?fmap_is_Some; done. }
  intros ino x Hi Hx Hrow. unfold disk_chunk. rewrite Hc. simpl. apply option_eq. intros data.
  rewrite Hrows. split.
  - intros (ino' & x' & Hk & Hin). apply elem_of_map_to_list, Hkept in Hin as [Hin _].
    destruct (Hpos _ _ _ Hin). destruct (within_limit rows ino' x' data); [lia|done|].
    destruct (chunk_key_inj ino x ino' x') as [-> ->]; unfold valid_ino, valid_chunk in *; try done; lia.
  - intros Hl. exists ino, x. split; [done|]. apply elem_of_map_to_list, Hkept. split; [done|].
    unfold inode_exists. unfold disk_row in Hrow.
    destruct (k_inodes d) as [[]|]; [rewrite fmap_is_Some in Hrow|..]; try by apply bool_decide_eq_true.
    by destruct Hrow.
Qed.

(** *** From step to step *)

(** What holds between the steps of a migration from [d0]. *)
Record stage (split : bool) d0 d : Prop := {
  st_content : same_content d0 d;
  st_chunks : k_chunks d = k_chunks d0;
  st_inodes : if split
    then exists columns rows, k_inodes d = Some (SplitInodes columns rows) /\ nsec_columns ⊆ columns
    else exists rows, k_inodes d = Some (NsInodes rows);
  st_unique : "dirents_name"%string ∈ k_indexes d -> duplicate_names d = false }.

(** Entries with ids, and no two of a name in a directory. *)
Definition indexed d : Prop :=
  (exists rows, k_dirents d = Some (IdDirents rows)) /\ "dirents_name"%string ∈ k_indexes d /\
  duplicate_names d = false.

(** [split_timestamps] *)
Definition split_times d : bool := negb (bool_decide ("mtime_ns"%string ∈ table_columns Inodes d)).

Lemma split_times_spec d : layout_ok d ->
  if split_times d then exists columns rows, k_inodes d = Some (SplitInodes columns rows)
  else exists rows, k_inodes d = Some (NsInodes rows).
Proof.
  intros Hlo. destruct (lo_inodes _ Hlo) as [[columns rows|rows] Hi]; unfold split_times, table_columns; rewrite Hi.
  - rewrite bool_decide_eq_false_2; [by exists columns, rows|].
    rewrite elem_of_app. intros [Hin|Hin%(lo_split _ Hlo _ _ Hi)]; revert Hin;
      unfold nsec_columns; rewrite !elem_of_cons, elem_of_nil; naive_solver.
  - rewrite bool_decide_eq_true_2; [by exists rows|]. set_solver.
Qed.

Lemma stage_start d0 d :
  layout_ok d0 -> same_content d0 d -> k_chunks d = k_chunks d0 -> k_dirents d = k_dirents d0 ->
  k_indexes d = k_indexes d0 ->
  (if split_times d0
   then exists columns rows, k_inodes d = Some (SplitInodes columns rows) /\ nsec_columns ⊆ columns
   else exists rows, k_inodes d = Some (NsInodes rows)) ->
  stage (split_times d0) d0 d.
Proof.
  intros Hlo Hsc Hc Hd Hix Hi. constructor; try done. rewrite Hix. intros Hin.
  rewrite <- (lo_unique _ Hlo Hin). unfold duplicate_names. by rewrite Hd.
Qed.

Lemma wp_columns_step d0 n (Q : unit -> DiskConn -> Prop) :
  layout_ok d0 ->
  (forall d n', stage (split_times d0) d0 d -> k_dirents d = k_dirents d0 -> k_indexes d = k_indexes d0 ->
     Q tt (mkDiskConn d 0 n')) ->
  wp (if (k_version d0 <? 1) && split_times d0 then ensure_nsec_columns else mret tt) Q (failed d0)
    (mkDiskConn d0 0 n).
Proof.
  intros Hlo HQ. pose proof (split_times_spec _ Hlo) as Hsp.
  destruct (k_version d0 <? 1) eqn:Hv; destruct (split_times d0) eqn:Hs; simpl.
  - destruct Hsp as (columns & rows & Hi). eapply wp_ensure_nsec_columns; [done|].
    intros cs rs n' d' Hsc Hsub. apply HQ; [|done..]. rewrite <- Hs. apply stage_start; try done.
    rewrite Hs. by exists cs, rs.
  - apply wp_ret, HQ; [|done..]. rewrite <- Hs. apply stage_start; try done. by rewrite Hs.
  - apply wp_ret, HQ; [|done..]. rewrite <- Hs. apply stage_start; try done. rewrite Hs.
    destruct Hsp as (columns & rows & Hi). exists columns, rows. split; [done|].
    destruct (decide (nsec_columns ⊆ columns)) as [|Hno]; [done|]. exfalso.
    apply (lo_columns _ Hlo); [lia|]. by exists columns, rows.
  - apply wp_ret, HQ; [|done..]. rewrite <- Hs. apply stage_start; try done. by rewrite Hs.
Qed.

Lemma stage_index split d0 d name :
  name <> "dirents_name"%string -> stage split d0 d ->
  stage split d0 (create_index name d) /\ k_dirents (create_index name d) = k_dirents d.
Proof.
  intros Hn Hst. unfold create_index. case_match; [by split|]. split; [|done].
  destruct Hst as [Hsc Hc Hi Hu]. constructor; simpl; try done; [by transitivity d|]. rewrite elem_of_app, list_elem_of_singleton. naive_solver.
Qed.

Lemma indexed_index d name : indexed d -> indexed (create_index name d).
Proof.
  unfold create_index. intros (Hd & Hin & Hdup). case_match; [done|]. split_and!; simpl; [done|set_solver|done].
Qed.

(** The third step: ids, then the indexes on them. *)
Lemma wp_ids_step split d0 d n (Q : unit -> DiskConn -> Prop) :
  stage split d0 d -> k_dirents d = k_dirents d0 -> is_Some (k_dirents d0) ->
  (forall d' n', stage split d0 d' -> indexed d' -> Q tt (mkDiskConn d' 0 n')) ->
  wp (has_id ← table_has_column Dirents "id";
      (if has_id : bool then mret tt else rebuild_dirents) ;;
      sql (create_unique_index "dirents_name") ;;
      sql_change (create_index "dirents_child") ;;
      sql_change (create_index "dirents_scan")) Q (failed d0) (mkDiskConn d 0 n).
Proof.
  intros Hst Hd Hsome HQ.
  assert (forall d1 n1 rows, stage split d0 d1 -> k_dirents d1 = Some (IdDirents rows) ->
    (k_dirents d1 = k_dirents d0 \/ duplicate_names d1 = false) ->
    wp (sql (create_unique_index "dirents_name") ;; sql_change (create_index "dirents_child") ;;
        sql_change (create_index "dirents_scan")) Q (failed d0) (mkDiskConn d1 0 n1)) as Hrest.
  { intros d1 n1 rows Hst1 Hd1 Hdup. apply wp_bind, wp_sql; [| |by auto]; unfold create_unique_index; simpl.
    2:{ intros se n2. case_match; [done|]. destruct (duplicate_names d1) eqn:Hdd; [|done]. intros [= <-].
        split; [right|done]. apply refused_duplicate. destruct Hdup as [He|]; [|done].
        rewrite <- Hdd. unfold duplicate_names. by rewrite He. }
    intros d2 [] n2 Hix.
    assert (stage split d0 d2 /\ indexed d2) as [Hst2 Hix2].
    { destruct (existsb _ _) eqn:Hex in Hix.
      - simplify_eq. apply existsb_exists in Hex as (x & Hx & ->%bool_decide_eq_true).
        apply list_elem_of_In in Hx. split; [done|]. split_and!; [by exists rows|done|]. by apply (st_unique _ _ _ Hst1).
      - destruct (duplicate_names d1) eqn:Hdd; [done|]. simplify_eq. destruct Hst1 as [Hsc Hc Hi Hu].
        split; [constructor; simpl; try done; by transitivity d1|]. split_and!; simpl; [by exists rows|set_solver|done]. }
    apply wp_bind, wp_sql_change; [|by auto]. intros n3. apply wp_sql_change; [|by auto]. intros n4. simpl.
    apply HQ; [|by do 2 apply indexed_index]. by do 2 (apply stage_index; [done|]). }
  apply wp_bind, wp_table_has_column; [|by auto]. intros n1. apply wp_bind. simpl.
  destruct Hsome as [[rows|rows] Hd0]; rewrite Hd0 in Hd; unfold table_columns; rewrite Hd.
  - replace (bool_decide _) with false by done. eapply wp_rebuild_dirents; [done|congruence|].
    intros rows' n2 d' Hsc Hdup. eapply Hrest; [|done|by right]. destruct Hst as [Hsc0 Hc Hi Hu].
    constructor; simpl; try done. by transitivity d.
  - replace (bool_decide _) with true by done. apply wp_ret. eapply Hrest; [done..|]. left. congruence.
Qed.

(** The fourth step: times, then the keys of the chunks. *)
Lemma wp_keys_step split d0 d n (Q : unit -> DiskConn -> Prop) :
  layout_ok d0 -> stage split d0 d -> indexed d ->
  (forall d' n', same_content d0 d' -> is_Some (tables_of d') -> indexed d' -> Q tt (mkDiskConn d' 0 n')) ->
  wp ((if split : bool then merge_timestamp_columns else mret tt) ;;
      has_index ← table_has_column FileChunks "chunk_index";
      (if has_index : bool then rekey_file_chunks else mret tt)) Q (failed d0) (mkDiskConn d 0 n).
Proof.
  intros Hlo [Hsc Hc Hi Hu] Hix HQ.
  assert (forall d1 n1 rows, same_content d0 d1 -> k_chunks d1 = k_chunks d0 ->
    k_inodes d1 = Some (NsInodes rows) -> indexed d1 ->
    wp (has_index ← table_has_column FileChunks "chunk_index";
        (if has_index : bool then rekey_file_chunks else mret tt)) Q (failed d0) (mkDiskConn d1 0 n1)) as Hrest.
  { intros d1 n1 irows Hsc1 Hc1 Hi1 ([erows Hd1] & Hname & Hdup).
    assert (is_Some (k_symlinks d1)) as [syms Hs] by (rewrite (sc_symlinks _ _ Hsc1); apply lo_symlinks, Hlo).
    apply wp_bind, wp_table_has_column; [|by auto]. intros n2. simpl.
    destruct (lo_chunks _ Hlo) as [[rows|rows] Hc0]; rewrite Hc0 in Hc1; unfold table_columns; rewrite Hc1.
    - replace (bool_decide _) with true by done. eapply wp_rekey_file_chunks; [done|congruence| |].
      { intros ino x data. by apply (lo_keys _ Hlo). }
      intros rows' n3 d' Hsc2. apply HQ; [by transitivity d1| |by split; [exists erows|]].
      unfold tables_of. simpl. by rewrite Hi1, Hd1, Hs.
    - replace (bool_decide _) with false by done. apply wp_ret, HQ; [done| |by split; [exists erows|]].
      unfold tables_of. by rewrite Hi1, Hd1, Hs, Hc1. }
  apply wp_bind. destruct split.
  - destruct Hi as (columns & rows & Hi & Hsub). eapply wp_merge_timestamp_columns; [done..|].
    intros n1 d' Hsc1. eapply Hrest; [by transitivity d|done|done|done].
  - destruct Hi as [rows Hi]. apply wp_ret. by eapply Hrest.
Qed.

(** The version steps in a row. *)
Lemma wp_migrate_steps d0 n :
  layout_ok d0 -> k_version d0 <= 3 ->
  wp (migrate_steps (k_version d0))
    (fun _ c' => current_layout (dc_disk c') /\ same_content d0 (dc_disk c') /\ dc_foreign_keys c' = 0)
    (fun e c' => failed d0 e c' /\ dc_disk c' = d0) (mkDiskConn d0 0 n).
Proof.
  intros Hlo Hv. apply wp_disk_transaction; simpl; [|by auto]. intros n1.
  apply (wp_mono _ (fun _ c1 => current_layout (dc_disk c1) /\ same_content d0 (dc_disk c1) /\
    dc_foreign_keys c1 = 0) _ (failed d0)).
  2:{ intros [] c1 (Hl & Hsc & Hfk). rewrite Hfk. split; [done|]. by auto. }
  2:{ intros e c1 [He Hfk] n2. split; [|done]. by split. }
  apply wp_bind, wp_table_has_column; [|by auto]. intros n2. simpl. fold (split_times d0).
  apply wp_bind, wp_columns_step; [done|]. intros d1 n3 Hst Hd Hix. apply wp_bind.
  apply (wp_mono _ (fun _ c1 => exists d2 n4, c1 = mkDiskConn d2 0 n4 /\ stage (split_times d0) d0 d2 /\
    k_dirents d2 = k_dirents d0 /\ (3 <= k_version d0 -> k_indexes d2 = k_indexes d0)) _ (failed d0)); [|clear d1 n3 Hst Hd Hix|done].
  { destruct (k_version d0 <? 2) eqn:Hv2; [|apply wp_ret; by exists d1, n3].
    apply wp_sql_change; [|by auto]. intros n4.
    destruct (stage_index (split_times d0) d0 d1 "dirents_child") as [Hst2 Hd2]; [done..|].
    exists (create_index "dirents_child" d1), n4. split_and!; [done|done|congruence|lia]. }
  intros _ c1 (d1 & n3 & -> & Hst & Hd & Hix). apply wp_bind.
  apply (wp_mono _ (fun _ c1 => exists d2 n4, c1 = mkDiskConn d2 0 n4 /\ stage (split_times d0) d0 d2 /\
    indexed d2) _ (failed d0)); [|clear d1 n3 Hst Hd Hix|done].
  { destruct (k_version d0 <? 3) eqn:Hv3.
    - eapply wp_ids_step; [done|done|by apply lo_dirents|]. intros d2 n4 Hst2 Hix2. by exists d2, n4.
    - apply wp_ret. exists d1, n3. split_and!; [done|done|]. destruct (lo_ids _ Hlo) as [Hids Hname]; [lia|].
      rewrite <- Hd in Hids. rewrite <- Hix in Hname by lia. split_and!; [done|done|].
      by apply (st_unique _ _ _ Hst). }
  intros _ c1 (d1 & n3 & -> & Hst & Hind). apply wp_bind. replace (k_version d0 <? 4) with true by lia.
  eapply wp_keys_step; [done..|]. intros d2 n4 Hsc Htab (_ & Hname & Hdup).
  apply wp_sql_change; [|by auto]. intros n5. split_and!; [|by transitivity d2|done]. by split_and!.
Qed.

(** Migration ends in the current layout with the content it found and the setting of
    foreign keys restored; a failure is the engine's or one of the refusals, and leaves the
    file as it was, or migrated when only the setting could not be restored. *)
Lemma wp_migrate c :
  layout_ok (dc_disk c) ->
  wp migrate
    (fun _ c' => current_layout (dc_disk c') /\ same_content (dc_disk c) (dc_disk c') /\
       dc_foreign_keys c' = dc_foreign_keys c /\
       (k_version (dc_disk c) = SCHEMA_VERSION -> dc_disk c' = dc_disk c))
    (fun e c' =>
       (engine_error e /\ (dc_disk c' = dc_disk c \/
          current_layout (dc_disk c') /\ same_content (dc_disk c) (dc_disk c'))) \/
       (migrate_refused (dc_disk c) e /\ dc_disk c' = dc_disk c))
    c.
Proof.
  intros Hlo. destruct c as [d0 fk n]. simpl in *. apply wp_bind, wp_sql_query; [|by auto].
  intros n1. simpl. unfold SCHEMA_VERSION. destruct (4 <? k_version d0) eqn:Hnew.
  { apply wp_throw. right. split; [|done]. apply refused_newer. unfold SCHEMA_VERSION. lia. }
  destruct (k_version d0 =? 4) eqn:Hcur.
  { apply wp_ret. split_and!; [|done..]. destruct (lo_ids _ Hlo) as [_ Hname]; [lia|].
    split_and!; [unfold SCHEMA_VERSION; simpl; lia|apply (lo_current _ Hlo); lia|done|by apply (lo_unique _ Hlo)]. }
  apply wp_bind, wp_foreign_keys; [|by auto]. intros n2.
  apply wp_bind, wp_set_foreign_keys; [|by auto]. intros n3.
  apply wp_match_result. eapply wp_mono; [apply wp_migrate_steps; [done|simpl; lia]|..]; simpl.
  - intros [] [d1 fk1 n4] (Hl & Hsc & _). apply wp_set_foreign_keys; simpl; [|by auto].
    intros n5. split_and!; [done..|lia].
  - intros e [d1 fk1 n4] [[He _] Hd1]. simpl in Hd1. subst d1. apply wp_bind, wp_set_foreign_keys; simpl; [|by auto].
    intros n5. apply wp_throw. destruct He; [left|right]; auto.
Qed.

(** C32. Migrating a file of any earlier layout ends in the current one, with the inodes and
    their times, the entries, chunks and symlinks it had (as the reference upgrade of each
    table has them) and the setting of foreign keys restored; a file in the current version is not touched. A
    failure is the engine's or one of the refusals, and leaves the file as it was, or
    migrated when only the setting could not be restored. *)
Theorem migrate_correct c :
  layout_ok (dc_disk c) ->
  wp migrate
    (fun _ c' => current_layout (dc_disk c') /\ same_content (dc_disk c) (dc_disk c') /\
       dc_foreign_keys c' = dc_foreign_keys c /\
       (k_version (dc_disk c) = SCHEMA_VERSION -> dc_disk c' = dc_disk c))
    (fun e c' =>
       (engine_error e /\ (dc_disk c' = dc_disk c \/
          current_layout (dc_disk c') /\ same_content (dc_disk c) (dc_disk c'))) \/
       (migrate_refused (dc_disk c) e /\ dc_disk c' = dc_disk c))
    c.
Proof. exact (wp_migrate c). Qed.
End steps.
