(* ===== verification/StartUp.v ===== *)
(** * StartUp: what a database is when it has been opened (src/db.rs)

    After the migration, opening gives the database a root, counts the subdirectories of
    each directory, and deletes the inodes that a crash left without a name. *)

From stdpp Require Import strings.
From S2P Require Import Prelude Effects Model Chunk Sql DbData DbNames Tree NamesSpec DbVolume.
From S2P Require Import Schema SchemaSpec.

Implicit Types (t : Tables) (i : Z).

(** ** Counting subdirectories *)

Lemma row_kind_directory r : row_kind r = Some Directory <-> r_kind r = as_i64 Directory.
Proof.
  unfold row_kind, from_i64. simpl. split; [|by intros ->].
  intros Hk. repeat case_match; simplify_eq; lia.
Qed.

Lemma kind_directory t i : kind_of t i = Some Directory <-> r_kind <$> t_inodes t !! i = Some (as_i64 Directory).
Proof.
  unfold kind_of. destruct (t_inodes t !! i) as [r|]; [|done]. simpl. rewrite row_kind_directory.
  split; [by intros ->|by intros [= ->]].
Qed.

Lemma count_subdirs_eq t i : count_subdirs t i = subdirs t i.
Proof.
  unfold count_subdirs, subdirs, entry_count. do 2 f_equal. apply map_filter_ext. intros k d _.
  simpl. by rewrite kind_directory.
Qed.

Lemma recompute_row t i :
  t_inodes (recompute_directory_nlink t) !! i = counted_row t i <$> t_inodes t !! i.
Proof. simpl. rewrite map_lookup_imap. by destruct (t_inodes t !! i). Qed.

Lemma counted_shape t t' i r r' :
  t ≡ t' -> row_shape r = row_shape r' -> row_shape (counted_row t i r) = row_shape (counted_row t' i r').
Proof.
  intros Ht Hr. unfold counted_row. rewrite !count_subdirs_eq, (subdirs_proper t t' Ht i i eq_refl).
  injection Hr as Hk Hs Hl. unfold row_shape. rewrite Hk. case_match; simpl; congruence.
Qed.

#[global] Instance recompute_proper : Proper ((≡) ==> (≡)) recompute_directory_nlink.
Proof.
  intros t t' Ht. pose proof Ht as (Hd & Hc & Hs & Hi). split_and!; [done..|]. intros i.
  rewrite !recompute_row. specialize (Hi i).
  destruct (t_inodes t !! i), (t_inodes t' !! i); try done. simpl in *. f_equal.
  apply counted_shape; [done|]. congruence.
Qed.

(** Counting changes nothing of a consistent database. *)
Lemma recompute_id t : names_wf t -> recompute_directory_nlink t = t.
Proof.
  intros Hn. assert (t_inodes (recompute_directory_nlink t) = t_inodes t) as Hi.
  { apply map_eq. intros i. rewrite recompute_row. destruct (t_inodes t !! i) as [r|] eqn:Hr; [|done].
    simpl. f_equal. unfold counted_row. case_match eqn:Hk; [|done]. apply Z.eqb_eq in Hk.
    rewrite count_subdirs_eq. pose proof (nw_nlink _ Hn i r Hr) as Hl.
    rewrite decide_True in Hl by (apply kind_directory; by rewrite Hr; simpl; rewrite Hk).
    rewrite <- Hl. by destruct r. }
  destruct t. unfold recompute_directory_nlink, with_inodes in *. simpl in *. congruence.
Qed.

(** ** The root *)

Lemma own_root_equiv uid gid now t : own_root uid gid now t ≡ t.
Proof.
  split_and!; try done. intros i. simpl. destruct (decide (i = 1)) as [->|]; [|by rewrite lookup_alter_ne].
  rewrite lookup_alter_eq. destruct (t_inodes t !! 1) as [r|]; [|done]. simpl. f_equal.
  unfold own_row. by case_match.
Qed.

Lemma insert_root_equiv uid gid now t : insert_root uid gid now t ≡ insert_root 0 0 0 t.
Proof.
  unfold insert_root. destruct (t_inodes t !! 1) eqn:Hr; [done|]. split_and!; try done. intros i. simpl.
  destruct (decide (i = 1)) as [->|]; [by rewrite !lookup_insert_eq|by rewrite !lookup_insert_ne].
Qed.

(** The tables with a root and the subdirectories counted. *)
Definition counted t : Tables := recompute_directory_nlink (insert_root 0 0 0 t).

(** What opening asks of the tables: that they are consistent but for the root and the
    counts of directories. *)
Definition repairable t : Prop := fs_wf (counted t).

Lemma repairable_steps uid gid now t :
  recompute_directory_nlink (own_root uid gid now (insert_root uid gid now t)) ≡ counted t.
Proof. by rewrite own_root_equiv, insert_root_equiv. Qed.

Lemma wf_repairable t : fs_wf t -> repairable t.
Proof.
  intros [Hd Hn]. unfold repairable, counted, insert_root. pose proof (nw_root _ Hn) as Hr.
  unfold kind_of in Hr. destruct (t_inodes t !! 1); [|done]. by rewrite recompute_id.
Qed.

Lemma root_repairable uid gid now t : repairable t -> repairable (insert_root uid gid now t).
Proof.
  unfold repairable, counted. intros Hwf. replace (insert_root 0 0 0 _) with (insert_root uid gid now t).
  - by rewrite insert_root_equiv.
  - unfold insert_root. destruct (t_inodes t !! 1) eqn:Hr; [by rewrite Hr|]. simpl. by rewrite lookup_insert_eq.
Qed.

Lemma own_repairable uid gid now t : repairable t -> repairable (own_root uid gid now t).
Proof.
  unfold repairable, counted. intros Hwf.
  assert (insert_root 0 0 0 (own_root uid gid now t) ≡ insert_root 0 0 0 t) as ->; [|done].
  unfold insert_root. pose proof (own_root_equiv uid gid now t) as He. simpl.
  destruct (t_inodes t !! 1) as [r|] eqn:Hr; simpl; rewrite lookup_alter_eq, Hr; simpl; [done|].
  destruct He as (Hd & Hc & Hs & Hi). split_and!; try done. intros i. simpl.
  destruct (decide (i = 1)) as [->|]; [by rewrite !lookup_insert_eq|].
  rewrite !lookup_insert_ne by done. by rewrite lookup_alter_ne.
Qed.

(** ** Sweeping *)

(** The chunks of an inode may go before its row. *)
Lemma chunks_deleted_wf lo hi t : fs_wf t -> fs_wf (delete_chunks lo hi t).
Proof.
  intros [Hd Hn]. split; [|by revert Hn; apply names_wf_heads].
  constructor; [exact (dw_rows _ Hd)|]. simpl. intros key data [Hk _]%map_lookup_filter_Some.
  exact (dw_chunks _ Hd key data Hk).
Qed.

Lemma elem_of_orphans t i :
  i ∈ orphans t <-> exists r, t_inodes t !! i = Some r /\ r_nlink r = 0 /\ i <> 1.
Proof.
  unfold orphans. rewrite list_elem_of_fmap. split.
  - intros ([j r] & -> & [[Hl Hne] Hin]%list_elem_of_filter). apply elem_of_map_to_list in Hin. by exists r.
  - intros (r & Hr & Hl & Hne). exists (i, r). split; [done|]. apply list_elem_of_filter. split; [done|].
    by apply elem_of_map_to_list.
Qed.

Lemma symlink_kept t i j : valid_ino i -> j <> i -> t_symlinks (remove_inode i t) !! j = t_symlinks t !! j.
Proof.
  intros Hi Hne. unfold remove_inode, delete_inode_row. rewrite valid_ino_i64 by done. simpl.
  destruct (t_inodes t !! i); [|done]. simpl. by rewrite lookup_delete_ne.
Qed.

(** [t] without the inodes of [gone]. *)
Record swept (t : Tables) (gone : list Z) (t' : Tables) : Prop := {
  sw_wf : fs_wf t';
  sw_entries : t_dirents t' = t_dirents t;
  sw_row : forall i, t_inodes t' !! i = if decide (i ∈ gone) then None else t_inodes t !! i;
  sw_chunk : forall i x, valid_ino i -> valid_chunk x -> i ∉ gone -> stored_chunk t' i x = stored_chunk t i x;
  sw_symlink : forall i, i ∉ gone -> t_symlinks t' !! i = t_symlinks t !! i }.

Lemma swept_start t : fs_wf t -> swept t [] t.
Proof. intros Hwf. by constructor. Qed.

(** An inode without a name goes and nothing else does. *)
Lemma swept_next t gone t' i r :
  swept t gone t' -> fs_wf t -> t_inodes t !! i = Some r -> r_nlink r = 0 -> i ∉ gone ->
  swept t (gone ++ [i]) (remove_inode i t').
Proof.
  intros [[Hd Hn] He Hi Hc Hs] [Hd0 Hn0] Hr Hl Hni.
  pose proof (dw_rows _ Hd0 _ _ Hr) as Hok. pose proof (ino_ok_valid _ _ Hok) as Hv.
  destruct Hok as (_ & [K HK] & _).
  assert (t_inodes t' !! i = Some r) as Hr' by (by rewrite Hi, decide_False).
  assert (K <> Directory) as Hne.
  { intros ->. pose proof (nw_nlink _ Hn0 _ _ Hr) as Hl0.
    rewrite decide_True in Hl0 by (by rewrite (kind_of_row _ _ _ Hr)).
    pose proof (entry_count_nonneg (fun d => d_parent d = i /\ kind_of t (d_child d) = Some Directory) (t_dirents t)).
    unfold subdirs in Hl0. lia. }
  assert (links t' i = 0) as Hl0.
  { rewrite <- Hl, (nw_nlink _ Hn _ _ Hr'), decide_False; [done|]. rewrite (kind_of_row _ _ _ Hr'). congruence. }
  assert (forall k d, t_dirents t' !! k = Some d -> d_child d <> i /\ d_parent d <> i) as Hout.
  { intros k d Hk. split; [exact (proj1 (entry_count_zero _ _) Hl0 k d Hk)|]. intros Hp.
    destruct (nw_entry _ Hn k d Hk) as (_ & Hdir & _). rewrite Hp, (kind_of_row _ _ _ Hr') in Hdir. congruence. }
  constructor.
  - split; [by apply data_wf_remove|]. eapply names_wf_remove; try done. by rewrite (kind_of_row _ _ _ Hr').
  - by rewrite remove_dirents.
  - intros j. rewrite remove_inodes by done. destruct (decide (j = i)) as [->|Hj].
    + rewrite lookup_delete_eq, decide_True; [done|]. set_solver.
    + rewrite lookup_delete_ne, Hi by done. apply decide_ext. set_solver.
  - intros j x Hjv Hx Hj. rewrite stored_chunk_remove by (done || set_solver). apply Hc; [done..|set_solver].
  - intros j Hj. rewrite symlink_kept by (done || set_solver). apply Hs. set_solver.
Qed.

Section start_up.
Context `{World}.
Implicit Types c : Conn.

(** One inode, in two statements. *)
Lemma wp_sweep_one i (Q : unit -> Conn -> Prop) (R : DbError -> Conn -> Prop) c :
  fs_wf (tables c) ->
  (forall c', tables c' = remove_inode i (tables c) -> Q tt c') ->
  (forall e c', engine_error e -> fs_wf (tables c') -> t_dirents (tables c') = t_dirents (tables c) -> R e c') ->
  wp (delete_inode_rows i) Q R c.
Proof.
  intros Hwf HQ HR. unfold delete_inode_rows, chunk_keys.
  apply wp_bind, wp_execute; [|intros e c' He Hc'; apply HR; by rewrite ?Hc'].
  intros c1 Hc1. apply wp_execute; [intros c2 Hc2; apply HQ; by rewrite Hc2, Hc1|].
  intros e c' He Hc'. rewrite Hc1 in Hc'. apply HR; rewrite ?Hc'; [done|by apply chunks_deleted_wf|done].
Qed.

(** [repair]: the root is there and has an owner, the counts are right, and each inode
    that is left has a name. *)
Record repaired (t t' : Tables) : Prop := {
  rp_wf : fs_wf t';
  rp_linked : forall i r, t_inodes t' !! i = Some r -> r_nlink r <> 0;
  rp_entries : t_dirents t' = t_dirents t;
  rp_row : forall i, i <> 1 ->
    t_inodes t' !! i = r ← t_inodes (counted t) !! i; if decide (r_nlink r = 0) then None else Some r;
  rp_root : exists now, t_inodes t' !! 1 =
    own_row mount_uid mount_gid now <$>
      t_inodes (recompute_directory_nlink (insert_root mount_uid mount_gid now t)) !! 1;
  rp_chunk : forall i x, is_Some (t_inodes t' !! i) -> valid_chunk x -> stored_chunk t' i x = stored_chunk t i x;
  rp_symlink : forall i, is_Some (t_inodes t' !! i) -> t_symlinks t' !! i = t_symlinks t !! i }.

Lemma swept_repaired t now t' :
  let t3 := recompute_directory_nlink
              (own_root mount_uid mount_gid now (insert_root mount_uid mount_gid now t)) in
  repairable t -> swept t3 (orphans t3) t' -> repaired t t'.
Proof.
  intros t3 Hrep [Hwf He Hi Hc Hs].
  assert (t3 ≡ counted t) as Ht3 by apply repairable_steps.
  assert (forall i, i <> 1 -> t_inodes t3 !! i = t_inodes (counted t) !! i) as Hrows.
  { intros i Hne. unfold t3, counted. rewrite !recompute_row. simpl. rewrite lookup_alter_ne by done.
    assert (t_inodes (insert_root mount_uid mount_gid now t) !! i = t_inodes (insert_root 0 0 0 t) !! i) as ->.
    { unfold insert_root. destruct (t_inodes t !! 1); [done|]. simpl. by rewrite !lookup_insert_ne. }
    destruct (t_inodes (insert_root 0 0 0 t) !! i) as [r|]; [|done]. simpl. f_equal. unfold counted_row.
    rewrite !count_subdirs_eq.
    by rewrite (subdirs_proper _ _ (own_root_equiv _ _ _ _) i i eq_refl),
      (subdirs_proper _ _ (insert_root_equiv mount_uid mount_gid now t) i i eq_refl). }
  assert (forall i, is_Some (t_inodes t' !! i) -> i ∉ orphans t3) as Hkept.
  { intros i [r Hr] Hin. rewrite Hi, decide_True in Hr by done. done. }
  assert (t_dirents t3 = t_dirents t /\ t_chunks t3 = t_chunks t /\ t_symlinks t3 = t_symlinks t) as (Hd3 & Hc3 & Hs3).
  { unfold t3, own_root, insert_root. by destruct (t_inodes t !! 1). }
  constructor.
  - done.
  - intros i r Hr Hl. assert (i ∉ orphans t3) as Hno by (apply Hkept; by eexists).
    rewrite Hi, decide_False in Hr by done. apply Hno, elem_of_orphans. exists r. split_and!; [done..|].
    intros ->. destruct Hwf as [_ Hn]. pose proof (nw_nlink _ Hn 1 r) as Hl1. rewrite Hi, decide_False in Hl1 by done.
    rewrite decide_True in Hl1 by apply nw_root, Hn. specialize (Hl1 Hr).
    pose proof (entry_count_nonneg (fun d => d_parent d = 1 /\ kind_of t' (d_child d) = Some Directory) (t_dirents t')).
    unfold subdirs in Hl1. lia.
  - congruence.
  - intros i Hne. rewrite Hi, <- Hrows by done. destruct (t_inodes t3 !! i) as [r|] eqn:Hr; simpl.
    + apply decide_ext. rewrite elem_of_orphans. naive_solver.
    + by case_decide.
  - exists now. rewrite Hi, decide_False by (rewrite elem_of_orphans; naive_solver).
    unfold t3. rewrite !recompute_row. simpl. rewrite lookup_alter_eq.
    destruct (t_inodes (insert_root mount_uid mount_gid now t) !! 1) as [r|]; [|done]. simpl. f_equal.
    unfold counted_row, own_row. rewrite !count_subdirs_eq, (subdirs_proper _ _ (own_root_equiv _ _ _ _) 1 1 eq_refl).
    destruct r; simpl. repeat (case_match; simpl in *); congruence.
  - intros i x Hsome Hx. destruct (Hsome) as [r Hr]. destruct Hwf as [Hd _].
    rewrite Hc; [unfold stored_chunk; by rewrite Hc3|by eapply ino_ok_valid, dw_rows|done|by apply Hkept].
  - intros i Hsome. rewrite Hs by (by apply Hkept). by rewrite Hs3.
Qed.

(** Opening repairs the tables: all that has a name is kept as it is, the counts of
    directories are right, what a crash left without a name is gone, and the result is
    consistent. When the engine fails, what is left can be repaired again. *)
Lemma wp_repair c :
  repairable (tables c) ->
  wp repair (fun _ c' => repaired (tables c) (tables c'))
    (fun e c' => engine_error e /\ repairable (tables c') /\ t_dirents (tables c') = t_dirents (tables c)) c.
Proof.
  intros Hrep. unfold repair. apply wp_bind, wp_now. intros now c1 Hc1.
  set (t1 := insert_root mount_uid mount_gid (to_ns now) (tables c)).
  set (t2 := own_root mount_uid mount_gid (to_ns now) t1).
  assert (t_dirents t1 = t_dirents (tables c)) as Hd1 by (unfold t1, insert_root; by case_match).
  assert (fs_wf (recompute_directory_nlink t2)) as Hwf3 by (unfold t2, t1; by rewrite repairable_steps).
  apply wp_bind, wp_execute; [|by intros e c' He ->; rewrite Hc1].
  intros c2 Hc2. rewrite Hc1 in Hc2. fold t1 in Hc2.
  apply wp_bind, wp_execute; [|by intros e c' He ->; rewrite Hc2; split_and!; [|apply root_repairable|]].
  intros c3 Hc3. rewrite Hc2 in Hc3. fold t2 in Hc3.
  apply wp_bind, wp_execute; [|by intros e c' He ->; rewrite Hc3; split_and!; [|apply own_repairable, root_repairable|]].
  intros c4 Hc4. rewrite Hc3 in Hc4.
  apply wp_bind, wp_query; [|by intros e c' He ->; rewrite Hc4; split_and!; [|apply wf_repairable|]].
  intros c5 Hc5. rewrite Hc4 in *. set (t3 := recompute_directory_nlink t2) in *.
  assert (NoDup (orphans t3)) as Hnd.
  { unfold orphans. apply NoDup_fmap_2_strong; [|apply NoDup_filter, NoDup_map_to_list].
    intros [k1 r1] [k2 r2] [_ H1%elem_of_map_to_list]%list_elem_of_filter
      [_ H2%elem_of_map_to_list]%list_elem_of_filter Heq. simpl in Heq. congruence. }
  eapply wp_mono; [apply (wp_for_each _ _ (fun done c' => swept t3 done (tables c')))| |].
  - rewrite Hc5. by apply swept_start.
  - intros done i rest c' Hl Hsw.
    assert (i ∈ orphans t3) as Hin by (rewrite Hl; set_solver).
    pose proof Hin as (r & Hr & Hlink & Hne)%elem_of_orphans.
    pose proof (ino_ok_valid _ _ (dw_rows _ (proj1 Hwf3) _ _ Hr)) as Hv.
    rewrite (inode_of_valid i Hv). apply wp_sweep_one; [apply Hsw| |].
    + intros c'' ->. eapply swept_next; [done..|]. rewrite Hl in Hnd. apply NoDup_app in Hnd as (_ & Hdis & _).
      intros Hi. apply (Hdis i Hi). set_solver.
    + intros e c'' He Hwf Hd. rewrite (sw_entries _ _ _ Hsw) in Hd.
      instantiate (1 := fun e c' => engine_error e /\ fs_wf (tables c') /\ t_dirents (tables c') = t_dirents t3). done.
  - intros [] c' Hsw. by eapply swept_repaired.
  - intros e c' (He & Hwf & Hd). split_and!; [done|by apply wf_repairable|]. by rewrite Hd.
Qed.
End start_up.

(** ** Opening *)

(** The tables that are missing, made in the current layout. *)
Definition created d : Disk := create_symlink_targets (create_file_chunks (create_dirents (create_inodes d))).

Lemma created_current d t : tables_of d = Some t -> created d = d.
Proof. destruct d as [[[|]|] [[|]|] [[|]|] [|] ix v]; done. Qed.

Lemma created_idem d :
  created (create_inodes d) = created d /\ created (create_dirents (create_inodes d)) = created d /\
  created (create_file_chunks (create_dirents (create_inodes d))) = created d /\ created (created d) = created d.
Proof. destruct d as [[|] [|] [|] [|] ix v]; done. Qed.

Lemma tables_of_with d t : tables_of (with_tables d t) = Some t.
Proof. by destruct t. Qed.

Lemma current_layout_ok d : current_layout d -> layout_ok d.
Proof.
  intros (Hv & Ht & Hn & Hdup). unfold SCHEMA_VERSION in Hv. destruct d as [i e c s ix v]. simpl in *. subst v.
  unfold tables_of in Ht. simpl in Ht.
  destruct i as [[|]|], e as [[|]|], c as [[|]|], s as [|]; try (by destruct Ht).
  constructor; simpl; try done; try (by eexists).
  - intros _ (columns & rows' & [=] & _).
  - intros _. split; [by eexists|done].
Qed.

(** New rows of other tables do not bear on the layout. *)
Lemma current_layout_with d t t' :
  current_layout d -> tables_of d = Some t -> t_dirents t' = t_dirents t -> current_layout (with_tables d t').
Proof.
  intros (Hv & _ & Hn & Hdup) Ht Hd. split_and!; [done|by rewrite tables_of_with|done|].
  rewrite <- Hdup. unfold duplicate_names. simpl. rewrite Hd. unfold tables_of in Ht.
  by destruct (k_inodes d) as [[|]|], (k_dirents d) as [[|]|], (k_chunks d) as [[|]|], (k_symlinks d); simplify_eq.
Qed.

Section opening.
Context `{!EngineLaws H}.
Implicit Types (c : DiskConn) (d : Disk).

(** A database file that says what tables [t] say, in whatever layout and with tables
    that may be missing. *)
Definition opens d t : Prop := layout_ok (created d) /\ upgraded (created d) = Some t /\ repairable t.

Lemma opens_current d t : current_layout d -> tables_of d = Some t -> repairable t -> opens d t.
Proof.
  intros Hl Ht Hr. unfold opens. rewrite (created_current _ _ Ht). split_and!; [by apply current_layout_ok| |done].
  by apply upgraded_current.
Qed.

Lemma wp_on_tables {A} (m : DbM A) (Q : A -> DiskConn -> Prop) (R : DbError -> DiskConn -> Prop) d fk n t :
  tables_of d = Some t ->
  wp m (fun a b => Q a (mkDiskConn (with_tables d (tables b)) fk (ticks b)))
    (fun e b => R e (mkDiskConn (with_tables d (tables b)) fk (ticks b))) (mkConn t n) ->
  wp (on_tables m) Q R (mkDiskConn d fk n).
Proof. intros Ht. unfold wp, on_tables. simpl. rewrite Ht. by destruct (m _). Qed.

(** What a failed start-up leaves: the file still opens, with the entries it had. *)
Definition reopens d0 (t : Tables) (e : DbError) c : Prop :=
  (engine_error e \/ migrate_refused (created d0) e) /\
  exists t', opens (dc_disk c) t' /\ t_dirents t' = t_dirents t.

Lemma reopens_same d0 t e d fk n :
  opens d0 t -> created d = created d0 -> engine_error e -> reopens d0 t e (mkDiskConn d fk n).
Proof. intros Ho Hc He. split; [by left|]. exists t. split; [|done]. unfold opens in *. simpl. by rewrite Hc. Qed.

Lemma wp_initialize d t fk n :
  opens d t ->
  wp initialize
    (fun _ c' => exists t', current_layout (dc_disk c') /\ tables_of (dc_disk c') = Some t' /\
       repaired t t' /\ dc_foreign_keys c' = fk)
    (reopens d t) (mkDiskConn d fk n).
Proof.
  intros Ho. destruct (created_idem d) as (C1 & C2 & C3 & C4). unfold initialize.
  apply wp_bind, wp_sql_change; [|by intros; apply reopens_same]. intros n1.
  apply wp_bind, wp_sql_change; [|by intros; apply reopens_same]. intros n2.
  apply wp_bind, wp_sql_change; [|by intros; apply reopens_same]. intros n3.
  apply wp_bind, wp_sql_change; [|by intros; apply reopens_same]. intros n4. simpl. fold (created d).
  pose proof Ho as (Hlo & Hup & Hrep).
  assert (forall d1, current_layout d1 -> same_content (created d) d1 ->
    exists t1, tables_of d1 = Some t1 /\ t1 = t) as Hcur.
  { intros d1 (_ & [t1 Ht1] & _) Hsc. exists t1. split; [done|]. pose proof (sc_upgraded _ _ Hsc) as Hu.
    rewrite (upgraded_current _ _ Ht1), Hup in Hu. congruence. }
  apply wp_bind. eapply wp_mono; [by apply (wp_migrate (mkDiskConn (created d) fk n4))|..]; simpl.
  - intros _ [d1 fk1 n5] (Hl & Hsc & Hfk & _). simpl in *. subst fk1.
    destruct (Hcur d1 Hl Hsc) as (t1 & Ht1 & ->). eapply wp_on_tables; [done|].
    eapply wp_mono; [by apply (wp_repair (mkConn t n5))|..]; simpl.
    + intros _ b Hr. exists (tables b). split_and!; [|by apply tables_of_with|done|done].
      eapply current_layout_with; [done..|]. apply Hr.
    + intros e b (He & Hr & Hd). split; [by left|]. exists (tables b). split; [|done].
      apply opens_current; [by eapply current_layout_with|by apply tables_of_with|done].
  - intros e [d1 fk1 n5]. simpl. intros [(He & [->|[Hl Hsc]])|[He ->]].
    + by apply reopens_same.
    + destruct (Hcur d1 Hl Hsc) as (t1 & Ht1 & ->). split; [by left|]. exists t. split; [|done].
      by apply opens_current.
    + split; [by right|]. exists t. split; [|done]. unfold opens. simpl. by rewrite C4.
Qed.

(** Opening, [Db_open]. *)
Lemma wp_open_disk d t fk n :
  opens d t ->
  wp Db_open
    (fun _ c' => exists t', current_layout (dc_disk c') /\ tables_of (dc_disk c') = Some t' /\
       repaired t t' /\ dc_foreign_keys c' = 1)
    (fun e c' => (engine_error e \/ migrate_refused (created d) e) /\
       exists t', opens (dc_disk c') t' /\ t_dirents t' = t_dirents t)
    (mkDiskConn d fk n).
Proof.
  intros Ho. fold (reopens d t). unfold Db_open.
  apply wp_bind, wp_sql_change; [|by intros; apply reopens_same]. intros n1.
  apply wp_bind, wp_set_foreign_keys; [|by intros; apply reopens_same]. intros n2.
  do 4 (apply wp_bind, wp_sql_change; [|by intros; apply reopens_same]; intros ?).
  by apply wp_initialize.
Qed.

(** C33. Opening a database file, in the layout of any version or new, ends with the tables
    in the current layout, holding what the file said and repaired; or it fails with an
    error of the engine or because the file cannot be migrated, and the file can be
    opened later as before. *)
Theorem open_disk_correct d t fk n :
  opens d t ->
  wp Db_open
    (fun _ c' => exists t', current_layout (dc_disk c') /\ tables_of (dc_disk c') = Some t' /\
       repaired t t' /\ dc_foreign_keys c' = 1)
    (fun e c' => (engine_error e \/ migrate_refused (created d) e) /\
       exists t', opens (dc_disk c') t' /\ t_dirents t' = t_dirents t)
    (mkDiskConn d fk n).
Proof. exact (wp_open_disk d t fk n). Qed.

(** A file in the current version is not refused. *)
Lemma current_not_refused d e : current_layout d -> ~ migrate_refused (created d) e.
Proof.
  intros (Hv & [t Ht] & _ & Hdup). rewrite (created_current _ _ Ht). unfold tables_of in Ht.
  destruct 1 as [Hn|rows Hc|Hd|rows Hd].
  - lia.
  - rewrite Hc in Ht. by destruct (k_inodes d) as [[|]|], (k_dirents d) as [[|]|].
  - congruence.
  - rewrite Hd in Ht. by destruct (k_inodes d) as [[|]|].
Qed.

(** No tables at all: a new file, or a database in memory. *)
Definition no_tables : Tables := mkTables ∅ ∅ ∅ ∅.
End opening.

Section kept.
Context `{World}.

(** ** What a repair keeps of consistent tables *)

Lemma counted_wf t : fs_wf t -> counted t = t.
Proof.
  intros [_ Hn]. unfold counted, insert_root. pose proof (nw_root _ Hn) as Hr. unfold kind_of in Hr.
  destruct (t_inodes t !! 1); [|done]. by apply recompute_id.
Qed.

Lemma named_linked t k d r :
  fs_wf t -> t_dirents t !! k = Some d -> t_inodes t !! d_child d = Some r -> r_nlink r <> 0.
Proof.
  intros [_ Hn] Hk Hr. rewrite (nw_nlink _ Hn _ _ Hr). case_decide.
  - pose proof (entry_count_nonneg (fun d' => d_parent d' = d_child d /\ kind_of t (d_child d') = Some Directory) (t_dirents t)).
    unfold subdirs. lia.
  - pose proof (entry_count_pos (fun d' => d_child d' = d_child d) (t_dirents t) k d Hk eq_refl). unfold links. lia.
Qed.

(** The row of an inode with a name. *)
Lemma repaired_row t t' i r :
  fs_wf t -> repaired t t' -> t_inodes t !! i = Some r ->
  i = 1 \/ (exists k d, t_dirents t !! k = Some d /\ d_child d = i) ->
  exists r', t_inodes t' !! i = Some r' /\ row_shape r' = row_shape r.
Proof.
  intros Hwf Hrep Hr Hi. pose proof Hwf as [_ Hn]. destruct (decide (i = 1)) as [->|Hne].
  - destruct (rp_root _ _ Hrep) as [now Hroot]. revert Hroot. unfold insert_root. rewrite Hr, recompute_id, Hr by done.
    simpl. intros ->. eexists. split; [done|]. unfold own_row. by case_match.
  - destruct Hi as [|(k & d & Hk & <-)]; [done|]. rewrite (rp_row _ _ Hrep) by done.
    rewrite counted_wf, Hr by done. simpl. rewrite decide_False by (by eapply named_linked). by exists r.
Qed.

(** An inode without a name is gone. *)
Lemma repaired_gone t t' i :
  fs_wf t -> repaired t t' -> i <> 1 -> (forall k d, t_dirents t !! k = Some d -> d_child d <> i) ->
  t_inodes t' !! i = None.
Proof.
  intros Hwf Hrep Hne Hno. pose proof Hwf as [_ Hn]. rewrite (rp_row _ _ Hrep) by done. rewrite counted_wf by done.
  destruct (t_inodes t !! i) as [r|] eqn:Hr; [|done]. simpl. rewrite decide_True; [done|].
  assert (links t i = 0) as Hl by (by apply entry_count_zero). rewrite (nw_nlink _ Hn _ _ Hr).
  rewrite decide_False; [done|]. intros Hd. destruct (nw_dirs _ Hn i Hd) as [Hl' _].
  rewrite decide_False in Hl' by done. lia.
Qed.
End kept.
