(* ===== verification/Fuse.v ===== *)
(** * Fuse: the write-back cache of the filesystem (src/fuse.rs, [Shared])

    The state behind the table lock and the operations on it: flushing a slot,
    eviction under the write budget, buffered writes, reads that overlay dirty
    chunks on stored ones, and the release of handles. Errors are errno values. *)

From S2P Require Import Prelude Effects Model Chunk Arena OpenTable Sql DbData DbNames DbVolume.

(** ** errno values of Linux *)

Definition EPERM : Z := 1.
Definition ENOENT : Z := 2.
Definition EIO : Z := 5.
Definition EBADF : Z := 9.
Definition EEXIST : Z := 17.
Definition ENODEV : Z := 19.
Definition ENOTDIR : Z := 20.
Definition EISDIR : Z := 21.
Definition EINVAL : Z := 22.
Definition EFBIG : Z := 27.
Definition ENOSPC : Z := 28.
Definition ERANGE : Z := 34.
Definition ENAMETOOLONG : Z := 36.
Definition ENOTEMPTY : Z := 39.
Definition ENODATA : Z := 61.
Definition EOPNOTSUPP : Z := 95.

Definition errno_from_db_error (error : DbError) : Z :=
  match error with
  | NotFound => ENOENT
  | AlreadyExists => EEXIST
  | DirectoryNotEmpty => ENOTEMPTY
  | InvalidInput => EINVAL
  | IsDirectory => EISDIR
  | NameTooLong => ENAMETOOLONG
  | NoSpace => ENOSPC
  | NotDirectory => ENOTDIR
  | FileTooLarge => EFBIG
  | Corrupt | UnsupportedSchema _ | Sqlite _ => EIO
  end.

(** ** Attributes *)

Inductive FileType := FtRegularFile | FtDirectory | FtSymlink.

Record FileAttr := mkFileAttr {
  fa_ino : Z; fa_size : Z; fa_blocks : Z; fa_atime : SystemTime; fa_mtime : SystemTime;
  fa_ctime : SystemTime; fa_crtime : SystemTime; fa_kind : FileType; fa_perm : Z;
  fa_nlink : Z; fa_uid : Z; fa_gid : Z; fa_rdev : Z; fa_blksize : Z; fa_flags : Z }.

Definition file_type (kind : FileKind) : FileType :=
  match kind with
  | RegularFile => FtRegularFile
  | Directory => FtDirectory
  | Symlink => FtSymlink
  end.

Definition div_ceil (n m : Z) : Z := if n mod m =? 0 then n / m else n / m + 1.

Definition file_attr_from_inode (inode : Inode) : FileAttr :=
  {| fa_ino := i_ino inode; fa_size := i_size inode; fa_blocks := div_ceil (i_size inode) 512;
     fa_atime := to_system_time (i_atime inode); fa_mtime := to_system_time (i_mtime inode);
     fa_ctime := to_system_time (i_ctime inode); fa_crtime := 0;
     fa_kind := file_type (i_kind inode); fa_perm := i_mode inode mod 2 ^ 16;
     fa_nlink := i_nlink inode; fa_uid := i_uid inode; fa_gid := i_gid inode;
     fa_rdev := 0; fa_blksize := 65536; fa_flags := 0 |}.

(** ** State *)

(** [last_flush] is [None] for [Ok(())]. *)
Record Fs := mkFs {
  fs_db : Conn;
  fs_table : OpenTable;
  fs_last_flush : option Z;
  fs_kernel_cache : bool }.

Abbreviation FsM := (M Fs Z).

Definition set_db (c : Conn) (s : Fs) : Fs :=
  mkFs c (fs_table s) (fs_last_flush s) (fs_kernel_cache s).
Definition set_table (t : OpenTable) (s : Fs) : Fs :=
  mkFs (fs_db s) t (fs_last_flush s) (fs_kernel_cache s).

Definition with_slots (i : OpenInodes) (t : OpenTable) : OpenTable :=
  mkOpenTable i (handles t) (arena t) (closing t).
Definition with_handles (h : Handles) (t : OpenTable) : OpenTable :=
  mkOpenTable (inodes t) h (arena t) (closing t).
Definition with_arena (a : ChunkArena) (t : OpenTable) : OpenTable :=
  mkOpenTable (inodes t) (handles t) a (closing t).

Inductive Unlinked := Skip | Persist.

#[global] Instance Unlinked_eq_dec : EqDecision Unlinked.
Proof. solve_decision. Defined.

(** Rounds of [alloc_chunk]: after one eviction a slot is free. *)
Definition ALLOC_ROUNDS : nat := 2.

Module Shared.
Section shared_ops.
Context `{World, HashOrder}.

(** [self.db.call(..).map_err(errno_from_db_error)?] *)
Definition db {A} (m : DbM A) : FsM A := zoom fs_db set_db errno_from_db_error m.

Definition table : FsM OpenTable := gets fs_table.
Definition update (f : OpenTable -> OpenTable) : FsM unit :=
  modify (fun s => set_table (f (fs_table s)) s).

(** [t.inodes.column[i]], and a store into a column. *)
Definition column {A} (f : OpenInodes -> list A) (slot : Slot) : FsM A :=
  t ← table; unwrap (vget (f (inodes t)) slot).
Definition store (f : OpenInodes -> option OpenInodes) : FsM unit :=
  t ← table; i ← unwrap (f (inodes t)); update (with_slots i).

Definition flush_slot (slot : Slot) (unlinked : Unlinked) : FsM unit :=
  dirty ← column oi_dirty slot;
  gone ← column oi_unlinked slot;
  if bool_decide (dirty = []) || (gone && bool_decide (unlinked = Skip)) then mret tt
  else
    t ← table;
    chunks ← unwrap (mapM (fun e => d ← arena_chunk (arena t) e.2; Some (e.1, d)) dirty);
    ino ← column oi_ino slot;
    size ← column oi_size slot;
    mtime ← column oi_mtime slot;
    db (replace_chunks ino size chunks mtime) ;;
    let '(dirty, ar) := dirty_release_into dirty (arena t) in
    store (fun i => set_dirty i slot dirty) ;;
    update (with_arena ar).

Definition free_if_idle (slot : Slot) : FsM unit :=
  refs ← column oi_refs slot;
  if refs =? 0 then
    dirty ← column oi_dirty slot;
    if bool_decide (dirty = []) then store (fun i => inodes_remove i slot) else mret tt
  else mret tt.

Definition discard_slot (slot : Slot) : FsM unit :=
  dirty ← column oi_dirty slot;
  t ← table;
  let '(dirty, ar) := dirty_release_into dirty (arena t) in
  store (fun i => set_dirty i slot dirty) ;;
  update (with_arena ar) ;;
  store (fun i => inodes_remove i slot).

(** One slot of [flush_all]; the accumulator is [first_error]. *)
Definition flush_one (first_error : option Z) (slot : Slot) : FsM (option Z) :=
  match_result (flush_slot slot Skip)
    (fun _ => free_if_idle slot ;; mret first_error)
    (fun errno => mret (match first_error with None => Some errno | e => e end)).

Definition flush_all : FsM unit :=
  t ← table;
  first_error ← fold_each (live_slots (inodes t)) flush_one None;
  match_result (db sync_durable)
    (fun _ => match first_error with Some errno => throw errno | None => mret tt end)
    (fun e => throw (default e first_error)).

Definition refuse_writes : FsM unit :=
  update (fun t => mkOpenTable (inodes t) (handles t) (arena t) true).

Definition record_flush (result : option Z) : FsM unit :=
  modify (fun s => mkFs (fs_db s) (fs_table s) result (fs_kernel_cache s)).

Definition slot_for (ino : Z) : FsM Slot :=
  t ← table;
  match inodes_find (inodes t) ino with
  | Some slot => mret slot
  | None =>
      '(kind, size) ← db (inode_head ino);
      r ← unwrap (inodes_insert (inodes t) ino kind size);
      update (with_slots r.2) ;;
      mret r.1
  end.

Definition open_slot (slot : Slot) : FsM Z :=
  refs ← column oi_refs slot;
  store (fun i => set_refs i slot (u32 (refs + 1))) ;;
  t ← table;
  r ← unwrap (handles_alloc (handles t) slot);
  update (with_handles r.2) ;;
  mret r.1.

(** One dirty chunk copied over the stored bytes. *)
Definition overlay_chunk (ar : ChunkArena) (span : ChunkSpan) (output : list byte)
    (e : Z * ArenaSlot) : FsM (list byte) :=
  chunk ← unwrap (arena_chunk ar e.2);
  unwrap (copy_out span e.1 chunk output).

Definition read_slot (slot : Slot) (offset size : Z) : FsM (list byte) :=
  kind ← column oi_kind slot;
  match regular_file_error kind with
  | Some error => throw (errno_from_db_error error)
  | None =>
      file_size ← column oi_size slot;
      if (file_size <=? offset) || (size =? 0) then mret []
      else
        ino ← column oi_ino slot;
        output ← db (read_into ino offset (zeros x00 (Z.min size (file_size - offset))));
        span ← unwrap (ChunkSpan_new offset (zlen output));
        dirty ← column oi_dirty slot;
        entries ← unwrap (dirty_range dirty (span_first span) (span_last span));
        t ← table;
        fold_each entries (overlay_chunk (arena t) span) output
  end.

Fixpoint alloc_rounds (fuel : nat) (writing : Slot) : FsM ArenaSlot :=
  match fuel with
  | O => out_of_fuel
  | S fuel =>
      t ← table;
      r ← unwrap (arena_alloc (arena t));
      update (with_arena r.2) ;;
      match r.1 with
      | Some a => mret a
      | None =>
          largest ← unwrap (largest_dirty (inodes t));
          victim ← ok_or largest EIO;
          flush_slot victim Persist ;;
          (if victim =? writing then mret tt else free_if_idle victim) ;;
          alloc_rounds fuel writing
      end
  end.

Definition alloc_chunk (writing : Slot) : FsM ArenaSlot := alloc_rounds ALLOC_ROUNDS writing.

(** The arena slot of a chunk that is not dirty yet: an empty one, filled from
    storage unless the write covers it, and entered in the dirty index. *)
Definition load_chunk (slot : Slot) (ino chunk_index : Z) (full : bool) : FsM ArenaSlot :=
  a ← alloc_chunk slot;
  (if full then mret tt
   else
     t ← table;
     buffer ← unwrap (arena_buffer (arena t) a);
     match_result (db (read_chunk_into ino chunk_index buffer))
       (fun r => ar ← unwrap (arena_store_buffer (arena t) a r.1);
                 ar ← unwrap (arena_set_len ar a r.2);
                 update (with_arena ar))
       (fun errno => update (with_arena (arena_release (arena t) a)) ;; throw errno)) ;;
  dirty ← column oi_dirty slot;
  position ← unwrap (match dirty_find dirty chunk_index with
                     | inl _ => None
                     | inr position => Some position
                     end);
  dirty ← unwrap (dirty_insert dirty position chunk_index a);
  store (fun i => set_dirty i slot dirty) ;;
  mret a.

Definition write_piece (slot : Slot) (ino : Z) (span : ChunkSpan) (data : list byte)
    (chunk_index : Z) : FsM unit :=
  let p := piece span chunk_index in
  dirty ← column oi_dirty slot;
  a ← (match dirty_find dirty chunk_index with
       | inl position => unwrap (dirty_slot_at dirty position)
       | inr _ => load_chunk slot ino chunk_index (is_full_chunk p)
       end);
  input ← unwrap (slice data (buf_start p) (buf_end p));
  t ← table;
  ar ← unwrap (arena_write (arena t) a (chunk_start p) (chunk_end p) input);
  update (with_arena ar) ;;
  size ← column oi_size slot;
  store (fun i => OpenTable.set_size i slot (Z.max size (u64 (chunk_index * CHUNK_SIZE + chunk_end p)))).

Definition write_slot (slot : Slot) (offset : Z) (data : list byte) : FsM Z :=
  kind ← column oi_kind slot;
  match regular_file_error kind with
  | Some error => throw (errno_from_db_error error)
  | None =>
      t ← table;
      if closing t then throw EIO
      else
        match ChunkSpan_new offset (zlen data) with
        | None => mret 0
        | Some span =>
            if MAX_FILE_SIZE <? span_end span then throw EFBIG
            else
              now ← db now_ts;
              store (fun i => set_mtime i slot now) ;;
              ino ← column oi_ino slot;
              for_each (zrange (span_first span) (span_last span))
                (write_piece slot ino span data) ;;
              mret (u32 (zlen data))
        end
  end.

Definition release_fh (fh : Z) : FsM unit :=
  t ← table;
  r ← unwrap (handles_release (handles t) fh);
  update (with_handles r.2) ;;
  slot ← ok_or r.1 EBADF;
  refs ← column oi_refs slot;
  store (fun i => set_refs i slot (u32 (refs - 1))) ;;
  refs ← column oi_refs slot;
  unlinked ← column oi_unlinked slot;
  if (refs =? 0) && unlinked then
    ino ← column oi_ino slot;
    discard_slot slot ;;
    db (delete_inode ino)
  else
    flush_slot slot Skip ;;
    free_if_idle slot.

Definition entry_removed (target : Inode) : FsM unit :=
  if bool_decide (i_kind target = Directory) || (1 <? i_nlink target) then mret tt
  else
    t ← table;
    match inodes_find (inodes t) (i_ino target) with
    | None => mret tt
    | Some slot =>
        opened ← unwrap (inodes_is_open (inodes t) slot);
        if (opened : bool) then store (fun i => set_unlinked i slot true)
        else discard_slot slot
    end.

(** A closure over the table; a slot of the index is in range. *)
Definition is_open (t : OpenTable) (ino : Z) : bool :=
  match inodes_find (inodes t) ino with
  | Some slot => default false (inodes_is_open (inodes t) slot)
  | None => false
  end.

Definition overlay_attr (attr : FileAttr) : FsM FileAttr :=
  t ← table;
  match inodes_find (inodes t) (fa_ino attr) with
  | None => mret attr
  | Some slot =>
      size ← column oi_size slot;
      dirty ← column oi_dirty slot;
      mtime ← column oi_mtime slot;
      let modified := to_system_time mtime in
      let fresh := bool_decide (dirty = []) in
      mret {| fa_ino := fa_ino attr; fa_size := size; fa_blocks := div_ceil size 512;
              fa_atime := fa_atime attr;
              fa_mtime := if fresh then fa_mtime attr else modified;
              fa_ctime := if fresh then fa_ctime attr else modified;
              fa_crtime := fa_crtime attr; fa_kind := fa_kind attr; fa_perm := fa_perm attr;
              fa_nlink := fa_nlink attr; fa_uid := fa_uid attr; fa_gid := fa_gid attr;
              fa_rdev := fa_rdev attr; fa_blksize := fa_blksize attr;
              fa_flags := fa_flags attr |}
  end.

(** The outcome of [flush_all], kept. *)
Definition flush_recorded : FsM (option Z) :=
  result ← match_result flush_all (fun _ => mret None) (fun e => mret (Some e));
  record_flush result ;;
  mret result.

Definition flush_for_shutdown : FsM unit :=
  refuse_writes ;;
  result ← flush_recorded;
  match result with None => mret tt | Some e => throw e end.

Definition flush_failure : FsM (option Z) := gets fs_last_flush.
End shared_ops.
End Shared.
