(* ===== verification/FuseInv.v ===== *)
(** * FuseInv: the invariant of the write-back cache

    What ties the open-inode table, the arena and the database together, and the
    contents that the cache promises: the size and the bytes of each file, with
    dirty chunks in front of stored ones. *)

From S2P Require Import Prelude Effects Model Chunk Arena OpenTable Sql DbData DbNames Tree.
From S2P Require Import NamesSpec Fuse.

(** A live slot against the row of its inode. The kernel opens directories with a request
    of their own that keeps no state here, so no slot is a directory's. *)
Record entry_ok (T : Tables) (ar : ChunkArena) (e : Entry) (r : InodeRow) : Prop := {
  eo_row : t_inodes T !! e_ino e = Some r;
  eo_kind : row_kind r = Some (e_kind e);
  eo_size : r_size r <= e_size e;
  eo_max : e_kind e = RegularFile -> e_size e <= MAX_FILE_SIZE;
  eo_clean : e_dirty e = [] -> e_size e = r_size r;
  eo_regular : e_kind e <> RegularFile -> e_dirty e = [];
  eo_sorted : dirty_sorted (e_dirty e);
  eo_slots : NoDup (e_dirty e).*2;
  eo_chunk : forall c a, (c, a) ∈ e_dirty e ->
    valid_chunk c /\ c * CHUNK_SIZE + zlen (slot_data ar a) <= e_size e /\
    zlen (stored_chunk T (e_ino e) c) <= zlen (slot_data ar a);
  eo_gone : e_unlinked e = true -> r_nlink r = 0;
  eo_file : e_kind e <> Directory }.

(** Arena slot [a] holds a dirty chunk of slot [i]. *)
Definition used_by (io : OpenInodes) (a : ArenaSlot) (i : Slot) : Prop :=
  exists e, live io i /\ entry_at io i = Some e /\ a ∈ (e_dirty e).*2.

(** The invariant, with an arena slot [X] that is handed out but not in an index. *)
Record inv_x (X : option ArenaSlot) (T : Tables) (t : OpenTable) : Prop := {
  fi_db : fs_wf T;
  fi_slots : inodes_wf (inodes t);
  fi_handles : handles_wf (handles t);
  fi_arena : arena_wf (arena t);
  fi_entry : forall i e, live (inodes t) i -> entry_at (inodes t) i = Some e ->
    exists r, entry_ok T (arena t) e r;
  fi_refs : forall i e, live (inodes t) i -> entry_at (inodes t) i = Some e ->
    e_refs e = handle_count (handles t) i;
  fi_handle : forall fh i, handles_get (handles t) fh = Some i -> live (inodes t) i;
  fi_used : forall a, in_use (arena t) a <-> X = Some a \/ exists i, used_by (inodes t) a i;
  fi_owner : forall a i j, used_by (inodes t) a i -> used_by (inodes t) a j -> i = j;
  fi_extra : forall a i, X = Some a -> ~ used_by (inodes t) a i }.

Definition fs_inv (s : Fs) : Prop := inv_x None (tables (fs_db s)) (fs_table s).

(** ** The files as the filesystem shows them *)

Definition entry_byte (T : Tables) (ar : ChunkArena) (e : Entry) (p : Z) : byte :=
  match dirty_lookup (e_dirty e) (p / CHUNK_SIZE) with
  | Some a => zget (slot_data ar a) (p mod CHUNK_SIZE)
  | None => stored_byte T (e_ino e) p
  end.

Definition entry_of (t : OpenTable) (ino : Z) : option Entry :=
  inodes_find (inodes t) ino ≫= entry_at (inodes t).

Definition file_size (T : Tables) (t : OpenTable) (ino : Z) : option Z :=
  match entry_of t ino with
  | Some e => Some (e_size e)
  | None => r_size <$> t_inodes T !! ino
  end.

Definition file_byte (T : Tables) (t : OpenTable) (ino p : Z) : byte :=
  match entry_of t ino with
  | Some e => entry_byte T (arena t) e p
  | None => stored_byte T ino p
  end.

(** File [ino] is the same in both states. *)
Definition same_file (T : Tables) (t : OpenTable) (T' : Tables) (t' : OpenTable) (ino : Z) : Prop :=
  file_size T' t' ino = file_size T t ino /\
  forall p, 0 <= p < MAX_FILE_SIZE -> file_byte T' t' ino p = file_byte T t ino p.

Definition same_files (s s' : Fs) : Prop :=
  forall ino, valid_ino ino ->
    same_file (tables (fs_db s)) (fs_table s) (tables (fs_db s')) (fs_table s') ino.

#[global] Instance same_files_preorder : PreOrder same_files.
Proof.
  split; [by intros s ino Hi|]. intros s1 s2 s3 H1 H2 ino Hi.
  destruct (H1 ino Hi) as [A1 B1], (H2 ino Hi) as [A2 B2]. split; [congruence|].
  intros p Hp. by rewrite B2, B1.
Qed.

(** Only the tick counter moved. *)
Definition same_state (s s' : Fs) : Prop :=
  tables (fs_db s') = tables (fs_db s) /\ fs_table s' = fs_table s /\
  fs_last_flush s' = fs_last_flush s /\ fs_kernel_cache s' = fs_kernel_cache s.

#[global] Instance same_state_preorder : PreOrder same_state.
Proof. split; [by intros s|]. intros s1 s2 s3 (?&?&?&?) (?&?&?&?). split_and!; congruence. Qed.

Lemma same_state_inv s s' : same_state s s' -> fs_inv s -> fs_inv s'.
Proof. unfold fs_inv. by intros (-> & -> & _). Qed.

Lemma same_state_files s s' : same_state s s' -> same_files s s'.
Proof. intros (H1 & H2 & _) ino _. unfold same_file. by rewrite H1, H2. Qed.

Section inv_facts.
Implicit Types (T : Tables) (t : OpenTable) (io : OpenInodes) (ar : ChunkArena) (i j : Slot).

(** The entry of a live slot. *)
Lemma inv_live X T t i :
  inv_x X T t -> live (inodes t) i ->
  exists e r, entry_at (inodes t) i = Some e /\ entry_ok T (arena t) e r /\
    inodes_find (inodes t) (e_ino e) = Some i.
Proof.
  intros Hinv Hl. destruct (live_entry _ _ (fi_slots _ _ _ Hinv) Hl) as (e & He & Hf).
  destruct (fi_entry _ _ _ Hinv i e Hl He) as [r Hr]. by exists e, r.
Qed.

Lemma inv_find X T t ino i :
  inv_x X T t -> inodes_find (inodes t) ino = Some i ->
  exists e r, live (inodes t) i /\ entry_at (inodes t) i = Some e /\ e_ino e = ino /\
    entry_ok T (arena t) e r.
Proof.
  intros Hinv Hf. assert (live (inodes t) i) as Hl by (by exists ino).
  destruct (iw_index _ (fi_slots _ _ _ Hinv) _ _ Hf) as (e & He & Hino).
  destruct (fi_entry _ _ _ Hinv i e Hl He) as [r Hr]. by exists e, r.
Qed.

Lemma entry_of_live X T t i e :
  inv_x X T t -> live (inodes t) i -> entry_at (inodes t) i = Some e ->
  entry_of t (e_ino e) = Some e.
Proof.
  intros Hinv Hl He. destruct (inv_live _ _ _ _ Hinv Hl) as (e' & r & He' & _ & Hf).
  unfold entry_of. simplify_eq. rewrite Hf. simpl. done.
Qed.

Lemma entry_of_Some X T t ino e :
  inv_x X T t -> entry_of t ino = Some e ->
  exists i, live (inodes t) i /\ entry_at (inodes t) i = Some e /\ e_ino e = ino.
Proof.
  intros Hinv (i & Hf & He)%bind_Some. destruct (inv_find _ _ _ _ _ Hinv Hf) as (e' & r & Hl & He' & Hino & _).
  exists i. simplify_eq. done.
Qed.

Lemma entry_valid X T t e r : inv_x X T t -> entry_ok T (arena t) e r -> valid_ino (e_ino e).
Proof. intros Hinv Hok. eapply ino_ok_valid, dw_rows; [apply (fi_db _ _ _ Hinv)|apply Hok]. Qed.

Lemma used_by_entry X T t a i e :
  inv_x X T t -> used_by (inodes t) a i -> entry_at (inodes t) i = Some e -> a ∈ (e_dirty e).*2.
Proof. intros _ (e' & _ & He' & Ha) He. by simplify_eq. Qed.

Lemma dirty_in_use X T t i e c a :
  inv_x X T t -> live (inodes t) i -> entry_at (inodes t) i = Some e -> (c, a) ∈ e_dirty e ->
  in_use (arena t) a.
Proof.
  intros Hinv Hl He Ha. apply (fi_used _ _ _ Hinv). right. exists i, e. split_and!; try done.
  apply list_elem_of_fmap. by exists (c, a).
Qed.

(** What an entry needs of the arena and the tables. *)
Lemma entry_ok_mono T T' ar ar' e r :
  entry_ok T ar e r -> t_inodes T' !! e_ino e = Some r ->
  (forall c, valid_chunk c -> stored_chunk T' (e_ino e) c = stored_chunk T (e_ino e) c) ->
  (forall a, a ∈ (e_dirty e).*2 -> slot_data ar' a = slot_data ar a) ->
  entry_ok T' ar' e r.
Proof.
  intros [] Hr Hc Ha. constructor; try done. intros c a Hin.
  destruct (eo_chunk0 c a Hin) as (H1 & H2 & H3).
  rewrite Ha by (apply list_elem_of_fmap; by exists (c, a)). by rewrite Hc.
Qed.

Lemma entry_byte_ext T T' ar ar' e p :
  0 <= p < MAX_FILE_SIZE ->
  (forall c, valid_chunk c -> stored_chunk T' (e_ino e) c = stored_chunk T (e_ino e) c) ->
  (forall a, a ∈ (e_dirty e).*2 -> slot_data ar' a = slot_data ar a) ->
  entry_byte T' ar' e p = entry_byte T ar e p.
Proof.
  intros Hp Hc Ha. unfold entry_byte.
  destruct (dirty_lookup (e_dirty e) (p / CHUNK_SIZE)) as [a|] eqn:Hl.
  - rewrite Ha; [done|]. apply list_elem_of_fmap. exists (p / CHUNK_SIZE, a).
    split; [done|]. by apply assoc_Some_1.
  - unfold stored_byte. rewrite Hc; [done|]. by apply valid_chunk_pos.
Qed.

(** [t'] is [t] with entry [i] replaced, and another arena. *)
Definition slot_changed (t t' : OpenTable) (i : Slot) (e : Entry) : Prop :=
  updated (inodes t) (inodes t') i e /\ handles t' = handles t /\ closing t' = closing t.

Lemma used_by_changed t t' i e a j :
  slot_changed t t' i e -> live (inodes t) i ->
  used_by (inodes t') a j <->
    if decide (j = i) then a ∈ (e_dirty e).*2 else used_by (inodes t) a j.
Proof.
  intros (Hup & _) Hl. unfold used_by.
  assert (forall P : Entry -> Prop, (exists e', live (inodes t') j /\ entry_at (inodes t') j = Some e' /\ P e') <->
    exists e', live (inodes t) j /\ (if decide (i = j) then Some e else entry_at (inodes t) j) = Some e' /\ P e')
    as ->.
  { intros P. rewrite <- (up_entry _ _ _ _ Hup j). split; intros (e' & H & ?); exists e';
      (split; [by apply (live_updated _ _ _ _ _ Hup)|done]). }
  destruct (decide (i = j)) as [Heq|Hne], (decide (j = i)) as [|]; try done; subst.
  - split; [intros (e' & _ & [= <-] & ?); done|]. by exists e.
Qed.

(** One entry, its chunks and the row of its inode change: the invariant holds if
    the entry fits, nothing else moved, and the arena slots are accounted for. *)
Lemma inv_change X X' T T' t t' i e e' r' :
  inv_x X T t -> live (inodes t) i -> entry_at (inodes t) i = Some e ->
  slot_changed t t' i e' -> e_ino e' = e_ino e -> e_refs e' = e_refs e ->
  fs_wf T' -> arena_wf (arena t') -> entry_ok T' (arena t') e' r' ->
  (forall k, k <> e_ino e -> t_inodes T' !! k = t_inodes T !! k) ->
  (forall k c, k <> e_ino e -> valid_ino k -> valid_chunk c -> stored_chunk T' k c = stored_chunk T k c) ->
  (forall a j, j <> i -> used_by (inodes t) a j -> slot_data (arena t') a = slot_data (arena t) a) ->
  (forall a, in_use (arena t') a <->
     X' = Some a \/ a ∈ (e_dirty e').*2 \/ (exists j, j <> i /\ used_by (inodes t) a j)) ->
  (forall a j, a ∈ (e_dirty e').*2 -> used_by (inodes t) a j -> j = i) ->
  (forall a, X' = Some a -> ~ (a ∈ (e_dirty e').*2) /\ (forall j, j <> i -> ~ used_by (inodes t) a j)) ->
  inv_x X' T' t'.
Proof.
  intros Hinv Hl He Hch Hino Hrefs Hwf Har Hok Hrows Hchunks Hdata Huse Hown Hextra.
  pose proof (fun a j => used_by_changed t t' i e' a j Hch Hl) as Hub.
  pose proof Hch as (Hup & Hh & _). constructor; rewrite ?Hh; try done; try apply Hinv.
  - by apply (updated_wf _ _ _ _ _ (fi_slots _ _ _ Hinv) Hup He).
  - intros j ej Hlj Hej. apply (live_updated _ _ _ _ _ Hup) in Hlj.
    rewrite (up_entry _ _ _ _ Hup) in Hej. case_decide as Hd; [subst; simplify_eq; by exists r'|].
    destruct (fi_entry _ _ _ Hinv j ej Hlj Hej) as [r Hr]. exists r.
    assert (e_ino ej <> e_ino e) as Hne.
    { intros Heq. apply Hd. destruct (inv_live _ _ _ _ Hinv Hl) as (e1 & _ & He1 & _ & Hf1).
      destruct (inv_live _ _ _ _ Hinv Hlj) as (e2 & _ & He2 & _ & Hf2). simplify_eq. congruence. }
    pose proof (entry_valid _ _ _ _ _ Hinv Hr) as Hv.
    apply (entry_ok_mono T _ (arena t)); [done| | |].
    + rewrite Hrows by done. apply Hr.
    + intros c Hc. by apply Hchunks.
    + intros a Ha. apply (Hdata a j); [done|]. by exists ej.
  - intros j ej Hlj Hej. apply (live_updated _ _ _ _ _ Hup) in Hlj.
    rewrite (up_entry _ _ _ _ Hup) in Hej. case_decide as Hd; [|by apply Hinv].
    subst. simplify_eq. rewrite Hrefs. by apply (fi_refs _ _ _ Hinv).
  - intros fh j Hf. apply (live_updated _ _ _ _ _ Hup). by apply (fi_handle _ _ _ Hinv fh).
  - intros a. rewrite Huse. split.
    + intros [?|[Ha|(j & Hj & Ha)]]; [by left|right; exists i|right; exists j]; apply Hub.
      * by rewrite decide_True.
      * by rewrite decide_False.
    + intros [?|[j Ha]]; [by left|]. apply Hub in Ha. case_decide; [by right; left|].
      right. right. by exists j.
  - intros a j k Ha Hb. apply Hub in Ha, Hb.
    destruct (decide (j = i)) as [->|], (decide (k = i)) as [->|]; try done.
    + symmetry. by apply (Hown a).
    + by apply (Hown a).
    + by apply (fi_owner _ _ _ Hinv a).
  - intros a j HX Ha. destruct (Hextra a HX) as [H1 H2]. apply Hub in Ha.
    case_decide; [done|]. by apply (H2 j).
Qed.

(** The entries of other inodes than that of the changed one. *)
Lemma changed_entry_other X T t t' i e e' k :
  inv_x X T t -> entry_at (inodes t) i = Some e ->
  slot_changed t t' i e' -> k <> e_ino e -> entry_of t' k = entry_of t k.
Proof.
  intros Hinv He (Hup & _) Hk. unfold entry_of, inodes_find. rewrite (up_by_ino _ _ _ _ Hup).
  destruct (oi_by_ino (inodes t) !! k) as [j|] eqn:Hj; [|done]. simpl.
  rewrite (up_entry _ _ _ _ Hup), decide_False; [done|]. intros <-.
  destruct (inv_find _ _ _ _ _ Hinv Hj) as (e2 & _ & _ & He2 & Hino & _). congruence.
Qed.

(** Files other than that of the changed entry are the same. *)
Lemma other_file_same X T T' t t' i e e' k :
  inv_x X T t -> live (inodes t) i -> entry_at (inodes t) i = Some e ->
  slot_changed t t' i e' -> k <> e_ino e -> valid_ino k ->
  t_inodes T' !! k = t_inodes T !! k ->
  (forall c, valid_chunk c -> stored_chunk T' k c = stored_chunk T k c) ->
  (forall a j, j <> i -> used_by (inodes t) a j -> slot_data (arena t') a = slot_data (arena t) a) ->
  same_file T t T' t' k.
Proof.
  intros Hinv Hl He Hch Hk Hv Hrow Hchunk Hdata.
  pose proof (changed_entry_other _ _ _ _ _ _ _ k Hinv He Hch Hk) as Heo.
  split.
  - unfold file_size. by rewrite Heo, Hrow.
  - intros p Hp. unfold file_byte. rewrite Heo. destruct (entry_of t k) as [ek|] eqn:Hek.
    + destruct (entry_of_Some _ _ _ _ _ Hinv Hek) as (j & Hlj & Hej & <-).
      apply entry_byte_ext; [done|done|]. intros a Ha. apply (Hdata a j); [congruence|]. by exists ek.
    + unfold stored_byte. rewrite Hchunk; [done|]. by apply valid_chunk_pos.
Qed.

(** The file of the changed entry itself. *)
Lemma changed_entry_of X T t t' i e e' :
  inv_x X T t -> live (inodes t) i -> entry_at (inodes t) i = Some e ->
  slot_changed t t' i e' -> e_ino e' = e_ino e -> entry_of t' (e_ino e) = Some e'.
Proof.
  intros Hinv Hl He (Hup & _) Hino. unfold entry_of, inodes_find. rewrite (up_by_ino _ _ _ _ Hup).
  destruct (inv_live _ _ _ _ Hinv Hl) as (e1 & _ & He1 & _ & Hf). simplify_eq.
  unfold inodes_find in Hf. rewrite Hf. simpl. by rewrite (up_entry _ _ _ _ Hup), decide_True.
Qed.
End inv_facts.
