(* ===== verification/FuseFlush.v ===== *)
(** * FuseFlush: flushing and freeing slots

    Rules for the accesses of the operations to the table, and what a flush, a
    release and a discard of a slot do to the files and to the invariant. *)

From S2P Require Import Prelude Effects Model Chunk Arena OpenTable Sql DbData DbNames Tree.
From S2P Require Import NamesSpec DbVolume Fuse FuseInv.

(** A column of the arrays and the field of an entry that it holds. *)
Class ColumnOf {A} (f : OpenInodes -> list A) (g : Entry -> A) : Prop :=
  column_of : forall t i e, entry_at t i = Some e -> vget (f t) i = Some (g e).

(** A store into a column and the update of the entry that it makes. *)
Class StoreOf {A} (f : OpenInodes -> Slot -> A -> option OpenInodes) (w : Entry -> A -> Entry)
    : Prop :=
  store_of : forall t i v e, lens_ok t -> entry_at t i = Some e ->
    exists t', f t i v = Some t' /\ updated t t' i (w e v).

#[global] Instance column_ino : ColumnOf oi_ino e_ino.
Proof. by intros t i e (? & _)%entry_at_Some. Qed.
#[global] Instance column_kind : ColumnOf oi_kind e_kind.
Proof. by intros t i e (_ & ? & _)%entry_at_Some. Qed.
#[global] Instance column_size : ColumnOf oi_size e_size.
Proof. by intros t i e (_ & _ & ? & _)%entry_at_Some. Qed.
#[global] Instance column_mtime : ColumnOf oi_mtime e_mtime.
Proof. by intros t i e (_ & _ & _ & ? & _)%entry_at_Some. Qed.
#[global] Instance column_refs : ColumnOf oi_refs e_refs.
Proof. by intros t i e (_ & _ & _ & _ & ? & _)%entry_at_Some. Qed.
#[global] Instance column_unlinked : ColumnOf oi_unlinked e_unlinked.
Proof. by intros t i e (_ & _ & _ & _ & _ & ? & _)%entry_at_Some. Qed.
#[global] Instance column_dirty : ColumnOf oi_dirty e_dirty.
Proof. by intros t i e (_ & _ & _ & _ & _ & _ & ?)%entry_at_Some. Qed.

#[global] Instance store_size : StoreOf OpenTable.set_size with_size := set_size_spec.
#[global] Instance store_mtime : StoreOf set_mtime with_mtime := set_mtime_spec.
#[global] Instance store_refs : StoreOf set_refs with_refs := set_refs_spec.
#[global] Instance store_unlinked : StoreOf set_unlinked with_unlinked := set_unlinked_spec.
#[global] Instance store_dirty : StoreOf set_dirty with_dirty := set_dirty_spec.

(** An errno that a failure of the engine becomes. *)
Definition db_failure `{World} (e : Z) : Prop :=
  exists de, engine_error de /\ e = errno_from_db_error de.

Section access_rules.
Context `{World, HashOrder}.
Implicit Types (s : Fs) (i slot : Slot) (e : Entry).

Lemma wp_table (Q : OpenTable -> Fs -> Prop) (R : Z -> Fs -> Prop) s :
  Q (fs_table s) s -> wp Shared.table Q R s.
Proof. done. Qed.

Lemma wp_update f (Q : unit -> Fs -> Prop) (R : Z -> Fs -> Prop) s :
  Q tt (set_table (f (fs_table s)) s) -> wp (Shared.update f) Q R s.
Proof. done. Qed.

Lemma wp_column {A} f (g : Entry -> A) `{!ColumnOf f g} slot e
    (Q : A -> Fs -> Prop) (R : Z -> Fs -> Prop) s :
  entry_at (inodes (fs_table s)) slot = Some e -> Q (g e) s ->
  wp (Shared.column f slot) Q R s.
Proof.
  intros He HQ. unfold Shared.column. apply wp_bind, wp_table.
  eapply wp_unwrap; [by apply column_of|done].
Qed.

Lemma wp_store {A} f (w : Entry -> A -> Entry) `{!StoreOf f w} slot v e
    (Q : unit -> Fs -> Prop) (R : Z -> Fs -> Prop) s :
  inodes_wf (inodes (fs_table s)) -> entry_at (inodes (fs_table s)) slot = Some e ->
  (forall io, updated (inodes (fs_table s)) io slot (w e v) ->
     Q tt (set_table (with_slots io (fs_table s)) s)) ->
  wp (Shared.store (fun io => f io slot v)) Q R s.
Proof.
  intros Hwf He HQ. unfold Shared.store. apply wp_bind, wp_table.
  destruct (store_of (f := f) (w := w) (inodes (fs_table s)) slot v e) as (io & Hf & Hup);
    [apply Hwf|done|].
  apply wp_bind. eapply wp_unwrap; [done|]. by apply wp_update, HQ.
Qed.

(** A call of the database: a failure of the engine leaves the table alone. *)
Lemma wp_db {A} (m : DbM A) (Q : A -> Fs -> Prop) (R : Z -> Fs -> Prop) s :
  wp m (fun a c => Q a (set_db c s)) (fun de c => R (errno_from_db_error de) (set_db c s))
    (fs_db s) ->
  wp (Shared.db m) Q R s.
Proof. intros Hm. by apply wp_zoom. Qed.

Lemma same_state_db s c : tables c = tables (fs_db s) -> same_state s (set_db c s).
Proof. by intros Hc. Qed.

Lemma set_db_id s c : tables c = tables (fs_db s) -> fs_inv s -> fs_inv (set_db c s).
Proof. intros Hc. by apply same_state_inv, same_state_db. Qed.
End access_rules.

(** Replaces a step of a program by the rule for it. *)
Ltac fs_col He := apply wp_bind; eapply wp_column; [apply _|exact He|].

Lemma release_into_len d ar :
  a_len (dirty_release_into d ar).2 = a_len ar.
Proof.
  unfold dirty_release_into. simpl. revert ar. induction d as [|[c a] d IH]; intros ar; [done|].
  simpl. by rewrite IH.
Qed.

Section flush.
Context `{World, HashOrder}.
Implicit Types (s : Fs) (T : Tables) (t : OpenTable) (i : Slot) (e : Entry).

(** The chunks that a flush of [e] writes. *)
Definition dirty_chunks (ar : ChunkArena) e : list (Z * list byte) :=
  (fun x => (x.1, slot_data ar x.2)) <$> e_dirty e.

Lemma dirty_chunks_fst ar e : (dirty_chunks ar e).*1 = (e_dirty e).*1.
Proof. unfold dirty_chunks. by rewrite <- list_fmap_compose. Qed.

Lemma assoc_dirty_chunks ar e c :
  assoc (dirty_chunks ar e) c = slot_data ar <$> dirty_lookup (e_dirty e) c.
Proof.
  unfold dirty_chunks, dirty_lookup. induction (e_dirty e) as [|[c' a] d IH]; [done|].
  rewrite fmap_cons, !assoc_cons. simpl. by case_decide.
Qed.

Lemma replaced_entry_byte T ar e p :
  replaced_byte T (e_ino e) (dirty_chunks ar e) p = entry_byte T ar e p.
Proof.
  unfold replaced_byte, entry_byte. rewrite assoc_dirty_chunks.
  by destruct (dirty_lookup (e_dirty e) (p / CHUNK_SIZE)).
Qed.

Lemma dirty_chunks_fit X T t i e r :
  inv_x X T t -> live (inodes t) i -> entry_at (inodes t) i = Some e ->
  entry_ok T (arena t) e r -> Forall (chunk_fits (e_size e)) (dirty_chunks (arena t) e).
Proof.
  intros Hinv Hl He Hok. apply Forall_forall. intros [c d] ([c' a] & [= -> ->] & Hin)%list_elem_of_fmap.
  destruct (eo_chunk _ _ _ _ Hok c' a Hin) as (Hc & Hs & _). split; [done|]. split; [|done].
  pose proof (dirty_in_use _ _ _ _ _ _ _ Hinv Hl He Hin) as [Hu _]. simpl.
  rewrite zlen_slot_data by (done || apply Hinv). apply slot_len_range, Hinv.
Qed.

(** Reading the chunks from the arena never fails. *)
Lemma collect_chunks X T t i e :
  inv_x X T t -> live (inodes t) i -> entry_at (inodes t) i = Some e ->
  mapM (fun x : Z * ArenaSlot => d ← arena_chunk (arena t) x.2; Some (x.1, d)) (e_dirty e) =
    Some (dirty_chunks (arena t) e).
Proof.
  intros Hinv Hl He. apply mapM_fmap. intros [c a] Hin.
  pose proof (dirty_in_use _ _ _ _ _ _ _ Hinv Hl He Hin) as [Hu _]. simpl.
  by rewrite arena_chunk_data by (done || apply Hinv).
Qed.

(** What a flush that wrote slot [i] did. *)
Record flushed (X : option ArenaSlot) (s s' : Fs) i e : Prop := {
  fl_dirty : e_dirty e <> [];
  fl_inv : inv_x X (tables (fs_db s')) (fs_table s');
  fl_slot : slot_changed (fs_table s) (fs_table s') i (with_dirty e []);
  fl_file : file_set (e_ino e) (e_size e) (to_ns (e_mtime e))
    (entry_byte (tables (fs_db s)) (arena (fs_table s)) e) (tables (fs_db s)) (tables (fs_db s'));
  fl_use : forall a, in_use (arena (fs_table s')) a <->
    in_use (arena (fs_table s)) a /\ a ∉ (e_dirty e).*2;
  fl_data : forall a, slot_data (arena (fs_table s')) a = slot_data (arena (fs_table s)) a;
  fl_len : a_len (arena (fs_table s')) = a_len (arena (fs_table s));
  fl_rest : fs_last_flush s' = fs_last_flush s /\ fs_kernel_cache s' = fs_kernel_cache s }.

Definition flush_skips (u : Unlinked) e : Prop :=
  e_dirty e = [] \/ (e_unlinked e = true /\ u = Skip).

#[global] Instance flush_skips_dec u e : Decision (flush_skips u e).
Proof. unfold flush_skips. apply _. Defined.

(** A file written to the database keeps the whole invariant of the tables. *)
Lemma file_set_fs_wf ino sz ns f T T' :
  fs_wf T -> file_set ino sz ns f T T' -> fs_wf T'.
Proof.
  intros [_ Hn] [Hs Hi Hd _]. split; [done|]. revert Hn.
  apply names_wf_heads; [apply Hs..|]. intros i. rewrite Hi.
  destruct (decide (i = ino)) as [->|]; [|by rewrite lookup_alter_ne].
  rewrite lookup_alter_eq. by destruct (t_inodes T !! ino).
Qed.

(** The row of a flushed file. *)
Lemma file_set_row ino sz ns f T T' i :
  file_set ino sz ns f T T' ->
  t_inodes T' !! i = (if decide (i = ino) then row_set_size sz ns else id) <$> t_inodes T !! i.
Proof.
  intros Hf. rewrite (fs_inodes _ _ _ _ _ _ Hf). case_decide as Hi.
  - subst. by rewrite lookup_alter_eq.
  - rewrite lookup_alter_ne by done. by destruct (t_inodes T !! i).
Qed.

(** The dirty entry of a slot is a regular file that is not a leftover. *)
Lemma dirty_regular T ar e r :
  entry_ok T ar e r -> e_dirty e <> [] -> regular T (e_ino e) r /\ e_kind e = RegularFile.
Proof.
  intros Hok Hd. destruct (decide (e_kind e = RegularFile)) as [Hk|Hk].
  - split; [split|]; [apply Hok| |done]. rewrite <- Hk. apply Hok.
  - by apply (eo_regular _ _ _ _ Hok) in Hk.
Qed.

Lemma entry_ok_flushed T T' ar ar' e r ns f :
  entry_ok T ar e r -> file_set (e_ino e) (e_size e) ns f T T' ->
  entry_ok T' ar' (with_dirty e []) (row_set_size (e_size e) ns r).
Proof.
  intros [Hrow] Hf. constructor; simpl; try done.
  - rewrite (file_set_row _ _ _ _ _ _ _ Hf), decide_True by done. by rewrite Hrow.
  - constructor.
  - constructor.
  - intros c a Hin%elem_of_nil. done.
Qed.

(** The state after the three stores of a flush. *)
Lemma flush_state X s i e r c io :
  let T := tables (fs_db s) in let t := fs_table s in
  inv_x X T t -> live (inodes t) i -> entry_at (inodes t) i = Some e ->
  entry_ok T (arena t) e r -> e_dirty e <> [] ->
  file_set (e_ino e) (e_size e) (to_ns (e_mtime e)) (entry_byte T (arena t) e) T (tables c) ->
  updated (inodes t) io i (with_dirty e []) ->
  let t' := with_arena (dirty_release_into (e_dirty e) (arena t)).2 (with_slots io t) in
  flushed X s (set_table t' (set_db c s)) i e.
Proof.
  intros T t Hinv Hl He Hok Hne Hf Hup t'.
  assert (forall a, a ∈ (e_dirty e).*2 -> used_by (inodes t) a i) as Hmine by (by exists e).
  destruct (dirty_release_into_spec (e_dirty e) (arena t)) as (Har & Huse & Hdata & _);
    [apply Hinv|apply Hok| |].
  { intros a Ha. apply (fi_used _ _ _ Hinv). right. eauto. }
  assert (slot_changed t t' i (with_dirty e [])) as Hch by done.
  constructor; simpl; try done; [|apply release_into_len].
  apply (inv_change X X T (tables c) t t' i e (with_dirty e [])
    (row_set_size (e_size e) (to_ns (e_mtime e)) r) Hinv Hl He Hch);
    try done; [by eapply file_set_fs_wf, Hf; apply Hinv|by eapply entry_ok_flushed| | | | |].
  - intros k Hk. by rewrite (file_set_row _ _ _ _ _ _ _ Hf), decide_False, option_fmap_id by done.
  - intros k c' Hk Hv Hc. by apply (fs_same _ _ _ _ _ _ Hf).
  - intros a. simpl. rewrite Huse, (fi_used _ _ _ Hinv). split.
    + intros [[?|[j Ha]] Hn]; [by left|right; right]. exists j. split; [|done]. intros ->. apply Hn.
      by eapply used_by_entry.
    + intros [HX|[Ha%elem_of_nil|(j & Hj & Ha)]]; [|done|].
      * split; [by left|]. intros Hd. by apply (fi_extra _ _ _ Hinv a i HX), Hmine.
      * split; [right; by exists j|]. intros Hd. apply Hj. eapply (fi_owner _ _ _ Hinv); eauto.
  - by intros a j ?%elem_of_nil.
  - simpl. split; [apply not_elem_of_nil|]. intros j _. by apply (fi_extra _ _ _ Hinv).
Qed.

(** A flush writes the slot as it reads through the cache, or leaves everything
    as it was. *)
Lemma wp_flush_slot X i u e (Q : unit -> Fs -> Prop) (R : Z -> Fs -> Prop) s :
  inv_x X (tables (fs_db s)) (fs_table s) -> live (inodes (fs_table s)) i ->
  entry_at (inodes (fs_table s)) i = Some e ->
  (flush_skips u e -> Q tt s) ->
  (forall s', ~ flush_skips u e -> flushed X s s' i e -> Q tt s') ->
  (forall n s', db_failure n -> same_state s s' -> R n s') ->
  wp (Shared.flush_slot i u) Q R s.
Proof.
  intros Hinv Hl He HQ0 HQ HR. unfold Shared.flush_slot. fs_col He. fs_col He.
  destruct (decide (flush_skips u e)) as [Hs|Hs].
  { assert (bool_decide (e_dirty e = []) || (e_unlinked e && bool_decide (u = Skip)) = true) as ->.
    { destruct Hs as [->|[-> ->]]; [done|]. simpl. by rewrite orb_true_r. }
    by apply wp_ret, HQ0. }
  assert (bool_decide (e_dirty e = []) || (e_unlinked e && bool_decide (u = Skip)) = false) as ->.
  { unfold flush_skips in Hs. destruct (e_unlinked e), (bool_decide_reflect (e_dirty e = [])),
      (bool_decide_reflect (u = Skip)); simpl; tauto. }
  assert (e_dirty e <> []) as Hd by (unfold flush_skips in Hs; tauto).
  destruct (fi_entry _ _ _ Hinv i e Hl He) as [r Hok].
  destruct (dirty_regular _ _ _ _ Hok Hd) as [Hreg Hk].
  apply wp_bind, wp_table. apply wp_bind. eapply wp_unwrap; [by eapply collect_chunks|].
  fs_col He. fs_col He. fs_col He. apply wp_bind, wp_db.
  apply (wp_replace_chunks _ _ _ _ r).
  - apply Hinv.
  - by eapply entry_valid.
  - done.
  - split; [apply Hok|by apply (eo_max _ _ _ _ Hok)].
  - rewrite dirty_chunks_fst. apply dirty_sorted_nodup, Hok.
  - by eapply dirty_chunks_fit.
  - intros c Hf. cbv zeta. change (dirty_release_into (e_dirty e) (arena (fs_table s)))
      with (([] : DirtyIdx), (dirty_release_into (e_dirty e) (arena (fs_table s))).2). cbv beta iota.
    apply wp_bind. eapply (wp_store set_dirty with_dirty); [apply Hinv|exact He|].
    intros io Hup. apply wp_update, HQ; [done|].
    eapply (flush_state X s i e r c io); [done..| |done]. destruct Hf as [H1 H2 H3 H4]. constructor; try done.
    intros p Hp. by rewrite H4, replaced_entry_byte.
  - intros de c Hde Hc. apply HR; [by exists de|]. by apply same_state_db.
Qed.
End flush.

(** ** A flush does not change what the filesystem shows *)

Section flushed_files.
Implicit Types (s : Fs) (T : Tables) (t : OpenTable) (i : Slot) (e : Entry).

Lemma flushed_files X s s' i e :
  inv_x X (tables (fs_db s)) (fs_table s) -> live (inodes (fs_table s)) i ->
  entry_at (inodes (fs_table s)) i = Some e -> flushed X s s' i e -> same_files s s'.
Proof.
  intros Hinv Hl He [] k Hk. destruct (decide (k = e_ino e)) as [->|Hne].
  - pose proof (changed_entry_of _ _ _ _ _ _ _ Hinv Hl He fl_slot0 eq_refl) as Hnew.
    pose proof (entry_of_live _ _ _ _ _ Hinv Hl He) as Hold.
    split; [unfold file_size; by rewrite Hnew, Hold|].
    intros p Hp. unfold file_byte. rewrite Hnew, Hold. unfold entry_byte at 1. simpl.
    by apply fl_file0.
  - apply (other_file_same _ _ _ _ _ _ _ _ _ Hinv Hl He fl_slot0); try done.
    + by rewrite (file_set_row _ _ _ _ _ _ _ fl_file0), decide_False, option_fmap_id by done.
    + intros c Hc. by apply (fs_same _ _ _ _ _ _ fl_file0).
Qed.

Lemma handle_count_pos (h : Handles) fh i : handles_get h fh = Some i -> 0 < handle_count h i.
Proof.
  intros [Hv _]%handles_get_Some. unfold handle_count, zlen.
  enough (filter (fun j => j = i) (h_slot h) <> []) by (destruct (filter _ _); simpl; [done|lia]).
  intros Hnil. unfold vget in Hv. case_decide; [|done].
  apply list_elem_of_lookup_2 in Hv. apply (filter_nil_not_elem_of _ _ i Hnil); done.
Qed.

(** [t'] is [t] without slot [i] and its chunks. *)
Record slot_gone t t' i e : Prop := {
  sg_wf : inodes_wf (inodes t');
  sg_index : oi_by_ino (inodes t') = delete (e_ino e) (oi_by_ino (inodes t));
  sg_live : forall j, live (inodes t') j <-> live (inodes t) j /\ j <> i;
  sg_entry : forall j, live (inodes t') j -> entry_at (inodes t') j = entry_at (inodes t) j;
  sg_handles : handles t' = handles t;
  sg_closing : closing t' = closing t;
  sg_arena : arena t' = (dirty_release_into (e_dirty e) (arena t)).2 }.

Lemma gone_used t t' i e a j :
  slot_gone t t' i e -> used_by (inodes t') a j <-> used_by (inodes t) a j /\ j <> i.
Proof.
  intros []. unfold used_by. split.
  - intros (ej & Hl & Hej & Ha). rewrite sg_entry0 in Hej by done. apply sg_live0 in Hl as [Hl Hj].
    split; [by exists ej|done].
  - intros [(ej & Hl & Hej & Ha) Hj]. exists ej.
    assert (live (inodes t') j) by (by apply sg_live0). by rewrite sg_entry0.
Qed.

(** Removing a slot without handles, when only its inode changed in the tables. *)
Lemma inv_gone X T T' t t' i e :
  inv_x X T t -> live (inodes t) i -> entry_at (inodes t) i = Some e -> e_refs e = 0 ->
  slot_gone t t' i e -> fs_wf T' ->
  (forall k, k <> e_ino e -> t_inodes T' !! k = t_inodes T !! k) ->
  (forall k c, k <> e_ino e -> valid_ino k -> valid_chunk c -> stored_chunk T' k c = stored_chunk T k c) ->
  inv_x X T' t'.
Proof.
  intros Hinv Hl He Hrefs Hg Hwf Hrows Hchunks. pose proof Hg as [].
  pose proof (fun a j => gone_used t t' i e a j Hg) as Hub.
  destruct (fi_entry _ _ _ Hinv i e Hl He) as [r Hok].
  assert (forall a, a ∈ (e_dirty e).*2 -> used_by (inodes t) a i) as Hmine by (by exists e).
  destruct (dirty_release_into_spec (e_dirty e) (arena t)) as (Har & Huse & Hdata & _);
    [apply Hinv|apply Hok|intros a Ha; apply (fi_used _ _ _ Hinv); eauto|].
  rewrite <- sg_arena0 in Har, Huse, Hdata.
  constructor; rewrite ?sg_handles0; try done; try apply Hinv.
  - intros j ej Hlj Hej. rewrite sg_entry0 in Hej by done. apply sg_live0 in Hlj as [Hlj Hj].
    destruct (fi_entry _ _ _ Hinv j ej Hlj Hej) as [rj Hrj]. exists rj.
    assert (e_ino ej <> e_ino e) as Hne.
    { intros Heq. apply Hj. destruct (inv_live _ _ _ _ Hinv Hl) as (e1 & _ & He1 & _ & Hf1).
      destruct (inv_live _ _ _ _ Hinv Hlj) as (e2 & _ & He2 & _ & Hf2). simplify_eq. congruence. }
    pose proof (entry_valid _ _ _ _ _ Hinv Hrj).
    apply (entry_ok_mono T _ (arena t)); [done|rewrite Hrows by done; apply Hrj|auto|auto].
  - intros j ej Hlj Hej. rewrite sg_entry0 in Hej by done. apply sg_live0 in Hlj as [Hlj _].
    by apply (fi_refs _ _ _ Hinv).
  - intros fh j Hf. apply sg_live0. split; [by apply (fi_handle _ _ _ Hinv fh)|]. intros ->.
    pose proof (handle_count_pos _ _ _ Hf). rewrite <- (fi_refs _ _ _ Hinv i e) in * by done. lia.
  - intros a. rewrite Huse, (fi_used _ _ _ Hinv). setoid_rewrite Hub. split.
    + intros [[?|[j Ha]] Hn]; [by left|right]. exists j. split; [done|]. intros ->. apply Hn.
      by eapply used_by_entry.
    + intros [HX|(j & Ha & Hj)].
      * split; [by left|]. intros Hd. by apply (fi_extra _ _ _ Hinv a i HX), Hmine.
      * split; [right; by exists j|]. intros Hd. apply Hj. eapply (fi_owner _ _ _ Hinv); eauto.
  - intros a j k [Hj _]%Hub [Hk _]%Hub. by apply (fi_owner _ _ _ Hinv a).
  - intros a j HX [Ha _]%Hub. by apply (fi_extra _ _ _ Hinv a j).
Qed.

Lemma gone_entry_other t t' i e k : slot_gone t t' i e -> k <> e_ino e -> entry_of t' k = entry_of t k.
Proof.
  intros [] Hk. unfold entry_of, inodes_find. rewrite sg_index0, lookup_delete_ne by done.
  destruct (oi_by_ino (inodes t) !! k) as [j|] eqn:Hj; [|done]. simpl. apply sg_entry0.
  exists k. by rewrite sg_index0, lookup_delete_ne.
Qed.

(** The other files are as before. *)
Lemma gone_other_file X T T' t t' i e k :
  inv_x X T t -> live (inodes t) i -> entry_at (inodes t) i = Some e ->
  slot_gone t t' i e -> k <> e_ino e -> valid_ino k ->
  t_inodes T' !! k = t_inodes T !! k ->
  (forall c, valid_chunk c -> stored_chunk T' k c = stored_chunk T k c) ->
  same_file T t T' t' k.
Proof.
  intros Hinv Hl He Hg Hk Hv Hrow Hchunk. pose proof Hg as [].
  pose proof (gone_entry_other _ _ _ _ k Hg Hk) as Heo.
  destruct (fi_entry _ _ _ Hinv i e Hl He) as [r Hok].
  destruct (dirty_release_into_spec (e_dirty e) (arena t)) as (_ & _ & Hdata & _);
    [apply Hinv|apply Hok|intros a Ha; apply (fi_used _ _ _ Hinv); right; exists i; by exists e|].
  split.
  - unfold file_size. by rewrite Heo, Hrow.
  - intros p Hp. unfold file_byte. rewrite Heo. destruct (entry_of t k) as [ek|] eqn:Hek.
    + destruct (entry_of_Some _ _ _ _ _ Hinv Hek) as (j & Hlj & Hej & <-).
      apply entry_byte_ext; [done|done|]. intros a Ha. by rewrite sg_arena0.
    + unfold stored_byte. rewrite Hchunk; [done|]. by apply valid_chunk_pos.
Qed.

(** The file of the removed slot is what the database has. *)
Lemma gone_entry_of t t' i e : slot_gone t t' i e -> entry_of t' (e_ino e) = None.
Proof. intros []. unfold entry_of, inodes_find. by rewrite sg_index0, lookup_delete_eq. Qed.
End flushed_files.

(** ** Freeing and discarding slots *)

Section removal.
Context `{World, HashOrder}.
Implicit Types (s : Fs) (T : Tables) (t : OpenTable) (i : Slot) (e : Entry).

Definition idle e : Prop := e_refs e = 0 /\ e_dirty e = [].

#[global] Instance idle_dec e : Decision (idle e).
Proof. unfold idle. apply _. Defined.

(** The slot goes if it has neither handles nor dirty chunks. *)
Lemma wp_free_if_idle X i e (Q : unit -> Fs -> Prop) (R : Z -> Fs -> Prop) s :
  inv_x X (tables (fs_db s)) (fs_table s) -> live (inodes (fs_table s)) i ->
  entry_at (inodes (fs_table s)) i = Some e ->
  (~ idle e -> Q tt s) ->
  (forall t', idle e -> slot_gone (fs_table s) t' i e -> Q tt (set_table t' s)) ->
  wp (Shared.free_if_idle i) Q R s.
Proof.
  intros Hinv Hl He HQ0 HQ. unfold Shared.free_if_idle. fs_col He.
  destruct (Z.eqb_spec (e_refs e) 0) as [Hr|Hr]; [|apply wp_ret, HQ0; by intros [? _]].
  fs_col He. destruct (bool_decide_reflect (e_dirty e = [])) as [Hd|Hd];
    [|apply wp_ret, HQ0; by intros [_ ?]].
  destruct (inodes_remove_spec _ _ _ (fi_slots _ _ _ Hinv) Hl He Hd) as (io & Hrm & Hwf & Hix & Hlv & Hent).
  unfold Shared.store. apply wp_bind, wp_table. apply wp_bind. eapply wp_unwrap; [exact Hrm|].
  apply wp_update, HQ; [done|]. constructor; try done. by rewrite Hd.
Qed.

(** The slot goes with its buffered writes. *)
Lemma wp_discard_slot i e (Q : unit -> Fs -> Prop) (R : Z -> Fs -> Prop) s :
  inodes_wf (inodes (fs_table s)) -> live (inodes (fs_table s)) i ->
  entry_at (inodes (fs_table s)) i = Some e ->
  (forall t', slot_gone (fs_table s) t' i e -> Q tt (set_table t' s)) ->
  wp (Shared.discard_slot i) Q R s.
Proof.
  intros Hwf Hl He HQ. unfold Shared.discard_slot. fs_col He. apply wp_bind, wp_table.
  change (dirty_release_into (e_dirty e) (arena (fs_table s)))
    with (([] : DirtyIdx), (dirty_release_into (e_dirty e) (arena (fs_table s))).2). cbv beta iota.
  apply wp_bind. eapply (wp_store set_dirty with_dirty); [done|exact He|].
  intros io Hup. apply wp_bind, wp_update.
  destruct (inodes_remove_spec io i (with_dirty e [])) as (io2 & Hrm & Hwf2 & Hix & Hlv & Hent).
  - by eapply updated_wf.
  - by apply (live_updated _ _ _ _ _ Hup).
  - by rewrite (up_entry _ _ _ _ Hup), decide_True.
  - done.
  - unfold Shared.store. apply wp_bind, wp_table. apply wp_bind. eapply wp_unwrap; [exact Hrm|].
    apply wp_update, HQ. constructor; simpl; try done.
    + by rewrite Hix, (up_by_ino _ _ _ _ Hup).
    + intros j. by rewrite Hlv, (live_updated _ _ _ _ _ Hup).
    + intros j Hj. rewrite Hent by done. rewrite (up_entry _ _ _ _ Hup). case_decide as Hij; [|done].
      subst. by apply Hlv in Hj as [_ ?].
Qed.

(** Freeing an idle slot shows the same files. *)
Lemma freed_files X s t' i e :
  inv_x X (tables (fs_db s)) (fs_table s) -> live (inodes (fs_table s)) i ->
  entry_at (inodes (fs_table s)) i = Some e -> idle e ->
  slot_gone (fs_table s) t' i e ->
  inv_x X (tables (fs_db s)) t' /\ same_files s (set_table t' s).
Proof.
  intros Hinv Hl He [Hr Hd] Hg. split.
  { apply (inv_gone X (tables (fs_db s)) _ (fs_table s) t' i e); try done. apply Hinv. }
  intros k Hk. destruct (decide (k = e_ino e)) as [->|Hne].
  - destruct (fi_entry _ _ _ Hinv i e Hl He) as [r Hok].
    pose proof (gone_entry_of _ _ _ _ Hg) as Hnew.
    pose proof (entry_of_live _ _ _ _ _ Hinv Hl He) as Hold. split.
    + unfold file_size. simpl. rewrite Hnew, Hold, (eo_row _ _ _ _ Hok). simpl.
      by rewrite (eo_clean _ _ _ _ Hok).
    + intros p Hp. unfold file_byte. simpl. rewrite Hnew, Hold. unfold entry_byte. by rewrite Hd.
  - by eapply gone_other_file.
Qed.
End removal.

(** ** Changes that only the cache can see *)

(** What of a row the data operations leave alone. *)
Definition row_meta (r : InodeRow) : Z * Z * (Z * Z * Z) * Z :=
  (r_kind r, r_nlink r, (r_mode r, r_uid r, r_gid r), r_atime_ns r).

(** The names, and the kinds, link counts and attributes of the inodes. *)
Definition same_names (T T' : Tables) : Prop :=
  t_dirents T' = t_dirents T /\ t_symlinks T' = t_symlinks T /\
  forall i, row_meta <$> t_inodes T' !! i = row_meta <$> t_inodes T !! i.

#[global] Instance same_names_preorder : PreOrder same_names.
Proof.
  split; [by intros T|]. intros T1 T2 T3 (A1 & A2 & A3) (B1 & B2 & B3).
  split_and!; [congruence..|]. intros i. by rewrite B3.
Qed.

Lemma file_set_names ino sz ns f T T' : file_set ino sz ns f T T' -> same_names T T'.
Proof.
  intros Hf. split_and!; [apply Hf..|]. intros i. rewrite (file_set_row _ _ _ _ _ _ _ Hf).
  destruct (t_inodes T !! i); simpl; [by case_decide|done].
Qed.

(** All of an entry but its dirty chunks. *)
Definition same_open (e e' : Entry) : Prop := with_dirty e' [] = with_dirty e [].

#[global] Instance same_open_preorder : PreOrder same_open.
Proof. unfold same_open. split; [by intros e|]. intros e1 e2 e3 -> ->. done. Qed.

Lemma same_open_fields e e' :
  same_open e e' ->
  e_ino e' = e_ino e /\ e_kind e' = e_kind e /\ e_size e' = e_size e /\
  e_mtime e' = e_mtime e /\ e_refs e' = e_refs e /\ e_unlinked e' = e_unlinked e.
Proof. unfold same_open, with_dirty. intros [= ]. done. Qed.

(** The row of an inode with the buffered writes of its slot, as a flush would store it. *)
Definition buffered_row (T : Tables) (t : OpenTable) (i : Z) : option InodeRow :=
  (match entry_of t i with
   | Some e => if decide (e_dirty e = []) then id else row_set_size (e_size e) (to_ns (e_mtime e))
   | None => id
   end) <$> t_inodes T !! i.

(** No slot of inode [i] has buffered writes. *)
Definition clean_slots (t : OpenTable) (i : Z) : Prop :=
  forall j e, live (inodes t) j -> entry_at (inodes t) j = Some e -> e_ino e = i -> e_dirty e = [].

(** Slots may have been flushed, and idle ones freed; files and names are as
    before, and so are the open slots. A row is as before, or the slot was flushed. *)
Record quiet (s s' : Fs) : Prop := {
  q_files : same_files s s';
  q_shown : forall i, buffered_row (tables (fs_db s')) (fs_table s') i = buffered_row (tables (fs_db s)) (fs_table s) i;
  q_rows : forall i, t_inodes (tables (fs_db s')) !! i = t_inodes (tables (fs_db s)) !! i \/
    t_inodes (tables (fs_db s')) !! i = buffered_row (tables (fs_db s)) (fs_table s) i /\ clean_slots (fs_table s') i;
  q_names : same_names (tables (fs_db s)) (tables (fs_db s'));
  q_handles : handles (fs_table s') = handles (fs_table s);
  q_closing : closing (fs_table s') = closing (fs_table s);
  q_last : fs_last_flush s' = fs_last_flush s;
  q_cache : fs_kernel_cache s' = fs_kernel_cache s;
  q_back : forall j e', live (inodes (fs_table s')) j -> entry_at (inodes (fs_table s')) j = Some e' ->
    live (inodes (fs_table s)) j /\ exists e, entry_at (inodes (fs_table s)) j = Some e /\
      same_open e e' /\ (e_dirty e' = e_dirty e \/ e_dirty e' = []);
  q_open : forall j e, live (inodes (fs_table s)) j -> entry_at (inodes (fs_table s)) j = Some e ->
    e_refs e <> 0 -> live (inodes (fs_table s')) j }.

(** The rows of all inodes but [ino] are as before. *)
Definition rows_but (ino : Z) (s s' : Fs) : Prop :=
  forall j, j <> ino -> t_inodes (tables (fs_db s')) !! j = t_inodes (tables (fs_db s)) !! j.

#[global] Instance rows_but_preorder ino : PreOrder (rows_but ino).
Proof. split; [by intros s j|]. intros s1 s2 s3 H1 H2 j Hj. by rewrite H2, H1. Qed.

Lemma rows_but_db ino s s' : tables (fs_db s') = tables (fs_db s) -> rows_but ino s s'.
Proof. intros Hd j _. by rewrite Hd. Qed.

Section quiet.
Context `{World, HashOrder}.
Implicit Types (s : Fs) (i j : Slot) (e : Entry).

Lemma entry_back_refl io j e' :
  live io j -> entry_at io j = Some e' ->
  live io j /\ exists e, entry_at io j = Some e /\ same_open e e' /\
    (e_dirty e' = e_dirty e \/ e_dirty e' = []).
Proof. intros Hl He. split; [done|]. exists e'. split_and!; [done..|by left]. Qed.

Lemma quiet_refl s : quiet s s.
Proof. constructor; try done; [by left|apply entry_back_refl]. Qed.

Lemma clean_slots_back s s' i : quiet s s' -> clean_slots (fs_table s) i -> clean_slots (fs_table s') i.
Proof.
  intros Hq Hc j e' Hl He Hi. destruct (q_back _ _ Hq j e' Hl He) as (Hl0 & e & He0 & Hs & [-> |Hd]); [|done].
  apply same_open_fields in Hs as (Hino & _). apply (Hc j e); [done..|congruence].
Qed.

Lemma quiet_trans s1 s2 s3 {X} :
  inv_x X (tables (fs_db s2)) (fs_table s2) -> quiet s1 s2 -> quiet s2 s3 -> quiet s1 s3.
Proof.
  intros Hinv Hq1 Hq2. pose proof (fun i => clean_slots_back s2 s3 i Hq2) as Hclean. destruct Hq1, Hq2.
  constructor; try congruence.
  - by etrans.
  - intros i. destruct (q_rows1 i) as [->|[-> Hc]]; [|right; by rewrite q_shown0].
    destruct (q_rows0 i) as [?|[? Hc]]; [by left|right; by auto].
  - by etrans.
  - intros j e3 Hl3 He3. destruct (q_back1 _ _ Hl3 He3) as (Hl2 & e2 & He2 & Hs2 & Hd2).
    destruct (q_back0 _ _ Hl2 He2) as (Hl1 & e1 & He1 & Hs1 & Hd1).
    split; [done|]. exists e1. split; [done|]. split; [by etrans|].
    destruct Hd2 as [->| ->]; [done|by right].
  - intros j e Hl He Hr. pose proof (q_open0 j e Hl He Hr) as Hl2.
    destruct (inv_live _ _ _ _ Hinv Hl2) as (e2 & _ & He2 & _).
    destruct (q_back0 _ _ Hl2 He2) as (_ & e' & He' & Hs & _). simplify_eq.
    apply same_open_fields in Hs as (_ & _ & _ & _ & Hrr & _).
    apply (q_open1 j e2); [done..|]. congruence.
Qed.

Lemma quiet_state s s' : same_state s s' -> quiet s s'.
Proof.
  intros Hs. pose proof Hs as (HT & Ht & Hl & Hk).
  constructor; rewrite ?HT, ?Ht; try done; [by apply same_state_files|by left|apply entry_back_refl].
Qed.

(** The rows after the flush of a slot. *)
Lemma flushed_rows s s' i e k :
  fs_inv s -> live (inodes (fs_table s)) i -> entry_at (inodes (fs_table s)) i = Some e ->
  flushed None s s' i e ->
  buffered_row (tables (fs_db s')) (fs_table s') k = buffered_row (tables (fs_db s)) (fs_table s) k /\
  t_inodes (tables (fs_db s')) !! k =
    if decide (k = e_ino e) then buffered_row (tables (fs_db s)) (fs_table s) k else t_inodes (tables (fs_db s)) !! k.
Proof.
  intros Hinv Hl He Hf. unfold buffered_row. rewrite !(file_set_row _ _ _ _ _ _ _ (fl_file _ _ _ _ _ Hf)).
  destruct (decide (k = e_ino e)) as [->|Hk].
  - rewrite (changed_entry_of _ _ _ _ _ _ _ Hinv Hl He (fl_slot _ _ _ _ _ Hf) eq_refl).
    rewrite (entry_of_live _ _ _ _ _ Hinv Hl He). cbn [e_dirty with_dirty].
    rewrite decide_True, decide_False by (done || apply Hf). by rewrite option_fmap_id.
  - rewrite (changed_entry_other _ _ _ _ _ _ _ k Hinv He (fl_slot _ _ _ _ _ Hf) Hk), option_fmap_id. done.
Qed.

Lemma flushed_quiet s s' i e :
  fs_inv s -> live (inodes (fs_table s)) i -> entry_at (inodes (fs_table s)) i = Some e ->
  flushed None s s' i e -> quiet s s'.
Proof.
  intros Hinv Hl He Hf. pose proof (fl_slot _ _ _ _ _ Hf) as (Hup & Hh & Hc).
  constructor; try done; try apply Hf.
  - by eapply flushed_files.
  - intros k. by apply (flushed_rows s s' i e).
  - intros k. destruct (flushed_rows s s' i e k Hinv Hl He Hf) as [_ ->].
    destruct (decide (k = e_ino e)) as [->|]; [right; split; [done|]|by left].
    intros j e' Hlj Hej Hi. rewrite (live_updated _ _ _ _ _ Hup) in Hlj.
    rewrite (up_entry _ _ _ _ Hup) in Hej. case_decide as Hij; [by simplify_eq|]. destruct Hij.
    destruct (inv_live _ _ _ _ Hinv Hl) as (e1 & _ & He1 & _ & Hf1).
    destruct (inv_live _ _ _ _ Hinv Hlj) as (e2 & _ & He2 & _ & Hf2). simplify_eq. congruence.
  - by eapply file_set_names, fl_file.
  - intros j e' Hlj Hej. rewrite (live_updated _ _ _ _ _ Hup) in Hlj. split; [done|].
    rewrite (up_entry _ _ _ _ Hup) in Hej. case_decide; simplify_eq; [|by apply entry_back_refl].
    exists e. split_and!; [done..|by right].
  - intros j ej Hlj _ _. by rewrite (live_updated _ _ _ _ _ Hup).
Qed.

Lemma freed_quiet s t' i e :
  fs_inv s -> live (inodes (fs_table s)) i -> entry_at (inodes (fs_table s)) i = Some e ->
  idle e -> slot_gone (fs_table s) t' i e ->
  fs_inv (set_table t' s) /\ quiet s (set_table t' s).
Proof.
  intros Hinv Hl He Hid Hg. destruct (freed_files _ _ _ _ _ Hinv Hl He Hid Hg) as [Hi Hf].
  split; [done|]. constructor; simpl; try done; try apply Hg.
  - intros k. unfold buffered_row. destruct (decide (k = e_ino e)) as [->|Hk].
    + rewrite (gone_entry_of _ _ _ _ Hg), (entry_of_live _ _ _ _ _ Hinv Hl He), decide_True by apply Hid. done.
    + by rewrite (gone_entry_other _ _ _ _ k Hg Hk).
  - by left.
  - intros j e' Hlj Hej. rewrite (sg_entry _ _ _ _ Hg) in Hej by done.
    apply Hg in Hlj as [Hlj _]. by apply entry_back_refl.
  - intros j ej Hlj Hej Hr. apply Hg. split; [done|]. intros ->. simplify_eq. by destruct Hid.
Qed.

(** Flush and then free, as [flush_one], [release] and the eviction do. *)
Definition settled_slot (u : Unlinked) (s' : Fs) i e : Prop :=
  live (inodes (fs_table s')) i -> exists e', entry_at (inodes (fs_table s')) i = Some e' /\
    (e_dirty e' = [] \/ flush_skips u e) /\ ~ idle e'.

Lemma wp_flush_and_free i u e (Q : unit -> Fs -> Prop) (R R' : Z -> Fs -> Prop) s :
  fs_inv s -> live (inodes (fs_table s)) i -> entry_at (inodes (fs_table s)) i = Some e ->
  (forall s', fs_inv s' -> quiet s s' -> settled_slot u s' i e ->
     (forall j, j <> i -> live (inodes (fs_table s)) j -> live (inodes (fs_table s')) j) ->
     Q tt s') ->
  (forall n s', db_failure n -> same_state s s' -> R n s') ->
  wp (Shared.flush_slot i u) (fun _ => wp (Shared.free_if_idle i) Q R') R s.
Proof.
  intros Hinv Hl He HQ HR. apply (wp_flush_slot None i u e); [done..| | |done].
  - intros Hs. apply (wp_free_if_idle None i e); [done..| |].
    + intros Hid. apply HQ; [done|apply quiet_refl| |done]. intros _. exists e. auto.
    + intros t' Hid Hg. destruct (freed_quiet _ _ _ _ Hinv Hl He Hid Hg) as [Hi Hq].
      apply HQ; [done..| |].
      * intros Hli. by apply Hg in Hli as [_ ?].
      * intros j Hj Hlj. by apply Hg.
  - intros s1 Hs Hf. pose proof (flushed_quiet _ _ _ _ Hinv Hl He Hf) as Hq1.
    pose proof (fl_inv _ _ _ _ _ Hf) as Hinv1.
    pose proof (fl_slot _ _ _ _ _ Hf) as (Hup & _).
    assert (live (inodes (fs_table s1)) i) as Hl1 by (by apply (live_updated _ _ _ _ _ Hup)).
    assert (entry_at (inodes (fs_table s1)) i = Some (with_dirty e [])) as He1
      by (by rewrite (up_entry _ _ _ _ Hup), decide_True).
    apply (wp_free_if_idle None i (with_dirty e [])); [done..| |].
    + intros Hid. apply HQ; [done..| |].
      * intros _. exists (with_dirty e []). auto.
      * intros j _ Hj. by apply (live_updated _ _ _ _ _ Hup).
    + intros t' Hid Hg. destruct (freed_quiet _ _ _ _ Hinv1 Hl1 He1 Hid Hg) as [Hi Hq].
      apply HQ; [done|by eapply (quiet_trans s s1)| |].
      * intros Hli. by apply Hg in Hli as [_ ?].
      * intros j Hj Hlj. apply Hg. split; [|done]. by apply (live_updated _ _ _ _ _ Hup).
Qed.
End quiet.

(** ** Flushing every slot *)

Section flush_all.
Context `{World, HashOrder}.
Implicit Types (s : Fs) (i j : Slot) (e : Entry).

(** No slot has buffered writes, except those of unlinked inodes. *)
Definition all_flushed s : Prop :=
  forall j e, live (inodes (fs_table s)) j -> entry_at (inodes (fs_table s)) j = Some e ->
    e_dirty e = [] \/ e_unlinked e = true.

Definition slot_flushed s j : Prop :=
  forall e, live (inodes (fs_table s)) j -> entry_at (inodes (fs_table s)) j = Some e ->
    e_dirty e = [] \/ e_unlinked e = true.

Lemma slot_flushed_quiet s s' j : quiet s s' -> slot_flushed s j -> slot_flushed s' j.
Proof.
  intros Hq Hs e' Hl He'. destruct (q_back _ _ Hq j e' Hl He') as (Hl0 & e & He & Hso & Hd).
  apply same_open_fields in Hso as (_ & _ & _ & _ & _ & ->).
  destruct Hd as [->| ->]; [by apply Hs|by left].
Qed.

(** One slot: an error is kept, and the slot stays as it was. *)
Lemma wp_flush_one acc i e (Q : option Z -> Fs -> Prop) (R : Z -> Fs -> Prop) s :
  fs_inv s -> live (inodes (fs_table s)) i -> entry_at (inodes (fs_table s)) i = Some e ->
  (forall acc' s', fs_inv s' -> quiet s s' ->
     (forall j, j <> i -> live (inodes (fs_table s)) j -> live (inodes (fs_table s')) j) ->
     (acc' = None -> acc = None /\ slot_flushed s' i) ->
     (forall n, acc' = Some n -> acc = Some n \/ db_failure n) -> Q acc' s') ->
  wp (Shared.flush_one acc i) Q R s.
Proof.
  intros Hinv Hl He HQ. unfold Shared.flush_one. apply wp_match_result.
  eapply wp_mono; [apply (wp_flush_and_free i Skip e
    (fun _ s' => fs_inv s' /\ quiet s s' /\ slot_flushed s' i /\
       (forall j, j <> i -> live (inodes (fs_table s)) j -> live (inodes (fs_table s')) j))
    (fun n s' => db_failure n /\ same_state s s') (fun _ _ => False)); [done..| |done]| |].
  - intros s' Hi Hq Hs Hlv. split_and!; [done..| |done]. intros e' Hl' He'.
    destruct (Hs Hl') as (e2 & He2 & Hd & _). simplify_eq.
    destruct (q_back _ _ Hq i e' Hl' He') as (_ & e0 & He0 & Hso & Hdd). simplify_eq.
    apply same_open_fields in Hso as (_ & _ & _ & _ & _ & ->).
    destruct Hd as [Hd|[Hd|[Hu _]]]; [by left| |by right]. rewrite Hd in Hdd. left. by destruct Hdd.
  - intros ? s1 Hf. apply wp_bind. eapply wp_mono; [exact Hf| |done].
    intros _ s2 (Hi & Hq & Hs & Hlv). apply wp_ret, HQ; try done. by left.
  - intros n s1 [Hn Hs]. apply wp_ret, HQ.
    + by eapply same_state_inv.
    + by apply quiet_state.
    + destruct Hs as (_ & -> & _). done.
    + by destruct acc.
    + intros m. destruct acc; intros [= <-]; [by left|by right].
Qed.

Lemma wp_flush_slots s :
  fs_inv s ->
  wp (fold_each (live_slots (inodes (fs_table s))) Shared.flush_one None)
    (fun acc s' => fs_inv s' /\ quiet s s' /\ (acc = None -> all_flushed s') /\
       (forall n, acc = Some n -> db_failure n))
    (fun _ _ => False) s.
Proof.
  intros Hinv. set (l := live_slots (inodes (fs_table s))).
  assert (NoDup l) as Hnd by (apply live_slots_nodup, Hinv).
  eapply wp_mono; [apply (wp_fold_each l Shared.flush_one None (fun dn acc s' =>
    fs_inv s' /\ quiet s s' /\
    (forall j, live (inodes (fs_table s)) j -> j ∉ dn -> live (inodes (fs_table s')) j) /\
    (acc = None -> forall j, j ∈ dn -> slot_flushed s' j) /\
    (forall n, acc = Some n -> db_failure n)) (fun _ _ => False))| |done].
  - split_and!; try done; [apply quiet_refl|]. by intros _ j ?%elem_of_nil.
  - intros dn i rest acc s1 Heq (Hi1 & Hq1 & Hlv & Hfl & Hacc).
    assert (i ∉ dn) as Hni.
    { rewrite Heq in Hnd. apply NoDup_app in Hnd as (_ & Hnd & _). intros Hin.
      apply (Hnd i Hin). by left. }
    assert (live (inodes (fs_table s1)) i) as Hli.
    { apply Hlv; [|done]. apply elem_of_live_slots. fold l. rewrite Heq. set_solver. }
    destruct (inv_live _ _ _ _ Hi1 Hli) as (e & _ & He & _).
    apply (wp_flush_one acc i e); [done..|]. intros acc' s2 Hi2 Hq2 Hlv2 Hnone Hsome.
    split_and!; [done|by eapply (quiet_trans s s1)| | |].
    + intros j Hj Hn. apply Hlv2; [set_solver|]. apply Hlv; set_solver.
    + intros Ha j Hj. destruct (Hnone Ha) as [Ha1 Hs]. apply elem_of_app in Hj as [Hj|Hj].
      * eapply slot_flushed_quiet; [done|]. by apply Hfl.
      * apply list_elem_of_singleton in Hj as ->. done.
    + intros n Hn. destruct (Hsome n Hn); auto.
  - intros acc s' (Hi & Hq & _ & Hfl & Hacc). split_and!; try done. intros Ha j e Hl He.
    apply (Hfl Ha j); [|done..]. apply elem_of_live_slots. by destruct (q_back _ _ Hq j e Hl He).
Qed.

(** [flush_all] returns Ok only when every slot has been written and the database
    is durable; files and names never change. *)
Lemma wp_flush_all (Q : unit -> Fs -> Prop) (R : Z -> Fs -> Prop) s :
  fs_inv s ->
  (forall s', fs_inv s' -> quiet s s' -> all_flushed s' -> Q tt s') ->
  (forall n s', fs_inv s' -> quiet s s' -> n = EIO \/ db_failure n -> R n s') ->
  wp Shared.flush_all Q R s.
Proof.
  intros Hinv HQ HR. unfold Shared.flush_all. apply wp_bind, wp_table. apply wp_bind.
  eapply wp_mono; [by apply wp_flush_slots| |done].
  intros acc s1 (Hi & Hq & Hfl & Hacc). apply wp_match_result, wp_db, wp_sync_durable.
  - intros c Hc. assert (quiet s (set_db c s1)) as Hqc.
    { eapply (quiet_trans s s1); [done..|]. by apply quiet_state, same_state_db. }
    destruct acc as [n|]; [apply wp_throw, HR|apply wp_ret, HQ]; auto using set_db_id.
  - intros m c Hc. apply wp_throw, HR; [by apply set_db_id| |].
    + eapply (quiet_trans s s1); [done..|]. by apply quiet_state, same_state_db.
    + destruct acc as [n|]; [right; by apply Hacc|by left].
Qed.
End flush_all.
