(* ===== verification/FuseWrite.v ===== *)
(** * FuseWrite: buffered writes

    Eviction under the write budget always finds a slot; loading a chunk and
    writing a piece of it keep the invariant and change only the bytes of the
    piece; a write overwrites its range of the file. *)

From S2P Require Import Prelude Effects Model Chunk Arena OpenTable Sql DbData DbNames Tree.
From S2P Require Import NamesSpec DbVolume Fuse FuseInv FuseFlush.

(** ** Changes of the arena alone *)

Section arena_changes.
Context `{World, HashOrder}.
Implicit Types (s : Fs) (T : Tables) (t : OpenTable) (i : Slot) (e : Entry) (ar : ChunkArena).

Lemma inv_arena X X' T t ar :
  inv_x X T t -> arena_wf ar ->
  (forall a i, used_by (inodes t) a i -> slot_data ar a = slot_data (arena t) a) ->
  (forall a, in_use ar a <-> X' = Some a \/ exists i, used_by (inodes t) a i) ->
  (forall a i, X' = Some a -> ~ used_by (inodes t) a i) ->
  inv_x X' T (with_arena ar t).
Proof.
  intros Hinv Har Hd Hu Hx. constructor; simpl; try done; try apply Hinv.
  intros i e Hl He. destruct (fi_entry _ _ _ Hinv i e Hl He) as [r Hok]. exists r.
  apply (entry_ok_mono T T (arena t)); [done|apply Hok|done|].
  intros a Ha. apply (Hd a i). by exists e.
Qed.

Lemma quiet_arena X s ar :
  inv_x X (tables (fs_db s)) (fs_table s) ->
  (forall a i, used_by (inodes (fs_table s)) a i ->
     slot_data ar a = slot_data (arena (fs_table s)) a) ->
  quiet s (set_table (with_arena ar (fs_table s)) s).
Proof.
  intros Hinv Hd. constructor; simpl; try done; [|by left|apply entry_back_refl].
  intros k Hk. split; [done|]. intros p Hp. unfold file_byte, entry_of. simpl.
  destruct (inodes_find _ k ≫= _) as [e|] eqn:He; [|done].
  destruct (entry_of_Some _ _ _ _ _ Hinv He) as (i & Hl & Hei & _).
  apply entry_byte_ext; [done..|]. intros a Ha. apply (Hd a i). by exists e.
Qed.

(** A slot handed out by the arena. *)
Lemma alloc_inv s a ar :
  fs_inv s -> arena_alloc (arena (fs_table s)) = Some (Some a, ar) ->
  let s' := set_table (with_arena ar (fs_table s)) s in
  inv_x (Some a) (tables (fs_db s)) (fs_table s') /\ slot_data ar a = [] /\ quiet s s'.
Proof.
  intros Hinv Hal. pose proof (arena_alloc_spec _ (fi_arena _ _ _ Hinv)) as Hspec.
  rewrite Hal in Hspec. destruct Hspec as (Har & Hin & Hout & Hempty & Hother & Hkept).
  assert (forall b i, used_by (inodes (fs_table s)) b i -> in_use (arena (fs_table s)) b) as Huse
    by (intros; apply (fi_used _ _ _ Hinv); eauto).
  assert (forall b i, used_by (inodes (fs_table s)) b i -> b <> a) as Hne
    by (intros b i Hb ->; eauto).
  assert (forall b i, used_by (inodes (fs_table s)) b i ->
    slot_data ar b = slot_data (arena (fs_table s)) b) as Hd by eauto.
  split_and!; [|done|by eapply quiet_arena].
  apply (inv_arena None); [done..| |].
  - intros b. destruct (decide (b = a)) as [->|Hba]; [split; [by left|done]|].
    rewrite Hother, (fi_used _ _ _ Hinv) by done. split; intros [?|?]; try done; [by right|congruence|by right].
  - intros b i [= <-] Hb. by apply (Hne a i).
Qed.

Definition arena_room ar : Prop := exists a, 0 <= a < zlen (a_len ar) /\ ~ in_use ar a.

Lemma room_alloc ar :
  arena_wf ar -> arena_room ar -> exists a ar', arena_alloc ar = Some (Some a, ar').
Proof.
  intros Hwf (a & Ha & Hn). pose proof (arena_alloc_spec ar Hwf) as Hs.
  destruct (arena_alloc ar) as [[[b|] ar']|]; [eauto| |done].
  destruct Hs as (_ & _ & Hall). by destruct Hn; apply Hall.
Qed.

(** Evicting a slot with dirty chunks makes room. *)
Lemma wp_evict v ev w (Q : unit -> Fs -> Prop) (R R' : Z -> Fs -> Prop) s :
  fs_inv s -> live (inodes (fs_table s)) v -> entry_at (inodes (fs_table s)) v = Some ev ->
  e_dirty ev <> [] ->
  (forall s', fs_inv s' -> quiet s s' -> arena_room (arena (fs_table s')) ->
     (live (inodes (fs_table s)) w -> live (inodes (fs_table s')) w) -> Q tt s') ->
  (forall n s', db_failure n -> same_state s s' -> R n s') ->
  wp (Shared.flush_slot v Persist)
    (fun _ => wp (if v =? w then mret tt else Shared.free_if_idle v) Q R') R s.
Proof.
  intros Hinv Hl He Hd HQ HR. apply (wp_flush_slot None v Persist ev); [done..| | |done].
  { intros [?|[_ ?]]; done. }
  intros s1 _ Hf. pose proof (flushed_quiet _ _ _ _ Hinv Hl He Hf) as Hq.
  pose proof (fl_inv _ _ _ _ _ Hf) as Hinv1. pose proof (fl_slot _ _ _ _ _ Hf) as (Hup & _).
  assert (arena_room (arena (fs_table s1))) as Hroom.
  { destruct (e_dirty ev) as [|[c a] d] eqn:Hde; [done|].
    assert ((c, a) ∈ e_dirty ev) as Hin by (rewrite Hde; by left).
    destruct (dirty_in_use _ _ _ _ _ _ _ Hinv Hl He Hin) as [Ha _]. exists a.
    split; [by rewrite (fl_len _ _ _ _ _ Hf)|]. rewrite (fl_use _ _ _ _ _ Hf), Hde.
    intros [_ Hn]. apply Hn. by left. }
  assert (live (inodes (fs_table s1)) v) as Hl1 by (by apply (live_updated _ _ _ _ _ Hup)).
  assert (forall x, live (inodes (fs_table s)) x -> live (inodes (fs_table s1)) x) as Hlv
    by (intros x; by apply (live_updated _ _ _ _ _ Hup)).
  destruct (Z.eqb_spec v w) as [->|Hvw]; [by apply wp_ret, HQ; auto|].
  assert (entry_at (inodes (fs_table s1)) v = Some (with_dirty ev [])) as He1
    by (by rewrite (up_entry _ _ _ _ Hup), decide_True).
  apply (wp_free_if_idle None v (with_dirty ev [])); [done..|by auto|].
  intros t' Hid Hg. destruct (freed_quiet _ _ _ _ Hinv1 Hl1 He1 Hid Hg) as [Hi2 Hq2].
  apply HQ; [done|by eapply (quiet_trans s s1)| |].
  - simpl. rewrite (sg_arena _ _ _ _ Hg). done.
  - intros Hw. apply Hg. auto.
Qed.

(** With a full arena some slot holds dirty chunks. *)
Lemma full_has_victim s :
  fs_inv s -> (forall a, 0 <= a < zlen (a_len (arena (fs_table s))) -> in_use (arena (fs_table s)) a) ->
  zlen (a_len (arena (fs_table s))) = a_max_slots (arena (fs_table s)) ->
  exists v ev, largest_dirty (inodes (fs_table s)) = Some (Some v) /\
    live (inodes (fs_table s)) v /\ entry_at (inodes (fs_table s)) v = Some ev /\ e_dirty ev <> [].
Proof.
  intros Hinv Hall Hmax. pose proof (aw_pos _ (fi_arena _ _ _ Hinv)).
  destruct (largest_dirty_spec _ (fi_slots _ _ _ Hinv)) as (r & Hr & Hspec).
  destruct r as [v|]; [destruct Hspec as (Hl & ev & He & Hd & _); by exists v, ev|].
  assert (in_use (arena (fs_table s)) 0) as Hu by (apply Hall; lia).
  apply (fi_used _ _ _ Hinv) in Hu as [|(i & e & Hl & He & Ha)]; [done|].
  rewrite (Hspec i e Hl He) in Ha. by apply elem_of_nil in Ha.
Qed.

(** Two rounds are enough: the allocation succeeds, or the engine failed. *)
Lemma wp_alloc_chunk w (Q : ArenaSlot -> Fs -> Prop) (R : Z -> Fs -> Prop) s :
  fs_inv s ->
  (forall a s', inv_x (Some a) (tables (fs_db s')) (fs_table s') ->
     slot_data (arena (fs_table s')) a = [] -> quiet s s' ->
     (live (inodes (fs_table s)) w -> live (inodes (fs_table s')) w) -> Q a s') ->
  (forall n s', db_failure n -> same_state s s' -> R n s') ->
  wp (Shared.alloc_chunk w) Q R s.
Proof.
  intros Hinv HQ HR. unfold Shared.alloc_chunk, ALLOC_ROUNDS. cbn [Shared.alloc_rounds].
  apply wp_bind, wp_table. pose proof (arena_alloc_spec _ (fi_arena _ _ _ Hinv)) as Hspec.
  destruct (arena_alloc (arena (fs_table s))) as [[[a|] ar]|] eqn:Hal; [| |done].
  - apply wp_bind. eapply wp_unwrap; [done|]. apply wp_bind, wp_update. apply wp_ret.
    destruct (alloc_inv s a ar Hinv Hal) as (Hi & He & Hq). by apply HQ.
  - destruct Hspec as (-> & Hmax & Hall). apply wp_bind. eapply wp_unwrap; [done|].
    apply wp_bind, wp_update. simpl.
    assert (set_table (with_arena (arena (fs_table s)) (fs_table s)) s = s) as ->
      by (by destruct s as [? [] ? ?]).
    destruct (full_has_victim s Hinv Hall Hmax) as (v & ev & Hv & Hl & He & Hd).
    apply wp_bind. eapply wp_unwrap; [done|]. apply wp_bind, wp_ret. apply wp_bind.
    eapply wp_mono; [apply (wp_evict v ev w
      (fun _ s' => fs_inv s' /\ quiet s s' /\ arena_room (arena (fs_table s')) /\
        (live (inodes (fs_table s)) w -> live (inodes (fs_table s')) w)) R (fun _ _ => False));
      [done..|by eauto 10|done]| |done].
    intros [] s1 Hf. apply wp_bind. eapply wp_mono; [exact Hf| |done].
    intros _ s2 (Hi2 & Hq2 & Hroom & Hw). apply wp_bind, wp_table.
    destruct (room_alloc _ (fi_arena _ _ _ Hi2) Hroom) as (b & ar2 & Hal2).
    apply wp_bind. eapply wp_unwrap; [done|]. apply wp_bind, wp_update, wp_ret.
    destruct (alloc_inv s2 b ar2 Hi2 Hal2) as (Hi & He2 & Hq).
    apply HQ; [done..|by eapply (quiet_trans s s2)|done].
Qed.
End arena_changes.

(** ** One chunk of a write *)

Lemma nodup_snd {A} (l : list (A * Z)) x y a : NoDup l.*2 -> (x, a) ∈ l -> (y, a) ∈ l -> x = y.
Proof.
  intros Hnd [i Hi]%list_elem_of_lookup [j Hj]%list_elem_of_lookup.
  assert (i = j) as ->; [|by simplify_eq].
  eapply (NoDup_lookup l.*2); [done|rewrite list_lookup_fmap, Hi|rewrite list_lookup_fmap, Hj]; done.
Qed.

Lemma slot_changed_trans t1 t2 t3 i e2 e3 :
  slot_changed t1 t2 i e2 -> slot_changed t2 t3 i e3 -> slot_changed t1 t3 i e3.
Proof.
  intros (U1 & H1 & C1) (U2 & H2 & C2). split; [by eapply updated_trans|]. split; congruence.
Qed.

(** Entry [e] of slot [i] with chunk [k] entered in the index [d] as arena slot
    [a], which holds [cur]; [X] says where [a] came from. *)
Record prepared (X : option ArenaSlot) (t t2 : OpenTable) (i : Slot) (e : Entry) (d : DirtyIdx)
    (k : Z) (a : ArenaSlot) (cur : list byte) : Prop := {
  pr_sorted : dirty_sorted d;
  pr_from : (X = None /\ d = e_dirty e /\ (k, a) ∈ d) \/
            (X = Some a /\ d ≡ₚ (k, a) :: e_dirty e);
  pr_lookup : forall c, dirty_lookup d c = if decide (c = k) then Some a else dirty_lookup (e_dirty e) c;
  pr_slot : slot_changed t t2 i (with_dirty e d);
  pr_arena : arena_wf (arena t2);
  pr_use : forall b, in_use (arena t2) b <-> in_use (arena t) b;
  pr_data : forall b, in_use (arena t) b -> b <> a -> slot_data (arena t2) b = slot_data (arena t) b;
  pr_cur : slot_data (arena t2) a = cur }.

Section piece.
Context `{World, HashOrder}.
Implicit Types (s : Fs) (T : Tables) (t : OpenTable) (i : Slot) (e : Entry) (ar : ChunkArena).

Section prepared.
Context {X : option ArenaSlot} {T : Tables} {t t2 : OpenTable} {i : Slot} {e : Entry}.
Context {d : DirtyIdx} {k : Z} {a : ArenaSlot} {cur : list byte}.
Hypothesis Hinv : inv_x X T t.
Hypothesis Hl : live (inodes t) i.
Hypothesis He : entry_at (inodes t) i = Some e.
Hypothesis Hp : prepared X t t2 i e d k a cur.

Lemma prepared_in : (k, a) ∈ d.
Proof. destruct (pr_from _ _ _ _ _ _ _ _ _ Hp) as [(_ & _ & ?)|[_ ->]]; [done|by left]. Qed.

Lemma prepared_old b : b ∈ (e_dirty e).*2 -> used_by (inodes t) b i.
Proof. by exists e. Qed.

Lemma prepared_snd b : b ∈ d.*2 <-> b = a \/ b ∈ (e_dirty e).*2.
Proof.
  destruct (pr_from _ _ _ _ _ _ _ _ _ Hp) as [(_ & -> & Hin)|[_ ->]].
  - split; [by right|]. intros [->|?]; [|done]. apply list_elem_of_fmap. by exists (k, a).
  - rewrite fmap_cons, elem_of_cons. done.
Qed.

Lemma prepared_nodup : NoDup d.*2.
Proof.
  destruct (fi_entry _ _ _ Hinv i e Hl He) as [r Hok].
  destruct (pr_from _ _ _ _ _ _ _ _ _ Hp) as [(_ & -> & _)|[HX Hd]]; [apply Hok|].
  rewrite Hd, fmap_cons. apply NoDup_cons. split; [|apply Hok]. simpl. intros Ha.
  by apply (fi_extra _ _ _ Hinv a i HX), prepared_old.
Qed.

(** The other chunks of the index are old ones. *)
Lemma prepared_other c b : (c, b) ∈ d -> c <> k -> (c, b) ∈ e_dirty e /\ b <> a.
Proof.
  intros Hin Hc. split.
  - apply (dirty_lookup_Some _ _ _ (pr_sorted _ _ _ _ _ _ _ _ _ Hp)) in Hin.
    rewrite (pr_lookup _ _ _ _ _ _ _ _ _ Hp), decide_False in Hin by done. by apply assoc_Some_1.
  - intros ->. apply Hc. apply (nodup_snd d c k a); [apply prepared_nodup|done|apply prepared_in].
Qed.

Lemma prepared_k b : (k, b) ∈ d -> b = a.
Proof.
  intros Hin. apply (dirty_lookup_Some _ _ _ (pr_sorted _ _ _ _ _ _ _ _ _ Hp)) in Hin.
  rewrite (pr_lookup _ _ _ _ _ _ _ _ _ Hp), decide_True in Hin by done. congruence.
Qed.

(** Whoever else uses an arena slot, it is not [a]. *)
Lemma prepared_owner b j : used_by (inodes t) b j -> j <> i -> b <> a /\ b ∉ d.*2.
Proof.
  intros Hb Hj. assert (b <> a) as Hba.
  { intros ->. destruct (pr_from _ _ _ _ _ _ _ _ _ Hp) as [(_ & -> & Hin)|[HX _]].
    - apply Hj. apply (fi_owner _ _ _ Hinv a); [done|]. apply prepared_old.
      apply list_elem_of_fmap. by exists (k, a).
    - by apply (fi_extra _ _ _ Hinv a j HX). }
  split; [done|]. rewrite prepared_snd. intros [?|Hd%prepared_old]; [done|].
  apply Hj. by apply (fi_owner _ _ _ Hinv b).
Qed.

Lemma prepared_in_use b :
  in_use (arena t) b <-> b ∈ d.*2 \/ exists j, j <> i /\ used_by (inodes t) b j.
Proof.
  rewrite (fi_used _ _ _ Hinv), prepared_snd. split.
  - intros [HX|[j Hj]].
    + destruct (pr_from _ _ _ _ _ _ _ _ _ Hp) as [(Hn & _)|[Hs _]]; [congruence|].
      left. left. congruence.
    + destruct (decide (j = i)) as [->|]; [left; right|right; by exists j].
      by eapply used_by_entry.
  - intros [[->|Hb]|(j & _ & Hj)]; [|right; exists i; by apply prepared_old|eauto].
    destruct (pr_from _ _ _ _ _ _ _ _ _ Hp) as [(_ & -> & Hin)|[-> _]]; [right|by left].
    exists i. apply prepared_old, list_elem_of_fmap. by exists (k, a).
Qed.
End prepared.

(** The chunk is written and the size raised: the invariant is whole again. *)
Lemma piece_inv X T t t2 t3 i e r d k a cur sz :
  inv_x X T t -> live (inodes t) i -> entry_at (inodes t) i = Some e ->
  entry_ok T (arena t) e r -> e_kind e = RegularFile ->
  prepared X t t2 i e d k a cur ->
  slot_changed t2 t3 i (with_size (with_dirty e d) sz) ->
  arena_wf (arena t3) -> (forall b, in_use (arena t3) b <-> in_use (arena t2) b) ->
  (forall b, in_use (arena t) b -> b <> a -> slot_data (arena t3) b = slot_data (arena t2) b) ->
  e_size e <= sz <= MAX_FILE_SIZE -> valid_chunk k ->
  k * CHUNK_SIZE + zlen (slot_data (arena t3) a) <= sz ->
  zlen (stored_chunk T (e_ino e) k) <= zlen (slot_data (arena t3) a) ->
  inv_x None T t3 /\ slot_changed t t3 i (with_size (with_dirty e d) sz).
Proof.
  intros Hinv Hl He Hok Hk Hp Hch Har Huse Hdata Hsz Hv Hend Hst.
  assert (slot_changed t t3 i (with_size (with_dirty e d) sz)) as Hch3
    by (eapply slot_changed_trans; [apply Hp|done]).
  assert (forall b, in_use (arena t) b -> b <> a -> slot_data (arena t3) b = slot_data (arena t) b) as Hd3.
  { intros b Hb Hba. rewrite Hdata by done. by apply (pr_data _ _ _ _ _ _ _ _ _ Hp). }
  split; [|done].
  apply (inv_change X None T T t t3 i e (with_size (with_dirty e d) sz) r Hinv Hl He Hch3); try done.
  - apply Hinv.
  - destruct Hok as [Hrow Hkind Hsize _ _ _ _ _ Hchunk Hgone]. constructor; simpl; try done.
    + lia.
    + intros _. lia.
    + intros Hd. pose proof (prepared_in Hp) as Hin. rewrite Hd in Hin. by apply elem_of_nil in Hin.
    + apply Hp.
    + exact (prepared_nodup Hinv Hl He Hp).
    + intros c b Hin. destruct (decide (c = k)) as [->|Hc].
      * by rewrite (prepared_k Hp b Hin).
      * destruct (prepared_other Hinv Hl He Hp c b Hin Hc) as [Hold Hba].
        destruct (Hchunk c b Hold) as (H1 & H2 & H3).
        rewrite (Hd3 b) by (done || by eapply dirty_in_use). split_and!; [done|lia|done].
  - intros b j Hj Hb. apply Hd3; [apply (fi_used _ _ _ Hinv); eauto|].
    by apply (prepared_owner Hinv Hl He Hp b j).
  - intros b. rewrite Huse, (pr_use _ _ _ _ _ _ _ _ _ Hp), (prepared_in_use Hinv Hl He Hp). simpl.
    split; [intros ?; by right|]. intros [?|?]; done.
  - intros b j Hb Hj. simpl in Hb. destruct (decide (j = i)) as [|Hji]; [done|].
    by destruct (prepared_owner Hinv Hl He Hp b j Hj Hji).
Qed.
End piece.

Section load.
Context `{World, HashOrder}.
Implicit Types (s : Fs) (T : Tables) (t : OpenTable) (i : Slot) (e : Entry) (ar : ChunkArena).

(** The state once chunk [k] has its arena slot: [s1] is the state after a
    possible eviction, [s2] the one after the chunk is entered. *)
Record loaded (s s2 : Fs) i e k a cur (s1 : Fs) (e1 : Entry) X d : Prop := {
  ld_quiet : quiet s s1;
  ld_inv : inv_x X (tables (fs_db s1)) (fs_table s1);
  ld_live : live (inodes (fs_table s1)) i;
  ld_entry : entry_at (inodes (fs_table s1)) i = Some e1;
  ld_same : same_open e e1;
  ld_prepared : prepared X (fs_table s1) (fs_table s2) i e1 d k a (cur (tables (fs_db s1)));
  ld_tables : tables (fs_db s2) = tables (fs_db s1);
  ld_rest : fs_last_flush s2 = fs_last_flush s1 /\ fs_kernel_cache s2 = fs_kernel_cache s1 }.

(** Entering a chunk in the index, after [arena] has been filled. *)
Lemma wp_enter_chunk s1 i e1 k a cur s2 (Q : ArenaSlot -> Fs -> Prop) (R : Z -> Fs -> Prop) :
  inv_x (Some a) (tables (fs_db s1)) (fs_table s1) ->
  live (inodes (fs_table s1)) i -> entry_at (inodes (fs_table s1)) i = Some e1 ->
  dirty_lookup (e_dirty e1) k = None ->
  inodes (fs_table s2) = inodes (fs_table s1) -> handles (fs_table s2) = handles (fs_table s1) ->
  closing (fs_table s2) = closing (fs_table s1) ->
  arena_wf (arena (fs_table s2)) ->
  (forall b, in_use (arena (fs_table s2)) b <-> in_use (arena (fs_table s1)) b) ->
  (forall b, in_use (arena (fs_table s1)) b -> b <> a ->
     slot_data (arena (fs_table s2)) b = slot_data (arena (fs_table s1)) b) ->
  slot_data (arena (fs_table s2)) a = cur ->
  (forall io d, prepared (Some a) (fs_table s1) (with_slots io (fs_table s2)) i e1 d k a cur ->
     Q a (set_table (with_slots io (fs_table s2)) s2)) ->
  wp (dirty ← Shared.column oi_dirty i;
      position ← unwrap (match dirty_find dirty k with inl _ => None | inr position => Some position end);
      dirty ← unwrap (dirty_insert dirty position k a);
      Shared.store (fun io => set_dirty io i dirty) ;;
      mret a) Q R s2.
Proof.
  intros Hinv Hl He Hn Hio Hh Hc Har Huse Hdata Hcur HQ.
  assert (entry_at (inodes (fs_table s2)) i = Some e1) as He2 by (by rewrite Hio).
  destruct (fi_entry _ _ _ Hinv i e1 Hl He) as [r Hok]. pose proof (eo_sorted _ _ _ _ Hok) as Hs.
  fs_col He2. pose proof (dirty_find_spec (e_dirty e1) k Hs) as Hfind.
  destruct (dirty_find (e_dirty e1) k) as [p|p]; [destruct Hfind as (b & _ & Hb); congruence|].
  destruct Hfind as (Hlen & _ & Hlt & Hgt).
  destruct (dirty_insert_spec (e_dirty e1) p k a Hs Hlen Hlt Hgt) as (d & Hd & Hds & Hperm & Hlk).
  apply wp_bind. eapply wp_unwrap; [done|]. apply wp_bind. eapply wp_unwrap; [done|].
  apply wp_bind. eapply (wp_store set_dirty with_dirty); [by rewrite Hio; apply Hinv|exact He2|].
  intros io Hup. apply wp_ret, (HQ io d). constructor; simpl; try done; [by right|].
  split; [|done]. simpl. by rewrite <- Hio.
Qed.

Lemma fill_from_storage s1 a buffer out ino k :
  inv_x (Some a) (tables (fs_db s1)) (fs_table s1) -> valid_ino ino -> valid_chunk k ->
  zlen buffer = CHUNK_SIZE ->
  let st := stored_chunk (tables (fs_db s1)) ino k in
  zlen out = zlen buffer ->
  (forall i, 0 <= i -> zget out i = if decide (i < zlen st) then zget st i else zget buffer i) ->
  exists ar1 ar2, arena_store_buffer (arena (fs_table s1)) a out = Some ar1 /\
    arena_set_len ar1 a (zlen st) = Some ar2 /\ arena_wf ar2 /\
    (forall b, in_use ar2 b <-> in_use (arena (fs_table s1)) b) /\
    (forall b, in_use (arena (fs_table s1)) b -> b <> a ->
       slot_data ar2 b = slot_data (arena (fs_table s1)) b) /\
    slot_data ar2 a = st.
Proof.
  intros Hinv Hi Hk Hb st Hlen Hout.
  assert (in_use (arena (fs_table s1)) a) as [Ha _] by (apply (fi_used _ _ _ Hinv); by left).
  pose proof (stored_chunk_le _ _ _ (proj1 (fi_db _ _ _ Hinv)) Hi Hk) as Hst. fold st in Hst.
  pose proof (zlen_nonneg st).
  destruct (arena_fill_spec (arena (fs_table s1)) a out (zlen st)) as
    (ar1 & ar2 & Hs1 & Hs2 & Hwf & Hsame & Hl & Hother & Hdata); [apply Hinv|done|lia|lia|].
  exists ar1, ar2. split_and!; try done.
  - intros b. by apply same_slots_in_use.
  - intros b [Hb' _] Hba. by apply Hother.
  - rewrite Hdata. apply zlist_eq; [rewrite zlen_sub; lia|]. intros i Hil.
    rewrite zlen_sub in Hil by lia. rewrite zget_sub, decide_True by lia.
    rewrite Hout, decide_True by lia. f_equal; lia.
Qed.

Lemma wp_load_chunk i e k (full : bool) (Q : ArenaSlot -> Fs -> Prop) (R : Z -> Fs -> Prop) s :
  fs_inv s -> live (inodes (fs_table s)) i -> entry_at (inodes (fs_table s)) i = Some e ->
  valid_chunk k -> dirty_lookup (e_dirty e) k = None ->
  (forall a s2 s1 e1 X d, loaded s s2 i e k a
     (fun T => if full then [] else stored_chunk T (e_ino e) k) s1 e1 X d -> Q a s2) ->
  (forall n s', db_failure n -> fs_inv s' -> quiet s s' -> live (inodes (fs_table s')) i -> R n s') ->
  wp (Shared.load_chunk i (e_ino e) k full) Q R s.
Proof.
  intros Hinv Hl He Hk Hn HQ HR. unfold Shared.load_chunk. apply wp_bind.
  apply wp_alloc_chunk; [done| |].
  2:{ intros n s' Hf Hs. apply HR; [done|by eapply same_state_inv|by apply quiet_state|].
      by destruct Hs as (_ & -> & _). }
  intros a s1 Hinv1 Hempty Hq Hl1. specialize (Hl1 Hl).
  destruct (inv_live _ _ _ _ Hinv1 Hl1) as (e1 & r1 & He1 & Hok1 & _).
  destruct (q_back _ _ Hq i e1 Hl1 He1) as (_ & e0 & He0 & Hso & Hd). simplify_eq.
  assert (dirty_lookup (e_dirty e1) k = None) as Hn1 by (by destruct Hd as [->| ->]).
  pose proof (same_open_fields _ _ Hso) as (Hino & _).
  assert (in_use (arena (fs_table s1)) a) as [Ha _] by (apply (fi_used _ _ _ Hinv1); by left).
  destruct full.
  - apply wp_bind, wp_ret. apply (wp_enter_chunk s1 i e1 k a []); try done; [apply Hinv1|].
    intros io d Hp. by eapply (HQ a _ s1 e1 (Some a) d).
  - apply wp_bind, wp_bind, wp_table.
    pose proof (slot_bounds _ _ (fi_arena _ _ _ Hinv1) Ha) as Hb.
    assert (0 < CHUNK_SIZE) by clia.
    assert (valid_ino (e_ino e)) as Hv by (rewrite <- Hino; by eapply entry_valid).
    set (base := a * CHUNK_SIZE) in *. apply wp_bind. eapply wp_unwrap; [apply slice_Some; lia|].
    fold base. set (buffer := sub _ base _). assert (zlen buffer = CHUNK_SIZE) as Hbl
      by (unfold buffer; rewrite zlen_sub; lia).
    apply wp_match_result, wp_db, wp_read_chunk_into.
    + intros out c Hc n Hlen Hout.
      assert (n = zlen (stored_chunk (tables (fs_db s1)) (e_ino e) k)) as Hnn.
      { pose proof (stored_chunk_le _ _ _ (proj1 (fi_db _ _ _ Hinv1)) Hv Hk). unfold n. lia. }
      rewrite Hnn in *. destruct (fill_from_storage s1 a buffer out (e_ino e) k)
        as (ar1 & ar2 & Ha1 & Ha2 & Hwf & Huse & Hother & Hdata); [done..|].
      apply wp_bind. eapply wp_unwrap; [exact Ha1|]. apply wp_bind. eapply wp_unwrap; [exact Ha2|].
      apply wp_update.
      apply (wp_enter_chunk s1 i e1 k a (stored_chunk (tables (fs_db s1)) (e_ino e) k)); try done.
      intros io d Hp. by eapply (HQ a _ s1 e1 (Some a) d).
    + intros de c Hde Hc. apply wp_bind, wp_update, wp_throw. simpl.
      destruct (arena_release_spec _ _ (fi_arena _ _ _ Hinv1)
        (proj2 (fi_used _ _ _ Hinv1 a) (or_introl eq_refl))) as (Hwf & Huse & Hdata & _).
      apply HR; [by exists de| | |done].
      * unfold fs_inv. simpl. rewrite Hc. apply (inv_arena (Some a)); [done..|by intros; apply Hdata| |done].
        intros b. rewrite Huse, (fi_used _ _ _ Hinv1). split.
        -- intros [[?|?] ?]; [congruence|by right].
        -- intros [|[j Hj]]; [done|]. split; [right; by exists j|]. intros ->.
           by apply (fi_extra _ _ _ Hinv1 a j).
      * eapply (quiet_trans s s1 _ Hinv1 Hq).
        eapply (quiet_trans s1 (set_db c s1) _ (X := Some a)); [simpl; by rewrite Hc|by apply quiet_state, same_state_db|].
        apply (quiet_arena (Some a) (set_db c s1)); [simpl; by rewrite Hc|]. by intros; apply Hdata.
Qed.
End load.

(** ** The piece of a write that falls in one chunk *)

(** The fields of an entry that a write leaves alone. *)
Definition same_meta (e e' : Entry) : Prop :=
  e_ino e' = e_ino e /\ e_kind e' = e_kind e /\ e_mtime e' = e_mtime e /\
  e_refs e' = e_refs e /\ e_unlinked e' = e_unlinked e.

#[global] Instance same_meta_preorder : PreOrder same_meta.
Proof.
  split; [by intros e|]. intros e1 e2 e3 (?&?&?&?&?) (?&?&?&?&?). split_and!; congruence.
Qed.

Lemma same_open_meta e e' : same_open e e' -> same_meta e e'.
Proof. intros (?&?&?&?&?&?)%same_open_fields. by split_and!. Qed.

Definition same_ids (e e' : Entry) : Prop :=
  e_ino e' = e_ino e /\ e_kind e' = e_kind e /\ e_refs e' = e_refs e /\ e_unlinked e' = e_unlinked e.

#[global] Instance same_ids_preorder : PreOrder same_ids.
Proof. split; [by intros e|]. intros e1 e2 e3 (?&?&?&?) (?&?&?&?). split_and!; congruence. Qed.

(** The names and the open slots are as before; contents may differ. *)
Record steady (s s' : Fs) : Prop := {
  st_names : same_names (tables (fs_db s)) (tables (fs_db s'));
  st_handles : handles (fs_table s') = handles (fs_table s);
  st_closing : closing (fs_table s') = closing (fs_table s);
  st_last : fs_last_flush s' = fs_last_flush s;
  st_cache : fs_kernel_cache s' = fs_kernel_cache s;
  st_back : forall j e', live (inodes (fs_table s')) j -> entry_at (inodes (fs_table s')) j = Some e' ->
    live (inodes (fs_table s)) j /\
    exists e, entry_at (inodes (fs_table s)) j = Some e /\ same_ids e e';
  st_open : forall j e, live (inodes (fs_table s)) j -> entry_at (inodes (fs_table s)) j = Some e ->
    e_refs e <> 0 -> live (inodes (fs_table s')) j }.

Definition others_same (ino : Z) (s s' : Fs) : Prop :=
  forall k, valid_ino k -> k <> ino ->
    same_file (tables (fs_db s)) (fs_table s) (tables (fs_db s')) (fs_table s') k.

#[global] Instance others_same_preorder ino : PreOrder (others_same ino).
Proof.
  split; [by intros s k|]. intros s1 s2 s3 H1 H2 k Hk Hn.
  destruct (H1 k Hk Hn) as [A1 B1], (H2 k Hk Hn) as [A2 B2]. split; [congruence|].
  intros p Hp. by rewrite B2, B1.
Qed.

(** File [ino] has size [size] and bytes [f]. *)
Definition contents (s : Fs) (ino size : Z) (f : Z -> byte) : Prop :=
  file_size (tables (fs_db s)) (fs_table s) ino = Some size /\
  forall p, 0 <= p < MAX_FILE_SIZE -> file_byte (tables (fs_db s)) (fs_table s) ino p = f p.

Section steady.
Implicit Types (s : Fs) (i : Slot) (e : Entry).

Lemma quiet_steady s s' : quiet s s' -> steady s s'.
Proof.
  intros []. constructor; try done. intros j e' Hl He.
  destruct (q_back j e' Hl He) as (Hl0 & e & He0 & Hs & _). split; [done|].
  exists e. split; [done|]. by apply same_open_meta in Hs as (?&?&_&?&?).
Qed.

Lemma quiet_others s s' ino : quiet s s' -> others_same ino s s'.
Proof. intros [Hf]. by intros k Hk _; apply Hf. Qed.

Lemma quiet_contents s s' ino size f :
  quiet s s' -> valid_ino ino -> contents s ino size f -> contents s' ino size f.
Proof.
  intros [Hf] Hi [Hs Hb]. destruct (Hf ino Hi) as [A B]. split; [congruence|].
  intros p Hp. by rewrite B, Hb.
Qed.

Lemma steady_trans {X} s1 s2 s3 :
  inv_x X (tables (fs_db s2)) (fs_table s2) -> steady s1 s2 -> steady s2 s3 -> steady s1 s3.
Proof.
  intros Hinv [] []. constructor; try congruence.
  - by etrans.
  - intros j e3 Hl3 He3. destruct (st_back1 _ _ Hl3 He3) as (Hl2 & e2 & He2 & Hs2).
    destruct (st_back0 _ _ Hl2 He2) as (Hl1 & e1 & He1 & Hs1).
    split; [done|]. exists e1. split; [done|]. by etrans.
  - intros j e Hl He Hr. pose proof (st_open0 j e Hl He Hr) as Hl2.
    destruct (inv_live _ _ _ _ Hinv Hl2) as (e2 & _ & He2 & _).
    destruct (st_back0 _ _ Hl2 He2) as (_ & e' & He' & Hs). simplify_eq.
    destruct Hs as (_ & _ & Hrr & _). apply (st_open1 j e2); [done..|]. congruence.
Qed.

(** A slot whose entry was updated in place. *)
Lemma slot_changed_steady X s s' i e e' :
  inv_x X (tables (fs_db s)) (fs_table s) -> live (inodes (fs_table s)) i ->
  entry_at (inodes (fs_table s)) i = Some e ->
  slot_changed (fs_table s) (fs_table s') i e' -> same_ids e e' ->
  tables (fs_db s') = tables (fs_db s) -> fs_last_flush s' = fs_last_flush s ->
  fs_kernel_cache s' = fs_kernel_cache s -> steady s s'.
Proof.
  intros Hinv Hl He (Hup & Hh & Hc) Hids HT Hlf Hkc. constructor; try done.
  - by rewrite HT.
  - intros j ej Hlj Hej. rewrite (live_updated _ _ _ _ _ Hup) in Hlj. split; [done|].
    rewrite (up_entry _ _ _ _ Hup) in Hej. case_decide; simplify_eq; eauto.
    exists ej. done.
  - intros j ej Hlj _ _. by rewrite (live_updated _ _ _ _ _ Hup).
Qed.

Lemma live_contents X s i e :
  inv_x X (tables (fs_db s)) (fs_table s) -> live (inodes (fs_table s)) i ->
  entry_at (inodes (fs_table s)) i = Some e ->
  contents s (e_ino e) (e_size e) (entry_byte (tables (fs_db s)) (arena (fs_table s)) e).
Proof.
  intros Hinv Hl He. pose proof (entry_of_live _ _ _ _ _ Hinv Hl He) as Ho.
  split; [unfold file_size; by rewrite Ho|]. intros p Hp. unfold file_byte. by rewrite Ho.
Qed.
End steady.

Section write_piece.
Context `{World, HashOrder}.
Implicit Types (s : Fs) (T : Tables) (t : OpenTable) (i : Slot) (e : Entry).

(** The file byte at [p] after chunk [k] of the write [data] at [sp] is in. *)
Definition piece_byte (sp : ChunkSpan) (data : list byte) (k : Z) (f : Z -> byte) (p : Z) : byte :=
  if decide (p / CHUNK_SIZE = k /\ span_start sp <= p < span_end sp)
  then zget data (p - span_start sp) else f p.

Definition piece_size (sp : ChunkSpan) (k size : Z) : Z :=
  Z.max size (k * CHUNK_SIZE + chunk_end (piece sp k)).

(** A change of the contents of slot [i]'s file, from [s] where it has size
    [size] and bytes [f]. *)
Record wrote s s' i e (size : Z) (f : Z -> byte) : Prop := {
  wr_inv : fs_inv s';
  wr_steady : steady s s';
  wr_others : others_same (e_ino e) s s';
  wr_live : live (inodes (fs_table s')) i;
  wr_entry : exists e', entry_at (inodes (fs_table s')) i = Some e' /\ same_meta e e';
  wr_contents : contents s' (e_ino e) size f }.

Lemma piece_max sp k :
  span_ok sp -> span_first sp <= k <= span_last sp ->
  k * CHUNK_SIZE + chunk_end (piece sp k) <= span_end sp.
Proof.
  intros Hok Hk. rewrite piece_eq by done. simpl. lia.
Qed.

(** The bytes of the file once the arena holds the piece. *)
Lemma piece_bytes s1 s2 ar3 T X i e d k a cur sp data sz p :
  inv_x X T (fs_table s1) -> live (inodes (fs_table s1)) i ->
  entry_at (inodes (fs_table s1)) i = Some e ->
  prepared X (fs_table s1) (fs_table s2) i e d k a cur ->
  span_ok sp -> span_end sp <= MAX_FILE_SIZE -> span_first sp <= k <= span_last sp ->
  (forall b, in_use (arena (fs_table s1)) b -> b <> a ->
     slot_data ar3 b = slot_data (arena (fs_table s2)) b) ->
  (forall o, 0 <= o -> zget (slot_data ar3 a) o =
     if decide (chunk_start (piece sp k) <= o < chunk_end (piece sp k))
     then zget (sub data (buf_start (piece sp k)) (buf_end (piece sp k))) (o - chunk_start (piece sp k))
     else zget cur o) ->
  zlen data = span_end sp - span_start sp ->
  (forall o, 0 <= o < CHUNK_SIZE ->
     ~ (chunk_start (piece sp k) <= o < chunk_end (piece sp k)) ->
     zget cur o = entry_byte T (arena (fs_table s1)) e (k * CHUNK_SIZE + o)) ->
  0 <= p < MAX_FILE_SIZE ->
  entry_byte T ar3 (with_size (with_dirty e d) sz) p =
    piece_byte sp data k (entry_byte T (arena (fs_table s1)) e) p.
Proof.
  intros Hinv Hl He Hp Hok Hend Hk Hother Hdata Hlen Hcur Hpos.
  pose proof (piece_bounds sp k Hok Hk) as Hb. cbv zeta in Hb.
  pose proof (piece_covers sp k (p - span_start sp) Hok Hk) as Hcov.
  replace (span_start sp + (p - span_start sp)) with p in Hcov by lia.
  assert (0 < CHUNK_SIZE) by clia. pose proof (Z.div_mod p CHUNK_SIZE ltac:(lia)) as Hdm.
  pose proof (Z.mod_pos_bound p CHUNK_SIZE ltac:(lia)).
  unfold piece_byte, entry_byte at 1. simpl. rewrite (pr_lookup _ _ _ _ _ _ _ _ _ Hp).
  destruct (decide (p / CHUNK_SIZE = k)) as [Hpk|Hpk].
  - rewrite Hdata by lia. rewrite Hpk in *.
    destruct (decide (span_start sp <= p < span_end sp)) as [Hin|Hout].
    + pose proof (proj1 (Hcov ltac:(lia)) eq_refl).
      rewrite (decide_True (P := k = k /\ _)) by done. rewrite decide_True by lia.
      rewrite zget_sub by lia. rewrite decide_True by lia. f_equal. lia.
    + assert (~ (chunk_start (piece sp k) <= p mod CHUNK_SIZE < chunk_end (piece sp k))) by lia.
      rewrite decide_False by done. rewrite decide_False by tauto.
      rewrite Hcur by (done || lia). f_equal. lia.
  - rewrite decide_False by tauto. unfold entry_byte.
    destruct (dirty_lookup (e_dirty e) (p / CHUNK_SIZE)) as [b|] eqn:Hlk; [|done].
    assert ((p / CHUNK_SIZE, b) ∈ e_dirty e) as Hin by (by apply assoc_Some_1).
    assert ((p / CHUNK_SIZE, b) ∈ d) as Hind.
    { apply (dirty_lookup_Some _ _ _ (pr_sorted _ _ _ _ _ _ _ _ _ Hp)).
      by rewrite (pr_lookup _ _ _ _ _ _ _ _ _ Hp), decide_False. }
    destruct (prepared_other Hinv Hl He Hp _ _ Hind Hpk) as [_ Hba].
    pose proof (dirty_in_use _ _ _ _ _ _ _ Hinv Hl He Hin) as Hu.
    rewrite Hother by done. by rewrite (pr_data _ _ _ _ _ _ _ _ _ Hp).
Qed.

(** What the chunk buffer holds before the copy, for a write of [data] at [sp]. *)
Record piece_base (T : Tables) t e k (c : list byte) (sp : ChunkSpan) (data : list byte) : Prop := {
  pb_kind : e_kind e = RegularFile;
  pb_span : span_ok sp;
  pb_end : span_end sp <= MAX_FILE_SIZE;
  pb_len : zlen data = span_end sp - span_start sp;
  pb_chunk : span_first sp <= k <= span_last sp;
  pb_fits : zlen c = 0 \/ k * CHUNK_SIZE + zlen c <= e_size e;
  pb_stored : zlen (stored_chunk T (e_ino e) k) <= Z.max (zlen c) (chunk_end (piece sp k));
  pb_rest : forall o, 0 <= o < CHUNK_SIZE ->
    ~ (chunk_start (piece sp k) <= o < chunk_end (piece sp k)) ->
    zget c o = entry_byte T (arena t) e (k * CHUNK_SIZE + o) }.

(** The copy of a piece into the arena, once its chunk is loaded. *)
Section put_piece.
Context {s s2 s1 s3 : Fs} {i : Slot} {e e1 : Entry} {X : option ArenaSlot} {d : DirtyIdx}.
Context {k : Z} {a : ArenaSlot} {cur : Tables -> list byte} {sp : ChunkSpan} {data : list byte}.
Let c : list byte := cur (tables (fs_db s1)).
Let sz : Z := piece_size sp k (e_size e1).
Hypothesis Hld : loaded s s2 i e k a cur s1 e1 X d.
Hypothesis Hpb : piece_base (tables (fs_db s1)) (fs_table s1) e1 k c sp data.

Let Hinv := ld_inv _ _ _ _ _ _ _ _ _ _ _ Hld.
Let Hlive := ld_live _ _ _ _ _ _ _ _ _ _ _ Hld.
Let Hentry := ld_entry _ _ _ _ _ _ _ _ _ _ _ Hld.
Let Hprep := ld_prepared _ _ _ _ _ _ _ _ _ _ _ Hld.

(** The arena after the copy. *)
Record copied (ar : ChunkArena) : Prop := {
  cp_wf : arena_wf ar;
  cp_use : forall b, in_use ar b <-> in_use (arena (fs_table s2)) b;
  cp_len : zlen (slot_data ar a) = Z.max (zlen c) (chunk_end (piece sp k));
  cp_others : forall b, in_use (arena (fs_table s1)) b -> b <> a ->
    slot_data ar b = slot_data (arena (fs_table s2)) b;
  cp_data : forall o, 0 <= o -> zget (slot_data ar a) o =
    if decide (chunk_start (piece sp k) <= o < chunk_end (piece sp k))
    then zget (sub data (buf_start (piece sp k)) (buf_end (piece sp k))) (o - chunk_start (piece sp k))
    else zget c o }.

Lemma put_in_range : 0 <= a < zlen (a_len (arena (fs_table s2))).
Proof.
  assert (in_use (arena (fs_table s2)) a) as [Ha _]; [|done].
  apply (pr_use _ _ _ _ _ _ _ _ _ Hprep), (prepared_in_use Hinv Hlive Hentry Hprep).
  left. apply (prepared_snd Hprep). by left.
Qed.

Lemma put_arena :
  exists ar, arena_write (arena (fs_table s2)) a (chunk_start (piece sp k)) (chunk_end (piece sp k))
      (sub data (buf_start (piece sp k)) (buf_end (piece sp k))) = Some ar /\ copied ar.
Proof.
  destruct Hpb as [_ Hok Hend Hlen Hk _ _ _].
  pose proof (piece_bounds sp k Hok Hk) as Hb. cbv zeta in Hb. pose proof put_in_range as Ha.
  destruct (arena_write_spec (arena (fs_table s2)) a (chunk_start (piece sp k)) (chunk_end (piece sp k))
    (sub data (buf_start (piece sp k)) (buf_end (piece sp k)))) as (ar & Har & Hwf & Hsame & Hsl & Hoth & Hdata);
    [apply Hprep|done|lia|lia|rewrite zlen_sub; lia|].
  rewrite (pr_cur _ _ _ _ _ _ _ _ _ Hprep) in Hdata. exists ar. split; [done|]. constructor; try done.
  - intros b. by apply same_slots_in_use.
  - rewrite zlen_slot_data, Hsl; [|done|by rewrite (proj1 Hsame)].
    unfold c. rewrite <- (pr_cur _ _ _ _ _ _ _ _ _ Hprep).
    by rewrite zlen_slot_data by (done || apply Hprep).
  - intros b Hb' Hba. apply Hoth; [|done]. by apply (pr_use _ _ _ _ _ _ _ _ _ Hprep) in Hb' as [? _].
Qed.

Lemma put_bounds :
  valid_chunk k /\ 0 <= k * CHUNK_SIZE /\ 0 < chunk_end (piece sp k) /\
  k * CHUNK_SIZE + chunk_end (piece sp k) <= MAX_FILE_SIZE /\ e_size e1 <= MAX_FILE_SIZE.
Proof.
  destruct Hpb as [Hkind Hok Hend Hlen Hk _ _ _].
  pose proof (piece_bounds sp k Hok Hk) as Hb. cbv zeta in Hb.
  pose proof (piece_max sp k Hok Hk). pose proof (piece_chunk_valid _ _ Hok Hend Hk) as Hv.
  destruct (fi_entry _ _ _ Hinv i e1 Hlive Hentry) as [r Hok1].
  pose proof (eo_max _ _ _ _ Hok1 Hkind). split; [done|]. unfold valid_chunk in Hv.
  split; [clia|lia].
Qed.

Hypothesis Hslot : slot_changed (fs_table s2) (fs_table s3) i (with_size (with_dirty e1 d) sz).
Hypothesis Harena : copied (arena (fs_table s3)).
Hypothesis Htables : tables (fs_db s3) = tables (fs_db s1).
Hypothesis Hrest : fs_last_flush s3 = fs_last_flush s1 /\ fs_kernel_cache s3 = fs_kernel_cache s1.

Lemma put_inv :
  fs_inv s3 /\ slot_changed (fs_table s1) (fs_table s3) i (with_size (with_dirty e1 d) sz).
Proof.
  destruct put_bounds as (Hv & Hk0 & Hce & Hmax & Hsm). pose proof (zlen_nonneg c).
  destruct (fi_entry _ _ _ Hinv i e1 Hlive Hentry) as [r Hok1]. unfold fs_inv. rewrite Htables.
  apply (piece_inv X _ (fs_table s1) (fs_table s2) _ i e1 r d k a c sz); try done; try apply Hpb.
  - apply Harena.
  - apply Harena.
  - apply Harena.
  - unfold sz, piece_size. lia.
  - rewrite (cp_len _ Harena). unfold sz, piece_size. destruct (pb_fits _ _ _ _ _ _ _ Hpb); lia.
  - rewrite (cp_len _ Harena). apply Hpb.
Qed.

Lemma put_others : others_same (e_ino e1) s1 s3.
Proof.
  destruct put_inv as [_ Hch]. intros j Hj Hne.
  apply (other_file_same _ _ _ _ _ _ _ _ _ Hinv Hlive Hentry Hch); try done; [by rewrite Htables..|].
  intros b j' Hj' Hb.
  assert (in_use (arena (fs_table s1)) b) by (apply (fi_used _ _ _ Hinv); eauto).
  destruct (prepared_owner Hinv Hlive Hentry Hprep b j' Hb Hj') as [Hba _].
  rewrite (cp_others _ Harena) by done. by apply (pr_data _ _ _ _ _ _ _ _ _ Hprep).
Qed.

Lemma put_contents size f :
  contents s1 (e_ino e1) size f ->
  contents s3 (e_ino e1) (piece_size sp k size) (piece_byte sp data k f).
Proof.
  intros [Hsz Hf]. destruct put_inv as [_ Hch].
  pose proof (live_contents _ _ _ _ Hinv Hlive Hentry) as [Hcs Hcb].
  assert (size = e_size e1) as -> by congruence.
  pose proof (changed_entry_of _ _ _ _ _ _ _ Hinv Hlive Hentry Hch eq_refl) as Hnew.
  split; [unfold file_size; by rewrite Hnew|]. intros p Hp.
  unfold file_byte at 1. rewrite Hnew, Htables. destruct Hpb as [Hkind Hok Hend Hlen Hk _ _ Hcur].
  rewrite (piece_bytes s1 s2 _ _ X i e1 d k a c sp data sz p Hinv Hlive Hentry Hprep);
    try done; try apply Harena.
  unfold piece_byte. case_decide; [done|]. by rewrite <- Hcb, Hf.
Qed.

Lemma put_wrote size f :
  valid_ino (e_ino e) -> contents s (e_ino e) size f ->
  wrote s s3 i e (piece_size sp k size) (piece_byte sp data k f).
Proof.
  intros Hi Hc. destruct put_inv as [Hi3 Hch].
  pose proof (ld_quiet _ _ _ _ _ _ _ _ _ _ _ Hld) as Hq.
  pose proof (ld_same _ _ _ _ _ _ _ _ _ _ _ Hld) as Hso.
  pose proof (same_open_fields _ _ Hso) as (Hino & Hkd & _ & Hmt & Hrf & Hun).
  constructor; [done| | | | |].
  - apply (steady_trans s s1 s3 Hinv); [by apply quiet_steady|].
    apply (slot_changed_steady X s1 s3 i e1 _ Hinv Hlive Hentry Hch);
      [by split_and!|done|apply Hrest..].
  - etrans; [by apply quiet_others|]. rewrite <- Hino. apply put_others.
  - by apply (live_updated _ _ _ _ _ (proj1 Hch)).
  - eexists. split; [rewrite (up_entry _ _ _ _ (proj1 Hch)), decide_True by done; done|].
    by split_and!.
  - rewrite <- Hino. apply put_contents. rewrite Hino. by eapply quiet_contents.
Qed.
End put_piece.

Lemma wp_put_piece i e s s2 s1 e1 X d k a cur sp data (Q : unit -> Fs -> Prop) (R : Z -> Fs -> Prop) :
  loaded s s2 i e k a cur s1 e1 X d -> valid_ino (e_ino e) ->
  piece_base (tables (fs_db s1)) (fs_table s1) e1 k (cur (tables (fs_db s1))) sp data ->
  (forall s', (forall size f, contents s (e_ino e) size f ->
     wrote s s' i e (piece_size sp k size) (piece_byte sp data k f)) -> Q tt s') ->
  wp (input ← unwrap (slice data (buf_start (piece sp k)) (buf_end (piece sp k)));
      t ← Shared.table;
      ar ← unwrap (arena_write (arena t) a (chunk_start (piece sp k)) (chunk_end (piece sp k)) input);
      Shared.update (with_arena ar) ;;
      size ← Shared.column oi_size i;
      Shared.store (fun io => OpenTable.set_size io i
        (Z.max size (u64 (k * CHUNK_SIZE + chunk_end (piece sp k)))))) Q R s2.
Proof.
  intros Hld Hi Hpb HQ. destruct (put_bounds Hld Hpb) as (Hv & Hk0 & Hce & Hmax & _).
  pose proof (piece_bounds sp k (pb_span _ _ _ _ _ _ _ Hpb) (pb_chunk _ _ _ _ _ _ _ Hpb)) as Hb.
  cbv zeta in Hb. pose proof (pb_len _ _ _ _ _ _ _ Hpb).
  apply wp_bind. eapply wp_unwrap; [apply slice_Some; lia|]. apply wp_bind, wp_table.
  destruct (put_arena Hld Hpb) as (ar & Har & Hcp).
  apply wp_bind. eapply wp_unwrap; [exact Har|]. apply wp_bind, wp_update.
  pose proof (ld_prepared _ _ _ _ _ _ _ _ _ _ _ Hld) as Hprep.
  pose proof (pr_slot _ _ _ _ _ _ _ _ _ Hprep) as (Hup & Hh & Hcl).
  assert (entry_at (inodes (fs_table s2)) i = Some (with_dirty e1 d)) as He2
    by (by rewrite (up_entry _ _ _ _ Hup), decide_True).
  fs_col He2. eapply (wp_store OpenTable.set_size with_size); [|exact He2|].
  { simpl. by eapply updated_wf; [apply Hld|exact Hup|apply Hld|apply Hld|]. }
  intros io Hup2. cbn [fs_table set_table inodes with_arena with_slots e_size with_dirty] in Hup2.
  rewrite u64_id in Hup2 by clia. apply HQ. intros size f Hc.
  apply (put_wrote Hld Hpb); try done; [apply Hld|].
  destruct Hld as [_ _ _ _ _ _ _ []]. done.
Qed.
End write_piece.

Section write_slot.
Context `{World, HashOrder}.
Implicit Types (s : Fs) (T : Tables) (t : OpenTable) (i : Slot) (e : Entry).

(** A chunk that is dirty already needs no loading. *)
Lemma loaded_dirty s i e k a :
  fs_inv s -> live (inodes (fs_table s)) i -> entry_at (inodes (fs_table s)) i = Some e ->
  dirty_lookup (e_dirty e) k = Some a ->
  loaded s s i e k a (fun _ => slot_data (arena (fs_table s)) a) s e None (e_dirty e).
Proof.
  intros Hinv Hl He Hk. destruct (fi_entry _ _ _ Hinv i e Hl He) as [r Hok].
  pose proof (eo_sorted _ _ _ _ Hok) as Hs.
  constructor; try done; [by apply quiet_refl|]. constructor; try done.
  - left. split_and!; [done..|]. by apply dirty_lookup_Some.
  - intros c. case_decide as Hc; [by subst|done].
  - split; [|done]. replace (with_dirty e (e_dirty e)) with e by (by destruct e).
    apply updated_refl; [apply Hinv|done].
  - apply Hinv.
Qed.

(** The buffer of a dirty chunk is the file's contents there. *)
Lemma piece_base_dirty T t i e k a sp data :
  inv_x None T t -> live (inodes t) i -> entry_at (inodes t) i = Some e ->
  e_kind e = RegularFile -> span_ok sp -> span_end sp <= MAX_FILE_SIZE ->
  zlen data = span_end sp - span_start sp -> span_first sp <= k <= span_last sp ->
  dirty_lookup (e_dirty e) k = Some a ->
  piece_base T t e k (slot_data (arena t) a) sp data.
Proof.
  intros Hinv Hl He Hkind Hok Hend Hlen Hk Hlk.
  destruct (fi_entry _ _ _ Hinv i e Hl He) as [r Hent]. pose proof (eo_sorted _ _ _ _ Hent) as Hs.
  destruct (eo_chunk _ _ _ _ Hent k a) as (_ & Hsz & Hst); [by apply dirty_lookup_Some|].
  constructor; try done; [by right|lia|]. intros o Ho _. unfold entry_byte.
  assert (0 < CHUNK_SIZE) by clia.
  replace ((k * CHUNK_SIZE + o) / CHUNK_SIZE) with k by (apply (Z.div_unique _ _ _ o); lia).
  rewrite Hlk. f_equal. apply (Z.mod_unique _ _ k); lia.
Qed.

(** The buffer of a chunk that is not dirty: its stored bytes, or nothing when
    the write covers it. *)
Lemma piece_base_stored X T t i e k sp data :
  inv_x X T t -> live (inodes t) i -> entry_at (inodes t) i = Some e ->
  e_kind e = RegularFile -> span_ok sp -> span_end sp <= MAX_FILE_SIZE ->
  zlen data = span_end sp - span_start sp -> span_first sp <= k <= span_last sp ->
  dirty_lookup (e_dirty e) k = None ->
  piece_base T t e k
    (if is_full_chunk (piece sp k) then [] else stored_chunk T (e_ino e) k) sp data.
Proof.
  intros Hinv Hl He Hkind Hok Hend Hlen Hk Hlk.
  destruct (fi_entry _ _ _ Hinv i e Hl He) as [r Hent].
  pose proof (entry_valid _ _ _ _ _ Hinv Hent) as Hi. pose proof (proj1 (fi_db _ _ _ Hinv)) as Hwf.
  pose proof (piece_chunk_valid _ _ Hok Hend Hk) as Hv. assert (0 < CHUNK_SIZE) by clia.
  pose proof (stored_chunk_le T (e_ino e) k Hwf Hi Hv).
  destruct (is_full_chunk (piece sp k)) eqn:Hfull.
  - apply andb_prop in Hfull as [Hs%Z.eqb_eq He'%Z.eqb_eq].
    constructor; try done; rewrite ?zlen_nil; [by left|lia|lia].
  - constructor; try done; [|lia|].
    + destruct (stored_chunk_bound T (e_ino e) k r Hwf (eo_row _ _ _ _ Hent) Hi Hv) as [|[_ Hb]];
        [by left|right]. pose proof (eo_size _ _ _ _ Hent). lia.
    + intros o Ho _. unfold entry_byte, stored_byte.
      replace ((k * CHUNK_SIZE + o) / CHUNK_SIZE) with k by (apply (Z.div_unique _ _ _ o); lia).
      replace ((k * CHUNK_SIZE + o) mod CHUNK_SIZE) with o by (apply (Z.mod_unique _ _ k); lia).
      by rewrite Hlk.
Qed.

Lemma wp_write_piece i e k sp data (Q : unit -> Fs -> Prop) (R : Z -> Fs -> Prop) s :
  fs_inv s -> live (inodes (fs_table s)) i -> entry_at (inodes (fs_table s)) i = Some e ->
  e_kind e = RegularFile -> span_ok sp -> span_end sp <= MAX_FILE_SIZE ->
  zlen data = span_end sp - span_start sp -> span_first sp <= k <= span_last sp ->
  (forall s', (forall size f, contents s (e_ino e) size f ->
     wrote s s' i e (piece_size sp k size) (piece_byte sp data k f)) -> Q tt s') ->
  (forall n s', db_failure n -> fs_inv s' -> quiet s s' -> live (inodes (fs_table s')) i -> R n s') ->
  wp (Shared.write_piece i (e_ino e) sp data k) Q R s.
Proof.
  intros Hinv Hl He Hkind Hok Hend Hlen Hk HQ HR. unfold Shared.write_piece.
  destruct (fi_entry _ _ _ Hinv i e Hl He) as [r Hent].
  pose proof (entry_valid _ _ _ _ _ Hinv Hent) as Hi.
  pose proof (piece_chunk_valid _ _ Hok Hend Hk) as Hv.
  fs_col He. pose proof (dirty_find_spec (e_dirty e) k (eo_sorted _ _ _ _ Hent)) as Hfind.
  apply wp_bind. destruct (dirty_find (e_dirty e) k) as [pos|pos].
  - destruct Hfind as (a & Hpos & Hlk).
    eapply wp_unwrap; [unfold dirty_slot_at; by rewrite Hpos|].
    eapply (wp_put_piece _ _ _ _ _ _ _ _ _ _ _ _ _ _ _ (loaded_dirty s i e k a Hinv Hl He Hlk) Hi);
      [by eapply piece_base_dirty|done].
  - destruct Hfind as (_ & Hlk & _). apply wp_load_chunk; [done..| |done].
    intros a s2 s1 e1 X d Hld.
    pose proof (same_open_fields _ _ (ld_same _ _ _ _ _ _ _ _ _ _ _ Hld)) as (Hino & Hkd & _).
    assert (dirty_lookup (e_dirty e1) k = None) as Hlk1.
    { destruct (q_back _ _ (ld_quiet _ _ _ _ _ _ _ _ _ _ _ Hld) i e1) as (_ & e0 & He0 & _ & Hd);
        [apply Hld|apply Hld|]. simplify_eq. by destruct Hd as [->| ->]. }
    eapply (wp_put_piece _ _ _ _ _ _ _ _ _ _ _ _ _ _ _ Hld Hi); [|done].
    rewrite <- Hino. eapply piece_base_stored; try done; [apply Hld..|congruence].
Qed.
End write_slot.

(** ** A whole write *)

(** The bytes of a write that the first [n] chunks of its span cover. *)
Definition upto (sp : ChunkSpan) (n : Z) : Z :=
  Z.max 0 (Z.min (span_end sp) ((span_first sp + n) * CHUNK_SIZE) - span_start sp).

Definition prefix_write (sp : ChunkSpan) (data : list byte) (n : Z) : Z * list byte :=
  (span_start sp, take (Z.to_nat (upto sp n)) data).

Section prefix.
Context {sp : ChunkSpan} {data : list byte}.
Hypothesis Hok : span_ok sp.
Hypothesis Hlen : zlen data = span_end sp - span_start sp.

Lemma upto_0 : upto sp 0 = 0.
Proof.
  destruct Hok as (Hs & _ & Hf & _). unfold upto. rewrite Hf. clia.
Qed.

Lemma upto_all : upto sp (span_last sp - span_first sp + 1) = zlen data.
Proof.
  destruct Hok as (Hs & _ & Hf & Hl). unfold upto. rewrite Hlen.
  replace (span_first sp + (span_last sp - span_first sp + 1)) with (span_last sp + 1) by lia.
  rewrite Hl. clia.
Qed.

Lemma upto_le n : 0 <= upto sp n <= zlen data.
Proof. destruct Hok as (Hs & _). unfold upto. lia. Qed.

Lemma zlen_prefix n : zlen (prefix_write sp data n).2 = upto sp n.
Proof. pose proof (upto_le n). unfold zlen in *. simpl. rewrite length_take. lia. Qed.

(** The next chunk extends the prefix to its own end. *)
Lemma upto_next n :
  0 <= n -> span_first sp + n <= span_last sp ->
  span_start sp + upto sp (n + 1) =
    (span_first sp + n) * CHUNK_SIZE + chunk_end (piece sp (span_first sp + n)) /\
  0 < upto sp (n + 1) /\ upto sp n <= upto sp (n + 1) /\
  span_start sp + upto sp n = Z.max (span_start sp) ((span_first sp + n) * CHUNK_SIZE).
Proof.
  intros Hn Hle. rewrite piece_eq by (done || lia). simpl.
  destruct Hok as (Hs & _ & Hf & Hl). unfold upto.
  assert (0 < CHUNK_SIZE) by clia.
  assert (span_start sp < (span_first sp + n) * CHUNK_SIZE + CHUNK_SIZE) by (rewrite Hf; clia).
  assert ((span_first sp + n) * CHUNK_SIZE < span_end sp) by (rewrite Hl in Hle; clia).
  replace ((span_first sp + (n + 1)) * CHUNK_SIZE)
    with ((span_first sp + n) * CHUNK_SIZE + CHUNK_SIZE) by lia.
  lia.
Qed.

Lemma prefix_size n size :
  0 <= n -> span_first sp + n <= span_last sp ->
  piece_size sp (span_first sp + n) (write_size size (prefix_write sp data n)) =
    write_size size (prefix_write sp data (n + 1)).
Proof.
  intros Hn Hle. destruct (upto_next n Hn Hle) as (He & Hpos & Hmono & _).
  pose proof (upto_le n). unfold piece_size, write_size. rewrite !zlen_prefix. simpl fst.
  rewrite <- He. destruct (Z.eqb_spec (upto sp n) 0), (Z.eqb_spec (upto sp (n + 1)) 0); lia.
Qed.

Lemma prefix_byte n f p :
  0 <= n -> span_first sp + n <= span_last sp -> 0 <= p ->
  piece_byte sp data (span_first sp + n) (write_bytes f (prefix_write sp data n)) p =
    write_bytes f (prefix_write sp data (n + 1)) p.
Proof.
  intros Hn Hle Hp. destruct (upto_next n Hn Hle) as (He & Hpos & Hmono & Hs).
  pose proof (upto_le n). pose proof (upto_le (n + 1)).
  unfold piece_byte, write_bytes. rewrite !zlen_prefix. simpl fst. simpl snd.
  rewrite !zget_take. assert (0 < CHUNK_SIZE) by clia.
  pose proof (Z.div_mod p CHUNK_SIZE ltac:(lia)). pose proof (Z.mod_pos_bound p CHUNK_SIZE ltac:(lia)).
  rewrite piece_eq in He by (done || lia). simpl in He.
  destruct (decide (p / CHUNK_SIZE = span_first sp + n)) as [Hpk|Hpk].
  - rewrite Hpk in *. repeat case_decide; try lia; done.
  - rewrite (decide_False (P := p / CHUNK_SIZE = span_first sp + n /\ _)) by tauto.
    assert (span_start sp + upto sp n <= p < span_start sp + upto sp (n + 1) -> False) as Hno.
    { intros Hb. apply Hpk. symmetry. apply (Z.div_unique _ _ _ (p - (span_first sp + n) * CHUNK_SIZE)); lia. }
    repeat case_decide; try lia; done.
Qed.
End prefix.

Section write_slot_spec.
Context `{World, HashOrder}.
Implicit Types (s : Fs) (T : Tables) (t : OpenTable) (i : Slot) (e : Entry).

(** An update of an entry that touches neither its chunks nor its size. *)
Lemma inv_meta X T t t' i e e' r :
  inv_x X T t -> live (inodes t) i -> entry_at (inodes t) i = Some e ->
  slot_changed t t' i e' -> arena t' = arena t -> e_ino e' = e_ino e -> e_refs e' = e_refs e ->
  e_dirty e' = e_dirty e -> entry_ok T (arena t) e' r -> inv_x X T t'.
Proof.
  intros Hinv Hl He Hch Har Hino Hrefs Hd Hok.
  assert (forall a, a ∈ (e_dirty e).*2 -> used_by (inodes t) a i) as Hmine by (by exists e).
  apply (inv_change X X T T t t' i e e' r Hinv Hl He Hch); rewrite ?Har, ?Hd; try done; try apply Hinv.
  - intros a. rewrite (fi_used _ _ _ Hinv). split.
    + intros [?|[j Hj]]; [by left|right]. destruct (decide (j = i)) as [->|];
        [left; by eapply used_by_entry|right; by exists j].
    + intros [?|[Ha%Hmine|(j & _ & Hj)]]; eauto.
  - intros a j Ha Hj. eapply (fi_owner _ _ _ Hinv); eauto.
  - intros a HX. split; [|intros j _; by apply (fi_extra _ _ _ Hinv)].
    intros Ha%Hmine. by apply (fi_extra _ _ _ Hinv a i HX).
Qed.

(** Storing the time of a write. *)
Lemma mtime_wrote s s' i e now :
  fs_inv s -> live (inodes (fs_table s)) i -> entry_at (inodes (fs_table s)) i = Some e ->
  slot_changed (fs_table s) (fs_table s') i (with_mtime e now) ->
  arena (fs_table s') = arena (fs_table s) -> tables (fs_db s') = tables (fs_db s) ->
  fs_last_flush s' = fs_last_flush s -> fs_kernel_cache s' = fs_kernel_cache s ->
  forall size f, contents s (e_ino e) size f -> wrote s s' i (with_mtime e now) size f.
Proof.
  intros Hinv Hl He Hch Har HT Hlf Hkc size f Hc.
  destruct (fi_entry _ _ _ Hinv i e Hl He) as [r Hok].
  assert (fs_inv s') as Hinv'.
  { unfold fs_inv. rewrite HT. apply (inv_meta None _ (fs_table s) _ i e (with_mtime e now) r Hinv Hl He Hch);
      try done. by destruct Hok; constructor. }
  assert (live (inodes (fs_table s')) i) as Hl' by (by apply (live_updated _ _ _ _ _ (proj1 Hch))).
  assert (entry_at (inodes (fs_table s')) i = Some (with_mtime e now)) as He'
    by (by rewrite (up_entry _ _ _ _ (proj1 Hch)), decide_True).
  constructor; [done| | |done| |].
  - by apply (slot_changed_steady None s s' i e _ Hinv Hl He Hch).
  - intros k Hk Hne. apply (other_file_same _ _ _ _ _ _ _ _ _ Hinv Hl He Hch); try done.
    + by rewrite HT.
    + by rewrite HT.
    + by rewrite Har.
  - by exists (with_mtime e now).
  - pose proof (live_contents _ _ _ _ Hinv' Hl' He') as [Hs' Hf'].
    pose proof (live_contents _ _ _ _ Hinv Hl He) as [Hs Hf]. destruct Hc as [Hcs Hcf].
    split; [simpl in *; congruence|]. intros p Hp. rewrite <- Hcf, Hf by done.
    simpl in Hf'. rewrite Hf' by done. by rewrite Har, HT.
Qed.

Lemma wrote_trans s1 s2 s3 i e e2 size f size' f' :
  wrote s1 s2 i e size f -> entry_at (inodes (fs_table s2)) i = Some e2 ->
  wrote s2 s3 i e2 size' f' -> wrote s1 s3 i e size' f'.
Proof.
  intros [] He2 []. destruct wr_entry0 as (e2' & He2' & Hm). simplify_eq.
  pose proof Hm as (Hino & _). rewrite Hino in *. constructor; try done.
  - eapply (steady_trans s1 s2); eauto.
  - by etrans.
  - destruct wr_entry1 as (e3 & He3 & Hm3). exists e3. split; [done|]. by etrans.
Qed.

(** Chunks of a write that are done: the prefix of the data they cover is in. *)
Lemma wp_write_pieces i e sp data (Q : unit -> Fs -> Prop) (R : Z -> Fs -> Prop) s s0 :
  let done_n := fun s' n => forall size f, contents s (e_ino e) size f ->
    wrote s s' i e (write_size size (prefix_write sp data n)) (write_bytes f (prefix_write sp data n)) in
  valid_ino (e_ino e) -> is_Some (file_size (tables (fs_db s)) (fs_table s) (e_ino e)) ->
  e_kind e = RegularFile -> span_ok sp -> span_end sp <= MAX_FILE_SIZE ->
  zlen data = span_end sp - span_start sp -> done_n s0 0 ->
  (forall s', done_n s' (span_last sp - span_first sp + 1) -> Q tt s') ->
  (forall n s' m, db_failure n -> done_n s' m -> R n s') ->
  wp (for_each (zrange (span_first sp) (span_last sp)) (Shared.write_piece i (e_ino e) sp data)) Q R s0.
Proof.
  intros done_n Hi [size0 Hsize] Hkind Hok Hend Hlen Hd0 HQ HR.
  assert (span_first sp <= span_last sp) as Hfl by (destruct Hok as (?&?&->&->); clia).
  assert (contents s (e_ino e) size0 (file_byte (tables (fs_db s)) (fs_table s) (e_ino e))) as Hc0 by done.
  eapply wp_mono; [apply (wp_for_each _ _ (fun dn s' => done_n s' (zlen dn)) R)| |done].
  - exact Hd0.
  - intros dn k rest s' Heq Hdn. unfold zrange in Heq.
    assert (seqZ (span_first sp) (span_last sp - span_first sp + 1) !! length dn = Some k) as Hk
      by (rewrite Heq; by apply list_lookup_middle).
    apply lookup_seqZ in Hk as [-> Hlt]. fold (zlen dn) in *. pose proof (zlen_nonneg dn).
    pose proof (Hdn _ _ Hc0) as Hw. destruct (wr_entry _ _ _ _ _ _ Hw) as (e1 & He1 & Hm).
    pose proof Hm as (Hino & Hkd & _). rewrite <- Hino.
    apply (wp_write_piece i e1); try done; try (by apply Hw); [congruence|lia| |].
    + intros s2 Hp. rewrite zlen_snoc. intros size f Hc. rewrite <- (prefix_size Hok Hlen) by lia.
      assert (wrote s s2 i e (piece_size sp (span_first sp + zlen dn)
          (write_size size (prefix_write sp data (zlen dn))))
        (piece_byte sp data (span_first sp + zlen dn) (write_bytes f (prefix_write sp data (zlen dn))))) as Hw2.
      { eapply wrote_trans; [by apply Hdn|exact He1|]. apply Hp. rewrite Hino. by apply Hdn. }
      destruct Hw2 as [? ? ? ? ? [Hs2 Hb2]]. constructor; try done. split; [done|].
      intros p Hp'. rewrite Hb2 by done. apply (prefix_byte Hok Hlen); lia.
    + intros n s2 Hn Hi2 Hq Hl2. apply (HR n s2 (zlen dn) Hn). intros size f Hc.
      destruct (inv_live _ _ _ _ Hi2 Hl2) as (e2 & _ & He2 & _).
      destruct (q_back _ _ Hq i e2 Hl2 He2) as (_ & e1' & He1' & Hso & _). simplify_eq.
      eapply wrote_trans; [by apply Hdn|exact He1|]. constructor; try done.
      * by apply quiet_steady.
      * by apply quiet_others.
      * exists e2. split; [done|]. by apply same_open_meta.
      * rewrite Hino. eapply quiet_contents; [done..|]. by apply Hdn.
  - intros [] s' Hd. apply HQ. unfold zrange in Hd. unfold zlen in Hd. rewrite length_seqZ in Hd.
    by rewrite Z2Nat.id in Hd by lia.
Qed.

(** [s'] is [s] with [w] written to the file of slot [i] at time [now]. *)
Definition written s s' i e (now : Timestamp) (w : Z * list byte) : Prop :=
  forall size f, contents s (e_ino e) size f ->
    wrote s s' i (with_mtime e now) (write_size size w) (write_bytes f w).

(** [write] overwrites its range of the file. A refused write changes nothing;
    when the engine fails in the middle, a prefix of the data has been written. *)
Lemma wp_write_slot i e offset data (Q : Z -> Fs -> Prop) (R : Z -> Fs -> Prop) s :
  fs_inv s -> live (inodes (fs_table s)) i -> entry_at (inodes (fs_table s)) i = Some e ->
  0 <= offset -> offset + zlen data <= 2 ^ 64 - CHUNK_SIZE ->
  (forall error, regular_file_error (e_kind e) = Some error -> R (errno_from_db_error error) s) ->
  (e_kind e = RegularFile -> closing (fs_table s) = true -> R EIO s) ->
  (e_kind e = RegularFile -> closing (fs_table s) = false -> data = [] -> Q 0 s) ->
  (e_kind e = RegularFile -> closing (fs_table s) = false -> data <> [] ->
     MAX_FILE_SIZE < offset + zlen data -> R EFBIG s) ->
  (forall now s', e_kind e = RegularFile -> closing (fs_table s) = false -> data <> [] ->
     offset + zlen data <= MAX_FILE_SIZE -> written s s' i e now (offset, data) ->
     Q (u32 (zlen data)) s') ->
  (forall n now m s', db_failure n -> 0 <= m <= zlen data ->
     written s s' i e now (offset, take (Z.to_nat m) data) -> R n s') ->
  wp (Shared.write_slot i offset data) Q R s.
Proof.
  intros Hinv Hl He Ho Hend HK HC HQ0 HB HQ HR. unfold Shared.write_slot. fs_col He.
  destruct (regular_file_error (e_kind e)) as [error|] eqn:Hke; [by apply wp_throw, HK|].
  assert (e_kind e = RegularFile) as Hkind by (by destruct (e_kind e)).
  apply wp_bind, wp_table. destruct (closing (fs_table s)) eqn:Hcl; [by apply wp_throw, HC|].
  destruct (decide (data = [])) as [->|Hne]; [by apply wp_ret, HQ0|].
  assert (0 < zlen data) as Hpos.
  { pose proof (zlen_nonneg data). destruct (decide (zlen data = 0)) as [?%zlen_0_inv|]; [done|lia]. }
  destruct (ChunkSpan_new_ok offset (zlen data) Ho Hpos Hend) as (sp & -> & Hok & Hs & Hsp).
  destruct (Z.ltb_spec MAX_FILE_SIZE (span_end sp)) as [Hbig|Hfit]; [apply wp_throw, HB; try done; lia|].
  apply wp_bind, wp_db, wp_now. intros now c Hc. apply wp_bind.
  eapply (wp_store set_mtime with_mtime); [apply Hinv|exact He|]. intros io Hup. simpl in Hup.
  set (s1 := set_table _ _).
  assert (entry_at (inodes (fs_table s1)) i = Some (with_mtime e now)) as He1
    by (simpl; by rewrite (up_entry _ _ _ _ Hup), decide_True).
  fs_col He1. apply wp_bind. destruct (fi_entry _ _ _ Hinv i e Hl He) as [r Hent].
  apply (wp_write_pieces i (with_mtime e now) sp data _ _ s); try done.
  - exact (entry_valid _ _ _ _ _ Hinv Hent).
  - destruct (live_contents _ _ _ _ Hinv Hl He) as [Hsize _]. by eexists.
  - lia.
  - intros size f Hcont. unfold prefix_write, write_size. rewrite (upto_0 Hok). simpl.
    assert (wrote s s1 i (with_mtime e now) size f) as [] by (by apply (mtime_wrote s s1 i e now)).
    constructor; try done. destruct wr_contents0 as [Hcs Hcb]. split; [done|]. intros p Hp.
    rewrite Hcb by done. unfold write_bytes. simpl. rewrite decide_False; [done|]. unfold zlen. simpl. lia.
  - intros s' Hd. apply wp_ret, (HQ now); try done; [lia|]. intros size f Hcont.
    specialize (Hd size f Hcont). unfold prefix_write in Hd.
    rewrite (upto_all (data := data) Hok) in Hd by lia. rewrite Hs in Hd. unfold zlen in Hd.
    by rewrite Nat2Z.id, firstn_all in Hd.
  - intros n s' m Hn Hd. apply (HR n now (upto sp m)); [done| |].
    + apply upto_le; [done|lia].
    + unfold written. rewrite <- Hs. exact Hd.
Qed.
End write_slot_spec.
