(* ===== verification/FuseRead.v ===== *)
(** * FuseRead: reads through the cache

    A read returns the bytes that the filesystem shows: dirty chunks over stored
    ones, zeros in holes, up to the end of the file. *)

From S2P Require Import Prelude Effects Model Chunk Arena OpenTable Sql DbData DbNames Tree.
From S2P Require Import NamesSpec DbVolume Fuse FuseInv FuseFlush FuseWrite.

Section read.
Context `{World, HashOrder}.
Implicit Types (s : Fs) (T : Tables) (t : OpenTable) (i : Slot) (e : Entry).

(** The dirty chunks of a range, as a filter of the whole index. *)
Definition in_span (sp : ChunkSpan) (x : Z * ArenaSlot) : Prop := span_first sp <= x.1 <= span_last sp.

#[global] Instance in_span_dec sp x : Decision (in_span sp x).
Proof. unfold in_span. apply _. Defined.

Definition arena_rows ar (d : DirtyIdx) : list (Z * list byte) :=
  (fun x => (x.1, slot_data ar x.2)) <$> d.

Lemma arena_rows_fst ar d : (arena_rows ar d).*1 = d.*1.
Proof. unfold arena_rows. by rewrite <- list_fmap_compose. Qed.

Lemma assoc_arena_rows ar d c : assoc (arena_rows ar d) c = slot_data ar <$> assoc d c.
Proof.
  induction d as [|[c' a] d IH]; [done|]. unfold arena_rows in *.
  rewrite fmap_cons, !assoc_cons. simpl. by case_decide.
Qed.

Lemma assoc_filter sp (d : DirtyIdx) c :
  span_first sp <= c <= span_last sp -> assoc (filter (in_span sp) d) c = assoc d c.
Proof.
  intros Hc. induction d as [|[c' a] d IH]; [done|]. rewrite filter_cons.
  destruct (decide (in_span sp (c', a))) as [Hin|Hin]; rewrite !assoc_cons; [by rewrite IH|].
  rewrite IH. case_decide; [|done]. subst. by destruct Hin.
Qed.

(** Copying dirty chunks over the stored bytes. *)
Lemma wp_overlay ar sp entries out0 (Q : list byte -> Fs -> Prop) (R : Z -> Fs -> Prop) s :
  arena_wf ar -> span_ok sp -> zlen out0 = span_end sp - span_start sp ->
  (forall c a, (c, a) ∈ entries -> span_first sp <= c <= span_last sp /\ in_use ar a) ->
  NoDup entries.*1 ->
  (forall out, overlaid sp (arena_rows ar entries) out0 out -> Q out s) ->
  wp (fold_each entries (Shared.overlay_chunk ar sp) out0) Q R s.
Proof.
  intros Har Hok Hlen Hin Hnd HQ.
  eapply wp_mono; [apply (wp_fold_each entries _ out0
    (fun dn out s' => s' = s /\ overlaid sp (arena_rows ar dn) out0 out) R)| |done].
  - split; [done|]. apply overlaid_nil.
  - intros dn [c a] rest out s' Heq [-> Hov]. unfold Shared.overlay_chunk.
    destruct (Hin c a) as [Hc [Ha _]]; [rewrite Heq; set_solver|].
    rewrite Heq, fmap_app in Hnd. apply NoDup_app in Hnd as (_ & Hnot & _).
    apply wp_bind. eapply wp_unwrap; [by apply arena_chunk_data|].
    destruct (overlaid_step sp (arena_rows ar dn) out0 out c (slot_data ar a)) as (out' & Hco & Hov');
      try done.
    { rewrite arena_rows_fst. intros Hd. apply (Hnot c Hd). simpl. by left. }
    eapply wp_unwrap; [exact Hco|]. split; [done|]. unfold arena_rows in *. by rewrite fmap_app.
  - intros out s' [-> Hov]. by apply HQ.
Qed.

(** A chunk that is dirty hides the stored one. *)
Lemma overlaid_entry X s i e sp out0 out offset :
  inv_x X (tables (fs_db s)) (fs_table s) -> live (inodes (fs_table s)) i ->
  entry_at (inodes (fs_table s)) i = Some e -> e_kind e = RegularFile ->
  span_ok sp -> span_start sp = offset -> span_end sp = offset + zlen out0 ->
  offset + zlen out0 <= e_size e ->
  (forall j, 0 <= j < zlen out0 -> zget out0 j = stored_byte (tables (fs_db s)) (e_ino e) (offset + j)) ->
  overlaid sp (arena_rows (arena (fs_table s)) (filter (in_span sp) (e_dirty e))) out0 out ->
  forall j, 0 <= j < zlen out0 ->
    zget out j = entry_byte (tables (fs_db s)) (arena (fs_table s)) e (offset + j).
Proof.
  intros Hinv Hl He Hkind Hok Hs Hend Hsize Hout0 [Hlen Hov] j Hj.
  destruct (fi_entry _ _ _ Hinv i e Hl He) as [r Hent].
  pose proof (eo_max _ _ _ _ Hent Hkind) as Hmax. pose proof (proj1 Hok) as Hpos.
  pose proof (span_chunk_of sp j Hok ltac:(lia)) as Hc.
  rewrite Hov by done. rewrite Hs in *. rewrite assoc_arena_rows, assoc_filter by done.
  unfold entry_byte, dirty_lookup. destruct (assoc (e_dirty e) ((offset + j) / CHUNK_SIZE)) as [a|] eqn:Hlk;
    [|by apply Hout0]. simpl. case_decide as Hd; [done|]. rewrite Hout0 by done.
  destruct (eo_chunk _ _ _ _ Hent _ a (assoc_Some_1 _ _ _ Hlk)) as (_ & _ & Hst).
  rewrite zget_stored_hole by lia. symmetry. apply zget_byte_out. lia.
Qed.

Lemma wp_read_slot i e offset n (Q : list byte -> Fs -> Prop) (R : Z -> Fs -> Prop) s :
  fs_inv s -> live (inodes (fs_table s)) i -> entry_at (inodes (fs_table s)) i = Some e ->
  0 <= offset -> 0 <= n ->
  (forall error, regular_file_error (e_kind e) = Some error -> R (errno_from_db_error error) s) ->
  (forall out s', e_kind e = RegularFile -> same_state s s' ->
     zlen out = Z.max 0 (Z.min n (e_size e - offset)) ->
     (forall j, 0 <= j < zlen out ->
        zget out j = file_byte (tables (fs_db s)) (fs_table s) (e_ino e) (offset + j)) ->
     Q out s') ->
  (forall errno s', db_failure errno -> same_state s s' -> R errno s') ->
  wp (Shared.read_slot i offset n) Q R s.
Proof.
  intros Hinv Hl He Ho Hn HK HQ HR. unfold Shared.read_slot. fs_col He.
  destruct (regular_file_error (e_kind e)) as [error|] eqn:Hke; [by apply wp_throw, HK|].
  assert (e_kind e = RegularFile) as Hkind by (by destruct (e_kind e)).
  destruct (fi_entry _ _ _ Hinv i e Hl He) as [r Hent].
  pose proof (eo_max _ _ _ _ Hent Hkind) as Hmax. fs_col He.
  destruct (live_contents _ _ _ _ Hinv Hl He) as [_ Hb].
  destruct (decide (e_size e <= offset \/ n = 0)) as [Hz|Hz].
  { assert ((e_size e <=? offset) || (n =? 0) = true) as -> by lia.
    apply wp_ret, HQ; [done..| |]; unfold zlen; simpl; lia. }
  assert ((e_size e <=? offset) || (n =? 0) = false) as -> by lia. fs_col He.
  set (m := Z.min n (e_size e - offset)) in *.
  apply wp_bind, wp_db, wp_read_into_zeros; try lia;
    [apply (fi_db _ _ _ Hinv)|exact (entry_valid _ _ _ _ _ Hinv Hent)| |].
  2:{ intros de c Hde Hc. apply HR; [by exists de|by apply same_state_db]. }
  intros out0 c Hc Hlen Hout0.
  destruct (ChunkSpan_new_ok offset (zlen out0)) as (sp & Hsp & Hok & Hs & Hend); [lia|lia|clia|].
  rewrite Hsp. apply wp_bind. eapply wp_unwrap; [done|].
  assert (entry_at (inodes (fs_table (set_db c s))) i = Some e) as He1 by done. fs_col He1.
  assert (span_first sp <= span_last sp) as Hfl by (destruct Hok as (?&?&->&->); clia).
  apply wp_bind. eapply wp_unwrap; [apply dirty_range_spec; [apply Hent|done]|].
  apply wp_bind, wp_table. fold (in_span sp). apply wp_overlay; [apply Hinv|done|lia| | |].
  - intros k a [Hk Hin]%list_elem_of_filter. split; [done|]. by eapply dirty_in_use.
  - eapply sublist_NoDup; [apply dirty_sorted_nodup, Hent|].
    apply fmap_sublist, sublist_filter.
  - intros out Hov. apply HQ; [done|by apply same_state_db| |].
    + destruct Hov as [-> _]. lia.
    + intros j Hj. destruct Hov as [Hol Hov]. rewrite Hol in Hj.
      rewrite (overlaid_entry None s i e sp out0 out offset) by (done || lia || by rewrite Hlen).
      symmetry. apply Hb. lia.
Qed.
End read.
