(* ===== verification/FuseOps.v ===== *)
(** * FuseOps: the operations and the request handlers (src/fuse.rs, [Dbfs])

    Module [Dbfs] has the methods of [impl Dbfs]; module [Handler] the request
    handlers of [impl Filesystem for Dbfs], whose reply is a value. *)

From S2P Require Import Prelude Effects Model Chunk Arena OpenTable Sql DbData DbNames DbVolume.
From S2P Require Import Fuse.

(** Linux and FUSE constants. *)
Definition FALLOC_FL_KEEP_SIZE : Z := 1.
Definition RENAME_NOREPLACE : Z := 1.
Definition S_IFMT : Z := 61440.
Definition S_IFREG : Z := 32768.
Definition FOPEN_KEEP_CACHE : Z := 2.

Definition ATTR_TTL : Z := 1.
Definition KERNEL_CACHE_TTL : Z := 86400.
Definition DEFAULT_MAX_REQUEST : Z := 128 * 1024.
Definition KERNEL_CACHE_MAX_REQUEST : Z := 1024 * 1024.
Definition DEFAULT_WRITE_BUFFER : Z := 64 * 1024 * 1024.

Record FsStats := mkFsStats {
  st_blocks : Z; st_bfree : Z; st_bavail : Z; st_files : Z; st_ffree : Z;
  st_bsize : Z; st_namelen : Z; st_frsize : Z }.

Record DbfsDirEntry := mkDbfsDirEntry {
  dd_name : list byte; dd_ino : Z; dd_kind : FileType; dd_offset : Z }.

(** Cookies of a directory stream. *)
Definition DOT : Z := 1.
Definition DOTDOT : Z := 2.
Definition dot_name : list byte := [x2e].
Definition dotdot_name : list byte := [x2e; x2e].

Module Dbfs.
Section dbfs_ops.
Context `{World, HashOrder}.

Definition with_write_buffer (c : Conn) (write_buffer : Z) : Fs :=
  mkFs c (OpenTable_new write_buffer) None false.
Definition new (c : Conn) : Fs := with_write_buffer c DEFAULT_WRITE_BUFFER.

(** [Arc::get_mut(..).expect(..)] needs the only reference. *)
Definition with_kernel_cache (s : Fs) (only_reference enabled : bool) : option Fs :=
  if only_reference then Some (mkFs (fs_db s) (fs_table s) (fs_last_flush s) enabled) else None.

Definition ttl (s : Fs) : Z := if fs_kernel_cache s then KERNEL_CACHE_TTL else ATTR_TTL.
Definition open_flags (s : Fs) : Z := if fs_kernel_cache s then FOPEN_KEEP_CACHE else 0.

Definition find_slot (ino : Z) : FsM (option Slot) :=
  t ← Shared.table; mret (inodes_find (inodes t) ino).

Definition handle_slot (fh : Z) : FsM Slot :=
  t ← Shared.table; ok_or (handles_get (handles t) fh) EBADF.

Definition statfs : FsM FsStats :=
  usage ← Shared.db volume_usage;
  let bsize := u32 (vu_page_size usage) in
  mret (mkFsStats (vu_page_count usage) (vu_freelist_count usage) (vu_freelist_count usage)
          (vu_files usage) 0 bsize 255 bsize).

Definition getattr (ino : Z) : FsM FileAttr :=
  inode ← Shared.db (get_inode ino);
  Shared.overlay_attr (file_attr_from_inode inode).

Definition lookup (parent_ino : Z) (name : list byte) : FsM FileAttr :=
  inode ← Shared.db (DbNames.lookup parent_ino name);
  Shared.overlay_attr (file_attr_from_inode inode).

(** [emit] gives its state and whether the buffer is full. *)
Definition readdir_stream {X} (ino offset : Z)
    (emit : X -> Z -> Z -> FileType -> list byte -> X * bool) (acc : X) : FsM X :=
  parent ← Shared.db (match_result (parent_of_dir ino) mret
             (fun e => match e with NotFound => mret ino | _ => throw e end));
  let '(acc, full) := if offset <? DOT then emit acc ino DOT FtDirectory dot_name else (acc, false) in
  if full : bool then mret acc
  else
    let '(acc, full) :=
      if offset <? DOTDOT then emit acc parent DOTDOT FtDirectory dotdot_name else (acc, false) in
    if full : bool then mret acc
    else
      Shared.db (read_dir_after ino (Z.max (i64 (offset - DOTDOT)) 0)
        (fun acc id name child kind => emit acc child (i64 (id + DOTDOT)) (file_type kind) name) acc).

Definition readdir (ino offset : Z) : FsM (list DbfsDirEntry) :=
  readdir_stream ino offset
    (fun entries ino next kind name => (entries ++ [mkDbfsDirEntry name ino kind next], false)) [].

Definition mkdir (parent_ino : Z) (name : list byte) (mode umask uid gid : Z) : FsM FileAttr :=
  inode ← Shared.db (create_dir parent_ino name (Z.ldiff mode umask) uid gid);
  mret (file_attr_from_inode inode).

Definition create (parent_ino : Z) (name : list byte) (mode umask uid gid : Z) : FsM FileAttr :=
  inode ← Shared.db (create_file parent_ino name (Z.ldiff mode umask) uid gid);
  mret (file_attr_from_inode inode).

Definition symlink (parent_ino : Z) (name target : list byte) (uid gid : Z) : FsM FileAttr :=
  inode ← Shared.db (create_symlink parent_ino name target uid gid);
  mret (file_attr_from_inode inode).

Definition readlink (ino : Z) : FsM (list byte) := Shared.db (read_symlink ino).

Definition link (ino new_parent_ino : Z) (new_name : list byte) : FsM FileAttr :=
  inode ← Shared.db (DbNames.link ino new_parent_ino new_name);
  mret (file_attr_from_inode inode).

Definition truncate_locked (ino size : Z) : FsM unit :=
  slot ← find_slot ino;
  (match slot with
   | Some slot => Shared.flush_slot slot Persist
   | None => mret tt
   end) ;;
  Shared.db (truncate_file ino size) ;;
  match slot with
  | Some slot =>
      Shared.store (fun io => OpenTable.set_size io slot size) ;;
      Shared.free_if_idle slot
  | None => mret tt
  end.

Definition setattr (ino : Z) (mode uid gid size : option Z) (atime mtime : option SystemTime)
    : FsM FileAttr :=
  slot ← find_slot ino;
  (match slot with
   | Some slot => Shared.flush_slot slot Persist ;; Shared.free_if_idle slot
   | None => mret tt
   end) ;;
  (match size with
   | Some size => truncate_locked ino size
   | None => mret tt
   end) ;;
  inode ← Shared.db (update_metadata ino
    (mkMetadataUpdate mode uid gid (from_system_time <$> atime) (from_system_time <$> mtime)));
  mret (file_attr_from_inode inode).

Definition getxattr (ino : Z) (_name : list byte) : FsM (list byte) :=
  getattr ino ;; throw ENODATA.
Definition listxattr (ino : Z) : FsM (list byte) := getattr ino ;; mret [].
Definition setxattr (ino : Z) (_name : list byte) : FsM unit := getattr ino ;; throw EOPNOTSUPP.
Definition removexattr (ino : Z) (_name : list byte) : FsM unit := getattr ino ;; throw ENODATA.

Definition open (ino : Z) : FsM Z :=
  slot ← Shared.slot_for ino; Shared.open_slot slot.

Definition read (ino offset size : Z) : FsM (list byte) :=
  slot ← find_slot ino;
  match slot with
  | Some slot => Shared.read_slot slot offset size
  | None => Shared.db (read_file ino offset size)
  end.

Definition read_fh (fh offset size : Z) : FsM (list byte) :=
  slot ← handle_slot fh; Shared.read_slot slot offset size.

Definition write (ino offset : Z) (data : list byte) : FsM Z :=
  if bool_decide (data = []) then mret 0
  else
    slot ← Shared.slot_for ino;
    match_result (Shared.write_slot slot offset data)
      (fun n => Shared.free_if_idle slot ;; mret n)
      (fun errno => Shared.free_if_idle slot ;; throw errno).

Definition write_fh (fh offset : Z) (data : list byte) : FsM Z :=
  slot ← handle_slot fh; Shared.write_slot slot offset data.

Definition fallocate (ino offset length mode : Z) : FsM unit :=
  if (offset <? 0) || (length <=? 0) then throw EINVAL
  else if negb (Z.ldiff mode FALLOC_FL_KEEP_SIZE =? 0) then throw EOPNOTSUPP
  else
    kind ← Shared.db (inode_kind_of ino);
    if negb (bool_decide (kind = RegularFile)) then throw ENODEV
    else if I64_MAX <? offset + length then throw EFBIG
    else
      let end_ := offset + length in
      if MAX_FILE_SIZE <? end_ then throw EFBIG
      else if negb (Z.land mode FALLOC_FL_KEEP_SIZE =? 0) then mret tt
      else
        slot ← find_slot ino;
        size ← (match slot with
                | Some slot => Shared.column oi_size slot
                | None => head ← Shared.db (inode_head ino); mret head.2
                end);
        if end_ <=? size then mret tt else truncate_locked ino end_.

Definition flush_file (ino : Z) : FsM unit :=
  slot ← find_slot ino;
  match slot with
  | None => mret tt
  | Some slot => Shared.flush_slot slot Skip ;; Shared.free_if_idle slot
  end.

Definition flush_fh (fh : Z) : FsM unit :=
  slot ← handle_slot fh; Shared.flush_slot slot Skip.

Definition sync_fh (fh : Z) : FsM unit := flush_fh fh ;; Shared.db sync_durable.

Definition release_file (fh : Z) : FsM unit := Shared.release_fh fh.

Definition unlink (parent_ino : Z) (name : list byte) : FsM unit :=
  inode ← Shared.db (DbNames.lookup parent_ino name);
  t ← Shared.table;
  Shared.db (unlink_entry parent_ino name inode (Shared.is_open t (i_ino inode))) ;;
  Shared.entry_removed inode.

Definition rmdir (parent_ino : Z) (name : list byte) : FsM unit :=
  Shared.db (remove_dir parent_ino name).

Definition rename (parent_ino : Z) (name : list byte) (new_parent_ino : Z) (new_name : list byte)
    (flags : Z) : FsM unit :=
  if negb (Z.ldiff flags RENAME_NOREPLACE =? 0) then throw EINVAL
  else
    t ← Shared.table;
    replaced ← Shared.db (rename_entry parent_ino name new_parent_ino new_name
      (negb (Z.land flags RENAME_NOREPLACE =? 0)) (Shared.is_open t));
    match replaced with
    | Some target => Shared.entry_removed target
    | None => mret tt
    end.

Definition create_open (parent_ino : Z) (name : list byte) (mode umask uid gid : Z)
    : FsM (FileAttr * Z) :=
  attr ← create parent_ino name mode umask uid gid;
  t ← Shared.table;
  r ← unwrap (inodes_insert (inodes t) (fa_ino attr) RegularFile 0);
  Shared.update (with_slots r.2) ;;
  fh ← Shared.open_slot r.1;
  mret (attr, fh).
End dbfs_ops.
End Dbfs.

(** ** Request handlers *)

Inductive Reply :=
  | ReplyError (errno : Z)
  | ReplyOk
  | ReplyEntry (ttl : Z) (attr : FileAttr) (generation : Z)
  | ReplyAttr (ttl : Z) (attr : FileAttr)
  | ReplyStatfs (stats : FsStats)
  | ReplyCreated (ttl : Z) (attr : FileAttr) (generation fh flags : Z)
  | ReplyData (data : list byte)
  | ReplyOpened (fh flags : Z)
  | ReplyWritten (size : Z)
  | ReplyXattrSize (size : Z).

Inductive TimeOrNow := SpecificTime (time : SystemTime) | Now.

(** Calls on the [KernelConfig] of fuser; [init] ignores their results. *)
Inductive Capability := WritebackCache | ParallelDirops | CacheSymlinks | AsyncDio.
Inductive ConfigCall :=
  | SetMaxWrite (n : Z)
  | SetMaxReadahead (n : Z)
  | SetMaxBackground (n : Z)
  | SetCongestionThreshold (n : Z)
  | AddCapability (c : Capability).

Definition reply_xattr (value : list byte) (size : Z) : Reply :=
  if size =? 0 then ReplyXattrSize (u32 (zlen value))
  else if size <? zlen value then ReplyError ERANGE
  else ReplyData value.

Module Handler.
Section handlers.
Context `{World, HashOrder}.

(** [match result { Ok(a) => reply.., Err(errno) => reply.error(errno) }] *)
Definition answer {A} (m : FsM A) (reply : A -> Fs -> Reply) : FsM Reply :=
  match_result m (fun a => gets (reply a)) (fun errno => mret (ReplyError errno)).

Definition entry_reply (attr : FileAttr) (s : Fs) : Reply := ReplyEntry (Dbfs.ttl s) attr 0.
Definition attr_reply (attr : FileAttr) (s : Fs) : Reply := ReplyAttr (Dbfs.ttl s) attr.
Definition ok_reply (_ : unit) (_ : Fs) : Reply := ReplyOk.

(** [SystemTime::now()] *)
Definition system_now : FsM SystemTime := fun s =>
  Ok (clock (ticks (fs_db s))) (set_db (tick (fs_db s)) s).

Definition time_or_now (time : option TimeOrNow) : FsM (option SystemTime) :=
  match time with
  | None => mret None
  | Some (SpecificTime time) => mret (Some time)
  | Some Now => now ← system_now; mret (Some now)
  end.

Definition init (s : Fs) : list ConfigCall :=
  if negb (fs_kernel_cache s) then [SetMaxWrite DEFAULT_MAX_REQUEST]
  else
    (AddCapability <$> [WritebackCache; ParallelDirops; CacheSymlinks; AsyncDio]) ++
    [SetMaxWrite KERNEL_CACHE_MAX_REQUEST; SetMaxReadahead KERNEL_CACHE_MAX_REQUEST;
     SetMaxBackground 64; SetCongestionThreshold 48].

Definition destroy : FsM unit := Shared.flush_recorded ;; mret tt.

Definition lookup (parent : Z) (name : list byte) : FsM Reply :=
  answer (Dbfs.lookup parent name) entry_reply.
Definition getattr (ino : Z) : FsM Reply := answer (Dbfs.getattr ino) attr_reply.

(** [add] is the reply buffer of fuser; the filled buffer is kept. *)
Definition readdir {X} (ino offset : Z)
    (add : X -> Z -> Z -> FileType -> list byte -> X * bool) (reply : X) : FsM (Reply * X) :=
  match_result (Dbfs.readdir_stream ino offset add reply)
    (fun reply => mret (ReplyOk, reply)) (fun errno => mret (ReplyError errno, reply)).

Definition statfs : FsM Reply := answer Dbfs.statfs (fun stats _ => ReplyStatfs stats).

Definition mkdir (parent : Z) (name : list byte) (mode umask uid gid : Z) : FsM Reply :=
  answer (Dbfs.mkdir parent name mode umask uid gid) entry_reply.

Definition create (parent : Z) (name : list byte) (mode umask uid gid : Z) : FsM Reply :=
  answer (Dbfs.create_open parent name mode umask uid gid)
    (fun r s => ReplyCreated (Dbfs.ttl s) r.1 0 r.2 (Dbfs.open_flags s)).

Definition symlink (parent : Z) (name target : list byte) (uid gid : Z) : FsM Reply :=
  answer (Dbfs.symlink parent name target uid gid) entry_reply.

Definition readlink (ino : Z) : FsM Reply :=
  answer (Dbfs.readlink ino) (fun target _ => ReplyData target).

Definition link (ino new_parent : Z) (new_name : list byte) : FsM Reply :=
  answer (Dbfs.link ino new_parent new_name) entry_reply.

Definition setattr (ino : Z) (mode uid gid size : option Z) (atime mtime : option TimeOrNow)
    : FsM Reply :=
  atime ← time_or_now atime;
  mtime ← time_or_now mtime;
  answer (Dbfs.setattr ino mode uid gid size atime mtime) attr_reply.

Definition getxattr (ino : Z) (name : list byte) (size : Z) : FsM Reply :=
  answer (Dbfs.getxattr ino name) (fun value _ => reply_xattr value size).
Definition listxattr (ino size : Z) : FsM Reply :=
  answer (Dbfs.listxattr ino) (fun names _ => reply_xattr names size).
Definition setxattr (ino : Z) (name : list byte) : FsM Reply :=
  answer (Dbfs.setxattr ino name) ok_reply.
Definition removexattr (ino : Z) (name : list byte) : FsM Reply :=
  answer (Dbfs.removexattr ino name) ok_reply.

Definition open (ino : Z) : FsM Reply :=
  answer (Dbfs.open ino) (fun fh s => ReplyOpened fh (Dbfs.open_flags s)).
Definition release (fh : Z) : FsM Reply := answer (Shared.release_fh fh) ok_reply.
Definition flush (fh : Z) : FsM Reply := answer (Dbfs.flush_fh fh) ok_reply.
Definition fsync (fh : Z) : FsM Reply := answer (Dbfs.sync_fh fh) ok_reply.

(** [offset as u64], after the check for a negative one. *)
Definition read (fh offset size : Z) : FsM Reply :=
  if offset <? 0 then mret (ReplyError EINVAL)
  else answer (Dbfs.read_fh fh offset size) (fun data _ => ReplyData data).
Definition write (fh offset : Z) (data : list byte) : FsM Reply :=
  if offset <? 0 then mret (ReplyError EINVAL)
  else answer (Dbfs.write_fh fh offset data) (fun written _ => ReplyWritten written).

Definition fallocate (ino offset length mode : Z) : FsM Reply :=
  answer (Dbfs.fallocate ino offset length mode) ok_reply.
Definition unlink (parent : Z) (name : list byte) : FsM Reply :=
  answer (Dbfs.unlink parent name) ok_reply.
Definition rmdir (parent : Z) (name : list byte) : FsM Reply :=
  answer (Dbfs.rmdir parent name) ok_reply.

Definition mknod (parent : Z) (name : list byte) (mode umask uid gid : Z) : FsM Reply :=
  let file_type := Z.land mode S_IFMT in
  if (file_type =? 0) || (file_type =? S_IFREG)
  then answer (Dbfs.create parent name (Z.ldiff mode S_IFMT) umask uid gid) entry_reply
  else mret (ReplyError EPERM).

Definition rename (parent : Z) (name : list byte) (new_parent : Z) (new_name : list byte)
    (flags : Z) : FsM Reply :=
  answer (Dbfs.rename parent name new_parent new_name flags) ok_reply.
End handlers.
End Handler.
