(* ===== verification/FuseHandles.v ===== *)
(** * FuseHandles: slots, handles and the table invariant across operations

    Opening, releasing and the changes of the tables that leave the files of open
    inodes alone. *)

From S2P Require Import Prelude Effects Model Chunk Arena OpenTable Sql DbData DbNames Tree.
From S2P Require Import NamesSpec DbVolume Fuse FuseInv FuseFlush FuseWrite FuseRead FuseOps.

(** ** The tables change under the slots *)

(** Inode [ino] has the same kind, size and chunks in both. *)
Definition kept_inode (T T' : Tables) (ino : Z) : Prop :=
  row_head <$> t_inodes T' !! ino = row_head <$> t_inodes T !! ino /\
  forall c, valid_chunk c -> stored_chunk T' ino c = stored_chunk T ino c.

#[global] Instance kept_inode_preorder : forall ino, PreOrder (fun T T' => kept_inode T T' ino).
Proof.
  intros ino. split; [by intros T|]. intros T1 T2 T3 [A1 A2] [B1 B2].
  split; [congruence|]. intros c Hc. by rewrite B2, A2.
Qed.

Section kept.
Implicit Types (T : Tables) (t : OpenTable) (i : Slot) (e : Entry) (ino : Z).

Lemma kept_equiv T T' ino : T ≡ T' -> kept_inode T T' ino.
Proof.
  intros (_ & Hc & _ & Hi). split.
  - specialize (Hi ino). destruct (t_inodes T !! ino), (t_inodes T' !! ino); try done.
    injection Hi as ?. simpl. unfold row_head. congruence.
  - intros c _. unfold stored_chunk. by rewrite Hc.
Qed.

Lemma kept_put_entry k d T ino : kept_inode T (put_entry k d T) ino.
Proof. done. Qed.

Lemma kept_drop_entry k T ino : kept_inode T (drop_entry k T) ino.
Proof. done. Qed.

Lemma kept_add_nlink i x T ino : kept_inode T (add_nlink i x T) ino.
Proof.
  split; [|done]. simpl. destruct (decide (ino = i64 i)) as [->|]; [|by rewrite lookup_alter_ne].
  rewrite lookup_alter_eq. by destruct (t_inodes T !! i64 i).
Qed.

Lemma kept_remove i T ino : valid_ino i -> valid_ino ino -> ino <> i -> kept_inode T (remove_inode i T) ino.
Proof.
  intros Hi Hv Hne. split; [rewrite remove_inodes by done; by rewrite lookup_delete_ne|].
  intros c Hc. by apply stored_chunk_remove.
Qed.

Lemma kept_names T T' ino : same_names T T' -> t_chunks T' = t_chunks T ->
  r_size <$> t_inodes T' !! ino = r_size <$> t_inodes T !! ino -> kept_inode T T' ino.
Proof.
  intros (_ & _ & Hn) Hc Hs. split; [|intros c _; unfold stored_chunk; by rewrite Hc].
  specialize (Hn ino). destruct (t_inodes T !! ino), (t_inodes T' !! ino); simplify_eq/=; try done.
  unfold row_head, row_meta in *. congruence.
Qed.

(** An inode without links has no entry. *)
Lemma unlinked_no_entry T ino r :
  fs_wf T -> t_inodes T !! ino = Some r -> row_kind r <> Some Directory -> r_nlink r = 0 ->
  forall k d, t_dirents T !! k = Some d -> d_child d <> ino.
Proof.
  intros [_ Hn] Hr Hk Hz k d Hd <-. pose proof (nw_nlink _ Hn _ _ Hr) as Hl.
  rewrite decide_False in Hl by (by rewrite (kind_of_row _ _ _ Hr)).
  pose proof (entry_count_pos (fun x : DirentRow => d_child x = d_child d) _ _ _ Hd eq_refl). unfold links in Hl. lia.
Qed.

Lemma no_entry_unlinked T ino r :
  fs_wf T -> t_inodes T !! ino = Some r -> row_kind r <> Some Directory ->
  (forall k d, t_dirents T !! k = Some d -> d_child d <> ino) -> r_nlink r = 0.
Proof.
  intros [_ Hn] Hr Hk Hno. rewrite (nw_nlink _ Hn _ _ Hr).
  rewrite decide_False by (by rewrite (kind_of_row _ _ _ Hr)). by apply entry_count_zero.
Qed.

(** Every child of [T'] was one of [T], or is [new]. *)
Definition children_from (new : option Z) (T T' : Tables) : Prop :=
  forall k' d', t_dirents T' !! k' = Some d' ->
    Some (d_child d') = new \/ exists k d, t_dirents T !! k = Some d /\ d_child d = d_child d'.

(** Tables that keep the inodes of all slots keep the invariant. *)
Lemma inv_tables T T' t new :
  inv_x None T t -> fs_wf T' -> children_from new T T' ->
  (forall i e, live (inodes t) i -> entry_at (inodes t) i = Some e -> kept_inode T T' (e_ino e)) ->
  (forall i e, live (inodes t) i -> entry_at (inodes t) i = Some e ->
     e_unlinked e = true -> new <> Some (e_ino e)) ->
  inv_x None T' t.
Proof.
  intros Hinv Hwf Hch Hk Hnew. constructor; try done; try apply Hinv.
  intros i e Hl He. destruct (fi_entry _ _ _ Hinv i e Hl He) as [r Hok].
  destruct (Hk i e Hl He) as [Hrow Hchunk]. pose proof (eo_row _ _ _ _ Hok) as Hr.
  rewrite Hr in Hrow. destruct (t_inodes T' !! e_ino e) as [r'|] eqn:Hr'; [|done].
  injection Hrow as Hkd Hsz. exists r'.
  assert (row_kind r' = row_kind r) as Hrk by (unfold row_kind; by rewrite Hkd).
  pose proof (fi_db _ _ _ Hinv) as Hwf0. destruct Hok. constructor; try done; rewrite ?Hsz; try done.
  - by rewrite Hrk.
  - intros c a Hin. rewrite Hchunk; [by apply eo_chunk|]. by apply eo_chunk in Hin as [? _].
  - intros Hu. pose proof (eo_gone Hu) as Hz.
    apply (no_entry_unlinked T' (e_ino e)); [done..|by rewrite Hrk, eo_kind; intros [= ?]|].
    intros k' d' Hd' Heq. destruct (Hch k' d' Hd') as [Hn|(k & d & Hd & Hdc)].
    + apply (Hnew i e Hl He Hu). congruence.
    + apply (unlinked_no_entry T (e_ino e) r Hwf0 Hr) in Hd; [congruence| |done].
      rewrite eo_kind. by intros [= ?].
Qed.

Lemma kept_file X T T' t ino :
  inv_x X T t -> kept_inode T T' ino -> same_file T t T' t ino.
Proof.
  intros Hinv [Hrow Hchunk]. split.
  - unfold file_size. destruct (entry_of t ino); [done|].
    destruct (t_inodes T !! ino), (t_inodes T' !! ino); simplify_eq/=; try done.
    unfold row_head in Hrow. congruence.
  - intros p Hp. unfold file_byte. destruct (entry_of t ino) as [e|] eqn:He.
    + destruct (entry_of_Some _ _ _ _ _ Hinv He) as (i & _ & _ & <-). by apply entry_byte_ext.
    + unfold stored_byte. by rewrite Hchunk by (by apply valid_chunk_pos).
Qed.
End kept.

(** ** Handles *)

(** The inode that a handle refers to. *)
Definition handle_ino (t : OpenTable) (fh : Z) : option Z :=
  i ← handles_get (handles t) fh; e_ino <$> entry_at (inodes t) i.

Section handles.
Implicit Types (T : Tables) (t : OpenTable) (i : Slot) (e : Entry) (ino fh : Z).

Lemma live_slot_bound t X T i : inv_x X T t -> live (inodes t) i -> 0 <= i < NO_SLOT.
Proof.
  intros Hinv Hl. destruct (inv_live _ _ _ _ Hinv Hl) as (e & _ & He & _).
  assert (in_range (inodes t) i) as Hr.
  { apply entry_at_is_Some; [apply Hinv|by eexists]. }
  pose proof (iw_bound _ (fi_slots _ _ _ Hinv)). unfold in_range in Hr. lia.
Qed.

Lemma handle_ino_Some X T t fh ino :
  inv_x X T t -> handle_ino t fh = Some ino ->
  exists i e, handles_get (handles t) fh = Some i /\ live (inodes t) i /\
    entry_at (inodes t) i = Some e /\ e_ino e = ino /\ e_refs e <> 0.
Proof.
  intros Hinv (i & Hf & (e & He & ->)%fmap_Some)%bind_Some.
  pose proof (fi_handle _ _ _ Hinv _ _ Hf) as Hl. exists i, e. split_and!; try done.
  rewrite (fi_refs _ _ _ Hinv i e) by done. pose proof (handle_count_pos _ _ _ Hf). lia.
Qed.

Lemma handle_valid X T t fh ino : inv_x X T t -> handle_ino t fh = Some ino -> valid_ino ino.
Proof.
  intros Hinv Hf. destruct (handle_ino_Some _ _ _ _ _ Hinv Hf) as (i & e & _ & Hl & He & <- & _).
  destruct (fi_entry _ _ _ Hinv i e Hl He) as [r Hok]. by eapply entry_valid.
Qed.

Lemma handle_ino_None X T t fh :
  inv_x X T t -> handle_ino t fh = None -> handles_get (handles t) fh = None.
Proof.
  intros Hinv Hn. destruct (handles_get (handles t) fh) as [i|] eqn:Hf; [|done].
  pose proof (fi_handle _ _ _ Hinv _ _ Hf) as Hl.
  destruct (inv_live _ _ _ _ Hinv Hl) as (e & _ & He & _).
  unfold handle_ino in Hn. rewrite Hf in Hn. simpl in Hn. by rewrite He in Hn.
Qed.

(** Handles survive every change that keeps the open slots. *)
Lemma steady_handle_ino s s' fh :
  fs_inv s -> fs_inv s' -> steady s s' -> handle_ino (fs_table s') fh = handle_ino (fs_table s) fh.
Proof.
  intros Hinv Hinv' []. unfold handle_ino. rewrite st_handles.
  destruct (handles_get (handles (fs_table s)) fh) as [i|] eqn:Hf; [|done]. simpl.
  pose proof (fi_handle _ _ _ Hinv _ _ Hf) as Hl.
  rewrite <- st_handles in Hf. pose proof (fi_handle _ _ _ Hinv' _ _ Hf) as Hl'.
  destruct (inv_live _ _ _ _ Hinv' Hl') as (e' & _ & He' & _).
  destruct (st_back i e' Hl' He') as (_ & e & He & Hino & _). rewrite He', He. simpl. by rewrite Hino.
Qed.

Lemma handle_count_absent (h : Handles) i :
  i <> NO_SLOT -> (forall fh, handles_get h fh <> Some i) -> handle_count h i = 0.
Proof.
  intros Hi Hno. unfold handle_count. rewrite filter_none; [done|]. apply Forall_forall.
  intros j Hj ->. apply list_elem_of_lookup in Hj as [k Hk].
  apply (Hno (Z.of_nat k)). apply handles_get_Some. split; [|done].
  unfold vget. rewrite decide_True by lia. by rewrite Nat2Z.id.
Qed.

Lemma handle_count_exists (h : Handles) i :
  i <> NO_SLOT -> 0 < handle_count h i -> exists fh, handles_get h fh = Some i.
Proof.
  intros Hi Hc. destruct (decide (i ∈ h_slot h)) as [Hin|Hout].
  - apply list_elem_of_lookup in Hin as [k Hk]. exists (Z.of_nat k). apply handles_get_Some.
    split; [|done]. unfold vget. rewrite decide_True by lia. by rewrite Nat2Z.id.
  - exfalso. unfold handle_count in Hc. rewrite filter_none in Hc; [done|].
    apply Forall_forall. intros j Hj ->. done.
Qed.

(** One entry gets another number of handles. *)
Lemma inv_refs X T t io h i e n :
  inv_x X T t -> live (inodes t) i -> entry_at (inodes t) i = Some e ->
  updated (inodes t) io i (with_refs e n) -> handles_wf h ->
  (forall j, j <> NO_SLOT -> handle_count h j = if decide (i = j) then n else handle_count (handles t) j) ->
  (forall fh j, handles_get h fh = Some j -> live (inodes t) j) ->
  inv_x X T (with_handles h (with_slots io t)).
Proof.
  intros Hinv Hl He Hup Hh Hcount Hlive.
  assert (forall j ej', live io j -> entry_at io j = Some ej' ->
    live (inodes t) j /\ exists ej, entry_at (inodes t) j = Some ej /\ e_dirty ej' = e_dirty ej /\
      e_refs ej' = (if decide (i = j) then n else e_refs ej) /\
      ej' = with_refs ej (e_refs ej')) as Hent.
  { intros j ej' Hlj Hej. rewrite (live_updated _ _ _ _ _ Hup) in Hlj. split; [done|].
    rewrite (up_entry _ _ _ _ Hup) in Hej. case_decide as Hd; simplify_eq; [by exists e|].
    exists ej'. split_and!; try done. by destruct ej'. }
  assert (forall a j, used_by io a j <-> used_by (inodes t) a j) as Hused.
  { intros a j. split.
    - intros (ej' & Hlj & Hej & Ha). destruct (Hent j ej' Hlj Hej) as (Hlj0 & ej & He0 & Hd & _).
      exists ej. by rewrite <- Hd.
    - intros (ej & Hlj & Hej & Ha).
      exists (if decide (i = j) then with_refs e n else ej).
      rewrite (live_updated _ _ _ _ _ Hup), (up_entry _ _ _ _ Hup).
      split; [done|]. by case_decide; simplify_eq. }
  constructor; simpl; try done; try apply Hinv.
  - by eapply updated_wf; [apply Hinv|exact Hup|exact He|exact Hl|].
  - intros j ej' Hlj Hej. destruct (Hent j ej' Hlj Hej) as (Hlj0 & ej & He0 & _ & _ & ->).
    destruct (fi_entry _ _ _ Hinv j ej Hlj0 He0) as [r Hok]. exists r. by destruct Hok; constructor.
  - intros j ej' Hlj Hej. destruct (Hent j ej' Hlj Hej) as (Hlj0 & ej & He0 & _ & -> & _).
    pose proof (live_slot_bound _ _ _ _ Hinv Hlj0). rewrite Hcount by lia.
    case_decide; [done|]. by apply (fi_refs _ _ _ Hinv).
  - intros fh j Hf. apply (live_updated _ _ _ _ _ Hup). by eapply Hlive.
  - intros a. setoid_rewrite Hused. apply (fi_used _ _ _ Hinv).
  - intros a j k. rewrite !Hused. apply (fi_owner _ _ _ Hinv).
  - intros a j HX. rewrite Hused. by apply (fi_extra _ _ _ Hinv).
Qed.

(** A new slot for an inode that had none. *)
Lemma inserted_live t io i e j :
  inserted (inodes t) io i e -> inodes_find (inodes t) (e_ino e) = None ->
  live io j <-> live (inodes t) j \/ j = i.
Proof.
  intros Hins Hnone. unfold live. rewrite (ins_by_ino _ _ _ _ Hins). split.
  - intros [k Hk]. apply lookup_insert_Some in Hk as [[_ <-]|[_ Hk]]; eauto.
  - intros [[k Hk]| ->].
    + exists k. rewrite lookup_insert_ne; [done|]. intros <-. unfold inodes_find in Hnone. congruence.
    + exists (e_ino e). by rewrite lookup_insert_eq.
Qed.

Lemma inv_inserted T t io i ino kind size r :
  inv_x None T t -> inserted (inodes t) io i (fresh_entry ino kind size) ->
  inodes_find (inodes t) ino = None -> t_inodes T !! ino = Some r -> row_kind r = Some kind ->
  r_size r = size -> kind <> Directory ->
  inv_x None T (with_slots io t).
Proof.
  intros Hinv Hins Hnone Hr Hk Hs Hkd.
  pose proof (fun j => inserted_live t io i (fresh_entry ino kind size) j Hins Hnone) as Hlive.
  pose proof (dw_rows _ (proj1 (fi_db _ _ _ Hinv)) _ _ Hr) as (_ & _ & _ & Hmax).
  assert (forall j ej, live io j -> entry_at io j = Some ej ->
    (j = i /\ ej = fresh_entry ino kind size) \/
    (live (inodes t) j /\ entry_at (inodes t) j = Some ej)) as Hent.
  { intros j ej Hlj Hej. apply Hlive in Hlj as [Hlj|Hji].
    - right. split; [done|]. by rewrite <- (ins_other _ _ _ _ Hins).
    - left. split; [done|]. rewrite Hji, (ins_entry _ _ _ _ Hins) in Hej. congruence. }
  assert (forall a j, used_by io a j <-> used_by (inodes t) a j) as Hused.
  { intros a j. split; intros (ej & Hlj & Hej & Ha).
    - destruct (Hent j ej Hlj Hej) as [[_ ->]|[? ?]]; [by apply elem_of_nil in Ha|by exists ej].
    - exists ej. split; [apply Hlive; by left|]. by rewrite (ins_other _ _ _ _ Hins). }
  constructor; simpl; try done; try apply Hinv; try apply Hins.
  - intros j ej Hlj Hej. destruct (Hent j ej Hlj Hej) as [[_ ->]|[? ?]]; [|by eapply (fi_entry _ _ _ Hinv)].
    exists r. constructor; simpl; try done; try lia.
    + intros ->. rewrite <- Hs. auto.
    + constructor.
    + constructor.
    + by intros c a ?%elem_of_nil.
  - intros j ej Hlj Hej. destruct (Hent j ej Hlj Hej) as [[-> ->]|[? ?]]; [|by apply (fi_refs _ _ _ Hinv)].
    symmetry. apply handle_count_absent.
    + assert (in_range io i) as Hir.
      { apply entry_at_is_Some; [apply Hins|]. exists (fresh_entry ino kind size). apply Hins. }
      pose proof (iw_bound _ (ins_wf _ _ _ _ Hins)). unfold in_range in Hir. lia.
    + intros fh Hf. apply (ins_new _ _ _ _ Hins). by eapply (fi_handle _ _ _ Hinv).
  - intros fh j Hf. apply Hlive. left. by eapply (fi_handle _ _ _ Hinv).
  - intros a. setoid_rewrite Hused. apply (fi_used _ _ _ Hinv).
  - intros a j k. rewrite !Hused. apply (fi_owner _ _ _ Hinv).
Qed.
End handles.

(** ** A new file system *)

(** The table of a mount holds nothing. *)
Lemma inv_fresh T budget :
  fs_wf T -> budget < 2 ^ 48 -> inv_x None T (OpenTable_new budget).
Proof.
  intros Hwf Hb.
  assert (forall i, ~ live (inodes (OpenTable_new budget)) i) as Hno.
  { intros i [k Hk]. simpl in Hk. by rewrite lookup_empty in Hk. }
  constructor; simpl; try done.
  - apply OpenInodes_default_wf.
  - apply Handles_default_wf.
  - by apply ChunkArena_new_wf.
  - intros i e Hl. by destruct (Hno i).
  - intros i e Hl. by destruct (Hno i).
  - intros fh i (Hf & _)%handles_get_Some. apply vget_Some in Hf. unfold zlen in Hf. simpl in Hf. lia.
  - intros a. split.
    + intros [Ha _]. unfold zlen in Ha. simpl in Ha. lia.
    + intros [?|(i & e & Hl & _)]; [done|]. by destruct (Hno i).
  - intros a i j (e & Hl & _). by destruct (Hno i).
Qed.
