(* ===== verification/FuseSpec.v ===== *)
(** * FuseSpec: specifications of the file operations

    Each operation under the invariant: what it returns, what it does to the
    files, and the errors that it reports. The contents of a file are its size
    and its bytes as [file_size] and [file_byte] show them. *)

From S2P Require Import Prelude Effects Model Chunk Arena OpenTable Sql DbData DbNames Tree.
From S2P Require Import NamesSpec DbVolume Fuse FuseInv FuseFlush FuseWrite FuseRead FuseOps.
From S2P Require Import FuseHandles.

(** Files, names and flags as before; slots and handles may differ. *)
Record calm (s s' : Fs) : Prop := {
  cm_files : same_files s s';
  cm_names : same_names (tables (fs_db s)) (tables (fs_db s'));
  cm_closing : closing (fs_table s') = closing (fs_table s);
  cm_last : fs_last_flush s' = fs_last_flush s;
  cm_cache : fs_kernel_cache s' = fs_kernel_cache s }.

#[global] Instance calm_preorder : PreOrder calm.
Proof.
  split; [by intros s|]. intros s1 s2 s3 [] []. constructor; try congruence; by etrans.
Qed.

Lemma quiet_calm s s' : quiet s s' -> calm s s'.
Proof. by intros []. Qed.

Lemma same_state_calm s s' : same_state s s' -> calm s s'.
Proof. intros Hs. by apply quiet_calm, quiet_state. Qed.

(** Every slot of [s] is still there, as it was. *)
Definition slots_kept (s s' : Fs) : Prop :=
  handles (fs_table s') = handles (fs_table s) /\
  forall j e, live (inodes (fs_table s)) j -> entry_at (inodes (fs_table s)) j = Some e ->
    live (inodes (fs_table s')) j /\ entry_at (inodes (fs_table s')) j = Some e.

Lemma slots_kept_handle s s' fh :
  fs_inv s -> slots_kept s s' -> handle_ino (fs_table s') fh = handle_ino (fs_table s) fh.
Proof.
  intros Hinv [Hh Hs]. unfold handle_ino. rewrite Hh.
  destruct (handles_get (handles (fs_table s)) fh) as [i|] eqn:Hf; [|done]. simpl.
  pose proof (fi_handle _ _ _ Hinv _ _ Hf) as Hl.
  destruct (inv_live _ _ _ _ Hinv Hl) as (e & _ & He & _).
  destruct (Hs i e Hl He) as [_ He']. by rewrite He, He'.
Qed.

(** Names, flags and handles as before; contents may differ. *)
Record stable (s s' : Fs) : Prop := {
  sb_names : same_names (tables (fs_db s)) (tables (fs_db s'));
  sb_closing : closing (fs_table s') = closing (fs_table s);
  sb_last : fs_last_flush s' = fs_last_flush s;
  sb_cache : fs_kernel_cache s' = fs_kernel_cache s;
  sb_handles : forall fh, handle_ino (fs_table s') fh = handle_ino (fs_table s) fh }.

#[global] Instance stable_preorder : PreOrder stable.
Proof.
  split; [by intros s|]. intros s1 s2 s3 [] []. constructor; try congruence. by etrans.
Qed.

Lemma steady_stable s s' : fs_inv s -> fs_inv s' -> steady s s' -> stable s s'.
Proof.
  intros Hinv Hinv' Hst. pose proof Hst as []. constructor; try done.
  intros fh. by apply steady_handle_ino.
Qed.

Lemma quiet_stable s s' : fs_inv s -> fs_inv s' -> quiet s s' -> stable s s'.
Proof. intros ? ? ?%quiet_steady. by apply steady_stable. Qed.

Lemma calm_stable s s' : fs_inv s -> calm s s' -> slots_kept s s' -> stable s s'.
Proof. intros ? [] ?. constructor; try done. intros fh. by apply slots_kept_handle. Qed.

Section ops.
Context `{World, HashOrder}.
Implicit Types (s : Fs) (T : Tables) (t : OpenTable) (i : Slot) (e : Entry) (ino fh : Z).

(** ** Access to slots and handles *)

Lemma wp_find_slot ino (Q : option Slot -> Fs -> Prop) (R : Z -> Fs -> Prop) s :
  Q (inodes_find (inodes (fs_table s)) ino) s -> wp (Dbfs.find_slot ino) Q R s.
Proof. done. Qed.

Lemma wp_handle_slot fh (Q : Slot -> Fs -> Prop) (R : Z -> Fs -> Prop) s :
  fs_inv s ->
  (forall i e, handles_get (handles (fs_table s)) fh = Some i ->
     handle_ino (fs_table s) fh = Some (e_ino e) -> live (inodes (fs_table s)) i ->
     entry_at (inodes (fs_table s)) i = Some e -> Q i s) ->
  (handle_ino (fs_table s) fh = None -> R EBADF s) ->
  wp (Dbfs.handle_slot fh) Q R s.
Proof.
  intros Hinv HQ HR. unfold Dbfs.handle_slot. apply wp_bind, wp_table, wp_ok_or.
  - intros i Hf. pose proof (fi_handle _ _ _ Hinv _ _ Hf) as Hl.
    destruct (inv_live _ _ _ _ Hinv Hl) as (e & _ & He & _). apply (HQ i e); try done.
    unfold handle_ino. rewrite Hf. simpl. by rewrite He.
  - intros Hf. apply HR. unfold handle_ino. by rewrite Hf.
Qed.

(** A slot for [ino] is entered in the table. *)
Lemma insert_calm s ino kind size r (Q : Slot * OpenInodes -> Fs -> Prop) (R : Z -> Fs -> Prop) :
  fs_inv s -> inodes_find (inodes (fs_table s)) ino = None ->
  t_inodes (tables (fs_db s)) !! ino = Some r -> row_kind r = Some kind -> r_size r = size ->
  kind <> Directory -> slot_room (inodes (fs_table s)) ->
  (forall i io, let s' := set_table (with_slots io (fs_table s)) s in
     fs_inv s' -> calm s s' -> slots_kept s s' -> live io i ->
     entry_at io i = Some (fresh_entry ino kind size) -> Q (i, io) s) ->
  wp (unwrap (inodes_insert (inodes (fs_table s)) ino kind size)) Q R s.
Proof.
  intros Hinv Hnone Hr Hk Hsz Hkd Hroom HQ.
  destruct (inodes_insert_spec (inodes (fs_table s)) ino kind size) as (i & io & Hi & Hins);
    [apply Hinv|done|done|].
  eapply wp_unwrap; [done|]. pose proof (inv_inserted _ _ _ _ _ _ _ _ Hinv Hins Hnone Hr Hk Hsz Hkd) as Hi'.
  pose proof (fun j => inserted_live _ _ _ _ j Hins Hnone) as Hlive.
  apply HQ; [exact Hi'| | |apply Hlive; by right|apply Hins].
  - constructor; try done. intros k Hkv. destruct (decide (k = ino)) as [->|Hne].
    + assert (entry_of (with_slots io (fs_table s)) ino = Some (fresh_entry ino kind size)) as Hnew.
      { exact (entry_of_live _ _ _ _ _ Hi' (proj2 (Hlive i) (or_intror eq_refl)) (ins_entry _ _ _ _ Hins)). }
      assert (entry_of (fs_table s) ino = None) as Hold by (unfold entry_of; by rewrite Hnone).
      split; [unfold file_size; simpl; rewrite Hnew, Hold, Hr; simpl; by rewrite Hsz|].
      intros p Hp. unfold file_byte. simpl. by rewrite Hnew, Hold.
    + assert (entry_of (with_slots io (fs_table s)) k = entry_of (fs_table s) k) as Heo.
      { unfold entry_of, inodes_find. simpl. rewrite (ins_by_ino _ _ _ _ Hins), lookup_insert_ne by done.
        destruct (oi_by_ino (inodes (fs_table s)) !! k) as [j|] eqn:Hj; [|done]. simpl.
        apply (ins_other _ _ _ _ Hins). by exists k. }
      split; [unfold file_size; simpl; by rewrite Heo|]. intros p _. unfold file_byte. simpl. by rewrite Heo.
  - split; [done|]. intros j e Hl He. split; [apply Hlive; by left|].
    simpl. by rewrite (ins_other _ _ _ _ Hins).
Qed.

Lemma wp_slot_for ino (Q : Slot -> Fs -> Prop) (R : Z -> Fs -> Prop) s :
  fs_inv s -> valid_ino ino -> kind_of (tables (fs_db s)) ino <> Some Directory ->
  slot_room (inodes (fs_table s)) ->
  (forall i e s', fs_inv s' -> calm s s' -> slots_kept s s' -> live (inodes (fs_table s')) i ->
     entry_at (inodes (fs_table s')) i = Some e -> e_ino e = ino -> Q i s') ->
  (forall s', t_inodes (tables (fs_db s)) !! ino = None -> same_state s s' -> R ENOENT s') ->
  (forall n s', db_failure n -> same_state s s' -> R n s') ->
  wp (Shared.slot_for ino) Q R s.
Proof.
  intros Hinv Hi Hfile Hroom HQ HN HR. unfold Shared.slot_for. apply wp_bind, wp_table.
  destruct (inodes_find (inodes (fs_table s)) ino) as [i|] eqn:Hf.
  - destruct (inv_find _ _ _ _ _ Hinv Hf) as (e & _ & Hl & He & Hino & _).
    apply wp_ret, (HQ i e); try done.
  - apply wp_bind, wp_db, wp_inode_head; [apply (fi_db _ _ _ Hinv)|done| | |].
    + intros r k c Hr Hk Hok Hc. cbv beta iota. apply wp_bind.
      assert (same_state s (set_db c s)) as Hss by (by apply same_state_db).
      pose proof (same_state_inv _ _ Hss Hinv) as Hinv'.
      apply (insert_calm (set_db c s) ino k (r_size r) r); simpl; rewrite ?Hc; try done.
      { intros ->. apply Hfile. by rewrite (kind_of_row _ _ _ Hr). }
      intros i io Hi' Hcalm Hkept Hl He. apply wp_bind, wp_update, wp_ret.
      apply (HQ i (fresh_entry ino k (r_size r))); try done.
      etrans; [by apply same_state_calm|done].
    + intros c Hn Hc. apply HN; [done|]. by apply same_state_db.
    + intros de c Hde Hc. apply HR; [by exists de|]. by apply same_state_db.
Qed.

(** The number of handles of a slot is not visible in the files. *)
Lemma refs_calm s io h i e n :
  fs_inv s -> live (inodes (fs_table s)) i -> entry_at (inodes (fs_table s)) i = Some e ->
  updated (inodes (fs_table s)) io i (with_refs e n) ->
  calm s (set_table (with_handles h (with_slots io (fs_table s))) s).
Proof.
  intros Hinv Hl He Hup. constructor; try done. intros k Hk.
  assert (entry_of (with_handles h (with_slots io (fs_table s))) k = entry_of (fs_table s) k \/
    (entry_of (fs_table s) k = Some e /\
     entry_of (with_handles h (with_slots io (fs_table s))) k = Some (with_refs e n))) as Heo.
  { unfold entry_of, inodes_find. simpl. rewrite (up_by_ino _ _ _ _ Hup).
    destruct (oi_by_ino (inodes (fs_table s)) !! k) as [j|]; [|by left]. simpl.
    rewrite (up_entry _ _ _ _ Hup). case_decide as Hd; [subst; by right|by left]. }
  unfold same_file, file_size, file_byte. simpl. by destruct Heo as [->|[-> ->]].
Qed.

(** A new handle, for [ino]. *)
Record opened s s' fh ino : Prop := {
  on_inv : fs_inv s';
  on_calm : calm s s';
  on_fresh : handle_ino (fs_table s) fh = None;
  on_fh : handle_ino (fs_table s') fh = Some ino;
  on_others : forall fh', fh' <> fh -> handle_ino (fs_table s') fh' = handle_ino (fs_table s) fh' }.

(** Room for one more handle, on any slot. *)
Definition handles_room s : Prop := zlen (h_slot (handles (fs_table s))) < U32_MAX.

Lemma refs_bound s i e :
  fs_inv s -> live (inodes (fs_table s)) i -> entry_at (inodes (fs_table s)) i = Some e ->
  0 <= e_refs e <= zlen (h_slot (handles (fs_table s))).
Proof.
  intros Hinv Hl He. rewrite (fi_refs _ _ _ Hinv i e) by done. unfold handle_count, zlen.
  split; [lia|]. apply inj_le. apply length_filter.
Qed.

Lemma wp_open_slot i e (Q : Z -> Fs -> Prop) (R : Z -> Fs -> Prop) s :
  fs_inv s -> live (inodes (fs_table s)) i -> entry_at (inodes (fs_table s)) i = Some e ->
  handles_room s ->
  (forall fh s', opened s s' fh (e_ino e) -> Q fh s') ->
  wp (Shared.open_slot i) Q R s.
Proof.
  intros Hinv Hl He Hroom HQ. pose proof (refs_bound s i e Hinv Hl He) as Hrb.
  unfold handles_room, U32_MAX in Hroom. pose proof (live_slot_bound _ _ _ _ Hinv Hl) as Hib.
  unfold Shared.open_slot. fs_col He. rewrite u32_id by lia.
  apply wp_bind. eapply (wp_store set_refs with_refs); [apply Hinv|exact He|].
  intros io Hup. apply wp_bind, wp_table.
  destruct (handles_alloc_spec (handles (fs_table s)) i) as
    (fh & h & Hal & Hh & Hnew & Hfh & Hoth & Hcount); [apply Hinv|lia|right; lia|].
  apply wp_bind. eapply wp_unwrap; [exact Hal|]. apply wp_bind, wp_update, wp_ret, HQ.
  cbn [fst snd].
  assert (fs_inv (set_table (with_handles h (with_slots io (fs_table s))) s)) as Hinv'.
  { apply (inv_refs None _ _ _ _ i e (e_refs e + 1) Hinv Hl He Hup Hh).
    - intros j Hj. rewrite Hcount by done. case_decide; [|lia]. subst.
      by rewrite (fi_refs _ _ _ Hinv j e).
    - intros fh' j Hf. destruct (decide (fh' = fh)) as [->|Hne]; [congruence|].
      rewrite Hoth in Hf by done. by eapply (fi_handle _ _ _ Hinv). }
  constructor; [exact Hinv'|exact (refs_calm s io h i e _ Hinv Hl He Hup)| | |].
  - unfold handle_ino. by rewrite Hnew.
  - unfold handle_ino. simpl. rewrite Hfh. simpl. by rewrite (up_entry _ _ _ _ Hup), decide_True.
  - intros fh' Hne. unfold handle_ino. simpl. rewrite Hoth by done.
    destruct (handles_get (handles (fs_table s)) fh') as [j|]; [|done]. simpl.
    rewrite (up_entry _ _ _ _ Hup). case_decide as Hd; [|done]. subst. by rewrite He.
Qed.

(** [open] gives a handle that was not in use, and changes nothing else. *)
Lemma wp_open ino (Q : Z -> Fs -> Prop) (R : Z -> Fs -> Prop) s :
  fs_inv s -> valid_ino ino -> kind_of (tables (fs_db s)) ino <> Some Directory ->
  slot_room (inodes (fs_table s)) -> handles_room s ->
  (forall fh s', opened s s' fh ino -> Q fh s') ->
  (forall s', t_inodes (tables (fs_db s)) !! ino = None -> same_state s s' -> R ENOENT s') ->
  (forall n s', db_failure n -> same_state s s' -> R n s') ->
  wp (Dbfs.open ino) Q R s.
Proof.
  intros Hinv Hi Hfile Hroom Hh HQ HN HR. unfold Dbfs.open. apply wp_bind, wp_slot_for; try done.
  intros i e s1 Hinv1 Hcalm Hkept Hl He <-. apply (wp_open_slot i e); try done.
  - unfold handles_room. by rewrite (proj1 Hkept).
  - intros fh s2 []. apply HQ. constructor; try done.
    + by etrans.
    + by rewrite <- (slots_kept_handle s s1).
    + intros fh' Hne. rewrite on_others0 by done. by apply slots_kept_handle.
Qed.

(** ** Reads and writes *)

(** What a read returns of a file of [size] bytes [f]. *)
Definition read_result (size : Z) (f : Z -> byte) (offset n : Z) (out : list byte) : Prop :=
  zlen out = Z.max 0 (Z.min n (size - offset)) /\
  forall j, 0 <= j < zlen out -> zget out j = f (offset + j).

Lemma wp_read_fh fh offset n (Q : list byte -> Fs -> Prop) (R : Z -> Fs -> Prop) s :
  fs_inv s -> 0 <= offset -> 0 <= n ->
  (forall ino size f out s', handle_ino (fs_table s) fh = Some ino ->
     kind_of (tables (fs_db s)) ino = Some RegularFile -> contents s ino size f ->
     size <= MAX_FILE_SIZE -> read_result size f offset n out -> same_state s s' -> Q out s') ->
  (handle_ino (fs_table s) fh = None -> R EBADF s) ->
  (forall ino k error, handle_ino (fs_table s) fh = Some ino ->
     kind_of (tables (fs_db s)) ino = Some k -> regular_file_error k = Some error ->
     R (errno_from_db_error error) s) ->
  (forall errno s', db_failure errno -> same_state s s' -> R errno s') ->
  wp (Dbfs.read_fh fh offset n) Q R s.
Proof.
  intros Hinv Ho Hn HQ HB HK HR. unfold Dbfs.read_fh. apply wp_bind, wp_handle_slot; [done| |done].
  intros i e Hf Hfh Hl He. destruct (fi_entry _ _ _ Hinv i e Hl He) as [r Hok].
  assert (kind_of (tables (fs_db s)) (e_ino e) = Some (e_kind e)) as Hkd.
  { rewrite (kind_of_row _ _ _ (eo_row _ _ _ _ Hok)). apply Hok. }
  pose proof (live_contents _ _ _ _ Hinv Hl He) as Hc.
  apply (wp_read_slot i e); [done..| | |done]; [by intros error Herr; eapply (HK (e_ino e) (e_kind e))|].
  intros out s' Hkind Hs Hlen Hout. eapply (HQ (e_ino e)); try done; [congruence|exact (eo_max _ _ _ _ Hok Hkind)|].
  split; [done|]. intros j Hj. rewrite Hout by done. apply Hc.
  pose proof (eo_max _ _ _ _ Hok Hkind). lia.
Qed.

(** [s'] is [s] with file [ino] at [size] bytes [f]; other files, the names and
    the handles are as before. *)
Record file_changed s s' ino (size : Z) (f : Z -> byte) : Prop := {
  fc_inv : fs_inv s';
  fc_stable : stable s s';
  fc_others : others_same ino s s';
  fc_contents : contents s' ino size f }.

Lemma wrote_changed s s' i e size f :
  fs_inv s -> wrote s s' i e size f -> file_changed s s' (e_ino e) size f.
Proof. intros Hinv []. constructor; try done. by apply steady_stable. Qed.

Lemma contents_ext s ino size f g :
  (forall p, 0 <= p < MAX_FILE_SIZE -> f p = g p) -> contents s ino size f -> contents s ino size g.
Proof. intros Hfg [Hs Hf]. split; [done|]. intros p Hp. by rewrite Hf, Hfg. Qed.

Lemma contents_size s ino size f size' f' :
  contents s ino size f -> contents s ino size' f' -> size' = size.
Proof. intros [H1 _] [H2 _]. congruence. Qed.

Lemma write_nothing size f offset p : write_size size (offset, []) = size /\ write_bytes f (offset, []) p = f p.
Proof.
  unfold write_size, write_bytes, zlen. simpl. split; [done|]. rewrite decide_False; [done|lia].
Qed.

Lemma file_unchanged s s' ino size f offset :
  fs_inv s' -> stable s s' -> others_same ino s s' -> contents s' ino size f ->
  file_changed s s' ino (write_size size (offset, [])) (write_bytes f (offset, [])).
Proof.
  intros Hinv Hst Ho Hc. constructor; try done. rewrite (proj1 (write_nothing size f offset 0)).
  eapply contents_ext; [|done]. intros p _. by rewrite (proj2 (write_nothing size f offset p)).
Qed.

(** The reasons for which a write of [len] bytes at [offset] is refused. *)
Inductive write_refused s (ino offset len : Z) : Z -> Prop :=
  | wf_kind k error : kind_of (tables (fs_db s)) ino = Some k -> regular_file_error k = Some error ->
      write_refused s ino offset len (errno_from_db_error error)
  | wf_closing : kind_of (tables (fs_db s)) ino = Some RegularFile ->
      closing (fs_table s) = true -> write_refused s ino offset len EIO
  | wf_large : kind_of (tables (fs_db s)) ino = Some RegularFile ->
      MAX_FILE_SIZE < offset + len -> write_refused s ino offset len EFBIG.

(** A write to a live slot, in terms of its file. *)
Lemma wp_write_file_slot i e offset data (Q : Z -> Fs -> Prop) (R : Z -> Fs -> Prop) s :
  fs_inv s -> live (inodes (fs_table s)) i -> entry_at (inodes (fs_table s)) i = Some e ->
  0 <= offset -> offset + zlen data <= 2 ^ 64 - CHUNK_SIZE ->
  (forall size f s', kind_of (tables (fs_db s)) (e_ino e) = Some RegularFile ->
     closing (fs_table s) = false -> contents s (e_ino e) size f ->
     data = [] \/ offset + zlen data <= MAX_FILE_SIZE ->
     live (inodes (fs_table s')) i ->
     file_changed s s' (e_ino e) (write_size size (offset, data)) (write_bytes f (offset, data)) ->
     Q (u32 (zlen data)) s') ->
  (forall n, write_refused s (e_ino e) offset (zlen data) n -> R n s) ->
  (forall n size f m s', db_failure n -> contents s (e_ino e) size f -> 0 <= m <= zlen data ->
     live (inodes (fs_table s')) i ->
     file_changed s s' (e_ino e) (write_size size (offset, take (Z.to_nat m) data))
       (write_bytes f (offset, take (Z.to_nat m) data)) -> R n s') ->
  wp (Shared.write_slot i offset data) Q R s.
Proof.
  intros Hinv Hl He Ho Hend HQ HF HR. destruct (fi_entry _ _ _ Hinv i e Hl He) as [r Hok].
  assert (kind_of (tables (fs_db s)) (e_ino e) = Some (e_kind e)) as Hkd.
  { rewrite (kind_of_row _ _ _ (eo_row _ _ _ _ Hok)). apply Hok. }
  pose proof (live_contents _ _ _ _ Hinv Hl He) as Hc.
  apply (wp_write_slot i e); try done.
  - intros error Herr. by eapply HF, wf_kind.
  - intros Hk Hcl. apply HF, wf_closing; [congruence|done].
  - intros Hk Hcl ->. change 0 with (u32 (zlen (@nil byte))). eapply HQ; try done; [congruence|by left|].
    by apply file_unchanged.
  - intros Hk _ _ Hbig. apply HF, wf_large; [congruence|done].
  - intros now s' Hk Hcl Hne Hfit Hw. specialize (Hw _ _ Hc).
    eapply HQ; [congruence|done|exact Hc|by right|apply Hw|exact (wrote_changed _ _ _ _ _ _ Hinv Hw)].
  - intros n now m s' Hn Hm Hw. specialize (Hw _ _ Hc).
    eapply HR; [done|exact Hc|done|apply Hw|exact (wrote_changed _ _ _ _ _ _ Hinv Hw)].
Qed.

Lemma wp_write_fh fh offset data (Q : Z -> Fs -> Prop) (R : Z -> Fs -> Prop) s :
  fs_inv s -> 0 <= offset -> offset + zlen data <= 2 ^ 64 - CHUNK_SIZE ->
  (forall ino size f s', handle_ino (fs_table s) fh = Some ino ->
     kind_of (tables (fs_db s)) ino = Some RegularFile ->
     closing (fs_table s) = false -> contents s ino size f ->
     data = [] \/ offset + zlen data <= MAX_FILE_SIZE ->
     file_changed s s' ino (write_size size (offset, data)) (write_bytes f (offset, data)) ->
     Q (u32 (zlen data)) s') ->
  (handle_ino (fs_table s) fh = None -> R EBADF s) ->
  (forall ino n, handle_ino (fs_table s) fh = Some ino ->
     write_refused s ino offset (zlen data) n -> R n s) ->
  (forall ino n size f m s', handle_ino (fs_table s) fh = Some ino -> db_failure n ->
     contents s ino size f -> 0 <= m <= zlen data ->
     file_changed s s' ino (write_size size (offset, take (Z.to_nat m) data))
       (write_bytes f (offset, take (Z.to_nat m) data)) -> R n s') ->
  wp (Dbfs.write_fh fh offset data) Q R s.
Proof.
  intros Hinv Ho Hend HQ HB HF HR. unfold Dbfs.write_fh. apply wp_bind, wp_handle_slot; [done| |done].
  intros i e Hf Hfh Hl He. apply (wp_write_file_slot i e); try done; eauto.
Qed.

Lemma quiet_changed s s' ino size f :
  fs_inv s -> fs_inv s' -> quiet s s' -> valid_ino ino -> contents s ino size f ->
  file_changed s s' ino size f.
Proof.
  intros Hinv Hinv' Hq Hi Hc. constructor; [done|by apply quiet_stable|by apply quiet_others|].
  by eapply quiet_contents.
Qed.

Lemma changed_trans s1 s2 s3 ino size f size' f' :
  file_changed s1 s2 ino size f -> file_changed s2 s3 ino size' f' -> file_changed s1 s3 ino size' f'.
Proof. intros [] []. constructor; try done; by etrans. Qed.

Lemma changed_quiet s1 s2 s3 ino size f :
  file_changed s1 s2 ino size f -> fs_inv s3 -> quiet s2 s3 -> valid_ino ino ->
  file_changed s1 s3 ino size f.
Proof.
  intros Hc Hinv Hq Hi. eapply changed_trans; [done|]. apply quiet_changed; try done; apply Hc.
Qed.

(** Freeing a slot, which leaves the database alone. *)
Lemma wp_free_table i (Q : unit -> Fs -> Prop) (R : Z -> Fs -> Prop) s :
  fs_inv s -> live (inodes (fs_table s)) i ->
  (forall s', fs_inv s' -> quiet s s' -> fs_db s' = fs_db s -> Q tt s') ->
  wp (Shared.free_if_idle i) Q R s.
Proof.
  intros Hinv Hl HQ. destruct (inv_live _ _ _ _ Hinv Hl) as (e & _ & He & _).
  apply (wp_free_if_idle None i e); [done..| |].
  - intros _. apply HQ; [done|apply quiet_refl|done].
  - intros t' Hid Hg. destruct (freed_quiet _ _ _ _ Hinv Hl He Hid Hg). by apply HQ.
Qed.

(** Freeing the slot after a write. *)
Lemma wp_free_quiet i (Q : unit -> Fs -> Prop) (R : Z -> Fs -> Prop) s :
  fs_inv s -> live (inodes (fs_table s)) i ->
  (forall s', fs_inv s' -> quiet s s' -> Q tt s') ->
  wp (Shared.free_if_idle i) Q R s.
Proof. intros Hinv Hl HQ. apply wp_free_table; auto. Qed.

Lemma others_calm s s' ino : calm s s' -> others_same ino s s'.
Proof. intros [Hf] k Hk _. by apply Hf. Qed.

Lemma calm_contents s s' ino size f :
  calm s s' -> valid_ino ino -> contents s ino size f <-> contents s' ino size f.
Proof.
  intros [Hf] Hi. destruct (Hf ino Hi) as [A B].
  split; intros [Hs Hb]; (split; [congruence|]); intros p Hp; [by rewrite B, Hb|by rewrite <- B, Hb].
Qed.

Lemma calm_contents' s s' ino size f :
  calm s s' -> valid_ino ino -> contents s ino size f -> contents s' ino size f.
Proof. intros Hc Hi Hf. by apply (calm_contents s s'). Qed.

Lemma same_names_kind T T' ino : same_names T T' -> kind_of T' ino = kind_of T ino.
Proof.
  intros (_ & _ & Hn). specialize (Hn ino). unfold kind_of, row_kind.
  destruct (t_inodes T !! ino), (t_inodes T' !! ino); try done. injection Hn as Hk _ _ _ _. simpl. by rewrite Hk.
Qed.

Lemma same_files_contents s s' ino size f :
  same_files s s' -> valid_ino ino -> contents s ino size f -> contents s' ino size f.
Proof.
  intros Hf Hi [Hs Hb]. destruct (Hf ino Hi) as [A B]. split; [congruence|].
  intros p Hp. by rewrite B, Hb.
Qed.

(** A prefix of the data was written. *)
Definition partly_written s s' ino offset (data : list byte) : Prop :=
  exists (size : Z) (f : Z -> byte) (m : Z), contents s ino size f /\ (0 <= m <= zlen data) /\
    contents s' ino (write_size size (offset, take (Z.to_nat m) data))
      (write_bytes f (offset, take (Z.to_nat m) data)).

Lemma refused_calm s s1 ino offset len n :
  calm s s1 -> write_refused s1 ino offset len n -> write_refused s ino offset len n.
Proof.
  intros [_ Hn Hc _ _] Hr. pose proof (same_names_kind _ _ ino Hn) as Hk.
  destruct Hr; rewrite Hk in *; [by eapply wf_kind|apply wf_closing|by apply wf_large]; congruence.
Qed.

(** [write]: the same through an inode number, open or not. *)
Lemma wp_write ino offset data (Q : Z -> Fs -> Prop) (R : Z -> Fs -> Prop) s :
  fs_inv s -> valid_ino ino -> kind_of (tables (fs_db s)) ino <> Some Directory ->
  slot_room (inodes (fs_table s)) -> 0 <= offset -> offset + zlen data <= 2 ^ 64 - CHUNK_SIZE ->
  (data = [] -> Q 0 s) ->
  (forall size f s', kind_of (tables (fs_db s)) ino = Some RegularFile ->
     closing (fs_table s) = false -> contents s ino size f -> data <> [] ->
     offset + zlen data <= MAX_FILE_SIZE ->
     file_changed s s' ino (write_size size (offset, data)) (write_bytes f (offset, data)) ->
     Q (u32 (zlen data)) s') ->
  (forall s', t_inodes (tables (fs_db s)) !! ino = None -> same_state s s' -> R ENOENT s') ->
  (forall n s', write_refused s ino offset (zlen data) n -> fs_inv s' -> stable s s' ->
     same_files s s' -> R n s') ->
  (forall n s', db_failure n -> fs_inv s' -> stable s s' -> others_same ino s s' ->
     same_files s s' \/ partly_written s s' ino offset data -> R n s') ->
  wp (Dbfs.write ino offset data) Q R s.
Proof.
  intros Hinv Hi Hfile Hroom Ho Hend HQ0 HQ HN HF HR. unfold Dbfs.write.
  destruct (bool_decide_reflect (data = [])) as [Hd|Hd]; [by apply wp_ret, HQ0|].
  apply wp_bind, wp_slot_for; [done..| |done|].
  2:{ intros n s' Hn Hs. pose proof (same_state_inv _ _ Hs Hinv) as Hi'. apply HR; [done..| | |left].
      - apply quiet_stable; [done..|by apply quiet_state].
      - by apply others_calm, same_state_calm.
      - by apply same_state_files. }
  intros i e s1 Hinv1 Hcalm Hkept Hl He Hino. apply wp_match_result.
  pose proof (calm_stable s s1 Hinv Hcalm Hkept) as Hst1.
  apply (wp_write_file_slot i e); try done; rewrite Hino.
  - intros size f s2 Hk Hcl Hc Hfit Hl2 Hch. pose proof (fc_inv _ _ _ _ _ Hch) as Hinv2.
    apply wp_bind, wp_free_quiet; [done..|]. intros s3 Hinv3 Hq. apply wp_ret, (HQ size f); try done.
    + by rewrite <- (same_names_kind _ _ _ (cm_names _ _ Hcalm)).
    + by rewrite <- (cm_closing _ _ Hcalm).
    + by rewrite calm_contents.
    + by destruct Hfit.
    + destruct (changed_quiet _ _ _ _ _ _ Hch Hinv3 Hq Hi) as [? ? ? ?].
      constructor; [done|by etrans| |done]. etrans; [by apply others_calm|done].
  - intros n Hrf. apply wp_bind, wp_free_quiet; [done..|]. intros s3 Hinv3 Hq.
    apply wp_throw, HF; [by eapply refused_calm|done| |].
    + etrans; [done|]. by apply quiet_stable.
    + etrans; [apply Hcalm|apply Hq].
  - intros n size f m s2 Hn Hc Hm Hl2 Hch. pose proof (fc_inv _ _ _ _ _ Hch) as Hinv2.
    apply wp_bind, wp_free_quiet; [done..|]. intros s3 Hinv3 Hq.
    destruct (changed_quiet _ _ _ _ _ _ Hch Hinv3 Hq Hi) as [? ? ? ?].
    apply wp_throw, HR; try done; [by etrans| |].
    + etrans; [by apply others_calm|done].
    + right. exists size, f, m. split; [by rewrite calm_contents|done].
Qed.

(** ** Flushes *)

(** The file is in the database as the filesystem shows it. *)
Definition file_stored s ino : Prop :=
  forall size f, contents s ino size f ->
    (exists r, t_inodes (tables (fs_db s)) !! ino = Some r /\ r_size r = size) /\
    forall p, 0 <= p < MAX_FILE_SIZE -> stored_byte (tables (fs_db s)) ino p = f p.

Lemma clean_stored X s i e :
  inv_x X (tables (fs_db s)) (fs_table s) -> live (inodes (fs_table s)) i ->
  entry_at (inodes (fs_table s)) i = Some e -> e_dirty e = [] -> file_stored s (e_ino e).
Proof.
  intros Hinv Hl He Hd size f [Hs Hf]. destruct (fi_entry _ _ _ Hinv i e Hl He) as [r Hok].
  destruct (live_contents _ _ _ _ Hinv Hl He) as [Hs' Hf']. split.
  - exists r. split; [apply Hok|]. rewrite <- (eo_clean _ _ _ _ Hok Hd). congruence.
  - intros p Hp. rewrite <- Hf, Hf' by done. unfold entry_byte. by rewrite Hd.
Qed.

Lemma closed_stored s ino :
  inodes_find (inodes (fs_table s)) ino = None -> file_stored s ino.
Proof.
  intros Hn size f [Hs Hf]. unfold file_size, file_byte, entry_of in *. rewrite Hn in Hs, Hf. simpl in *.
  destruct (t_inodes (tables (fs_db s)) !! ino) as [r|] eqn:Hr; [|done]. split; [|done].
  exists r. split; [done|]. by injection Hs.
Qed.

(** Whether the inode was unlinked while open. *)
Definition unlinked_open s ino : Prop := exists e, entry_of (fs_table s) ino = Some e /\ e_unlinked e = true.

Lemma all_flushed_stored s ino :
  fs_inv s -> all_flushed s -> ~ unlinked_open s ino -> file_stored s ino.
Proof.
  intros Hinv Hall Hno. destruct (inodes_find (inodes (fs_table s)) ino) as [i|] eqn:Hf;
    [|by apply closed_stored].
  destruct (inv_find _ _ _ _ _ Hinv Hf) as (e & r & Hl & He & <- & Hok).
  destruct (Hall i e Hl He) as [Hd|Hu]; [by eapply clean_stored|]. destruct Hno.
  exists e. split; [|done]. by eapply entry_of_live.
Qed.

Lemma wp_flush_fh fh (Q : unit -> Fs -> Prop) (R : Z -> Fs -> Prop) s :
  fs_inv s ->
  (forall ino s', handle_ino (fs_table s) fh = Some ino -> fs_inv s' -> quiet s s' ->
     (unlinked_open s ino -> s' = s) -> unlinked_open s ino \/ file_stored s' ino -> Q tt s') ->
  (handle_ino (fs_table s) fh = None -> R EBADF s) ->
  (forall n s', db_failure n -> same_state s s' -> R n s') ->
  wp (Dbfs.flush_fh fh) Q R s.
Proof.
  intros Hinv HQ HB HR. unfold Dbfs.flush_fh. apply wp_bind, wp_handle_slot; [done| |done].
  intros i e Hf Hfh Hl He. apply (wp_flush_slot None i Skip e); [done..| | |done].
  - intros Hsk. apply (HQ (e_ino e)); [done..|apply quiet_refl|done|].
    destruct Hsk as [Hd|[Hu _]]; [right; by eapply clean_stored|left].
    exists e. split; [by eapply entry_of_live|done].
  - intros s' Hsk Hfl. pose proof (fl_slot _ _ _ _ _ Hfl) as (Hup & _).
    apply (HQ (e_ino e)); [done|apply Hfl|by eapply flushed_quiet| |right].
    { intros (e' & He' & Hu). rewrite (entry_of_live _ _ _ _ _ Hinv Hl He) in He'. injection He' as <-.
      destruct Hsk. by right. }
    apply (clean_stored None s' i (with_dirty e [])); [apply Hfl|by apply (live_updated _ _ _ _ _ Hup)| |done].
    by rewrite (up_entry _ _ _ _ Hup), decide_True.
Qed.

Lemma changed_ext s s' ino size f g :
  (forall p, 0 <= p < MAX_FILE_SIZE -> f p = g p) -> file_changed s s' ino size f ->
  file_changed s s' ino size g.
Proof. intros Hfg []. constructor; try done. by eapply contents_ext. Qed.

Lemma changed_state s s1 s2 ino size f :
  file_changed s s1 ino size f -> same_state s1 s2 -> valid_ino ino -> file_changed s s2 ino size f.
Proof.
  intros Hch Hs Hi. eapply changed_quiet; [done| |by apply quiet_state|done].
  eapply same_state_inv; [done|]. apply Hch.
Qed.

(** The bytes laid over a file depend on the bytes below. *)
Lemma write_bytes_ext f g w : (forall p, 0 <= p < MAX_FILE_SIZE -> f p = g p) ->
  forall p, 0 <= p < MAX_FILE_SIZE -> write_bytes f w p = write_bytes g w p.
Proof. intros Hfg p Hp. unfold write_bytes. case_decide; [done|auto]. Qed.

(** Two descriptions of one file. *)
Lemma contents_bytes s ino size f size' f' :
  contents s ino size f -> contents s ino size' f' -> forall p, 0 <= p < MAX_FILE_SIZE -> f p = f' p.
Proof. intros [_ H1] [_ H2] p Hp. by rewrite <- H1, H2. Qed.

(** Reading back the range of a write. *)
Lemma read_written size f offset data out :
  0 <= offset -> offset + zlen data <= MAX_FILE_SIZE ->
  read_result (write_size size (offset, data)) (write_bytes f (offset, data)) offset (zlen data) out ->
  out = data.
Proof.
  intros Ho Hend [Hlen Hout]. pose proof (zlen_nonneg data).
  assert (zlen out = zlen data) as Hl.
  { rewrite Hlen. unfold write_size. cbn [fst snd]. destruct (Z.eqb_spec (zlen data) 0); lia. }
  apply zlist_eq; [done|]. intros j Hj. rewrite Hout by done. unfold write_bytes. cbn [fst snd].
  rewrite decide_True by lia. f_equal. lia.
Qed.

Lemma read_result_ext size f g offset n out :
  0 <= offset -> size <= MAX_FILE_SIZE -> (forall p, 0 <= p < MAX_FILE_SIZE -> f p = g p) ->
  read_result size f offset n out -> read_result size g offset n out.
Proof.
  intros Ho Hs Hfg [Hlen Hout]. split; [done|]. intros j Hj. rewrite Hout by done. apply Hfg. lia.
Qed.
End ops.
