(* ===== verification/FuseLifecycle.v ===== *)
(** * FuseLifecycle: release, unlink, rename and creation

    The life of an inode across its names, its handles and its slot: an inode
    unlinked while open lives until its last handle is released. *)

From S2P Require Import Prelude Effects Model Chunk Arena OpenTable Sql DbData DbNames Tree.
From S2P Require Import NamesSpec DbVolume Fuse FuseInv FuseFlush FuseWrite FuseRead FuseOps.
From S2P Require Import FuseHandles FuseSpec.

Section lifecycle.
Context `{World, HashOrder}.
Implicit Types (s : Fs) (T : Tables) (t : OpenTable) (i : Slot) (e : Entry) (ino fh : Z).

(** ** Release *)

(** What every release does to the handles. *)
Record handle_dropped s s' fh : Prop := {
  hd_none : handle_ino (fs_table s') fh = None;
  hd_others : forall fh', fh' <> fh -> handle_ino (fs_table s') fh' = handle_ino (fs_table s) fh';
  hd_closing : closing (fs_table s') = closing (fs_table s);
  hd_last : fs_last_flush s' = fs_last_flush s;
  hd_cache : fs_kernel_cache s' = fs_kernel_cache s }.

(** The first two stores: the handle and the count of its slot. *)
Lemma release_state s fh i e h io :
  fs_inv s -> handles_get (handles (fs_table s)) fh = Some i -> live (inodes (fs_table s)) i ->
  entry_at (inodes (fs_table s)) i = Some e ->
  handles_release (handles (fs_table s)) fh = Some (Some i, h) ->
  updated (inodes (fs_table s)) io i (with_refs e (e_refs e - 1)) ->
  let s1 := set_table (with_handles h (with_slots io (fs_table s))) s in
  fs_inv s1 /\ calm s s1 /\ handle_dropped s s1 fh.
Proof.
  intros Hinv Hf Hl He Hrel Hup s1. pose proof (live_slot_bound _ _ _ _ Hinv Hl) as Hib.
  destruct (handles_release_spec (handles (fs_table s)) fh i) as (h' & Hrel' & Hh & Hnone & Hoth & Hcount);
    [apply Hinv|done|]. simplify_eq.
  split; [|split].
  - apply (inv_refs None _ _ _ _ i e (e_refs e - 1) Hinv Hl He Hup Hh).
    + intros j Hj. rewrite Hcount by done. case_decide; [|lia]. subst.
      by rewrite (fi_refs _ _ _ Hinv j e).
    + intros fh' j Hf'. destruct (decide (fh' = fh)) as [->|Hne]; [congruence|].
      rewrite Hoth in Hf' by done. by eapply (fi_handle _ _ _ Hinv).
  - exact (refs_calm s io h i e _ Hinv Hl He Hup).
  - constructor; try done; unfold handle_ino; simpl; [by rewrite Hnone|].
    intros fh' Hne. rewrite Hoth by done.
    destruct (handles_get (handles (fs_table s)) fh') as [j|]; [|done]. simpl.
    rewrite (up_entry _ _ _ _ Hup). case_decide as Hd; [|done]. subst. by rewrite He.
Qed.

(** Handles and flags as before. *)
Record same_flags s s' : Prop := {
  sf_handles : forall fh, handle_ino (fs_table s') fh = handle_ino (fs_table s) fh;
  sf_closing : closing (fs_table s') = closing (fs_table s);
  sf_last : fs_last_flush s' = fs_last_flush s;
  sf_cache : fs_kernel_cache s' = fs_kernel_cache s }.

Lemma stable_flags s s' : stable s s' -> same_flags s s'.
Proof. by intros []. Qed.

Lemma dropped_flags s s1 s2 fh : handle_dropped s s1 fh -> same_flags s1 s2 -> handle_dropped s s2 fh.
Proof.
  intros [] []. constructor; try congruence. intros fh' Hne. rewrite sf_handles0. auto.
Qed.

(** A slot that went away had no handles. *)
Lemma gone_handles s t' i e fh :
  fs_inv s -> live (inodes (fs_table s)) i -> entry_at (inodes (fs_table s)) i = Some e ->
  e_refs e = 0 -> slot_gone (fs_table s) t' i e -> handle_ino t' fh = handle_ino (fs_table s) fh.
Proof.
  intros Hinv Hl He Hr Hg. unfold handle_ino. rewrite (sg_handles _ _ _ _ Hg).
  destruct (handles_get (handles (fs_table s)) fh) as [j|] eqn:Hf; [|done]. simpl.
  rewrite (sg_entry _ _ _ _ Hg); [done|]. apply (sg_live _ _ _ _ Hg).
  split; [by eapply (fi_handle _ _ _ Hinv)|]. intros ->.
  pose proof (handle_count_pos _ _ _ Hf). rewrite <- (fi_refs _ _ _ Hinv i e) in * by done. lia.
Qed.

(** Deleting the rows of an inode without names and without a slot. *)
Lemma remove_inode_inv T t ino r :
  inv_x None T t -> inodes_find (inodes t) ino = None ->
  t_inodes T !! ino = Some r -> row_kind r <> Some Directory -> r_nlink r = 0 ->
  inv_x None (remove_inode ino T) t /\ fs_wf (remove_inode ino T) /\
  t_inodes (remove_inode ino T) !! ino = None /\ t_dirents (remove_inode ino T) = t_dirents T.
Proof.
  intros Hinv Hnone Hr Hk Hz. pose proof (fi_db _ _ _ Hinv) as [Hd Hn].
  pose proof (ino_ok_valid _ _ (dw_rows _ Hd _ _ Hr)) as Hi.
  destruct (dw_rows _ Hd _ _ Hr) as (_ & [k Hrk] & _).
  assert (k <> Directory) as Hkd by congruence.
  assert (kind_of T ino = Some k) as Hkind by (by rewrite (kind_of_row _ _ _ Hr)).
  pose proof (unlinked_no_entry T ino r (conj Hd Hn) Hr Hk Hz) as Hno.
  assert (forall k d, t_dirents T !! k = Some d -> d_child d <> ino /\ d_parent d <> ino) as Hout.
  { intros k' d Hkd'. split; [by eapply Hno|]. intros Hp.
    destruct (nw_entry _ Hn k' d Hkd') as (_ & Hp' & _). congruence. }
  assert (fs_wf (remove_inode ino T)) as Hwf'.
  { split; [by apply data_wf_remove|]. eapply names_wf_remove; try done. by apply entry_count_zero. }
  split; [|split; [done|split]].
  - apply (inv_tables T _ t None); try done.
    + intros k' d' Hd'. rewrite (remove_dirents _ _ Hi Hout) in Hd'. right. by exists k', d'.
    + intros i e Hl He. destruct (inv_live _ _ _ _ Hinv Hl) as (e' & re & He' & Hok & Hf). simplify_eq.
      apply kept_remove; [done|by eapply entry_valid|]. intros <-. congruence.
  - rewrite remove_inodes by done. by rewrite lookup_delete_eq.
  - by apply remove_dirents.
Qed.

(** No other handle than [fh] is open on the inode. *)
Definition last_handle s fh ino : Prop := forall fh', handle_ino (fs_table s) fh' = Some ino -> fh' = fh.

(** The outcomes of a release of handle [fh] of inode [ino]: the last handle of an unlinked
    inode deletes it, and no other release does. *)
Inductive release_outcome s s' fh ino : Prop :=
  | ro_deleted : unlinked_open s ino -> last_handle s fh ino ->
      t_inodes (tables (fs_db s')) !! ino = None ->
      t_dirents (tables (fs_db s')) = t_dirents (tables (fs_db s)) ->
      tables (fs_db s') = remove_inode ino (tables (fs_db s)) -> others_same ino s s' ->
      release_outcome s s' fh ino
  | ro_kept : ~ (unlinked_open s ino /\ last_handle s fh ino) -> calm s s' ->
      unlinked_open s ino \/ file_stored s' ino -> release_outcome s s' fh ino.

(** The slot of a released handle counts the others. *)
Lemma released_last s s1 fh i e1 :
  fs_inv s1 -> handle_dropped s s1 fh -> live (inodes (fs_table s1)) i ->
  entry_at (inodes (fs_table s1)) i = Some e1 -> e_refs e1 = 0 <-> last_handle s fh (e_ino e1).
Proof.
  intros Hinv Hd Hl He. rewrite (fi_refs _ _ _ Hinv i e1) by done. split.
  - intros Hz fh' Hf. destruct (decide (fh' = fh)) as [|Hne]; [done|]. exfalso.
    rewrite <- (hd_others _ _ _ Hd) in Hf by done.
    destruct (handle_ino_Some _ _ _ _ _ Hinv Hf) as (j & e & Hj & Hlj & Hej & Hino & _).
    assert (j = i) as ->.
    { destruct (inv_live _ _ _ _ Hinv Hl) as (? & _ & ? & _ & Hfi), (inv_live _ _ _ _ Hinv Hlj) as (? & _ & ? & _ & Hfj).
      simplify_eq. rewrite Hino in Hfj. congruence. }
    pose proof (handle_count_pos _ _ _ Hj). lia.
  - intros Hlast. destruct (decide (handle_count (handles (fs_table s1)) i = 0)) as [|Hne]; [done|]. exfalso.
    destruct (handle_count_exists (handles (fs_table s1)) i) as [fh' Hf].
    { pose proof (live_slot_bound _ _ _ _ Hinv Hl). lia. }
    { unfold handle_count, zlen in *. lia. }
    assert (handle_ino (fs_table s1) fh' = Some (e_ino e1)) as Hf1 by (unfold handle_ino; rewrite Hf; simpl; by rewrite He).
    destruct (decide (fh' = fh)) as [->|Hne']; [rewrite (hd_none _ _ _ Hd) in Hf1; done|].
    apply Hne', Hlast. by rewrite <- (hd_others _ _ _ Hd).
Qed.

Lemma discard_others s t' i e :
  fs_inv s -> live (inodes (fs_table s)) i -> entry_at (inodes (fs_table s)) i = Some e ->
  e_refs e = 0 -> slot_gone (fs_table s) t' i e ->
  fs_inv (set_table t' s) /\ others_same (e_ino e) s (set_table t' s) /\
  inodes_find (inodes t') (e_ino e) = None.
Proof.
  intros Hinv Hl He Hr Hg. split; [|split].
  - apply (inv_gone None (tables (fs_db s)) _ (fs_table s) t' i e); try done. apply Hinv.
  - intros k Hk Hne. by eapply gone_other_file.
  - unfold inodes_find. by rewrite (sg_index _ _ _ _ Hg), lookup_delete_eq.
Qed.

(** The last handle of an inode unlinked while open: the inode goes. *)
Lemma wp_release_unlinked s i e (Q : unit -> Fs -> Prop) (R : Z -> Fs -> Prop) :
  fs_inv s -> live (inodes (fs_table s)) i -> entry_at (inodes (fs_table s)) i = Some e ->
  e_refs e = 0 -> e_unlinked e = true ->
  (forall s', fs_inv s' -> same_flags s s' -> others_same (e_ino e) s s' ->
     t_inodes (tables (fs_db s')) !! e_ino e = None ->
     t_dirents (tables (fs_db s')) = t_dirents (tables (fs_db s)) ->
     tables (fs_db s') = remove_inode (e_ino e) (tables (fs_db s)) -> Q tt s') ->
  (forall n s', db_failure n -> fs_inv s' -> same_flags s s' -> others_same (e_ino e) s s' ->
     same_names (tables (fs_db s)) (tables (fs_db s')) ->
     inodes_find (inodes (fs_table s')) (e_ino e) = None -> R n s') ->
  wp (ino ← Shared.column oi_ino i; Shared.discard_slot i ;; Shared.db (delete_inode ino)) Q R s.
Proof.
  intros Hinv Hl He Hr Hu HQ HR. destruct (fi_entry _ _ _ Hinv i e Hl He) as [r Hok].
  pose proof (eo_gone _ _ _ _ Hok Hu) as Hz. pose proof (eo_file _ _ _ _ Hok) as Hnd.
  fs_col He. apply wp_bind, (wp_discard_slot i e); [apply Hinv|done..|].
  intros t' Hg. destruct (discard_others s t' i e Hinv Hl He Hr Hg) as (Hinv' & Hoth & Hnone).
  pose proof (fun fh => gone_handles s t' i e fh Hinv Hl He Hr Hg) as Hh.
  destruct (remove_inode_inv _ t' (e_ino e) r Hinv' Hnone (eo_row _ _ _ _ Hok)) as (Hinv2 & Hwf & Hrow & Hdir);
    [rewrite (eo_kind _ _ _ _ Hok); by intros [= ?]|done|].
  pose proof (entry_valid _ _ _ _ _ Hinv Hok) as Hi.
  apply wp_db, wp_delete_inode.
  - intros c Hc. simpl in Hc. apply HQ; simpl; rewrite ?Hc; try done.
    + unfold fs_inv. simpl. by rewrite Hc.
    + constructor; try done; apply Hg.
    + etrans; [exact Hoth|]. intros k Hk Hne. simpl. rewrite Hc. eapply kept_file; [exact Hinv'|].
      by apply kept_remove.
  - intros de c Hde Hc. assert (same_state (set_table t' s) (set_db c (set_table t' s))) as Hss
      by (by apply same_state_db).
    apply HR; try done.
    + by exists de.
    + by eapply same_state_inv.
    + constructor; try done; apply Hg.
    + etrans; [exact Hoth|]. by apply others_calm, same_state_calm.
    + simpl. by rewrite Hc.
Qed.

(** A slot that was flushed, or freed, has its file in the database. *)
Lemma settled_stored s s' i e :
  fs_inv s' -> quiet s s' -> settled_slot Skip s' i e -> live (inodes (fs_table s)) i ->
  entry_at (inodes (fs_table s)) i = Some e -> fs_inv s -> e_unlinked e = false ->
  file_stored s' (e_ino e).
Proof.
  intros Hinv' Hq Hset Hl He Hinv Hu.
  destruct (inodes_find (inodes (fs_table s')) (e_ino e)) as [j|] eqn:Hf; [|by apply closed_stored].
  destruct (inv_find _ _ _ _ _ Hinv' Hf) as (e' & _ & Hl' & He' & Hino & _).
  destruct (q_back _ _ Hq j e' Hl' He') as (Hlj & ej & Hej & Hso & _).
  apply same_open_fields in Hso as (Hinoj & _).
  assert (j = i) as ->.
  { destruct (inv_live _ _ _ _ Hinv Hl) as (e1 & _ & He1 & _ & Hf1).
    destruct (inv_live _ _ _ _ Hinv Hlj) as (e2 & _ & He2 & _ & Hf2). simplify_eq. congruence. }
  destruct (Hset Hl') as (e2 & He2 & Hd & _). simplify_eq. rewrite <- Hino.
  destruct Hd as [Hd|[Hd|[Hu' _]]]; [by eapply clean_stored| |congruence].
  eapply clean_stored; [done..|]. destruct (q_back _ _ Hq i e' Hl' He') as (_ & e0 & He0 & _ & [Heq|Heq]);
    [|done]. congruence.
Qed.

(** [release]: the handle is gone whatever the outcome. The last handle of an
    unlinked inode deletes it; otherwise its data is flushed. *)
Lemma wp_release_fh fh (Q : unit -> Fs -> Prop) (R : Z -> Fs -> Prop) s :
  fs_inv s ->
  (forall ino s', handle_ino (fs_table s) fh = Some ino -> fs_inv s' -> handle_dropped s s' fh ->
     release_outcome s s' fh ino -> Q tt s') ->
  (handle_ino (fs_table s) fh = None -> R EBADF s) ->
  (forall ino n s', handle_ino (fs_table s) fh = Some ino -> db_failure n -> fs_inv s' ->
     handle_dropped s s' fh -> others_same ino s s' ->
     same_names (tables (fs_db s)) (tables (fs_db s')) ->
     ((unlinked_open s ino /\ last_handle s fh ino) /\ inodes_find (inodes (fs_table s')) ino = None) \/ same_files s s' -> R n s') ->
  wp (Shared.release_fh fh) Q R s.
Proof.
  intros Hinv HQ HB HR. unfold Shared.release_fh. apply wp_bind, wp_table.
  destruct (handles_get (handles (fs_table s)) fh) as [i|] eqn:Hf.
  2:{ apply wp_bind. eapply wp_unwrap; [by apply handles_release_invalid|].
      apply wp_bind, wp_update, wp_bind, wp_throw. cbn [fst snd].
      replace (set_table _ s) with s by (by destruct s as [? [] ? ?]).
      apply HB. unfold handle_ino. by rewrite Hf. }
  pose proof (fi_handle _ _ _ Hinv _ _ Hf) as Hl.
  destruct (inv_live _ _ _ _ Hinv Hl) as (e & r & He & Hok & _).
  assert (handle_ino (fs_table s) fh = Some (e_ino e)) as Hfh
    by (unfold handle_ino; rewrite Hf; simpl; by rewrite He).
  destruct (handles_release_spec (handles (fs_table s)) fh i) as (h & Hrel & _); [apply Hinv|done|].
  apply wp_bind. eapply wp_unwrap; [done|]. apply wp_bind, wp_update. cbn [fst snd].
  apply wp_bind, wp_ret.
  set (s0 := set_table (with_handles h (fs_table s)) s).
  assert (entry_at (inodes (fs_table s0)) i = Some e) as He0 by done.
  pose proof (refs_bound s i e Hinv Hl He). pose proof (hw_bound _ (fi_handles _ _ _ Hinv)).
  pose proof (handle_count_pos _ _ _ Hf) as Hpos. rewrite <- (fi_refs _ _ _ Hinv i e) in Hpos by done.
  fs_col He0. rewrite u32_id by lia.
  apply wp_bind. eapply (wp_store set_refs with_refs); [apply Hinv|exact He0|].
  intros io Hup. simpl in Hup.
  destruct (release_state s fh i e h io Hinv Hf Hl He Hrel Hup) as (Hinv1 & Hcalm & Hdrop).
  set (s1 := set_table _ _) in Hinv1, Hcalm, Hdrop. change (set_table _ s0) with s1.
  assert (live (inodes (fs_table s1)) i) as Hl1 by (by apply (live_updated _ _ _ _ _ Hup)).
  assert (entry_at (inodes (fs_table s1)) i = Some (with_refs e (e_refs e - 1))) as He1
    by (simpl; by rewrite (up_entry _ _ _ _ Hup), decide_True).
  assert (e_unlinked e = true -> unlinked_open s (e_ino e)) as Hunl
    by (intros Hu; exists e; split; [by eapply entry_of_live|done]).
  pose proof (released_last s s1 fh i _ Hinv1 Hdrop Hl1 He1) as Hrl. cbn [e_refs e_ino with_refs] in Hrl.
  fs_col He1. fs_col He1. cbn [e_refs e_unlinked with_refs].
  destruct ((e_refs e - 1 =? 0) && e_unlinked e) eqn:Hlast.
  - apply andb_prop in Hlast as [Hz%Z.eqb_eq Hu].
    apply (wp_release_unlinked s1 i (with_refs e (e_refs e - 1))); try done.
    + intros s' Hi' Hfl Hoth Hrow Hdir Hrm. apply (HQ (e_ino e)); try done; [by eapply dropped_flags|].
      apply ro_deleted; [by auto|by apply Hrl|done..|]. etrans; [by apply others_calm|done].
    + intros n s' Hn Hi' Hfl Hoth Hnm Hclosed. apply (HR (e_ino e)); try done; [by eapply dropped_flags| |].
      * etrans; [by apply others_calm|done].
      * left. split; [|done]. split; [by apply Hunl|by apply Hrl].
  - apply wp_bind. eapply wp_mono; [apply (wp_flush_and_free i Skip (with_refs e (e_refs e - 1))
      (fun _ s' => fs_inv s' /\ quiet s1 s' /\ settled_slot Skip s' i (with_refs e (e_refs e - 1)))
      (fun n s' => db_failure n /\ same_state s1 s') R); [done..|by auto|by auto]| |].
    + intros [] s2 Hf2. eapply wp_mono; [exact Hf2| |done]. intros [] s' (Hi' & Hq & Hset).
      apply (HQ (e_ino e)); try done.
      * eapply dropped_flags; [done|]. by apply stable_flags, quiet_stable.
      * apply ro_kept; [|etrans; [done|by apply quiet_calm]|].
        { intros [Hu Hla%Hrl]. apply andb_false_iff in Hlast as [Hz%Z.eqb_neq|Hu']; [done|].
          destruct Hu as (e' & He' & Hu). rewrite (entry_of_live _ _ _ _ _ Hinv Hl He) in He'. congruence. }
        destruct (e_unlinked e) eqn:Hu; [left; by auto|right].
        by apply (settled_stored s1 s' i (with_refs e (e_refs e - 1))).
    + intros n s' [Hn Hs]. pose proof (same_state_inv _ _ Hs Hinv1) as Hi'.
      apply (HR (e_ino e)); try done.
      * eapply dropped_flags; [done|]. apply stable_flags, quiet_stable; [done..|by apply quiet_state].
      * etrans; [by apply others_calm|]. by apply others_calm, same_state_calm.
      * destruct Hs as (-> & _). apply Hcalm.
      * right. etrans; [apply Hcalm|by apply same_state_files].
Qed.

(** ** Removing an entry *)

Lemma is_open_spec s ino :
  fs_inv s ->
  match inodes_find (inodes (fs_table s)) ino with
  | Some i => exists e, live (inodes (fs_table s)) i /\ entry_at (inodes (fs_table s)) i = Some e /\
      e_ino e = ino /\ inodes_is_open (inodes (fs_table s)) i = Some (0 <? e_refs e) /\
      Shared.is_open (fs_table s) ino = (0 <? e_refs e)
  | None => Shared.is_open (fs_table s) ino = false
  end.
Proof.
  intros Hinv. unfold Shared.is_open. destruct (inodes_find (inodes (fs_table s)) ino) as [i|] eqn:Hf; [|done].
  destruct (inv_find _ _ _ _ _ Hinv Hf) as (e & _ & Hl & He & Hino & _). exists e.
  assert (inodes_is_open (inodes (fs_table s)) i = Some (0 <? e_refs e)) as Ho.
  { unfold inodes_is_open. by rewrite (column_of (g := e_refs) _ _ _ He). }
  by rewrite Ho.
Qed.

(** The tables [T'] after the removal of an entry of inode [child], whose row in
    [T] was [r]. *)
Record entry_gone (T T' : Tables) t (child : Z) (r : InodeRow) (K : FileKind) : Prop := {
  eg_row : t_inodes T !! child = Some r;
  eg_kind : row_kind r = Some K;
  eg_nlink : K <> Directory -> 1 <= r_nlink r < 2 ^ 32;
  eg_wf : fs_wf T';
  eg_children : children_from None T T';
  eg_others : forall ino, valid_ino ino -> ino <> child -> kept_inode T T' ino;
  eg_dir : K = Directory -> inodes_find (inodes t) child = None;
  eg_keep : K <> Directory -> (1 <? r_nlink r) || Shared.is_open t child = true ->
    kept_inode T T' child /\ exists r', t_inodes T' !! child = Some r' /\ r_nlink r' = r_nlink r - 1;
  eg_drop : K <> Directory -> (1 <? r_nlink r) || Shared.is_open t child = false ->
    t_inodes T' !! child = None }.

(** The inode is only visible through its handles. *)
Definition hidden s (ino : Z) : Prop :=
  unlinked_open s ino /\ exists r, t_inodes (tables (fs_db s)) !! ino = Some r /\ r_nlink r = 0.

Lemma entry_gone_others s s' child r K :
  fs_inv s -> entry_gone (tables (fs_db s)) (tables (fs_db s')) (fs_table s) child r K ->
  fs_table s' = fs_table s -> others_same child s s'.
Proof.
  intros Hinv Hg Ht k Hk Hne. rewrite Ht. eapply kept_file; [exact Hinv|]. by apply Hg.
Qed.

(** No slot holds the inode, or the row stays: the table needs no change. *)
Lemma entry_gone_inv s s' child r K :
  fs_inv s -> entry_gone (tables (fs_db s)) (tables (fs_db s')) (fs_table s) child r K ->
  fs_table s' = fs_table s ->
  (inodes_find (inodes (fs_table s)) child = None \/
   kept_inode (tables (fs_db s)) (tables (fs_db s')) child) ->
  fs_inv s'.
Proof.
  intros Hinv Hg Ht Hc. unfold fs_inv. rewrite Ht.
  apply (inv_tables (tables (fs_db s)) _ _ None Hinv); [apply Hg|apply Hg| |done].
  intros i e Hl He. destruct (inv_live _ _ _ _ Hinv Hl) as (e' & re & He' & Hok & Hf). simplify_eq.
  pose proof (entry_valid _ _ _ _ _ Hinv Hok) as Hi.
  destruct (decide (e_ino e = child)) as [Heq|Hne]; [|by apply Hg].
  rewrite Heq in *. destruct Hc as [Hc|Hc]; [congruence|done].
Qed.

(** Marking an inode that stays because it is open. *)
Lemma mark_unlinked s i e io r' :
  fs_inv s -> live (inodes (fs_table s)) i -> entry_at (inodes (fs_table s)) i = Some e ->
  updated (inodes (fs_table s)) io i (with_unlinked e true) ->
  t_inodes (tables (fs_db s)) !! e_ino e = Some r' -> r_nlink r' = 0 -> e_kind e <> Directory ->
  let s' := set_table (with_slots io (fs_table s)) s in
  fs_inv s' /\ stable s s' /\ same_files s s' /\ hidden s' (e_ino e).
Proof.
  intros Hinv Hl He Hup Hr Hz Hk s'. destruct (fi_entry _ _ _ Hinv i e Hl He) as [r Hok].
  pose proof (eo_row _ _ _ _ Hok) as Hrow. simplify_eq.
  assert (slot_changed (fs_table s) (fs_table s') i (with_unlinked e true)) as Hch by done.
  assert (fs_inv s') as Hinv'.
  { apply (inv_meta None _ (fs_table s) _ i e (with_unlinked e true) r' Hinv Hl He Hch); try done.
    by destruct Hok; constructor. }
  pose proof (changed_entry_of _ _ _ _ _ _ _ Hinv Hl He Hch eq_refl) as Hnew.
  split; [done|]. split; [|split].
  - constructor; try done. intros fh. unfold handle_ino. simpl.
    destruct (handles_get (handles (fs_table s)) fh) as [j|]; [|done]. simpl.
    rewrite (up_entry _ _ _ _ Hup). case_decide as Hd; [|done]. subst. by rewrite He.
  - intros k Hv. destruct (decide (k = e_ino e)) as [->|Hne].
    + pose proof (entry_of_live _ _ _ _ _ Hinv Hl He) as Hold.
      split; [unfold file_size; by rewrite Hnew, Hold|]. intros p _. unfold file_byte. by rewrite Hnew, Hold.
    + by apply (other_file_same _ _ _ _ _ _ _ _ _ Hinv Hl He Hch).
  - split; [by eexists|]. by exists r'.
Qed.

(** What the removal of an entry of [child] comes to: the inode keeps other names, lives
    on through its handles, or is gone; a directory has no slot in either case. *)
Inductive removal s s' (child : Z) (r : InodeRow) (K : FileKind) : Prop :=
  | rv_directory : K = Directory -> removal s s' child r K
  | rv_kept : K <> Directory -> 1 < r_nlink r ->
      same_file (tables (fs_db s)) (fs_table s) (tables (fs_db s')) (fs_table s') child ->
      (exists r', t_inodes (tables (fs_db s')) !! child = Some r' /\ r_nlink r' = r_nlink r - 1) ->
      removal s s' child r K
  | rv_hidden : K <> Directory -> r_nlink r <= 1 -> Shared.is_open (fs_table s) child = true ->
      same_file (tables (fs_db s)) (fs_table s) (tables (fs_db s')) (fs_table s') child ->
      hidden s' child -> removal s s' child r K
  | rv_deleted : K <> Directory -> r_nlink r <= 1 -> Shared.is_open (fs_table s) child = false ->
      t_inodes (tables (fs_db s')) !! child = None ->
      inodes_find (inodes (fs_table s')) child = None -> removal s s' child r K.

Lemma wp_entry_removed s s' child r K (Q : unit -> Fs -> Prop) (R : Z -> Fs -> Prop) :
  fs_inv s -> valid_ino child -> entry_gone (tables (fs_db s)) (tables (fs_db s')) (fs_table s) child r K ->
  fs_table s' = fs_table s ->
  (forall s2, fs_inv s2 -> fs_db s2 = fs_db s' -> same_flags s' s2 -> others_same child s s2 ->
     removal s s2 child r K -> Q tt s2) ->
  wp (Shared.entry_removed (inode_view child r K)) Q R s'.
Proof.
  intros Hinv Hi Hg Ht HQ. unfold Shared.entry_removed. cbn [inode_view i_kind i_nlink i_ino].
  rewrite inode_of_valid by done.
  pose proof (entry_gone_others s s' child r K Hinv Hg Ht) as Hoth.
  assert (same_flags s' s') as Hrefl by done.
  case_bool_decide as HK; simpl.
  { apply wp_ret, HQ; try done; [|by constructor].
    eapply entry_gone_inv; try done. left. by eapply eg_dir. }
  pose proof (eg_nlink _ _ _ _ _ _ Hg HK) as Hlinks. rewrite (u32_id (r_nlink r)) by lia.
  pose proof (eg_keep _ _ _ _ _ _ Hg HK) as Hkeep. pose proof (eg_drop _ _ _ _ _ _ Hg HK) as Hdrop.
  destruct (Z.ltb_spec 1 (r_nlink r)) as [Hn|Hn]; simpl in Hkeep, Hdrop.
  { destruct Hkeep as [Hk (r' & Hr' & Hz)]; [done|].
    apply wp_ret, HQ; try done; [eapply entry_gone_inv; try done; by right|].
    constructor; try done; [|by exists r']. rewrite Ht. by eapply kept_file. }
  apply wp_bind, wp_table. rewrite Ht. pose proof (is_open_spec s child Hinv) as Hopen.
  destruct (inodes_find (inodes (fs_table s)) child) as [i|] eqn:Hf.
  2: { apply wp_ret, HQ; try done; [eapply entry_gone_inv; try done; by left|].
    apply rv_deleted; auto. by rewrite Ht. }
  destruct Hopen as (e & Hl & He & Hino & Ho & Hop). apply wp_bind. eapply wp_unwrap; [done|].
  pose proof (refs_bound s i e Hinv Hl He).
  destruct (Z.ltb_spec 0 (e_refs e)) as [Hrf|Hrf]; rewrite Hop in Hkeep, Hdrop.
  - destruct Hkeep as [Hk (r' & Hr' & Hz)]; [done|].
    assert (fs_inv s') as Hinv' by (eapply entry_gone_inv; try done; by right).
    rewrite <- Ht in Hl, He. pose proof Hl as Hl0. pose proof He as He0.
    eapply (wp_store set_unlinked with_unlinked); [apply Hinv'|exact He|]. intros io Hup.
    destruct (mark_unlinked s' i e io r') as (Hinv2 & Hst & Hfiles & Hhid); try done; [congruence|lia| |].
    { destruct (fi_entry _ _ _ Hinv' i e Hl He) as [r2 Hok]. intros Hd.
      destruct (fi_entry _ _ _ Hinv i e) as [r3 Hok3]; [congruence..|].
      pose proof (eo_row _ _ _ _ Hok3) as Hrow. rewrite Hino, (eg_row _ _ _ _ _ _ Hg) in Hrow.
      injection Hrow as <-. pose proof (eo_kind _ _ _ _ Hok3). pose proof (eg_kind _ _ _ _ _ _ Hg). congruence. }
    apply HQ; try done.
    + by apply stable_flags.
    + etrans; [exact Hoth|]. intros k Hv _. by apply Hfiles.
    + apply rv_hidden; try done; [|by rewrite <- Hino].
      pose proof (kept_file _ _ _ _ _ Hinv Hk) as Hsf. pose proof (Hfiles child Hi) as Hsf2.
      rewrite Ht in Hsf2 |- *. destruct Hsf as [A1 B1], Hsf2 as [A2 B2]. split; [congruence|].
      intros p Hp. etrans; [by apply B2|by apply B1].
  - assert (live (inodes (fs_table s')) i) as Hl' by by rewrite Ht.
    assert (entry_at (inodes (fs_table s')) i = Some e) as He' by by rewrite Ht.
    apply (wp_discard_slot i e); [rewrite Ht; apply Hinv|done..|]. intros t' Hgo.
    rewrite Ht in Hgo.
    destruct (discard_others s t' i e Hinv Hl He) as (Hinv1 & Hoth1 & Hnone); [lia|done|].
    rewrite Hino in *. apply HQ; try done.
    + apply (inv_tables (tables (fs_db s)) _ t' None Hinv1); [apply Hg|apply Hg| |done].
      intros j ej Hlj Hej. destruct (inv_live _ _ _ _ Hinv1 Hlj) as (e2 & r2 & He2 & Hok2 & Hf2).
      assert (e2 = ej) as -> by (simpl in *; congruence).
      apply Hg; [by eapply (entry_valid _ _ _ _ _ Hinv1)|]. intros Heq. simpl in Hf2. congruence.
    + constructor; simpl; rewrite ?Ht; try apply Hgo; try done. intros fh.
      apply (gone_handles s t' i e); (done || lia).
    + etrans; [exact Hoth1|]. intros k Hv Hne. eapply kept_file; [exact Hinv1|]. by apply Hg.
    + apply rv_deleted; auto.
Qed.
(** ** Shutdown *)

Definition refusing s : Fs :=
  set_table (mkOpenTable (inodes (fs_table s)) (handles (fs_table s)) (arena (fs_table s)) true) s.

Definition recorded s (result : option Z) : Fs := mkFs (fs_db s) (fs_table s) result (fs_kernel_cache s).

Lemma refusing_inv s : fs_inv s -> fs_inv (refusing s).
Proof. by intros []. Qed.

Lemma wp_flush_recorded (Q : option Z -> Fs -> Prop) (R : Z -> Fs -> Prop) s :
  fs_inv s ->
  (forall s1, fs_inv s1 -> quiet s s1 -> all_flushed s1 -> Q None (recorded s1 None)) ->
  (forall n s1, fs_inv s1 -> quiet s s1 -> n = EIO \/ db_failure n -> Q (Some n) (recorded s1 (Some n))) ->
  wp Shared.flush_recorded Q R s.
Proof.
  intros Hinv HQ HE. unfold Shared.flush_recorded. apply wp_bind, wp_match_result, wp_flush_all; [done|..].
  - intros s1 Hinv1 Hq Hfl. apply wp_ret, wp_bind, wp_modify, wp_ret. by apply HQ.
  - intros e s1 Hinv1 Hq He. apply wp_ret, wp_bind, wp_modify, wp_ret. by apply HE.
Qed.

Lemma wp_shutdown (Q : unit -> Fs -> Prop) (R : Z -> Fs -> Prop) s :
  fs_inv s ->
  (forall s1, fs_inv s1 -> quiet (refusing s) s1 -> all_flushed s1 -> Q tt (recorded s1 None)) ->
  (forall n s1, fs_inv s1 -> quiet (refusing s) s1 -> n = EIO \/ db_failure n -> R n (recorded s1 (Some n))) ->
  wp Shared.flush_for_shutdown Q R s.
Proof.
  intros Hinv HQ HR. unfold Shared.flush_for_shutdown, Shared.refuse_writes. apply wp_bind, wp_update.
  change (set_table _ s) with (refusing s). pose proof (refusing_inv s Hinv) as Hinv0.
  apply wp_bind, wp_flush_recorded; [done|..].
  - intros s1 Hinv1 Hq Hfl. by apply wp_ret, HQ.
  - intros e s1 Hinv1 Hq He. by apply wp_throw, HR.
Qed.
End lifecycle.
