(* ===== verification/FuseNames.v ===== *)
(** * FuseNames: the operations on names

    unlink, rmdir, rename and the creations at the level of the file system: what
    they do to the names, and that the files of other inodes and of open handles
    survive them. *)

From S2P Require Import Prelude Effects Model Chunk Arena OpenTable Sql DbData DbNames Tree.
From S2P Require Import NamesSpec DbVolume Fuse FuseInv FuseFlush FuseWrite FuseRead FuseOps.
From S2P Require Import FuseHandles FuseSpec FuseLifecycle.

(** ** The files across a change of the names *)

(** No child is new, and the inodes but [gone] are kept. *)
Record evolves (gone : Z) (T T' : Tables) : Prop := {
  ev_children : children_from None T T';
  ev_kept : forall ino, valid_ino ino -> ino <> gone -> kept_inode T T' ino }.

Lemma kept_trans T1 T2 T3 ino : kept_inode T1 T2 ino -> kept_inode T2 T3 ino -> kept_inode T1 T3 ino.
Proof. intros A B. exact (transitivity (R := fun T T' => kept_inode T T' ino) A B). Qed.

#[global] Instance evolves_trans gone : Transitive (evolves gone).
Proof.
  intros T1 T2 T3 [C1 K1] [C2 K2]. split.
  - intros k d Hd. destruct (C2 k d Hd) as [?|(k2 & d2 & Hd2 & <-)]; [done|]. by apply (C1 k2).
  - intros ino Hv Hne. eapply kept_trans; eauto.
Qed.

(** Inode [ino] as in [T], links included. *)
Definition kept_links (T T' : Tables) (ino : Z) : Prop :=
  kept_inode T T' ino /\ r_nlink <$> t_inodes T' !! ino = r_nlink <$> t_inodes T !! ino.

Lemma links_trans T1 T2 T3 ino : kept_links T1 T2 ino -> kept_links T2 T3 ino -> kept_links T1 T3 ino.
Proof. intros [] []. split; [by eapply kept_trans|congruence]. Qed.

Section evolution.
Implicit Types (T : Tables) (gone ino : Z).

Lemma evolves_equiv gone T T' : T ≡ T' -> evolves gone T T'.
Proof.
  intros Heq. split; [|intros; by apply kept_equiv]. intros k d Hd. right. exists k, d.
  destruct Heq as (-> & _). done.
Qed.

Lemma evolves_drop gone k T : evolves gone T (drop_entry k T).
Proof.
  split; [|intros; apply kept_drop_entry]. intros k' d Hd. simpl in Hd. apply lookup_delete_Some in Hd as [_ Hd]. right. by exists k', d.
Qed.

Lemma evolves_nlink gone a x T : evolves gone T (add_nlink a x T).
Proof. split; [|intros; apply kept_add_nlink]. intros k d Hd. right. by exists k, d. Qed.

Lemma evolves_put gone k d k0 d0 T :
  t_dirents T !! k0 = Some d0 -> d_child d0 = d_child d -> evolves gone T (put_entry k d T).
Proof.
  intros Hd0 Hc. split; [|intros; apply kept_put_entry]. intros k' d'.
  intros Hd'. simpl in Hd'. apply lookup_insert_Some in Hd' as [[_ <-]|[_ Hd']]; right; [by exists k0, d0|by exists k', d'].
Qed.

Lemma evolves_remove gone T : valid_ino gone -> evolves gone T (remove_inode gone T).
Proof.
  intros Hv. split; [|intros; by apply kept_remove]. intros k d Hd. right. exists k, d.
  split; [|done]. revert Hd. unfold remove_inode, delete_inode_row. simpl.
  destruct (t_inodes T !! _); [|done]. simpl. intros [Hd _]%map_lookup_filter_Some. done.
Qed.

Lemma evolves_unlink k d keep T : valid_ino (d_child d) -> evolves (d_child d) T (unlink_tables k d keep T).
Proof.
  intros Hv. unfold unlink_tables. etrans; [apply (evolves_drop _ k)|].
  destruct keep; [apply evolves_nlink|by apply evolves_remove].
Qed.

Lemma links_equiv T T' ino : T ≡ T' -> kept_links T T' ino.
Proof.
  intros Heq. split; [by apply kept_equiv|]. destruct Heq as (_ & _ & _ & Hi). specialize (Hi ino).
  destruct (t_inodes T !! ino), (t_inodes T' !! ino); try done. injection Hi as ?. simpl. congruence.
Qed.

Lemma links_nlink a x T ino : valid_ino a -> ino <> a -> kept_links T (add_nlink a x T) ino.
Proof.
  intros Hv Hne. split; [apply kept_add_nlink|]. simpl. by rewrite valid_ino_i64, lookup_alter_ne by done.
Qed.

Lemma kept_links_put k d T ino : kept_links T (put_entry k d T) ino.
Proof. done. Qed.
End evolution.

(** ** Removed entries *)

Section removals.
Context `{World, HashOrder}.
Implicit Types (s : Fs) (T : Tables) (t : OpenTable).

(** The row of an inode after [unlink_tables]. *)
Lemma unlink_row T k d r (keep : bool) :
  valid_ino (d_child d) -> t_inodes T !! d_child d = Some r ->
  if keep then kept_inode T (unlink_tables k d keep T) (d_child d) /\
    exists r', t_inodes (unlink_tables k d keep T) !! d_child d = Some r' /\ r_nlink r' = r_nlink r - 1
  else t_inodes (unlink_tables k d keep T) !! d_child d = None.
Proof.
  intros Hv Hr. unfold unlink_tables. destruct keep.
  - split; [eapply kept_trans; [apply (kept_drop_entry k)|apply kept_add_nlink]|].
    exists (row_add_nlink (-1) r). simpl. by rewrite valid_ino_i64, lookup_alter_eq, Hr by done.
  - rewrite remove_inodes by done. by rewrite lookup_delete_eq.
Qed.

(** From the tables after the removal of entry [k] through changes that keep its inode. *)
Lemma gone_entry t T T' k d r K p n :
  fs_wf T -> resolves T p n k d r K -> Z.of_nat (size (t_dirents T)) < U32_MAX -> fs_wf T' ->
  (K = Directory -> inodes_find (inodes t) (d_child d) = None) -> evolves (d_child d) T T' ->
  (K <> Directory ->
     kept_links (unlink_tables k d ((1 <? r_nlink r) || Shared.is_open t (d_child d)) T) T' (d_child d)) ->
  entry_gone T T' t (d_child d) r K.
Proof.
  intros Hwf Hres Hroom Hwf' Hdir [Hch Hoth] Hkept.
  destruct (resolves_child _ _ _ _ _ _ _ Hwf Hres) as [Hv Hkind].
  destruct Hres as [_ Hk _ _ Hr HrK]. pose proof Hwf as [_ Hn].
  set (keep := (1 <? r_nlink r) || Shared.is_open t (d_child d)) in *.
  pose proof (unlink_row T k d r keep Hv Hr) as Hrow.
  constructor; try done.
  - intros HK. destruct (nlink_fits T (d_child d) r Hn Hr) as (Hln & Hu & _); [congruence|done|].
    pose proof (entry_count_pos (fun d' => d_child d' = d_child d) (t_dirents T) k d Hk eq_refl) as Hpos.
    pose proof (entry_count_le (fun d' => d_child d' = d_child d) (t_dirents T)) as Hle.
    unfold links, U32_MAX in *. lia.
  - intros HK Hkp. fold keep in Hkp. rewrite Hkp in *. destruct (Hkept HK) as [Hki Hl].
    destruct Hrow as [Hkr (r' & Hr' & Hz)].
    split; [by eapply kept_trans|]. rewrite Hr' in Hl. destruct (t_inodes T' !! d_child d) as [r2|]; [|done].
    injection Hl as Hl. exists r2. split; [done|congruence].
  - intros HK Hkp. fold keep in Hkp. rewrite Hkp in *. destruct (Hkept HK) as [Hki Hl].
    rewrite Hrow in Hl. by destruct (t_inodes T' !! d_child d).
Qed.

Lemma gone_unlink t T T' k d r K p n :
  fs_wf T -> resolves T p n k d r K -> Z.of_nat (size (t_dirents T)) < U32_MAX -> fs_wf T' ->
  K <> Directory -> T' ≡ unlink_tables k d ((1 <? r_nlink r) || Shared.is_open t (d_child d)) T ->
  entry_gone T T' t (d_child d) r K.
Proof.
  intros Hwf Hres Hroom Hwf' HK Heq. symmetry in Heq.
  destruct (resolves_child _ _ _ _ _ _ _ Hwf Hres) as [Hv _].
  eapply (gone_entry t T T' k d r K); try done; [|intros _; by apply links_equiv].
  etrans; [by apply (evolves_unlink k d ((1 <? r_nlink r) || Shared.is_open t (d_child d)) T)|].
  by apply evolves_equiv.
Qed.

(** ** Renames *)

Lemma evolves_move gone k d np nn T :
  t_dirents T !! k = Some d -> evolves gone T (move_tables k d np nn T).
Proof.
  intros Hd. unfold move_tables.
  assert (evolves gone T (put_entry k (moved d np nn) T)) as Hput by (by apply (evolves_put _ _ _ k d)).
  case_decide; [|done]. etrans; [exact Hput|]. etrans; apply evolves_nlink.
Qed.

Lemma links_move k d np nn T ino :
  valid_ino np -> valid_ino (d_parent d) -> ino <> np -> ino <> d_parent d ->
  kept_links T (move_tables k d np nn T) ino.
Proof.
  intros Hnp Hp Hn1 Hn2. unfold move_tables. case_decide; [|apply kept_links_put].
  eapply links_trans; [apply (kept_links_put k (moved d np nn))|].
  eapply links_trans; by apply links_nlink.
Qed.

Lemma evolves_renamed gone T k d r K np nn tgt is_open :
  fs_wf T -> rename_ok T k d r K np nn tgt ->
  match tgt with Some (_, d2, _, _) => gone = d_child d2 | None => True end ->
  evolves gone T (renamed_tables T k d np nn tgt is_open).
Proof.
  intros Hwf Hok Hg. unfold renamed_tables.
  assert (evolves gone T (without_target tgt is_open T)) as Hw.
  { pose proof (target_entry T k d r K np nn tgt Hwf Hok) as Hte.
    destruct tgt as [[[[k2 d2] r2] K2]|]; [|by apply evolves_equiv]. simpl. subst gone.
    destruct (Hte _ _ _ _ eq_refl) as (_ & _ & Hv & _). case_bool_decide; [|by apply evolves_unlink].
    etrans; [apply (evolves_drop _ k2)|by apply evolves_remove]. }
  etrans; [exact Hw|].
  pose proof (replaced_source T k d r K np nn tgt is_open Hwf Hok) as Hs.
  assert (t_dirents (replaced_tables tgt is_open T) = t_dirents (without_target tgt is_open T)) as Hd
    by (destruct tgt as [[[[k2 d2] r2] [| |]]|]; done).
  etrans; [|apply evolves_move; by rewrite Hd].
  destruct tgt as [[[[k2 d2] r2] [| |]]|]; try (by apply evolves_equiv). apply evolves_nlink.
Qed.

(** The replaced entry of a rename, for the table. *)
Lemma gone_renamed t T T' k d r K np nn k2 d2 r2 K2 :
  let tgt := Some (k2, d2, r2, K2) in
  fs_wf T -> rename_ok T k d r K np nn tgt -> Z.of_nat (size (t_dirents T)) < U32_MAX -> fs_wf T' ->
  (K2 = Directory -> inodes_find (inodes t) (d_child d2) = None) ->
  T' ≡ renamed_tables T k d np nn tgt (Shared.is_open t) ->
  entry_gone T T' t (d_child d2) r2 K2.
Proof.
  intros tgt Hwf Hok Hroom Hwf' Hdir Heq. symmetry in Heq.
  pose proof (ro_target _ _ _ _ _ _ _ _ Hok) as (Hres & _).
  eapply (gone_entry t T T' k2 d2 r2 K2); try done.
  - etrans; [by apply (evolves_renamed _ T k d r K np nn tgt (Shared.is_open t))|by apply evolves_equiv].
  - intros HK2. eapply links_trans; [|by apply links_equiv]. unfold renamed_tables.
    assert (replaced_tables tgt (Shared.is_open t) T =
      unlink_tables k2 d2 ((1 <? r_nlink r2) || Shared.is_open t (d_child d2)) T) as ->
      by (simpl; rewrite bool_decide_false by done; by destruct K2).
    pose proof (parent_valid _ _ _ _ _ _ _ _ Hwf Hok) as [Hp Hnp].
    destruct (resolves_child _ _ _ _ _ _ _ Hwf Hres) as [_ Hk2]. pose proof Hwf as [_ Hn].
    apply links_move; try done.
    + intros E. pose proof (ro_parent _ _ _ _ _ _ _ _ Hok). congruence.
    + intros E. destruct (nw_entry _ Hn k d) as (_ & Hpd & _); [apply Hok|]. congruence.
Qed.

(** ** unlink *)

(** Why a name cannot be unlinked. *)
Inductive unlink_refused (T : Tables) (p : Z) (n : list byte) : Z -> Prop :=
  | ur_name : NAME_MAX < zlen n -> unlink_refused T p n ENAMETOOLONG
  | ur_missing : find_entry p n T = None -> unlink_refused T p n ENOENT
  | ur_directory k d r : resolves T p n k d r Directory -> unlink_refused T p n EISDIR.

Lemma set_table_id s c : fs_table (set_db c s) = fs_table s.
Proof. done. Qed.

(** From the lock on. What the entry named, [r], may have been read before. *)
Lemma wp_unlink_found p n k d r0 r K (Q : unit -> Fs -> Prop) (R : Z -> Fs -> Prop) s :
  let T := tables (fs_db s) in
  let inode := inode_view (d_child d) r0 K in
  fs_inv s -> valid_ino p -> Z.of_nat (size (t_dirents T)) < U32_MAX ->
  resolves T p n k d r K -> r_nlink r0 = r_nlink r ->
  (K <> Directory -> forall s', fs_inv s' -> same_flags s s' ->
     others_same (d_child d) s s' -> removal s s' (d_child d) r K ->
     tables (fs_db s') ≡ unlink_tables k d ((1 <? r_nlink r) || Shared.is_open (fs_table s) (d_child d)) T ->
     Q tt s') ->
  (forall e s', unlink_refused T p n e -> same_state s s' -> R e s') ->
  (forall e s', db_failure e -> same_state s s' -> R e s') ->
  wp (t ← Shared.table; Shared.db (unlink_entry p n inode (Shared.is_open t (i_ino inode))) ;;
      Shared.entry_removed inode) Q R s.
Proof.
  intros T inode Hinv Hp Hroom Hres Hnl HQ HE HR. pose proof (fi_db _ _ _ Hinv) as Hwf.
  destruct (resolves_child _ _ _ _ _ _ _ Hwf Hres) as [Hv _].
  assert (forall o, unlink_entry p n inode o = unlink_entry p n (inode_view (d_child d) r K) o) as Hsame1
    by (intros o; unfold inode, unlink_entry, drop_unlinked_inode, inode_view; cbn [i_kind i_nlink i_ino]; by rewrite Hnl).
  assert (Shared.entry_removed inode = Shared.entry_removed (inode_view (d_child d) r K)) as Hsame2
    by (unfold inode, Shared.entry_removed, inode_view; cbn [i_kind i_nlink i_ino]; by rewrite Hnl).
  apply wp_bind, wp_table. rewrite Hsame1, Hsame2. cbn [inode inode_view i_ino].
  rewrite (inode_of_valid (d_child d)) by done.
  apply wp_bind, wp_db. apply (wp_unlink_entry p n k d r K); try done.
  - intros c2 HK Heq Hwf2. set (s2 := set_db c2 s).
    assert (entry_gone T (tables (fs_db s2)) (fs_table s) (d_child d) r K) as Hg
      by (by apply (gone_unlink _ T _ k d r K p n)).
    apply (wp_entry_removed s s2 (d_child d) r K); try done.
    intros s3 Hinv3 Hdb Hfl Hoth Hrem. apply HQ; try done; [|by rewrite Hdb].
    by destruct Hfl.
  - intros HK. subst K. apply HE; [by eapply ur_directory|done].
  - intros de c2 Hde Hc2. apply HR; [by exists de|]. exact (same_state_db s c2 Hc2).
Qed.

Lemma wp_unlink p n (Q : unit -> Fs -> Prop) (R : Z -> Fs -> Prop) s :
  let T := tables (fs_db s) in
  fs_inv s -> valid_ino p -> Z.of_nat (size (t_dirents T)) < U32_MAX ->
  (forall k d r K s', resolves T p n k d r K -> K <> Directory -> fs_inv s' -> same_flags s s' ->
     others_same (d_child d) s s' -> removal s s' (d_child d) r K ->
     tables (fs_db s') ≡ unlink_tables k d ((1 <? r_nlink r) || Shared.is_open (fs_table s) (d_child d)) T ->
     Q tt s') ->
  (forall e s', unlink_refused T p n e -> same_state s s' -> R e s') ->
  (forall e s', db_failure e -> same_state s s' -> R e s') ->
  wp (Dbfs.unlink p n) Q R s.
Proof.
  intros T Hinv Hp Hroom HQ HE HR. unfold Dbfs.unlink. pose proof (fi_db _ _ _ Hinv) as Hwf.
  apply wp_bind, wp_db, wp_lookup; [done..| |intros; apply HE; [by constructor|done]|
    intros; apply HE; [by constructor|done]|intros de c Hde Hc; apply HR; [by exists de|done]].
  intros k d r K c1 _ Hres Hc1. set (s1 := set_db c1 s). assert (same_state s s1) as Hs by (by apply same_state_db).
  apply (wp_unlink_found p n k d r r K); unfold s1; cbn [fs_db fs_table set_db]; rewrite ?Hc1; try done.
  - by apply set_db_id.
  - intros HK s' Hinv' Hfl Ho Hrem Heq. apply (HQ k d r K); try done.
    + by destruct Hfl.
    + intros i Hi Hne. specialize (Ho i Hi Hne). simpl in Ho. by rewrite Hc1 in Ho.
    + destruct Hrem; simpl in *; rewrite ?Hc1 in *; [by apply rv_directory|by apply rv_kept|by apply rv_hidden|by apply rv_deleted].
  - intros e s' He Hs'. apply HE; [done|by etrans].
  - intros e s' He Hs'. apply HR; [done|by etrans].
Qed.

(** ** rename *)

Lemma dirs_closed s ino :
  fs_inv s -> kind_of (tables (fs_db s)) ino = Some Directory -> inodes_find (inodes (fs_table s)) ino = None.
Proof.
  intros Hinv Hk. destruct (inodes_find (inodes (fs_table s)) ino) as [i|] eqn:Hf; [|done].
  destruct (inv_find _ _ _ _ _ Hinv Hf) as (e & r & _ & _ & <- & Hok). exfalso.
  apply (eo_file _ _ _ _ Hok). pose proof (eo_kind _ _ _ _ Hok).
  rewrite (kind_of_row _ _ _ (eo_row _ _ _ _ Hok)) in Hk. congruence.
Qed.

Lemma kept_inv s s' :
  fs_inv s -> fs_wf (tables (fs_db s')) -> evolves (-1) (tables (fs_db s)) (tables (fs_db s')) ->
  fs_table s' = fs_table s -> fs_inv s' /\ same_files s s'.
Proof.
  intros Hinv Hwf [Hch Hk] Ht.
  assert (forall ino, valid_ino ino -> kept_inode (tables (fs_db s)) (tables (fs_db s')) ino) as Hkv.
  { intros ino Hv. apply Hk; [done|]. unfold valid_ino in Hv. lia. }
  split.
  - unfold fs_inv. rewrite Ht. apply (inv_tables _ _ _ None Hinv); try done. intros i e Hl He.
    destruct (inv_live _ _ _ _ Hinv Hl) as (e' & r & He' & Hok & _). simplify_eq.
    apply Hkv. by eapply entry_valid.
  - intros ino Hv. rewrite Ht. eapply kept_file; [exact Hinv|]. by apply Hkv.
Qed.

(** What a rename did: nothing, a move to a free name, or a replacement. *)
Inductive renamed s s' (p : Z) (n : list byte) (np : Z) (nn : list byte) : Prop :=
  | rn_same : p = np -> n = nn -> is_Some (find_entry p n (tables (fs_db s))) -> same_state s s' ->
      renamed s s' p n np nn
  | rn_moved k d r K : d_parent d = p -> d_name d = n ->
      rename_ok (tables (fs_db s)) k d r K np nn None -> same_files s s' ->
      tables (fs_db s') ≡ move_tables k d np nn (tables (fs_db s)) -> renamed s s' p n np nn
  | rn_replaced k d r K k2 d2 r2 K2 : d_parent d = p -> d_name d = n ->
      rename_ok (tables (fs_db s)) k d r K np nn (Some (k2, d2, r2, K2)) ->
      others_same (d_child d2) s s' -> removal s s' (d_child d2) r2 K2 ->
      tables (fs_db s') ≡ renamed_tables (tables (fs_db s)) k d np nn (Some (k2, d2, r2, K2))
        (Shared.is_open (fs_table s)) ->
      renamed s s' p n np nn.

Definition noreplace (flags : Z) : bool := negb (Z.land flags RENAME_NOREPLACE =? 0).

Lemma wp_rename `{!EngineLaws H} p n np nn flags (Q : unit -> Fs -> Prop) (R : Z -> Fs -> Prop) s :
  let T := tables (fs_db s) in
  fs_inv s -> valid_ino p -> valid_ino np ->
  Z.of_nat (size (t_dirents T)) < U32_MAX ->
  (forall s', Z.ldiff flags RENAME_NOREPLACE = 0 -> fs_inv s' -> same_flags s s' ->
     renamed s s' p n np nn ->
     (noreplace flags = true -> (p = np /\ n = nn) \/ find_entry np nn T = None) -> Q tt s') ->
  (Z.ldiff flags RENAME_NOREPLACE <> 0 -> R EINVAL s) ->
  (forall e s', rename_refused T p n np nn (noreplace flags) e -> same_state s s' ->
     R (errno_from_db_error e) s') ->
  (forall e s', db_failure e -> same_state s s' -> R e s') ->
  wp (Dbfs.rename p n np nn flags) Q R s.
Proof.
  intros T Hinv Hp Hnp Hroom HQ HF HE HR. unfold Dbfs.rename. fold (noreplace flags).
  pose proof (fi_db _ _ _ Hinv) as Hwf.
  destruct (Z.eqb_spec (Z.ldiff flags RENAME_NOREPLACE) 0) as [Hfl|Hfl]; simpl; [|by apply wp_throw, HF].
  apply wp_bind, wp_table, wp_bind, wp_db, wp_rename_entry; try done.
  - intros c Hex -> -> Hc. apply wp_ret, HQ; try done.
    + by apply (same_state_inv s).
    + by apply rn_same.
    + auto.
  - intros k d r K tgt c Hpd Hnd Hok Hno Heq Hwf'. set (s1 := set_db c s).
    destruct tgt as [[[[k2 d2] r2] K2]|]; simpl.
    + assert (entry_gone T (tables (fs_db s1)) (fs_table s) (d_child d2) r2 K2) as Hg.
      { eapply gone_renamed; try done. intros ->. apply dirs_closed; [done|].
        pose proof (ro_target _ _ _ _ _ _ _ _ Hok) as (Hres & _).
        by destruct (resolves_child _ _ _ _ _ _ _ Hwf Hres). }
      pose proof (target_entry _ _ _ _ _ _ _ _ Hwf Hok _ _ _ _ eq_refl) as (_ & _ & Hv & _).
      apply (wp_entry_removed s s1 (d_child d2) r2 K2); try done.
      intros s3 Hinv3 Hdb Hsf Hoth Hrem. apply HQ; try done; [by destruct Hsf| |by intros ?%Hno].
      eapply rn_replaced; try done. by rewrite Hdb.
    + destruct (kept_inv s s1) as [Hinv1 Hsf]; try done.
      { etrans; [by apply (evolves_renamed (-1) T k d r K np nn None (Shared.is_open (fs_table s)))|].
        by apply evolves_equiv. }
      apply wp_ret, HQ; try done; [by eapply rn_moved|]. intros _. right. apply Hok.
  - intros de c Hre Hc. by apply HE.
  - intros de c Hde Hc. apply HR; [by exists de|done].
Qed.

(** ** rmdir *)

Inductive rmdir_refused (T : Tables) (p : Z) (n : list byte) : Z -> Prop :=
  | dr_name : NAME_MAX < zlen n -> rmdir_refused T p n ENAMETOOLONG
  | dr_missing : find_entry p n T = None -> rmdir_refused T p n ENOENT
  | dr_file k d r K : resolves T p n k d r K -> K <> Directory -> rmdir_refused T p n ENOTDIR
  | dr_full k d r : resolves T p n k d r Directory -> child_count (d_child d) T <> 0 ->
      rmdir_refused T p n ENOTEMPTY.

Lemma wp_rmdir p n (Q : unit -> Fs -> Prop) (R : Z -> Fs -> Prop) s :
  let T := tables (fs_db s) in
  fs_inv s -> valid_ino p ->
  (forall k d r s', resolves T p n k d r Directory -> child_count (d_child d) T = 0 -> fs_inv s' ->
     same_flags s s' -> others_same (d_child d) s s' -> t_inodes (tables (fs_db s')) !! d_child d = None ->
     tables (fs_db s') ≡ rmdir_tables k d T -> Q tt s') ->
  (forall e s', rmdir_refused T p n e -> same_state s s' -> R e s') ->
  (forall e s', db_failure e -> same_state s s' -> R e s') ->
  wp (Dbfs.rmdir p n) Q R s.
Proof.
  intros T Hinv Hp HQ HE HR. pose proof (fi_db _ _ _ Hinv) as Hwf.
  apply wp_db, wp_remove_dir; try done.
  - intros k d r c Hres Hz Heq Hwf'. destruct (resolves_child _ _ _ _ _ _ _ Hwf Hres) as [Hv Hk].
    assert (evolves (d_child d) T (tables c)) as [Hch Hkept].
    { symmetry in Heq. etrans; [|by apply evolves_equiv]. unfold rmdir_tables.
      etrans; [apply (evolves_drop _ k)|]. etrans; [by apply evolves_remove|apply evolves_nlink]. }
    assert (forall i e, live (inodes (fs_table s)) i -> entry_at (inodes (fs_table s)) i = Some e ->
      kept_inode T (tables c) (e_ino e)) as Hslots.
    { intros i e Hl He. destruct (inv_live _ _ _ _ Hinv Hl) as (e' & re & He' & Hok & Hf).
      assert (e' = e) as -> by congruence. apply Hkept; [by eapply entry_valid|]. intros Heq'.
      pose proof (dirs_closed _ _ Hinv Hk). congruence. }
    apply (HQ k d r); try done.
    + by apply (inv_tables T _ _ None Hinv).
    + intros ino Hi Hne. eapply kept_file; [exact Hinv|]. by apply Hkept.
    + destruct Heq as (_ & _ & _ & Hrows). specialize (Hrows (d_child d)). unfold rmdir_tables in Hrows.
      simpl. simpl in Hrows. rewrite remove_inodes in Hrows by done.
      destruct (decide (i64 (d_parent d) = d_child d)) as [E|E];
        [rewrite E, lookup_alter_eq in Hrows|rewrite lookup_alter_ne in Hrows by done];
        rewrite lookup_delete_eq in Hrows; by destruct (t_inodes (tables c) !! d_child d).
  - intros c Hl Hc. apply HE; [by constructor|by apply same_state_db].
  - intros c Hl Hc. apply HE; [by constructor|by apply same_state_db].
  - intros k d r K c Hres HK Hc. apply HE; [by eapply dr_file|by apply same_state_db].
  - intros k d r c Hres Hz Hc. apply HE; [by eapply dr_full|by apply same_state_db].
  - intros de c Hde Hc. apply HR; [by exists de|by apply same_state_db].
Qed.

(** ** Creation *)

Inductive create_refused (T : Tables) (p : Z) (n : list byte) : Z -> Prop :=
  | cf_name : NAME_MAX < zlen n -> create_refused T p n ENAMETOOLONG
  | cf_parent : t_inodes T !! p = None -> create_refused T p n ENOENT
  | cf_file K : kind_of T p = Some K -> K <> Directory -> create_refused T p n ENOTDIR
  | cf_exists : is_Some (find_entry p n T) -> create_refused T p n EEXIST
  | cf_full : entries_full T \/ inodes_full T -> create_refused T p n ENOSPC.

Lemma kept_create k d r sym T ino :
  ino <> d_child d -> kept_inode T (create_tables k d r sym T) ino.
Proof.
  intros Hne. split; [|intros c _; unfold stored_chunk; by rewrite create_chunks].
  unfold create_tables. assert (forall T0, t_inodes T0 !! ino = t_inodes T !! ino ->
    row_head <$> t_inodes (add_nlink (d_parent d) 1 T0) !! ino = row_head <$> t_inodes T !! ino) as Hn.
  { intros T0 <-. apply kept_add_nlink. }
  case_decide; [apply Hn|]; destruct sym; simpl; by rewrite lookup_insert_ne.
Qed.

(** The state after a creation: one more node, without a slot, and an empty one if it
    is a file. *)
Record created_node s s' (p : Z) (n : list byte) (node : NewNode) (uid gid : Z) (now : Timestamp)
    (ino : Z) : Prop := {
  cn_tables : exists k, created (tables (fs_db s)) (tables (fs_db s')) p n node uid gid now k ino;
  cn_table : fs_table s' = fs_table s;
  cn_last : fs_last_flush s' = fs_last_flush s;
  cn_cache : fs_kernel_cache s' = fs_kernel_cache s;
  cn_inv : fs_inv s';
  cn_closed : inodes_find (inodes (fs_table s)) ino = None;
  cn_others : others_same ino s s';
  cn_contents : contents s' ino (node_size node) (fun _ => x00) }.

Lemma created_fs s c p n node uid gid now k ino :
  fs_inv s -> valid_ino p -> 0 <= node_size node <= I64_MAX ->
  created (tables (fs_db s)) (tables c) p n node uid gid now k ino ->
  created_node s (set_db c s) p n node uid gid now ino.
Proof.
  intros Hinv Hp Hsize Hcr. pose proof Hcr as []. set (d := mkDirentRow p n ino) in *.
  assert (valid_ino ino) as Hv by (unfold valid_ino; lia).
  assert (forall j, j <> ino -> kept_inode (tables (fs_db s)) (tables c) j) as Hkept.
  { intros j Hne. symmetry in cr_equiv. eapply kept_trans; [|by apply kept_equiv].
    by apply kept_create. }
  assert (inodes_find (inodes (fs_table s)) ino = None) as Hclosed.
  { destruct (inodes_find (inodes (fs_table s)) ino) as [i|] eqn:Hf; [|done].
    destruct (inv_find _ _ _ _ _ Hinv Hf) as (e & r & _ & _ & Hino & Hok).
    pose proof (eo_row _ _ _ _ Hok). congruence. }
  assert (forall i e, live (inodes (fs_table s)) i -> entry_at (inodes (fs_table s)) i = Some e ->
    e_ino e <> ino) as Hne.
  { intros i e Hl He Heq. destruct (inv_live _ _ _ _ Hinv Hl) as (e' & re & He' & Hok & Hf). congruence. }
  constructor; try done.
  - by exists k.
  - apply (inv_tables (tables (fs_db s)) _ _ (Some ino) Hinv); try done.
    + intros k' d' Hd'. destruct cr_equiv as (Hd & _). simpl in Hd'. rewrite Hd, create_dirents in Hd'.
      apply lookup_insert_Some in Hd' as [[_ <-]|[_ Hd']]; [by left|right; by exists k', d'].
    + intros i e Hl He. apply Hkept. by eapply Hne.
    + intros i e Hl He _ [= Heq]. by apply (Hne i e).
  - intros j Hvj Hj. eapply kept_file; [exact Hinv|]. by apply Hkept.
  - split.
    + unfold file_size, entry_of. simpl. rewrite Hclosed. simpl. rewrite cr_row. simpl. f_equal.
      apply i64_id. unfold I64_MAX in Hsize. lia.
    + intros q Hq. unfold file_byte, entry_of. simpl. rewrite Hclosed. simpl.
      unfold stored_byte, stored_chunk. destruct cr_equiv as (_ & -> & _). rewrite create_chunks.
      destruct (t_chunks (tables (fs_db s)) !! chunk_key ino (q / CHUNK_SIZE)) as [data|] eqn:Hch; [|exact (zget_nil _)].
      destruct (dw_chunks _ (proj1 (fi_db _ _ _ Hinv)) _ _ Hch) as (j & c' & r & Hc' & Hkey & Hr & _).
      apply chunk_key_inj in Hkey as [-> _]; [congruence|done|by apply valid_chunk_pos| |done].
      by eapply ino_ok_valid, dw_rows, Hr; apply Hinv.
Qed.

Lemma wp_new_node `{!EngineLaws H} p n node uid gid (Q : FileAttr -> Fs -> Prop) (R : Z -> Fs -> Prop) s :
  fs_inv s -> valid_ino p -> 0 <= node_size node <= I64_MAX ->
  (forall now ino s', created_node s s' p n node uid gid now ino ->
     Q (file_attr_from_inode (node_inode ino node uid gid now)) s') ->
  (forall e s', create_refused (tables (fs_db s)) p n e -> same_state s s' -> R e s') ->
  (forall e s', db_failure e -> same_state s s' -> R e s') ->
  wp (inode ← Shared.db (create_node p n node uid gid); mret (file_attr_from_inode inode)) Q R s.
Proof.
  intros Hinv Hp Hsize HQ HE HR.
  apply wp_bind, wp_db, wp_create_node; [apply (fi_db _ _ _ Hinv)|done|lia|..].
  - intros now k ino c Hcr. apply wp_ret, HQ. by eapply created_fs.
  - intros c Hl Hc. apply HE; [by constructor|by apply same_state_db].
  - intros c (K & HK & HKd) Hc. apply HE; [by eapply cf_file|by apply same_state_db].
  - intros c Hn Hc. apply HE; [by constructor|by apply same_state_db].
  - intros c Hn Hc. apply HE; [by constructor|by apply same_state_db].
  - intros c Hfull Hc. apply HE; [by constructor|by apply same_state_db].
  - intros de c Hde Hc. apply HR; [by exists de|by apply same_state_db].
Qed.

(** [create]: a new empty file and a handle on it, on a slot of its own. *)
(** A slot and a handle for a file that has just been made. *)
Lemma wp_open_created attr r (Q : FileAttr * Z -> Fs -> Prop) (R : Z -> Fs -> Prop) s :
  let ino := fa_ino attr in
  fs_inv s -> inodes_find (inodes (fs_table s)) ino = None ->
  t_inodes (tables (fs_db s)) !! ino = Some r -> row_kind r = Some RegularFile -> r_size r = 0 ->
  slot_room (inodes (fs_table s)) -> handles_room s ->
  (forall fh s', opened s s' fh ino -> Q (attr, fh) s') ->
  wp (t ← Shared.table;
      r ← unwrap (inodes_insert (inodes t) ino RegularFile 0);
      Shared.update (with_slots r.2) ;;
      fh ← Shared.open_slot r.1;
      mret (attr, fh)) Q R s.
Proof.
  intros ino Hinv Hf Hr HK Hsz Hroom Hhr HQ. apply wp_bind, wp_table, wp_bind.
  apply (insert_calm s ino RegularFile 0 r); [done..|].
  intros i io s2 Hinv2 Hcalm Hkept Hl He. apply wp_bind, wp_update, wp_bind. cbn [fst snd].
  assert (forall fh, handle_ino (fs_table s2) fh = handle_ino (fs_table s) fh) as Hh
    by (intros fh; by apply slots_kept_handle).
  apply (wp_open_slot i (fresh_entry ino RegularFile 0)); try done.
  intros fh s3 [? ? ? ? ?]. apply wp_ret, HQ. constructor; try done.
  - by etrans.
  - by rewrite <- Hh.
  - intros fh' Hne. by rewrite on_others, Hh.
Qed.

Lemma wp_create_open `{!EngineLaws H} p n mode umask uid gid (Q : FileAttr * Z -> Fs -> Prop)
    (R : Z -> Fs -> Prop) s :
  fs_inv s -> valid_ino p -> slot_room (inodes (fs_table s)) -> handles_room s ->
  (forall now ino fh s1 s', created_node s s1 p n (NewFile (Z.ldiff mode umask)) uid gid now ino ->
     opened s1 s' fh ino ->
     Q (file_attr_from_inode (node_inode ino (NewFile (Z.ldiff mode umask)) uid gid now), fh) s') ->
  (forall e s', create_refused (tables (fs_db s)) p n e -> same_state s s' -> R e s') ->
  (forall e s', db_failure e -> same_state s s' -> R e s') ->
  wp (Dbfs.create_open p n mode umask uid gid) Q R s.
Proof.
  intros Hinv Hp Hroom Hhr HQ HE HR. unfold Dbfs.create_open, Dbfs.create, create_file.
  set (node := NewFile (Z.ldiff mode umask)) in *.
  apply wp_bind, wp_new_node; try done. intros now ino s1 Hcn. pose proof Hcn as [(k & Hcr) ? ? ? Hinv1 Hclosed].
  destruct Hcr.
  apply (wp_open_created (file_attr_from_inode (node_inode ino node uid gid now)) (node_row node uid gid now)); cbn [file_attr_from_inode node_inode i_ino fa_ino]; try done.
  - by rewrite cn_table0.
  - by rewrite cn_table0.
  - unfold handles_room. by rewrite cn_table0.
  - intros fh s3 Hon. by apply (HQ now ino fh s1).
Qed.
End removals.
