(* ===== verification/FuseResize.v ===== *)
(** * FuseResize: resizing, attributes and the operations by inode number

    [truncate_locked] flushes the slot of a file and cuts the stored file; [setattr]
    and [fallocate] are built on it. The file afterwards has the bytes below the new
    size and zeros from there on, whatever was buffered. *)

From S2P Require Import Prelude Effects Model Chunk Arena OpenTable Sql DbData DbNames Tree.
From S2P Require Import NamesSpec DbVolume Fuse FuseInv FuseFlush FuseWrite FuseRead FuseOps.
From S2P Require Import FuseHandles FuseSpec FuseLifecycle FuseNames.

Section resize.
Context `{World, HashOrder}.
Implicit Types (s : Fs) (T : Tables) (t : OpenTable) (i : Slot) (e : Entry) (ino size : Z).

(** The bytes of a file cut or extended to [size]. *)
Definition resized (f : Z -> byte) size (p : Z) : byte := if decide (p < size) then f p else x00.

(** ** A flush that leaves nothing behind *)

Lemma wp_flush_clean i e (Q : unit -> Fs -> Prop) (R : Z -> Fs -> Prop) s :
  fs_inv s -> live (inodes (fs_table s)) i -> entry_at (inodes (fs_table s)) i = Some e ->
  (forall s' e', fs_inv s' -> quiet s s' -> rows_but (e_ino e) s s' -> live (inodes (fs_table s')) i ->
     entry_at (inodes (fs_table s')) i = Some e' -> same_open e e' -> e_dirty e' = [] -> Q tt s') ->
  (forall n s', db_failure n -> same_state s s' -> R n s') ->
  wp (Shared.flush_slot i Persist) Q R s.
Proof.
  intros Hinv Hl He HQ HR. apply (wp_flush_slot None i Persist e); [done..| | |done].
  - intros [Hd|[_ ?]]; [|done]. apply (HQ s e); try done. apply quiet_refl.
  - intros s1 _ Hf. pose proof (fl_slot _ _ _ _ _ Hf) as (Hup & _).
    apply (HQ s1 (with_dirty e [])); [apply Hf|by eapply flushed_quiet| | | |done|done].
    + intros k Hk. destruct (flushed_rows s s1 i e k Hinv Hl He Hf) as [_ ->]. by rewrite decide_False.
    + by apply (live_updated _ _ _ _ _ Hup).
    + by rewrite (up_entry _ _ _ _ Hup), decide_True.
Qed.

(** No buffered writes of the file. *)
Definition clean_file s ino : Prop :=
  forall e, entry_of (fs_table s) ino = Some e -> e_dirty e = [].

Lemma clean_file_stored s ino : fs_inv s -> clean_file s ino -> file_stored s ino.
Proof.
  intros Hinv Hc. destruct (inodes_find (inodes (fs_table s)) ino) as [i|] eqn:Hf; [|by apply closed_stored].
  destruct (inv_find _ _ _ _ _ Hinv Hf) as (e & _ & Hl & He & <- & _). eapply clean_stored; [done..|].
  apply Hc. by eapply entry_of_live.
Qed.

Lemma quiet_clean s s' ino : fs_inv s -> fs_inv s' -> quiet s s' -> clean_file s ino -> clean_file s' ino.
Proof.
  intros Hinv Hinv' Hq Hc e' He'. destruct (entry_of_Some _ _ _ _ _ Hinv' He') as (j & Hl' & Hj & <-).
  destruct (q_back _ _ Hq j e' Hl' Hj) as (Hl & e & He & Hso & [->|Hd]); [|done].
  apply same_open_fields in Hso as (Hio & _). apply Hc. rewrite Hio. by eapply entry_of_live.
Qed.

Lemma clean_state s s' ino : same_state s s' -> clean_file s ino -> clean_file s' ino.
Proof. unfold clean_file. by intros (_ & -> & _). Qed.

(** ** The stored file changes under the cache *)

(** The file of a slot without buffered writes, after its stored form was set. *)
Lemma stored_set_slot s c io i e size ns f :
  fs_inv s -> live (inodes (fs_table s)) i -> entry_at (inodes (fs_table s)) i = Some e ->
  e_dirty e = [] -> e_kind e = RegularFile -> 0 <= size <= MAX_FILE_SIZE ->
  file_set (e_ino e) size ns f (tables (fs_db s)) (tables c) ->
  updated (inodes (fs_table s)) io i (with_size e size) ->
  let s' := set_table (with_slots io (fs_table s)) (set_db c s) in
  live (inodes (fs_table s')) i /\ clean_file s' (e_ino e) /\ file_changed s s' (e_ino e) size f.
Proof.
  intros Hinv Hl He Hd Hk Hsz Hf Hup s'. destruct (fi_entry _ _ _ Hinv i e Hl He) as [r Hok].
  pose proof (eo_row _ _ _ _ Hok) as Hr.
  assert (slot_changed (fs_table s) (fs_table s') i (with_size e size)) as Hch by done.
  assert (entry_ok (tables c) (arena (fs_table s)) (with_size e size) (row_set_size size ns r)) as Hok'.
  { destruct Hok. constructor; simpl; rewrite ?Hd; try done; try lia.
    - rewrite (file_set_row _ _ _ _ _ _ _ Hf), decide_True by done. by rewrite Hr.
    - by constructor.
    - constructor.
    - by intros k a ?%elem_of_nil. }
  assert (fs_inv s') as Hinv'.
  { apply (inv_change None None (tables (fs_db s)) _ (fs_table s) _ i e (with_size e size)
      (row_set_size size ns r) Hinv Hl He Hch); try done; try (by apply Hinv).
    - eapply file_set_fs_wf, Hf. apply Hinv.
    - intros k Hne. by rewrite (file_set_row _ _ _ _ _ _ _ Hf), decide_False, option_fmap_id by done.
    - intros k q Hne Hv Hc. by apply (fs_same _ _ _ _ _ _ Hf).
    - intros a. simpl. rewrite Hd, (fi_used _ _ _ Hinv). split.
      + intros [?|[j Hj]]; [by left|]. right; right. exists j. split; [|done]. intros ->.
        apply (used_by_entry _ _ _ _ _ _ Hinv Hj) in He. rewrite Hd in He. by apply elem_of_nil in He.
      + intros [?|[Ha%elem_of_nil|(j & _ & Hj)]]; [by left|done|]. right. by exists j.
    - intros a j. simpl. rewrite Hd. by intros ?%elem_of_nil. }
  pose proof (changed_entry_of _ _ _ _ _ _ _ Hinv Hl He Hch eq_refl) as Hnew.
  split; [by apply (live_updated _ _ _ _ _ Hup)|].
  split; [intros e' He'; rewrite Hnew in He'; by injection He' as <-|]. constructor; [done| | |].
  - constructor; try done; [by eapply file_set_names|]. intros fh. unfold handle_ino. simpl.
    destruct (handles_get (handles (fs_table s)) fh) as [j|]; [|done]. simpl.
    rewrite (up_entry _ _ _ _ Hup). case_decide as Hj; [|done]. subst. by rewrite He.
  - intros k Hv Hne. apply (other_file_same None (tables (fs_db s)) _ (fs_table s) _ i e (with_size e size));
      try done.
    + by rewrite (file_set_row _ _ _ _ _ _ _ Hf), decide_False, option_fmap_id by done.
    + intros q Hq. by apply (fs_same _ _ _ _ _ _ Hf).
  - split; [unfold file_size; by rewrite Hnew|]. intros p Hp. unfold file_byte. rewrite Hnew.
    unfold entry_byte. simpl. rewrite Hd. simpl. by apply (fs_bytes _ _ _ _ _ _ Hf).
Qed.

(** The file of an inode without a slot. *)
Lemma stored_set_closed s c ino size ns f r :
  fs_inv s -> inodes_find (inodes (fs_table s)) ino = None -> regular (tables (fs_db s)) ino r ->
  file_set ino size ns f (tables (fs_db s)) (tables c) -> file_changed s (set_db c s) ino size f.
Proof.
  intros Hinv Hno [Hr _] Hf.
  assert (forall k, k <> ino -> valid_ino k -> kept_inode (tables (fs_db s)) (tables c) k) as Hkept.
  { intros k Hne Hv. split; [|intros q Hq; by apply (fs_same _ _ _ _ _ _ Hf)].
    by rewrite (file_set_row _ _ _ _ _ _ _ Hf), decide_False, option_fmap_id by done. }
  constructor.
  - apply (inv_tables (tables (fs_db s)) _ _ None Hinv); [eapply file_set_fs_wf, Hf; apply Hinv| | |done].
    + intros k d Hd. simpl in Hd. rewrite (sbf_dirents _ _ _ (fs_same _ _ _ _ _ _ Hf)) in Hd. right. by exists k, d.
    + intros i e Hl He. destruct (inv_live _ _ _ _ Hinv Hl) as (e' & re & He' & Hok & Hfi). simplify_eq.
      apply Hkept; [congruence|by eapply entry_valid].
  - constructor; try done. by eapply file_set_names.
  - intros k Hv Hne. eapply kept_file; [exact Hinv|]. by apply Hkept.
  - assert (entry_of (fs_table (set_db c s)) ino = None) as Hnone by (unfold entry_of; simpl; by rewrite Hno).
    split; [unfold file_size; rewrite Hnone; simpl|intros p Hp; unfold file_byte; rewrite Hnone; simpl].
    + by rewrite (file_set_row _ _ _ _ _ _ _ Hf), decide_True, Hr by done.
    + by apply (fs_bytes _ _ _ _ _ _ Hf).
Qed.

(** ** truncate *)

Inductive resize_refused T ino size : Z -> Prop :=
  | zr_missing : t_inodes T !! ino = None -> resize_refused T ino size ENOENT
  | zr_kind k error : kind_of T ino = Some k -> regular_file_error k = Some error ->
      resize_refused T ino size (errno_from_db_error error)
  | zr_large : kind_of T ino = Some RegularFile -> MAX_FILE_SIZE < size -> resize_refused T ino size EFBIG.

Lemma resize_refused_names T T' ino size n :
  same_names T T' -> resize_refused T' ino size n -> resize_refused T ino size n.
Proof.
  intros Hn Hr. pose proof (same_names_kind _ _ ino Hn) as Hk. destruct Hr.
  - apply zr_missing. destruct Hn as (_ & _ & Hn). specialize (Hn ino).
    by destruct (t_inodes T !! ino), (t_inodes T' !! ino).
  - eapply zr_kind; [|done]. congruence.
  - apply zr_large; [congruence|done].
Qed.

(** The cut itself, on a file that the database has whole. *)
Lemma wp_cut_stored ino size (Q : unit -> Fs -> Prop) (R : Z -> Fs -> Prop) s :
  fs_inv s -> valid_ino ino -> 0 <= size -> file_stored s ino ->
  (forall r ns size0 f c, regular (tables (fs_db s)) ino r -> size <= MAX_FILE_SIZE ->
     contents s ino size0 f ->
     file_set ino size ns (resized f size) (tables (fs_db s)) (tables c) -> Q tt (set_db c s)) ->
  (forall n s', resize_refused (tables (fs_db s)) ino size n -> same_state s s' -> R n s') ->
  (forall n s', db_failure n -> same_state s s' -> R n s') ->
  wp (Shared.db (truncate_file ino size)) Q R s.
Proof.
  intros Hinv Hi Hs Hst HQ HF HR. apply wp_db, wp_truncate_file; [apply (fi_db _ _ _ Hinv)|done..| | | | |].
  - intros r now c Hr Hm Hf. assert (exists size0 f, contents s ino size0 f) as (size0 & f & Hc).
    { destruct (inodes_find (inodes (fs_table s)) ino) as [i|] eqn:Hfi.
      - destruct (inv_find _ _ _ _ _ Hinv Hfi) as (e & re & Hl & He & <- & _).
        eexists _, _. by apply (live_contents None s i e).
      - exists (r_size r), (stored_byte (tables (fs_db s)) ino). unfold contents, file_size, file_byte, entry_of.
        rewrite Hfi. simpl. destruct Hr as [-> _]. done. }
    apply (HQ r (to_ns now) size0 f c); [done..|]. destruct (Hst _ _ Hc) as [_ Hb].
    destruct Hf. constructor; try done. intros p Hp. rewrite fs_bytes by done.
    unfold resized. case_decide; [by apply Hb|done].
  - intros r c [Hr Hk] Hm Hc. apply HF; [|by apply same_state_db].
    apply zr_large; [|done]. by rewrite (kind_of_row _ _ _ Hr).
  - intros r k e c Hr Hk He Hc. apply HF; [|by apply same_state_db].
    eapply zr_kind; [by rewrite (kind_of_row _ _ _ Hr)|done].
  - intros c Hn Hc. apply HF; [by constructor|by apply same_state_db].
  - intros de c Hde Hc. apply HR; [by exists de|by apply same_state_db].
Qed.

(** A file cut or extended through the cache: refused with nothing but flushes done, or
    the bytes below the new size and zeros after them. *)
Lemma wp_truncate_locked ino size (Q : unit -> Fs -> Prop) (R : Z -> Fs -> Prop) s :
  fs_inv s -> valid_ino ino -> 0 <= size ->
  (forall size0 f s', kind_of (tables (fs_db s)) ino = Some RegularFile -> size <= MAX_FILE_SIZE ->
     contents s ino size0 f -> file_changed s s' ino size (resized f size) -> clean_file s' ino ->
     rows_but ino s s' -> Q tt s') ->
  (forall n s', resize_refused (tables (fs_db s)) ino size n -> fs_inv s' -> quiet s s' ->
     rows_but ino s s' -> R n s') ->
  (forall n s', db_failure n -> fs_inv s' -> quiet s s' -> rows_but ino s s' -> R n s') ->
  wp (Dbfs.truncate_locked ino size) Q R s.
Proof.
  intros Hinv Hi Hs HQ HF HR. unfold Dbfs.truncate_locked. apply wp_bind, wp_find_slot.
  assert (forall s1 ns f c, file_set ino size ns f (tables (fs_db s1)) (tables c) ->
    rows_but ino s1 (set_db c s1)) as Hrows.
  { intros s1 ns f c Hf j Hj. simpl. by rewrite (file_set_row _ _ _ _ _ _ _ Hf), decide_False, option_fmap_id by done. }
  destruct (inodes_find (inodes (fs_table s)) ino) as [i|] eqn:Hfi.
  - destruct (inv_find _ _ _ _ _ Hinv Hfi) as (e & _ & Hl & He & <- & _).
    apply wp_bind. apply (wp_flush_clean i e); [done..| |].
    2: { intros n s1 Hn Hss. apply HR; [done|by eapply same_state_inv|by apply quiet_state|by apply rows_but_db, Hss]. }
    intros s1 e1 Hinv1 Hq Hrows1 Hl1 He1 Hso Hd1.
    destruct (same_open_fields _ _ Hso) as (Hino & Hkind & _).
    assert (forall s2, same_state s1 s2 -> fs_inv s2 /\ quiet s s2 /\ rows_but (e_ino e) s s2) as Hback.
    { intros s2 Hss. split; [by eapply same_state_inv|]. split.
      - eapply (quiet_trans s s1); [exact Hinv1|done|by apply quiet_state].
      - etrans; [exact Hrows1|by apply rows_but_db, Hss]. }
    apply wp_bind, wp_cut_stored; [done..|by rewrite <- Hino; eapply clean_stored| | |].
    + intros r ns size0 f c [Hr Hk] Hm Hc Hf. apply wp_bind.
      pose proof (Hrows s1 ns _ c Hf) as Hrows2.
      destruct (fi_entry _ _ _ Hinv1 i e1 Hl1 He1) as [r1 Hok].
      assert (e_kind e1 = RegularFile) as Hreg.
      { pose proof (eo_row _ _ _ _ Hok) as Hr1. pose proof (eo_kind _ _ _ _ Hok). congruence. }
      eapply (wp_store OpenTable.set_size with_size); [apply Hinv1|exact He1|]. intros io Hup.
      rewrite <- Hino in Hf.
      destruct (stored_set_slot s1 c io i e1 size ns (resized f size) Hinv1 Hl1 He1 Hd1 Hreg
        (conj Hs Hm) Hf Hup) as (Hl2 & Hcl & Hch). pose proof (fc_inv _ _ _ _ _ Hch) as Hinv2.
      apply wp_free_table; [apply Hch|done|]. intros s3 Hinv3 Hq3 Hdb3. apply (HQ size0 f).
      * rewrite <- (same_names_kind _ _ (e_ino e) (q_names _ _ Hq)). by rewrite (kind_of_row _ _ _ Hr).
      * done.
      * apply (calm_contents s s1); [by apply quiet_calm|done..].
      * rewrite Hino in Hch. eapply changed_trans; [|by eapply changed_quiet].
        apply (quiet_changed s s1 (e_ino e) size0 f); try done.
        apply (calm_contents s s1); [by apply quiet_calm|done..].
      * eapply quiet_clean; [exact Hinv2|done|done|by rewrite <- Hino].
      * etrans; [exact Hrows1|]. etrans; [exact Hrows2|]. apply rows_but_db. by rewrite Hdb3.
    + intros n s2 Hr Hss. destruct (Hback s2 Hss) as (? & ? & ?). apply HF; [|done..].
      eapply resize_refused_names, Hr. apply Hq.
    + intros n s2 Hn Hss. destruct (Hback s2 Hss) as (? & ? & ?). by apply HR.
  - apply wp_bind, wp_ret, wp_bind, wp_cut_stored; [done..|by apply closed_stored| | |].
    + intros r ns size0 f c Hr Hm Hc Hf. apply wp_ret, (HQ size0 f); try done.
      * destruct Hr as [Hr Hk]. by rewrite (kind_of_row _ _ _ Hr).
      * by eapply stored_set_closed.
      * intros e He. unfold entry_of in He. simpl in He. by rewrite Hfi in He.
      * by apply (Hrows s ns _ c Hf).
    + intros n s2 Hr Hss. apply HF; [done|by eapply same_state_inv|by apply quiet_state|by apply rows_but_db, Hss].
    + intros n s2 Hn Hss. apply HR; [done|by eapply same_state_inv|by apply quiet_state|by apply rows_but_db, Hss].
Qed.

(** ** flush and fsync *)

(** [flush_file]: the file of an inode number is in the database, or was unlinked. *)
Lemma wp_flush_file ino (Q : unit -> Fs -> Prop) (R : Z -> Fs -> Prop) s :
  fs_inv s ->
  (forall s', fs_inv s' -> quiet s s' -> unlinked_open s ino \/ file_stored s' ino -> Q tt s') ->
  (forall n s', db_failure n -> same_state s s' -> R n s') ->
  wp (Dbfs.flush_file ino) Q R s.
Proof.
  intros Hinv HQ HR. unfold Dbfs.flush_file. apply wp_bind, wp_find_slot.
  destruct (inodes_find (inodes (fs_table s)) ino) as [i|] eqn:Hfi.
  - destruct (inv_find _ _ _ _ _ Hinv Hfi) as (e & _ & Hl & He & <- & _).
    apply wp_bind, (wp_flush_and_free i Skip e); [done..| |done].
    intros s' Hinv' Hq Hset Hlv. apply HQ; [done..|].
    destruct (inodes_find (inodes (fs_table s')) (e_ino e)) as [j|] eqn:Hfj;
      [|right; by apply closed_stored].
    destruct (inv_find _ _ _ _ _ Hinv' Hfj) as (e' & _ & Hl' & He' & Hino & _).
    destruct (q_back _ _ Hq j e' Hl' He') as (Hlj & e0 & He0 & Hso & Hdd).
    apply same_open_fields in Hso as (Hio & _).
    assert (j = i) as ->.
    { destruct (inv_live _ _ _ _ Hinv Hlj) as (e1 & _ & He1 & _ & Hf1). congruence. }
    destruct (Hset Hl') as (e2 & He2 & Hcase & _).
    assert (e2 = e') as -> by congruence. assert (e0 = e) as -> by congruence.
    assert (e_dirty e' = [] \/ e_unlinked e = true) as [Hd|Hu].
    { destruct Hcase as [?|[Hd|[? _]]]; [by left| |by right]. left. rewrite Hd in Hdd. by destruct Hdd. }
    + right. rewrite <- Hino. by eapply clean_stored.
    + left. exists e. split; [|done]. by eapply entry_of_live.
  - apply wp_ret, HQ; [done|apply quiet_refl|]. right. by apply closed_stored.
Qed.

Lemma stored_state s s' ino : same_state s s' -> file_stored s ino -> file_stored s' ino.
Proof. unfold file_stored, contents. by intros (-> & -> & _). Qed.

(** [fsync]: a flush, and the commit made durable. *)
Lemma wp_sync_fh fh (Q : unit -> Fs -> Prop) (R : Z -> Fs -> Prop) s :
  fs_inv s ->
  (forall ino s', handle_ino (fs_table s) fh = Some ino -> fs_inv s' -> quiet s s' ->
     unlinked_open s ino \/ file_stored s' ino -> Q tt s') ->
  (handle_ino (fs_table s) fh = None -> R EBADF s) ->
  (forall n s', db_failure n \/ n = EIO -> fs_inv s' -> quiet s s' -> R n s') ->
  wp (Dbfs.sync_fh fh) Q R s.
Proof.
  intros Hinv HQ HB HR. unfold Dbfs.sync_fh. apply wp_bind, wp_flush_fh; [done| |done|].
  2: { intros n s' Hn Hs. apply HR; [by left|by eapply same_state_inv|by apply quiet_state]. }
  intros ino s1 Hf Hinv1 Hq _ Hst. apply wp_db, wp_sync_durable.
  - intros c Hc. apply (HQ ino); [done|by apply set_db_id| |].
    + eapply (quiet_trans s s1); [exact Hinv1|done|]. by apply quiet_state, same_state_db.
    + destruct Hst as [?|Hst]; [by left|right]. eapply stored_state; [|exact Hst]. by apply same_state_db.
  - intros m c Hc. apply HR; [by right|by apply set_db_id|].
    eapply (quiet_trans s s1); [exact Hinv1|done|]. by apply quiet_state, same_state_db.
Qed.

(** ** Reads by inode number *)

(** Past its end a file reads as zeros. *)
Lemma contents_past s ino size f p :
  fs_inv s -> valid_ino ino -> contents s ino size f -> size <= p < MAX_FILE_SIZE -> 0 <= p -> f p = x00.
Proof.
  intros Hinv Hi [Hs Hb] Hp Hp0. rewrite <- Hb by lia. unfold file_byte, file_size in *.
  destruct (entry_of (fs_table s) ino) as [e|] eqn:Heo.
  - injection Hs as Hs. destruct (entry_of_Some _ _ _ _ _ Hinv Heo) as (i & Hl & He & Hino).
    destruct (fi_entry _ _ _ Hinv i e Hl He) as [r Hok]. unfold entry_byte, dirty_lookup.
    destruct (assoc (e_dirty e) (p / CHUNK_SIZE)) as [a|] eqn:Ha.
    + destruct (eo_chunk _ _ _ _ Hok _ a (assoc_Some_1 _ _ _ Ha)) as (_ & Hend & _).
      apply zget_byte_out. intros Hz. pose proof (Z.div_mod p CHUNK_SIZE ltac:(clia)). lia.
    + eapply stored_byte_past; [apply (fi_db _ _ _ Hinv)|apply Hok|by rewrite Hino| |lia].
      pose proof (eo_size _ _ _ _ Hok). lia.
  - destruct (t_inodes (tables (fs_db s)) !! ino) as [r|] eqn:Hr; [|done]. injection Hs as Hs.
    eapply stored_byte_past; [apply (fi_db _ _ _ Hinv)|done|done|lia|lia].
Qed.

Lemma wp_read ino offset n (Q : list byte -> Fs -> Prop) (R : Z -> Fs -> Prop) s :
  fs_inv s -> valid_ino ino -> 0 <= offset -> 0 <= n ->
  (forall size f out s', kind_of (tables (fs_db s)) ino = Some RegularFile -> contents s ino size f ->
     size <= MAX_FILE_SIZE -> read_result size f offset n out -> same_state s s' -> Q out s') ->
  (forall s', t_inodes (tables (fs_db s)) !! ino = None -> same_state s s' -> R ENOENT s') ->
  (forall k error s', kind_of (tables (fs_db s)) ino = Some k -> regular_file_error k = Some error ->
     same_state s s' -> R (errno_from_db_error error) s') ->
  (forall errno s', db_failure errno -> same_state s s' -> R errno s') ->
  wp (Dbfs.read ino offset n) Q R s.
Proof.
  intros Hinv Hi Ho Hn HQ HN HK HR. unfold Dbfs.read. apply wp_bind, wp_find_slot.
  destruct (inodes_find (inodes (fs_table s)) ino) as [i|] eqn:Hfi.
  - destruct (inv_find _ _ _ _ _ Hinv Hfi) as (e & r & Hl & He & <- & Hok).
    assert (kind_of (tables (fs_db s)) (e_ino e) = Some (e_kind e)) as Hkd.
    { rewrite (kind_of_row _ _ _ (eo_row _ _ _ _ Hok)). apply Hok. }
    pose proof (live_contents _ _ _ _ Hinv Hl He) as Hc.
    apply (wp_read_slot i e); [done..| | |done]; [by intros error Herr; eapply HK|].
    intros out s' Hkind Hs Hlen Hout. eapply HQ; try done; [congruence|exact (eo_max _ _ _ _ Hok Hkind)|].
    split; [done|]. intros j Hj. rewrite Hout by done. apply Hc.
    pose proof (eo_max _ _ _ _ Hok Hkind). lia.
  - apply wp_db, wp_read_file; [apply (fi_db _ _ _ Hinv)|done..| | | |].
    + intros r out c [Hr Hk] Hc Hlen Hout.
      assert (kind_of (tables (fs_db s)) ino = Some RegularFile) as Hkd by (by rewrite (kind_of_row _ _ _ Hr)).
      apply (HQ (r_size r) (stored_byte (tables (fs_db s)) ino)); [done| | |done|by apply same_state_db].
      * unfold contents, file_size, file_byte, entry_of. rewrite Hfi. simpl. by rewrite Hr.
      * by destruct (dw_rows _ (proj1 (fi_db _ _ _ Hinv)) _ _ Hr) as (_ & _ & _ & Hm); apply Hm.
    + intros r k e c Hr Hk He Hc. eapply HK; [by rewrite (kind_of_row _ _ _ Hr)|done|by apply same_state_db].
    + intros c Hno Hc. apply HN; [done|by apply same_state_db].
    + intros de c Hde Hc. apply HR; [by exists de|by apply same_state_db].
Qed.

(** ** fallocate *)

Definition keep_size (mode : Z) : bool := negb (Z.land mode FALLOC_FL_KEEP_SIZE =? 0).

(** The modes that pass the check. *)
Lemma fallocate_mode mode :
  Z.ldiff mode FALLOC_FL_KEEP_SIZE = 0 -> mode = 0 \/ mode = FALLOC_FL_KEEP_SIZE.
Proof.
  intros Hm. pose proof (Z.lor_ldiff_and mode FALLOC_FL_KEEP_SIZE) as Hs. rewrite Hm, Z.lor_0_l in Hs.
  change FALLOC_FL_KEEP_SIZE with (Z.ones 1) in *. rewrite Z.land_ones in Hs by lia.
  pose proof (Z.mod_pos_bound mode (2 ^ 1)). change (Z.ones 1) with 1. lia.
Qed.

Inductive fallocate_refused T ino (offset length mode : Z) : Z -> Prop :=
  | ar_range : offset < 0 \/ length <= 0 -> fallocate_refused T ino offset length mode EINVAL
  | ar_mode : 0 <= offset -> 0 < length -> Z.ldiff mode FALLOC_FL_KEEP_SIZE <> 0 ->
      fallocate_refused T ino offset length mode EOPNOTSUPP
  | ar_missing : t_inodes T !! ino = None -> fallocate_refused T ino offset length mode ENOENT
  | ar_kind k : kind_of T ino = Some k -> k <> RegularFile -> fallocate_refused T ino offset length mode ENODEV
  | ar_large : kind_of T ino = Some RegularFile -> MAX_FILE_SIZE < offset + length ->
      fallocate_refused T ino offset length mode EFBIG.

(** The size that the filesystem shows of a regular file. *)
Lemma file_size_row s ino r :
  fs_inv s -> t_inodes (tables (fs_db s)) !! ino = Some r -> exists f size, contents s ino size f.
Proof.
  intros Hinv Hr. destruct (inodes_find (inodes (fs_table s)) ino) as [i|] eqn:Hf.
  - destruct (inv_find _ _ _ _ _ Hinv Hf) as (e & re & Hl & He & <- & _).
    eexists _, _. by apply (live_contents None s i e).
  - exists (stored_byte (tables (fs_db s)) ino), (r_size r). unfold contents, file_size, file_byte, entry_of.
    rewrite Hf. simpl. by rewrite Hr.
Qed.

(** The size column of the slot, or the stored size. *)
Lemma wp_shown_size ino size f {B} (k : Z -> FsM B) (Q : B -> Fs -> Prop) (R : Z -> Fs -> Prop) s :
  fs_inv s -> valid_ino ino -> contents s ino size f ->
  (forall s', same_state s s' -> wp (k size) Q R s') ->
  (forall n s', db_failure n -> same_state s s' -> R n s') ->
  wp (slot ← Dbfs.find_slot ino;
      size ← (match slot with
              | Some slot => Shared.column oi_size slot
              | None => head ← Shared.db (inode_head ino); mret head.2
              end);
      k size) Q R s.
Proof.
  intros Hinv Hi [Hs _] HQ HR. apply wp_bind, wp_find_slot. unfold file_size, entry_of in Hs.
  destruct (inodes_find (inodes (fs_table s)) ino) as [i|] eqn:Hf.
  - destruct (inv_find _ _ _ _ _ Hinv Hf) as (e & _ & _ & He & _). simpl in Hs. rewrite He in Hs.
    injection Hs as <-. fs_col He. by apply HQ.
  - apply wp_bind, wp_bind, wp_db, wp_inode_head; [apply (fi_db _ _ _ Hinv)|done|..].
    + intros r kd c Hr Hk Hok Hc. simpl in Hs. rewrite Hr in Hs. injection Hs as <-.
      apply wp_ret. by apply HQ, same_state_db.
    + intros c Hn Hc. simpl in Hs. by rewrite Hn in Hs.
    + intros de c Hde Hc. apply HR; [by exists de|by apply same_state_db].
Qed.

(** From the lock on: the file is extended to [end_], and never cut. *)
Lemma wp_extend ino end_ size f (Q : unit -> Fs -> Prop) (R : Z -> Fs -> Prop) s :
  fs_inv s -> valid_ino ino -> kind_of (tables (fs_db s)) ino = Some RegularFile ->
  0 <= end_ <= MAX_FILE_SIZE -> contents s ino size f ->
  (forall s', file_changed s s' ino (Z.max size end_) f -> Q tt s') ->
  (forall n s', db_failure n -> fs_inv s' -> quiet s s' -> R n s') ->
  wp (slot ← Dbfs.find_slot ino;
      size ← (match slot with
              | Some slot => Shared.column oi_size slot
              | None => head ← Shared.db (inode_head ino); mret head.2
              end);
      if end_ <=? size then mret tt else Dbfs.truncate_locked ino end_) Q R s.
Proof.
  intros Hinv Hi Hkd Hend Hcf HQ HR.
  assert (file_changed s s ino size f) as Hsame by (apply quiet_changed; try done; by apply quiet_refl).
  apply (wp_shown_size ino size f); [done..| |].
  - intros s2 Hs2. pose proof (same_state_inv _ _ Hs2 Hinv) as Hinv2.
    assert (file_changed s s2 ino size f) as Hsame2
      by (eapply changed_quiet; [exact Hsame|done|by apply quiet_state|done]).
    destruct (Z.leb_spec end_ size).
    + apply wp_ret, HQ. by replace (Z.max size end_) with size by lia.
    + pose proof (fc_contents _ _ _ _ _ Hsame2) as Hcf2.
      apply wp_truncate_locked; [done|done|lia| | |].
      * intros size1 f1 s3 _ _ Hc1 Hch _ _. pose proof (contents_size _ _ _ _ _ _ Hcf2 Hc1) as Hsz1.
        pose proof (contents_bytes _ _ _ _ _ _ Hc1 Hcf2) as Hff.
        apply HQ. replace (Z.max size end_) with end_ by lia.
        eapply changed_trans; [exact Hsame2|]. eapply changed_ext; [|exact Hch].
        intros p Hp. unfold resized. case_decide; [by apply Hff|]. symmetry.
        eapply (contents_past s2); [done..|lia|lia].
      * intros n s3 Hz Hi3 Hq3 _. exfalso.
        assert (tables (fs_db s2) = tables (fs_db s)) as Ht by apply Hs2. rewrite Ht in Hz.
        destruct Hz as [Hz|k error Hk' He|_ Hz]; [|rewrite Hkd in Hk'; by injection Hk' as <-|lia].
        unfold kind_of in Hkd. by rewrite Hz in Hkd.
      * intros n s3 Hn Hi3 Hq3 _. apply HR; [done..|].
        eapply (quiet_trans s s2); [exact Hinv2|by apply quiet_state|done].
  - intros n s2 Hn Hs2. apply HR; [done|by eapply same_state_inv|by apply quiet_state].
Qed.

Lemma wp_fallocate ino offset length mode (Q : unit -> Fs -> Prop) (R : Z -> Fs -> Prop) s :
  fs_inv s -> valid_ino ino ->
  (forall size f s', 0 <= offset -> 0 < length -> offset + length <= MAX_FILE_SIZE ->
     Z.ldiff mode FALLOC_FL_KEEP_SIZE = 0 ->
     kind_of (tables (fs_db s)) ino = Some RegularFile -> contents s ino size f ->
     file_changed s s' ino (if keep_size mode then size else Z.max size (offset + length)) f -> Q tt s') ->
  (forall n s', fallocate_refused (tables (fs_db s)) ino offset length mode n -> same_state s s' -> R n s') ->
  (forall n s', db_failure n -> fs_inv s' -> quiet s s' -> R n s') ->
  wp (Dbfs.fallocate ino offset length mode) Q R s.
Proof.
  intros Hinv Hi HQ HF HR. unfold Dbfs.fallocate. fold (keep_size mode).
  assert (forall n c, db_failure n -> tables c = tables (fs_db s) -> R n (set_db c s)) as HR'.
  { intros n c Hn Hc. apply HR; [done|by apply set_db_id|by apply quiet_state, same_state_db]. }
  destruct (decide (offset < 0 \/ length <= 0)) as [Hr|Hr].
  { assert ((offset <? 0) || (length <=? 0) = true) as -> by lia. apply wp_throw, HF; [by constructor|done]. }
  assert ((offset <? 0) || (length <=? 0) = false) as -> by lia.
  destruct (Z.eqb_spec (Z.ldiff mode FALLOC_FL_KEEP_SIZE) 0) as [Hm|Hm]; simpl;
    [|apply wp_throw, HF; [constructor; lia|done]].
  apply wp_bind, wp_db, wp_inode_kind_of; [apply (fi_db _ _ _ Hinv)|done| | |].
  2: { intros c Hn Hc. apply HF; [by constructor|by apply same_state_db]. }
  2: { intros de c Hde Hc. apply HR'; [by exists de|done]. }
  intros r k c Hrow Hk Hok Hc. cbv beta.
  assert (kind_of (tables (fs_db s)) ino = Some k) as Hkd by (by rewrite (kind_of_row _ _ _ Hrow)).
  set (s1 := set_db c s). assert (same_state s s1) as Hss by (by apply same_state_db).
  pose proof (same_state_inv _ _ Hss Hinv) as Hinv1.
  case_bool_decide as Hkr; simpl; [subst k|apply wp_throw, HF; [by eapply ar_kind|done]].
  destruct (file_size_row s ino r Hinv Hrow) as (f & size & Hcf).
  assert (contents s1 ino size f) as Hcf1 by (unfold contents, s1; simpl; by rewrite Hc).
  assert (file_changed s s1 ino size f) as Hsame by (apply quiet_changed; try done; by apply quiet_state).
  destruct (Z.ltb_spec I64_MAX (offset + length)).
  { apply wp_throw, HF; [apply ar_large; [done|unfold I64_MAX in *; clia]|done]. }
  destruct (Z.ltb_spec MAX_FILE_SIZE (offset + length)); [apply wp_throw, HF; [by apply ar_large|done]|].
  specialize (HQ size f). destruct (keep_size mode) eqn:Hkeep; [apply wp_ret, HQ; try done; lia|].
  apply (wp_extend ino (offset + length) size f); [done|done|by unfold s1; simpl; rewrite Hc|lia|done| |].
  - intros s2 Hch. apply HQ; try done; try lia. by eapply changed_trans.
  - intros n s2 Hn Hi2 Hq2. apply HR; [done|done|].
    eapply (quiet_trans s s1); [exact Hinv1|by apply quiet_state|done].
Qed.
End resize.
