(* ===== verification/FuseAttr.v ===== *)
(** * FuseAttr: the attributes that the file system shows

    [getattr] and [lookup] answer with the row of the inode overlaid with what is
    buffered; [setattr] stores what is buffered first and then changes the row. *)

From S2P Require Import Prelude Effects Model Chunk Arena OpenTable Sql DbData DbNames Tree.
From S2P Require Import NamesSpec DbVolume Fuse FuseInv FuseFlush FuseWrite FuseRead FuseOps.
From S2P Require Import FuseHandles FuseSpec FuseLifecycle FuseNames FuseResize.

(** [attr] describes inode [ino]: the row, with the size that the filesystem shows and
    the time of the buffered writes, if there are any. *)
Record shows_attr (s : Fs) (ino : Z) (r : InodeRow) (K : FileKind) (attr : FileAttr) : Prop := {
  at_row : t_inodes (tables (fs_db s)) !! ino = Some r;
  at_kind : row_kind r = Some K;
  at_ino : fa_ino attr = ino;
  at_type : fa_kind attr = file_type K;
  at_size : file_size (tables (fs_db s)) (fs_table s) ino = Some (fa_size attr);
  at_blocks : fa_blocks attr = div_ceil (fa_size attr) 512;
  at_owner : (fa_perm attr, fa_uid attr, fa_gid attr, fa_nlink attr) =
    (u32 (r_mode r) mod 2 ^ 16, u32 (r_uid r), u32 (r_gid r), u32 (r_nlink r));
  at_atime : fa_atime attr = to_system_time (from_ns (r_atime_ns r));
  at_mtime : fa_mtime attr = match entry_of (fs_table s) ino with
    | Some e => if decide (e_dirty e = []) then to_system_time (from_ns (r_mtime_ns r))
                else to_system_time (e_mtime e)
    | None => to_system_time (from_ns (r_mtime_ns r))
    end }.

Section attr.
Context `{World, HashOrder}.
Implicit Types (s : Fs) (T : Tables) (t : OpenTable) (i : Slot) (e : Entry) (ino p : Z).

Lemma row_size_u64 T ino r :
  data_wf T -> t_inodes T !! ino = Some r -> u64 (r_size r) = r_size r.
Proof.
  intros Hwf Hr. destruct (dw_rows _ Hwf _ _ Hr) as (_ & _ & Hs & _). unfold I64_MAX in Hs.
  apply u64_id. lia.
Qed.

Lemma valid_u64 ino : valid_ino ino -> u64 ino = ino.
Proof. unfold valid_ino. intros. apply u64_id. clia. Qed.

(** The overlay of a stored inode. *)
Lemma wp_overlay_attr ino r K (Q : FileAttr -> Fs -> Prop) (R : Z -> Fs -> Prop) s :
  fs_inv s -> t_inodes (tables (fs_db s)) !! ino = Some r -> row_kind r = Some K ->
  (forall attr, shows_attr s ino r K attr -> Q attr s) ->
  wp (Shared.overlay_attr (file_attr_from_inode (inode_view ino r K))) Q R s.
Proof.
  intros Hinv Hr HK HQ. unfold Shared.overlay_attr. apply wp_bind, wp_table.
  pose proof (fi_db _ _ _ Hinv) as [Hd _]. pose proof (row_size_u64 _ _ _ Hd Hr) as Hsz.
  pose proof (valid_u64 ino (ino_ok_valid _ _ (dw_rows _ Hd _ _ Hr))) as Hi.
  cbn [file_attr_from_inode inode_view fa_ino i_ino]. rewrite Hi.
  destruct (inodes_find (inodes (fs_table s)) ino) as [i|] eqn:Hf.
  - destruct (inv_find _ _ _ _ _ Hinv Hf) as (e & _ & Hl & He & Hino & _).
    pose proof (entry_of_live _ _ _ _ _ Hinv Hl He) as Heo. rewrite Hino in Heo.
    fs_col He. fs_col He. fs_col He. apply wp_ret, HQ. cbv zeta. unfold file_attr_from_inode, inode_view.
    constructor; simpl; try done.
    + unfold file_size. by rewrite Heo.
    + rewrite Heo. by case_bool_decide; case_decide.
  - assert (entry_of (fs_table s) ino = None) as Heo by (unfold entry_of; by rewrite Hf).
    apply wp_ret, HQ. unfold file_attr_from_inode, inode_view. constructor; simpl; try done.
    + unfold file_size. by rewrite Heo, Hr, Hsz.
    + by rewrite Heo.
Qed.

Lemma wp_getattr ino (Q : FileAttr -> Fs -> Prop) (R : Z -> Fs -> Prop) s :
  fs_inv s -> valid_ino ino ->
  (forall r K attr s', shows_attr s' ino r K attr -> same_state s s' -> Q attr s') ->
  (forall s', t_inodes (tables (fs_db s)) !! ino = None -> same_state s s' -> R ENOENT s') ->
  (forall n s', db_failure n -> same_state s s' -> R n s') ->
  wp (Dbfs.getattr ino) Q R s.
Proof.
  intros Hinv Hi HQ HN HR. unfold Dbfs.getattr.
  apply wp_bind, wp_db, wp_get_inode; [apply (fi_db _ _ _ Hinv)|done|..].
  - intros r K c Hr HK Hc. apply wp_overlay_attr; [by apply set_db_id|simpl; by rewrite Hc|done|].
    intros attr Ha. apply (HQ r K); [done|by apply same_state_db].
  - intros c Hn Hc. apply HN; [done|by apply same_state_db].
  - intros de c Hde Hc. apply HR; [by exists de|by apply same_state_db].
Qed.

(** Why a name is not found. *)
Inductive lookup_refused T p (n : list byte) : Z -> Prop :=
  | lr_name : NAME_MAX < zlen n -> lookup_refused T p n ENAMETOOLONG
  | lr_missing : find_entry p n T = None -> lookup_refused T p n ENOENT.

Lemma wp_lookup_name p n (Q : FileAttr -> Fs -> Prop) (R : Z -> Fs -> Prop) s :
  fs_inv s -> valid_ino p ->
  (forall k d r K attr s', resolves (tables (fs_db s)) p n k d r K ->
     shows_attr s' (d_child d) r K attr -> same_state s s' -> Q attr s') ->
  (forall er s', lookup_refused (tables (fs_db s)) p n er -> same_state s s' -> R er s') ->
  (forall er s', db_failure er -> same_state s s' -> R er s') ->
  wp (Dbfs.lookup p n) Q R s.
Proof.
  intros Hinv Hi HQ HN HR. unfold Dbfs.lookup.
  apply wp_bind, wp_db, wp_lookup; [apply (fi_db _ _ _ Hinv)|done|..].
  - intros k d r K c _ Hres Hc.
    apply wp_overlay_attr; [by apply set_db_id|simpl; rewrite Hc; apply Hres|apply Hres|].
    intros attr Ha. apply (HQ k d r K); [done..|by apply same_state_db].
  - intros c Hn Hc. apply HN; [by constructor|by apply same_state_db].
  - intros c Hn Hc. apply HN; [by constructor|by apply same_state_db].
  - intros de c Hde Hc. apply HR; [by exists de|by apply same_state_db].
Qed.

(** ** setattr *)

(** The names, the kinds, the handles and the flags are as before. *)
Record same_tree s s' : Prop := {
  tr_flags : same_flags s s';
  tr_dirents : t_dirents (tables (fs_db s')) = t_dirents (tables (fs_db s));
  tr_symlinks : t_symlinks (tables (fs_db s')) = t_symlinks (tables (fs_db s));
  tr_kinds : forall j, kind_of (tables (fs_db s')) j = kind_of (tables (fs_db s)) j }.

#[global] Instance same_tree_trans : Transitive same_tree.
Proof.
  intros s1 s2 s3 [[]] [[]]. constructor; [constructor| | |]; try congruence;
    intros; by etrans.
Qed.

Lemma stable_tree s s' : stable s s' -> same_tree s s'.
Proof.
  intros Hst. pose proof (sb_names _ _ Hst) as Hn. constructor; [by apply stable_flags|apply Hn|apply Hn|].
  intros j. by apply same_names_kind.
Qed.

(** What the caller asks of [setattr]. *)
Record AttrChange := mkAttrChange {
  ac_mode : option Z; ac_uid : option Z; ac_gid : option Z; ac_size : option Z;
  ac_atime : option SystemTime; ac_mtime : option SystemTime }.

(** The row after the change of [ch]. The time of modification is the one asked for, else the
    one of the row, unless the file was cut. *)
Definition row_changed (ch : AttrChange) (r r' : InodeRow) : Prop :=
  r_kind r' = r_kind r /\ r_nlink r' = r_nlink r /\
  r_mode r' = default (u32 (r_mode r)) (ac_mode ch) /\
  r_uid r' = default (u32 (r_uid r)) (ac_uid ch) /\
  r_gid r' = default (u32 (r_gid r)) (ac_gid ch) /\
  r_atime_ns r' = to_ns (default (from_ns (r_atime_ns r)) (from_system_time <$> ac_atime ch)) /\
  match ac_mtime ch with
  | Some time => r_mtime_ns r' = to_ns (from_system_time time)
  | None => ac_size ch = None -> r_mtime_ns r' = to_ns (from_ns (r_mtime_ns r))
  end.

(** The file after the change. *)
Definition file_resized s s' ino (new : option Z) : Prop :=
  forall size f, contents s ino size f ->
    contents s' ino (default size new) (match new with Some n => resized f n | None => f end).

Record attr_set s s' ino (ch : AttrChange) (attr : FileAttr) : Prop := {
  as_inv : fs_inv s';
  as_tree : same_tree s s';
  as_others : others_same ino s s';
  as_kind : forall n, ac_size ch = Some n ->
    kind_of (tables (fs_db s)) ino = Some RegularFile /\ n <= MAX_FILE_SIZE;
  as_file : file_resized s s' ino (ac_size ch);
  as_stored : file_stored s' ino;
  as_rows : rows_but ino s s';
  as_row : exists r r' K, buffered_row (tables (fs_db s)) (fs_table s) ino = Some r /\ row_changed ch r r' /\
    shows_attr s' ino r' K attr }.

(** The row of an inode without buffered writes. *)
Lemma clean_buffered s ino :
  clean_file s ino -> buffered_row (tables (fs_db s)) (fs_table s) ino = t_inodes (tables (fs_db s)) !! ino.
Proof.
  intros Hc. unfold buffered_row. destruct (entry_of (fs_table s) ino) as [e|] eqn:He;
    [rewrite decide_True by (by apply Hc)|]; by rewrite option_fmap_id.
Qed.

(** The attributes of a file without buffered writes are those of its row. *)
Lemma stored_attr s ino r K :
  fs_inv s -> t_inodes (tables (fs_db s)) !! ino = Some r -> row_kind r = Some K -> clean_file s ino ->
  shows_attr s ino r K (file_attr_from_inode (inode_view ino r K)).
Proof.
  intros Hinv Hr HK Hcl. pose proof (fi_db _ _ _ Hinv) as [Hd _].
  pose proof (row_size_u64 _ _ _ Hd Hr) as Hsz.
  pose proof (valid_u64 ino (ino_ok_valid _ _ (dw_rows _ Hd _ _ Hr))) as Hi.
  unfold file_attr_from_inode, inode_view. constructor; simpl; try done.
  - unfold file_size. destruct (entry_of (fs_table s) ino) as [e|] eqn:He; [|by rewrite Hr, Hsz].
    destruct (entry_of_Some _ _ _ _ _ Hinv He) as (i & Hl & Hent & Hino).
    destruct (fi_entry _ _ _ Hinv i e Hl Hent) as [r1 Hok]. pose proof (eo_row _ _ _ _ Hok) as Hr1.
    rewrite Hino, Hr in Hr1. injection Hr1 as <-. by rewrite (eo_clean _ _ _ _ Hok (Hcl e He)), Hsz.
  - destruct (entry_of (fs_table s) ino) as [e|] eqn:He; [|done]. by rewrite decide_True by (by apply Hcl).
Qed.

(** A change of attributes leaves names, files and slots alone. *)
Lemma metadata_kept s c ino :
  fs_inv s -> fs_wf (tables c) -> tables c ≡ tables (fs_db s) -> clean_file s ino ->
  let s' := set_db c s in
  fs_inv s' /\ same_files s s' /\ same_tree s s' /\ clean_file s' ino.
Proof.
  intros Hinv Hwf Heq Hcl s'. destruct (kept_inv s s') as [Hinv' Hsf]; [done|done| |done|].
  - apply evolves_equiv. by symmetry.
  - split_and!; [done|done| |done]. pose proof Heq as (Hd & _ & Hs & _). constructor; try done.
    intros j. simpl. by rewrite Heq.
Qed.

(** What of a change a failure of the database may leave behind: the cut, if there was one. *)
Definition setattr_failed s s' ino (ch : AttrChange) : Prop :=
  fs_inv s' /\ same_tree s s' /\ others_same ino s s' /\ rows_but ino s s' /\
  (file_resized s s' ino None \/ file_resized s s' ino (ac_size ch)).

(** The first two steps: what is buffered is stored, and the file is cut. *)
Record cut s s' ino (new : option Z) : Prop := {
  ct_inv : fs_inv s';
  ct_stable : stable s s';
  ct_others : others_same ino s s';
  ct_kind : forall n, new = Some n -> kind_of (tables (fs_db s)) ino = Some RegularFile /\ n <= MAX_FILE_SIZE;
  ct_file : file_resized s s' ino new;
  ct_clean : clean_file s' ino;
  ct_rows : rows_but ino s s';
  ct_uncut : new = None -> s' = s;
  ct_found : quiet s s' \/ is_Some (kind_of (tables (fs_db s)) ino) }.

Lemma wp_store_file {B} ino (m : FsM B) (Q : B -> Fs -> Prop) (R : Z -> Fs -> Prop) s :
  fs_inv s ->
  (forall s', fs_inv s' -> quiet s s' -> rows_but ino s s' -> clean_file s' ino -> wp m Q R s') ->
  (forall n s', db_failure n -> same_state s s' -> R n s') ->
  wp (slot ← Dbfs.find_slot ino;
      (match slot with
       | Some slot => Shared.flush_slot slot Persist ;; Shared.free_if_idle slot
       | None => mret tt
       end) ;; m) Q R s.
Proof.
  intros Hinv HQ HR. apply wp_bind, wp_find_slot, wp_bind.
  destruct (inodes_find (inodes (fs_table s)) ino) as [i|] eqn:Hf.
  - destruct (inv_find _ _ _ _ _ Hinv Hf) as (e & _ & Hl & He & <- & _).
    apply wp_bind, (wp_flush_clean i e); [done..| |done].
    intros s1 e1 Hinv1 Hq1 Hrows1 Hl1 He1 Hso Hd. apply wp_free_table; [done..|]. intros s2 Hinv2 Hq2 Hdb2.
    apply HQ; [done|by eapply (quiet_trans s s1)| |].
    { etrans; [exact Hrows1|]. apply rows_but_db. by rewrite Hdb2. }
    eapply (quiet_clean s1); [done..|].
    apply same_open_fields in Hso as (Hio & _). intros e2 He2. rewrite <- Hio in He2.
    rewrite (entry_of_live _ _ _ _ _ Hinv1 Hl1 He1) in He2. by injection He2 as <-.
  - apply wp_ret, HQ; [done|apply quiet_refl|done|]. intros e He. unfold entry_of in He. by rewrite Hf in He.
Qed.

Lemma quiet_resized s s' ino : quiet s s' -> valid_ino ino -> file_resized s s' ino None.
Proof. intros Hq Hi size f Hc. by eapply quiet_contents. Qed.

Lemma wp_cut ino new (Q : unit -> Fs -> Prop) (R : Z -> Fs -> Prop) s :
  fs_inv s -> valid_ino ino -> clean_file s ino -> (forall n, new = Some n -> 0 <= n) ->
  (forall s', cut s s' ino new -> Q tt s') ->
  (forall n size s', new = Some size -> resize_refused (tables (fs_db s)) ino size n -> fs_inv s' ->
     quiet s s' -> rows_but ino s s' -> R n s') ->
  (forall n s', db_failure n -> fs_inv s' -> quiet s s' -> rows_but ino s s' -> R n s') ->
  wp (match new with Some size => Dbfs.truncate_locked ino size | None => mret tt end) Q R s.
Proof.
  intros Hinv Hi Hcl Hpos HQ HF HR. destruct new as [size|].
  - apply wp_truncate_locked; [done|done|by apply Hpos| | |done].
    + intros size0 f s' Hk Hm Hc [] Hcl' Hrows. apply HQ. constructor; try done; [by intros n [= <-]| |right; by eexists].
      intros size1 f1 Hc1. eapply contents_ext; [|done]. intros p Hp. unfold resized.
      case_decide; [|done]. by eapply contents_bytes.
    + intros n s' Hr Hi' Hq Hrows. by eapply HF.
  - apply wp_ret, HQ. constructor; try done; [by intros size f Hc|left; apply quiet_refl].
Qed.

Lemma wp_setattr ino ch (Q : FileAttr -> Fs -> Prop) (R : Z -> Fs -> Prop) s :
  fs_inv s -> valid_ino ino -> (forall size, ac_size ch = Some size -> 0 <= size) ->
  (forall attr s', attr_set s s' ino ch attr -> Q attr s') ->
  (forall n s', t_inodes (tables (fs_db s)) !! ino = None /\ n = ENOENT \/
     (exists size, ac_size ch = Some size /\ resize_refused (tables (fs_db s)) ino size n) ->
     fs_inv s' -> quiet s s' -> rows_but ino s s' -> R n s') ->
  (forall n s', db_failure n -> setattr_failed s s' ino ch -> R n s') ->
  wp (Dbfs.setattr ino (ac_mode ch) (ac_uid ch) (ac_gid ch) (ac_size ch) (ac_atime ch) (ac_mtime ch)) Q R s.
Proof.
  intros Hinv Hi Hpos HQ HF HR. unfold Dbfs.setattr.
  assert (forall n s', db_failure n -> fs_inv s' -> quiet s s' -> rows_but ino s s' -> R n s') as HRq.
  { intros n s' Hn Hi' Hq Hrows. apply HR; [done|]. split_and!; [done|by apply stable_tree, quiet_stable|by apply quiet_others|done|].
    left. by apply quiet_resized. }
  apply wp_store_file; [done| |intros n s1 Hn Hs; apply HRq; [done|by eapply same_state_inv|by apply quiet_state|by apply rows_but_db, Hs]].
  intros s1 Hinv1 Hq1 Hrows1 Hcl1. pose proof (quiet_stable _ _ Hinv Hinv1 Hq1) as Hst1.
  apply wp_bind, (wp_cut ino (ac_size ch)); [done..| | |].
  2: { intros n size s2 Hsz Hr Hi2 Hq2 Hrows2. apply HF; [|done|by eapply (quiet_trans s s1)|by etrans].
    right. exists size. split; [done|]. eapply resize_refused_names, Hr. apply Hq1. }
  2: { intros n s2 Hn Hi2 Hq2 Hrows2. apply HRq; [done..|by eapply (quiet_trans s s1)|by etrans]. }
  intros s2 [Hinv2 Hst2 Ho2 Hk2 Hf2 Hcl2 Hrows2 Hsame Hfound].
  assert (file_resized s s2 ino (ac_size ch)) as Hf.
  { intros size f Hc. apply Hf2. by eapply quiet_contents. }
  assert (same_tree s s2) as Htr by (etrans; by apply stable_tree).
  assert (others_same ino s s2) as Ho by (etrans; [by apply quiet_others|done]).
  assert (rows_but ino s s2) as Hrows by (by etrans).
  pose proof (q_shown _ _ Hq1 ino) as Hshown. rewrite (clean_buffered s1 ino Hcl1) in Hshown.
  apply wp_bind, wp_db, wp_update_metadata; [apply (fi_db _ _ _ Hinv2)|done|..].
  - intros r r' K c Hr HK Hr' Hmode Huid Hgid Hat Hmt Hrest Heq Hwf. apply wp_ret, HQ.
    destruct (metadata_kept s2 c ino Hinv2 Hwf Heq Hcl2) as (Hinv3 & Hsf3 & Htr3 & Hcl3).
    destruct (sb_names _ _ Hst2) as (_ & _ & Hmeta). specialize (Hmeta ino). rewrite Hr in Hmeta.
    destruct (t_inodes (tables (fs_db s1)) !! ino) as [r0|] eqn:Hr0; [|done].
    injection Hmeta as Mk Ml Mm Mu Mg Ma.
    pose proof (proj2 (proj2 (proj2 Heq)) ino) as Hshape. rewrite Hr, Hr' in Hshape. injection Hshape as Sk Ss Sl.
    constructor; [done|by etrans| | | | | |].
    + etrans; [done|]. intros k Hk _. by apply Hsf3.
    + intros n Hn. rewrite <- (same_names_kind _ _ ino (sb_names _ _ Hst1)). by apply Hk2.
    + intros size f Hc. eapply same_files_contents; [exact Hsf3|done|by apply Hf].
    + by apply clean_file_stored.
    + etrans; [exact Hrows|]. exact Hrest.
    + exists r0, r', K. split; [done|]. split.
      * unfold row_changed. rewrite Hmode, Huid, Hgid, Hat, Mm, Mu, Mg, Ma. split_and!; try done; try congruence.
        destruct (ac_mtime ch) as [time|]; [done|]. intros Huncut. rewrite Hmt. simpl.
        rewrite (Hsame Huncut), Hr0 in Hr. by injection Hr as <-.
      * apply stored_attr; [done|done| |done]. unfold row_kind in *. by rewrite Sk.
  - intros c Hn Hc. destruct Hfound as [Hq2|[K HK]].
    + apply HF; [left; split; [|done]|by apply set_db_id| |].
      * pose proof (quiet_trans s s1 s2 Hinv1 Hq1 Hq2) as Hq. destruct (q_names _ _ Hq) as (_ & _ & Hmeta).
        specialize (Hmeta ino). rewrite Hn in Hmeta. by destruct (t_inodes (tables (fs_db s)) !! ino).
      * eapply (quiet_trans s s2); [done|by eapply (quiet_trans s s1)|by apply quiet_state, same_state_db].
      * etrans; [exact Hrows|by apply rows_but_db].
    + exfalso. rewrite <- (same_names_kind _ _ _ (sb_names _ _ Hst2)) in HK. unfold kind_of in HK.
      by rewrite Hn in HK.
  - intros de c Hde Hrest Heq Hwf. apply HR; [by exists de|].
    destruct (metadata_kept s2 c ino Hinv2 Hwf Heq Hcl2) as (Hinv3 & Hsf3 & Htr3 & Hcl3).
    split_and!; [done|by etrans|etrans; [done|]; intros k Hk _; by apply Hsf3| |].
    + etrans; [exact Hrows|]. exact Hrest.
    + right. intros size f Hc. eapply same_files_contents; [exact Hsf3|done|by apply Hf].
Qed.
End attr.

(** ** link *)

Section link.
Context `{World, HashOrder, !EngineLaws H}.
Implicit Types (s : Fs) (T : Tables) (e : Entry) (ino p : Z) (n : list byte).

Inductive link_refused T ino p n : Z -> Prop :=
  | kr_name : NAME_MAX < zlen n -> link_refused T ino p n ENAMETOOLONG
  | kr_missing : t_inodes T !! ino = None \/ t_inodes T !! p = None -> link_refused T ino p n ENOENT
  | kr_directory : kind_of T ino = Some Directory -> link_refused T ino p n EISDIR
  | kr_parent K : kind_of T p = Some K -> K <> Directory -> link_refused T ino p n ENOTDIR
  | kr_exists : is_Some (find_entry p n T) -> link_refused T ino p n EEXIST
  | kr_full : entries_full T -> link_refused T ino p n ENOSPC.

(** The state after a link: one entry more, one link more, and nothing else. The reply
    has the stored size, which buffered writes may have outgrown. *)
Record linked s s' ino p n (attr : FileAttr) : Prop := {
  lk_inv : fs_inv s';
  lk_files : same_files s s';
  lk_flags : same_flags s s';
  lk_table : fs_table s' = fs_table s;
  lk_tables : exists k, entry_vacant (tables (fs_db s)) k (mkDirentRow p n ino) /\
    tables (fs_db s') ≡ link_tables k (mkDirentRow p n ino) (tables (fs_db s));
  lk_row : exists r K, t_inodes (tables (fs_db s)) !! ino = Some r /\ row_kind r = Some K /\
    K <> Directory /\ fa_ino attr = ino /\ fa_kind attr = file_type K /\
    fa_nlink attr = r_nlink r + 1 /\ fa_size attr = r_size r }.

Lemma wp_link_name ino p n (Q : FileAttr -> Fs -> Prop) (R : Z -> Fs -> Prop) s :
  fs_inv s -> valid_ino ino -> valid_ino p -> ~ unlinked_open s ino ->
  Z.of_nat (size (t_dirents (tables (fs_db s)))) < U32_MAX ->
  (forall attr s', linked s s' ino p n attr -> Q attr s') ->
  (forall er s', link_refused (tables (fs_db s)) ino p n er -> same_state s s' -> R er s') ->
  (forall er s', db_failure er -> same_state s s' -> R er s') ->
  wp (Dbfs.link ino p n) Q R s.
Proof.
  intros Hinv Hi Hp Hno Hroom HQ HF HR. unfold Dbfs.link. pose proof (fi_db _ _ _ Hinv) as Hwf.
  apply wp_bind, wp_db, wp_link; try done.
  - intros k r K now c Hr HK HKd Hv Heq Hwf'. apply wp_ret, HQ. set (d := mkDirentRow p n ino) in *.
    set (s' := set_db c s).
    assert (forall j, kept_inode (tables (fs_db s)) (tables c) j) as Hkept.
    { intros j. symmetry in Heq. eapply kept_trans; [|by apply kept_equiv].
      unfold link_tables. eapply kept_trans; [apply (kept_put_entry k d)|apply kept_add_nlink]. }
    assert (fs_inv s') as Hinv'.
    { apply (inv_tables (tables (fs_db s)) _ _ (Some ino) Hinv Hwf').
      - intros k' d' Hd'. destruct Heq as (Hd & _). simpl in Hd'. rewrite Hd in Hd'. simpl in Hd'.
        apply lookup_insert_Some in Hd' as [[_ <-]|[_ Hd']]; [by left|right; by exists k', d'].
      - intros i e _ _. apply Hkept.
      - intros i e Hl He Hu [= Hio]. apply Hno. exists e. split; [|done]. rewrite Hio.
        by eapply entry_of_live. }
    constructor; try done.
    + intros j Hj. eapply kept_file; [exact Hinv|]. apply Hkept.
    + by exists k.
    + exists r, K. pose proof (row_size_u64 _ _ _ (proj1 Hwf) Hr) as Hsz.
      unfold file_attr_from_inode. simpl. rewrite valid_u64 by done. by split_and!.
  - intros c Hl Hc. apply HF; [by constructor|by apply same_state_db].
  - intros c Hl Hc. apply HF; [by constructor|by apply same_state_db].
  - intros c Hl Hc. apply HF; [by constructor|by apply same_state_db].
  - intros c (K & HK & HKd) Hc. apply HF; [by eapply kr_parent|by apply same_state_db].
  - intros c Hl Hc. apply HF; [by constructor|by apply same_state_db].
  - intros c Hl Hc. apply HF; [by constructor|by apply same_state_db].
  - intros de c Hde Hc. apply HR; [by exists de|by apply same_state_db].
Qed.
End link.
