(* ===== verification/DirStream.v ===== *)
(** * DirStream: directory listings and their cookies

    [readdir] gives the entries of a directory after a cookie in the order of their
    cookies: 1 for the dot, 2 for the parent, and the row id plus two for the rest, so
    that a listing can be resumed while the directory changes. *)

From S2P Require Import Prelude Effects Model Chunk Arena OpenTable Sql DbData DbNames Tree.
From S2P Require Import NamesSpec DbVolume Fuse FuseInv FuseFlush FuseOps.

Section stream.
Context `{World, !EngineLaws H}.
Implicit Types (s : Fs) (c : Conn) (t : Tables) (ino offset : Z).

(** The parent that a listing shows: the root is its own. *)
Definition dir_parent t ino : Z := if ino =? 1 then 1 else default ino (find_parent ino t).

(** The entries of directory [ino]. *)
Definition stream_entry t ino (e : DbfsDirEntry) : Prop :=
  e = mkDbfsDirEntry dot_name ino FtDirectory DOT \/
  e = mkDbfsDirEntry dotdot_name (dir_parent t ino) FtDirectory DOTDOT \/
  exists k d K, t_dirents t !! k = Some d /\ d_parent d = ino /\ kind_of t (d_child d) = Some K /\
    e = mkDbfsDirEntry (d_name d) (d_child d) (file_type K) (k + DOTDOT).

(** Row ids that leave room for the cookies of the two dots. *)
Definition cookies_fit t : Prop := forall k, is_Some (t_dirents t !! k) -> k + DOTDOT <= I64_MAX.

Lemma wp_parent_of_dir ino (Q : Z -> Conn -> Prop) (R : DbError -> Conn -> Prop) c :
  fs_wf (tables c) -> valid_ino ino ->
  (forall c', tables c' = tables c -> ino = 1 \/ is_Some (find_parent ino (tables c)) ->
     Q (dir_parent (tables c) ino) c') ->
  (forall c', tables c' = tables c -> ino <> 1 -> find_parent ino (tables c) = None -> R NotFound c') ->
  (forall e c', engine_error e -> tables c' = tables c -> R e c') ->
  wp (parent_of_dir ino) Q R c.
Proof.
  intros [Hd Hn] Hi HQ HN HR. unfold parent_of_dir, dir_parent in *.
  destruct (Z.eqb_spec ino 1) as [->|H1]; [apply wp_ret, HQ; auto|].
  rewrite valid_ino_i64 by done. apply wp_bind, wp_query_row; [| |done].
  - intros p c' Hp Hc. apply wp_ret. rewrite Hp in HQ. simpl in HQ.
    apply find_parent_Some in Hp as (k & d & Hk & _ & <-).
    destruct (nw_entry _ Hn k d Hk) as (_ & Hpd & _).
    assert (valid_ino (d_parent d)) as Hv by (by eapply kind_valid).
    rewrite u64_id by (unfold valid_ino in Hv; clia). apply HQ; [done|]. right. by eexists.
  - intros c' Hp Hc. by apply HN.
Qed.

(** [es] handed to an emitter, up to the one that fills the buffer. *)
Fixpoint feed {X} (emit : X -> Z -> Z -> FileType -> list byte -> X * bool) (es : list DbfsDirEntry)
    (acc : X) : X * bool :=
  match es with
  | [] => (acc, false)
  | e :: es =>
      let '(acc, full) := emit acc (dd_ino e) (dd_offset e) (dd_kind e) (dd_name e) in
      if full : bool then (acc, true) else feed emit es acc
  end.

Lemma feed_app {X} emit es1 es2 (acc : X) :
  feed emit (es1 ++ es2) acc = let '(acc, full) := feed emit es1 acc in
    if full then (acc, true) else feed emit es2 acc.
Proof.
  revert acc. induction es1 as [|e es1 IH]; intros acc; [done|]. simpl.
  destruct (emit acc _ _ _ _) as [acc1 [|]]; [done|]. apply IH.
Qed.

(** A row as the listing shows it. *)
Definition shown (e : Z * DirentRow * InodeRow) : DbfsDirEntry :=
  mkDbfsDirEntry (d_name e.1.2) (u64 (d_child e.1.2))
    (file_type (default RegularFile (row_kind e.2))) (i64 (e.1.1 + DOTDOT)).

Definition dots t ino offset : list DbfsDirEntry :=
  (if offset <? DOT then [mkDbfsDirEntry dot_name ino FtDirectory DOT] else []) ++
  (if offset <? DOTDOT then [mkDbfsDirEntry dotdot_name (dir_parent t ino) FtDirectory DOTDOT] else []).

Lemma emit_all_feed {X} (emit : X -> Z -> Z -> FileType -> list byte -> X * bool) rows acc :
  emit_all rows (fun acc id name child kind => emit acc child (i64 (id + DOTDOT)) (file_type kind) name) acc =
  (feed emit (shown <$> rows) acc).1.
Proof.
  revert acc. induction rows as [|e rows IH]; intros acc; [done|]. simpl.
  destruct (emit acc _ _ _ _) as [acc1 [|]]; [done|]. apply IH.
Qed.

(** The emitter of [readdir] never stops. *)
Lemma feed_push out acc :
  feed (fun (entries : list DbfsDirEntry) ino next kind name =>
    (entries ++ [mkDbfsDirEntry name ino kind next], false)) out acc = (acc ++ out, false).
Proof.
  revert acc. induction out as [|[] out IH]; intros acc; simpl; [by rewrite app_nil_r|].
  by rewrite IH, <- app_assoc.
Qed.

(** The listing after [offset]: all the entries with a larger cookie, in the order of
    their cookies. *)
Definition lists t ino offset (out : list DbfsDirEntry) : Prop :=
  StronglySorted Z.lt (dd_offset <$> out) /\
  forall e, e ∈ out <-> stream_entry t ino e /\ offset < dd_offset e.

Lemma shown_row t ino e :
  fs_wf t -> cookies_fit t -> entry_row t ino e ->
  exists K, kind_of t (d_child e.1.2) = Some K /\ 0 < e.1.1 /\
    shown e = mkDbfsDirEntry (d_name e.1.2) (d_child e.1.2) (file_type K) (e.1.1 + DOTDOT).
Proof.
  intros [Hd Hn] Hfit (Hk & _ & Hr). destruct e as [[k d] r]. simpl in *.
  destruct (nw_entry _ Hn k d Hk) as (Hpos & _ & [K HK] & _). exists K. split_and!; [done|lia|].
  rewrite (kind_of_row _ _ _ Hr) in HK. pose proof (ino_ok_valid _ _ (dw_rows _ Hd _ _ Hr)) as Hv.
  specialize (Hfit k ltac:(by eexists)). unfold shown. simpl.
  by rewrite HK, inode_of_valid, i64_id by (done || unfold I64_MAX, DOTDOT in *; lia).
Qed.

(** The entries of the table that a listing after [offset] shows. *)
Definition listed t ino offset (e : DbfsDirEntry) : Prop :=
  exists k d K, t_dirents t !! k = Some d /\ d_parent d = ino /\ kind_of t (d_child d) = Some K /\
    offset < k + DOTDOT /\ e = mkDbfsDirEntry (d_name d) (d_child d) (file_type K) (k + DOTDOT).

Lemma listed_cookie t ino offset e :
  names_wf t -> listed t ino offset e -> DOTDOT < dd_offset e /\ offset < dd_offset e.
Proof. intros Hn (k & d & K & Hk & _ & _ & Hlt & ->). destruct (nw_entry _ Hn k d Hk). simpl. unfold DOTDOT in *. lia. Qed.

Lemma stream_listed t ino offset e :
  stream_entry t ino e /\ offset < dd_offset e <->
  (e = mkDbfsDirEntry dot_name ino FtDirectory DOT \/
   e = mkDbfsDirEntry dotdot_name (dir_parent t ino) FtDirectory DOTDOT) /\ offset < dd_offset e \/
  listed t ino offset e.
Proof.
  unfold stream_entry, listed. split.
  - intros [[He|[He|(k & d & K & ? & ? & ? & ->)]] Hlt]; [auto..|]. right. by exists k, d, K.
  - intros [[[?|?] ?]|(k & d & K & ? & ? & ? & Hlt & ->)]; [auto..|]. split; [|done]. right; right. by exists k, d, K.
Qed.

Lemma elem_of_dots t ino offset e :
  e ∈ dots t ino offset <->
  (e = mkDbfsDirEntry dot_name ino FtDirectory DOT \/
   e = mkDbfsDirEntry dotdot_name (dir_parent t ino) FtDirectory DOTDOT) /\ offset < dd_offset e.
Proof.
  unfold dots. destruct (Z.ltb_spec offset DOT), (Z.ltb_spec offset DOTDOT); set_unfold; split;
    naive_solver (unfold DOT, DOTDOT in *; lia).
Qed.

Lemma shown_rows t ino offset rows :
  fs_wf t -> cookies_fit t -> 0 <= offset ->
  (forall e, e ∈ rows <-> entry_row t ino e /\ Z.max (offset - DOTDOT) 0 < e.1.1) ->
  (forall e, e ∈ shown <$> rows <-> listed t ino offset e) /\
  dd_offset <$> (shown <$> rows) = (fun k => k + DOTDOT) <$> rows.*1.*1.
Proof.
  intros Hwf Hfit Ho Hrows. split.
  - intros e. rewrite list_elem_of_fmap. split.
    + intros (x & -> & [Hx Ha]%Hrows). destruct (shown_row t ino x) as (K & HK & Hpos & ->); [done..|].
      destruct Hx as (Hk & Hp & _). exists x.1.1, x.1.2, K. split_and!; try done. unfold DOTDOT in *. lia.
    + intros (k & d & K & Hk & Hp & HK & Hlt & ->). pose proof HK as HKr. unfold kind_of in HKr.
      destruct (t_inodes t !! d_child d) as [r|] eqn:Hr; [|done].
      exists (k, d, r). assert (entry_row t ino (k, d, r)) as Hx by done.
      destruct (shown_row t ino (k, d, r)) as (K' & HK' & Hpos & ->); [done..|]. simpl in *.
      assert (K' = K) as -> by congruence. split; [done|]. apply Hrows. split; [done|]. unfold DOTDOT in *. simpl. lia.
  - rewrite <- !list_fmap_compose. apply list_fmap_ext. intros i x Hx%list_elem_of_lookup_2.
    apply Hrows in Hx as [Hx _]. destruct (shown_row t ino x) as (K & _ & _ & Hv); [done..|].
    change (dd_offset (shown x) = x.1.1 + DOTDOT). by rewrite Hv.
Qed.

Lemma lists_rows t ino offset rows :
  fs_wf t -> cookies_fit t -> 0 <= offset ->
  (forall e, e ∈ rows <-> entry_row t ino e /\ Z.max (offset - DOTDOT) 0 < e.1.1) ->
  StronglySorted Z.lt rows.*1.*1 ->
  lists t ino offset (dots t ino offset ++ (shown <$> rows)).
Proof.
  intros Hwf Hfit Ho Hrows Hsort. destruct (shown_rows t ino offset rows) as [Hin Hoff]; [done..|]. split.
  - rewrite fmap_app. apply StronglySorted_app. split_and!.
    + intros x y (d1 & -> & Hd1)%list_elem_of_fmap (e & -> & He)%list_elem_of_fmap.
      apply Hin, listed_cookie in He; [|apply Hwf]. apply elem_of_dots in Hd1 as [[->| ->] _]; simpl; unfold DOT, DOTDOT in *; lia.
    + unfold dots. destruct (offset <? DOT), (offset <? DOTDOT); repeat constructor.
    + rewrite Hoff. apply (StronglySorted_fmap _ Z.lt Z.lt); [|done]. intros x y Hxy. simpl. lia.
  - intros e. by rewrite elem_of_app, elem_of_dots, Hin, stream_listed.
Qed.

(** [readdir_stream] hands the emitter the whole listing up to the entry that fills the
    buffer. A listing that stops at a dot does not look whether [ino] is a directory. *)
Lemma wp_readdir_stream {X} ino offset emit (acc : X) (Q : X -> Fs -> Prop) (R : Z -> Fs -> Prop) s :
  let t := tables (fs_db s) in
  fs_wf t -> valid_ino ino -> 0 <= offset <= I64_MAX -> cookies_fit t ->
  (forall out s', same_state s s' -> lists t ino offset out ->
     kind_of t ino = Some Directory \/ (feed emit out acc).2 = true -> Q (feed emit out acc).1 s') ->
  (forall s', (exists K, kind_of t ino = Some K /\ K <> Directory) -> same_state s s' -> R ENOTDIR s') ->
  (forall s', t_inodes t !! ino = None -> same_state s s' -> R ENOENT s') ->
  (forall e s', db_failure e -> same_state s s' -> R e s') ->
  wp (Dbfs.readdir_stream ino offset emit acc) Q R s.
Proof.
  intros t Hwf Hi Ho Hfit HQ HD HN HR. unfold Dbfs.readdir_stream.
  assert (forall s1 parent, same_state s s1 -> parent = dir_parent t ino -> wp
    (let '(acc, full) := if offset <? DOT then emit acc ino DOT FtDirectory dot_name else (acc, false) in
     if full : bool then mret acc
     else
      let '(acc, full) :=
        if offset <? DOTDOT then emit acc parent DOTDOT FtDirectory dotdot_name else (acc, false) in
      if full : bool then mret acc
      else
        Shared.db (read_dir_after ino (Z.max (i64 (offset - DOTDOT)) 0)
          (fun acc id name child kind => emit acc child (i64 (id + DOTDOT)) (file_type kind) name) acc)) Q R s1)
    as Hrest.
  { intros s1 ? Hss ->. pose proof Hss as (Ht & _). rewrite i64_id by (unfold I64_MAX, DOTDOT in *; lia).
    assert (wp (let '(acc, full) := feed emit (dots t ino offset) acc in
      if full : bool then mret acc
      else Shared.db (read_dir_after ino (Z.max (offset - DOTDOT) 0)
        (fun acc id name child kind => emit acc child (i64 (id + DOTDOT)) (file_type kind) name) acc)) Q R s1) as Hw.
    2: { revert Hw. unfold dots. destruct (offset <? DOT), (offset <? DOTDOT); simpl; try done.
      - destruct (emit acc _ _ _ _) as [acc1 [|]]; [done|]. by destruct (emit acc1 _ _ _ _) as [? [|]].
      - by destruct (emit acc _ _ _ _) as [? [|]].
      - by destruct (emit acc _ _ _ _) as [? [|]]. }
    assert (forall rows, (forall e, e ∈ rows <-> entry_row t ino e /\ Z.max (offset - DOTDOT) 0 < e.1.1) ->
      StronglySorted Z.lt rows.*1.*1 -> lists t ino offset (dots t ino offset ++ (shown <$> rows))) as Hlists
      by (intros rows Hin Hs; apply (lists_rows t ino offset rows); done || lia).
    destruct (feed emit (dots t ino offset) acc) as [acc1 [|]] eqn:Hf.
    - apply wp_ret. destruct (joined_rows t ino (Z.max (offset - DOTDOT) 0)) as [Hin Hs]; [apply Hwf|].
      specialize (HQ _ s1 Hss (Hlists _ Hin Hs)). rewrite feed_app, Hf in HQ. apply HQ. by right.
    - apply wp_db, wp_read_dir_after; rewrite ?Ht; try done.
      + intros rows c Hk Hrows Hsort Hc. rewrite emit_all_feed.
        specialize (HQ _ (set_db c s1) ltac:(etrans; [done|]; apply same_state_db; congruence) (Hlists _ Hrows Hsort)).
        rewrite feed_app, Hf in HQ. apply HQ. by left.
      + intros c Hk Hc. apply HD; [done|]. etrans; [done|]. apply same_state_db. congruence.
      + intros c Hk Hc. apply HN; [done|]. etrans; [done|]. apply same_state_db. congruence.
      + intros e c He Hc. apply HR; [by exists e|]. etrans; [done|]. apply same_state_db. congruence. }
  apply wp_bind, wp_db, wp_match_result, wp_parent_of_dir; [done|done|..].
  - intros c Hc _. apply wp_ret, Hrest; [by apply same_state_db|done].
  - intros c Hc H1 Hp. apply wp_ret, Hrest; [by apply same_state_db|].
    unfold dir_parent. destruct (Z.eqb_spec ino 1); [done|]. unfold t. by rewrite Hp.
  - intros e c He Hc. assert (R (errno_from_db_error e) (set_db c s)) as HRe
      by (apply HR; [by exists e|by apply same_state_db]).
    destruct e; try by apply wp_throw. by apply engine_error_found in He.
Qed.

Lemma wp_readdir ino offset (Q : list DbfsDirEntry -> Fs -> Prop) (R : Z -> Fs -> Prop) s :
  let t := tables (fs_db s) in
  fs_wf t -> valid_ino ino -> 0 <= offset <= I64_MAX -> cookies_fit t ->
  (forall out s', kind_of t ino = Some Directory -> same_state s s' -> lists t ino offset out -> Q out s') ->
  (forall s', (exists K, kind_of t ino = Some K /\ K <> Directory) -> same_state s s' -> R ENOTDIR s') ->
  (forall s', t_inodes t !! ino = None -> same_state s s' -> R ENOENT s') ->
  (forall e s', db_failure e -> same_state s s' -> R e s') ->
  wp (Dbfs.readdir ino offset) Q R s.
Proof.
  intros t Hwf Hi Ho Hfit HQ HD HN HR. apply wp_readdir_stream; try done.
  intros out s' Hs Hl Hk. rewrite feed_push in *. apply HQ; [|done..]. by destruct Hk.
Qed.
End stream.
