(* ===== verification/Paging.v ===== *)
(** * Paging: listings that are resumed

    [readdir] fills a buffer and goes on in the next request at the cookie of the last entry.
    What a page shows, and that a listing which is resumed while the directory changes neither
    repeats an entry nor skips one that stays. *)

From S2P Require Import Prelude Effects Model Chunk Arena OpenTable Sql DbData DbNames Tree.
From S2P Require Import NamesSpec DbVolume Fuse FuseInv FuseFlush FuseOps DirStream.

Section paging.
Context `{World, !EngineLaws H}.
Implicit Types (s : Fs) (t : Tables) (ino offset : Z).

(** ** Pages *)

(** What one reply shows of the listing after [offset]: a beginning of it. *)
Definition page_of t ino offset (out : list DbfsDirEntry) : Prop :=
  exists rest, lists t ino offset (out ++ rest) /\ (out = [] -> rest = []).

Lemma page_of_sorted t ino offset out : page_of t ino offset out -> StronglySorted Z.lt (dd_offset <$> out).
Proof. intros (rest & [Hs _] & _). rewrite fmap_app in Hs. apply StronglySorted_app in Hs. apply Hs. Qed.

Lemma page_of_entry t ino offset out e :
  page_of t ino offset out -> e ∈ out -> stream_entry t ino e /\ offset < dd_offset e.
Proof. intros (rest & [_ Hin] & _) He. apply Hin, elem_of_app. by left. Qed.

(** The entries that a page leaves out have larger cookies than those that it shows. *)
Lemma page_of_rest t ino offset out e :
  page_of t ino offset out -> stream_entry t ino e -> offset < dd_offset e ->
  e ∈ out \/ exists l, last out = Some l /\ dd_offset l < dd_offset e.
Proof.
  intros (rest & [Hs Hin] & Hnil) He Hlt. pose proof (proj2 (Hin e) (conj He Hlt)) as Hel.
  apply elem_of_app in Hel as [Hel|Hel]; [by left|]. right. rewrite fmap_app in Hs.
  apply StronglySorted_app in Hs as [Hs _]. destruct (last out) as [l|] eqn:Hl.
  - exists l. split; [done|]. apply Hs; apply list_elem_of_fmap_2; [|done].
    apply last_Some in Hl as [l' ->]. apply elem_of_app. right. by left.
  - apply last_None in Hl. rewrite (Hnil Hl) in Hel. by apply elem_of_nil in Hel.
Qed.

Lemma stream_cookie t ino e : names_wf t -> cookies_fit t -> stream_entry t ino e -> 0 <= dd_offset e <= I64_MAX.
Proof.
  intros Hn Hfit [->|[->|(k & d & K & Hk & _ & _ & ->)]]; simpl; [unfold DOT, DOTDOT, I64_MAX; lia..|].
  destruct (nw_entry _ Hn k d Hk) as [Hpos _]. specialize (Hfit k ltac:(by eexists)). unfold DOTDOT in *. lia.
Qed.

(** The reply buffer of a listing holds what [fits], and one entry at least. *)
Context (fits : list DbfsDirEntry -> DbfsDirEntry -> bool) (Hfits : forall e, fits [] e = true).

Definition add_entry (entries : list DbfsDirEntry) (ino next : Z) (kind : FileType) (name : list byte)
    : list DbfsDirEntry * bool :=
  let e := mkDbfsDirEntry name ino kind next in
  if fits entries e then (entries ++ [e], false) else (entries, true).

Definition page ino offset : FsM (list DbfsDirEntry) := Dbfs.readdir_stream ino offset add_entry [].

Lemma feed_add es acc :
  exists out rest, es = out ++ rest /\ (feed add_entry es acc).1 = acc ++ out /\
    (acc = [] -> out = [] -> rest = []).
Proof.
  revert acc. induction es as [|[n i K o] es IH]; intros acc; simpl; [exists [], []; split_and!; [done|by rewrite app_nil_r|done]|].
  unfold add_entry at 1. destruct (fits acc _) eqn:Hfit.
  - destruct (IH (acc ++ [mkDbfsDirEntry n i K o])) as (out & rest & -> & -> & _).
    exists (mkDbfsDirEntry n i K o :: out), rest. split_and!; [done|by rewrite <- app_assoc|done].
  - exists [], (mkDbfsDirEntry n i K o :: es). rewrite app_nil_r. split_and!; [done..|].
    intros ->. by rewrite Hfits in Hfit.
Qed.

Lemma wp_page ino offset (Q : list DbfsDirEntry -> Fs -> Prop) (R : Z -> Fs -> Prop) s :
  let t := tables (fs_db s) in
  fs_wf t -> valid_ino ino -> 0 <= offset <= I64_MAX -> cookies_fit t ->
  (forall out s', same_state s s' -> page_of t ino offset out -> Q out s') ->
  (forall s', (exists K, kind_of t ino = Some K /\ K <> Directory) -> same_state s s' -> R ENOTDIR s') ->
  (forall s', t_inodes t !! ino = None -> same_state s s' -> R ENOENT s') ->
  (forall e s', db_failure e -> same_state s s' -> R e s') ->
  wp (page ino offset) Q R s.
Proof.
  intros t Hwf Hi Ho Hfit HQ HD HN HR. apply wp_readdir_stream; try done.
  intros out s' Hs Hl _. destruct (feed_add out []) as (l & rest & -> & -> & Hnil).
  apply HQ; [done|]. exists rest. auto.
Qed.

(** A listing that is resumed at the cookie of the last entry until a page is empty. What
    happens to the file system between the pages is left open; [states] is what the
    directory was like at each page. *)
Inductive listing_of ino : list Tables -> Z -> list DbfsDirEntry -> Prop :=
  | listing_end s s' offset :
      fs_inv s -> cookies_fit (tables (fs_db s)) -> page ino offset s = Ok [] s' ->
      listing_of ino [tables (fs_db s)] offset []
  | listing_page s s' offset out e states rest :
      fs_inv s -> cookies_fit (tables (fs_db s)) -> page ino offset s = Ok out s' -> last out = Some e ->
      listing_of ino states (dd_offset e) rest ->
      listing_of ino (tables (fs_db s) :: states) offset (out ++ rest).

Lemma page_result ino offset s out s' :
  fs_inv s -> cookies_fit (tables (fs_db s)) -> valid_ino ino -> 0 <= offset <= I64_MAX ->
  page ino offset s = Ok out s' -> page_of (tables (fs_db s)) ino offset out.
Proof.
  intros Hinv Hfit Hi Ho Hp.
  assert (wp (page ino offset) (fun out _ => page_of (tables (fs_db s)) ino offset out) (fun _ _ => True) s) as Hw
    by (apply wp_page; done || apply Hinv).
  unfold wp in Hw. by rewrite Hp in Hw.
Qed.

(** C23. Removing, adding and renaming entries between the pages of a listing makes it neither
    repeat an entry nor skip one that stays: no cookie comes twice, an entry that is shown
    was in the directory at one of the pages, and one that was there at all of them is shown. *)
Theorem listing_resumed ino states offset out :
  valid_ino ino -> 0 <= offset <= I64_MAX -> listing_of ino states offset out ->
  StronglySorted Z.lt (dd_offset <$> out) /\
  (forall e, e ∈ out -> offset < dd_offset e /\ exists t, t ∈ states /\ stream_entry t ino e) /\
  (forall e, offset < dd_offset e -> (forall t, t ∈ states -> stream_entry t ino e) -> e ∈ out).
Proof.
  intros Hi Ho Hl. induction Hl as [s s' offset Hinv Hfit Hp|s s' offset out e states rest Hinv Hfit Hp He Hl IH].
  - pose proof (page_result _ _ _ _ _ Hinv Hfit Hi Ho Hp) as Hpg. split_and!; [constructor|by intros e ?%elem_of_nil|].
    intros e Hlt Hall. destruct (page_of_rest _ _ _ _ _ Hpg (Hall _ ltac:(by left)) Hlt) as [?|(l & ? & _)]; done.
  - pose proof (page_result _ _ _ _ _ Hinv Hfit Hi Ho Hp) as Hpg. pose proof (page_of_sorted _ _ _ _ Hpg) as Hs.
    assert (e ∈ out) as Hin by (apply last_Some in He as [l' ->]; apply elem_of_app; right; by left).
    destruct (page_of_entry _ _ _ _ _ Hpg Hin) as [Hst Hlt].
    destruct IH as (Hs2 & Hin2 & Hall2); [eapply stream_cookie; [apply Hinv|done..]|].
    assert (forall e', e' ∈ out -> dd_offset e' <= dd_offset e) as Hlast.
    { intros e' He'. apply last_Some in He as [l' ->]. rewrite fmap_app in Hs.
      apply StronglySorted_app in Hs as [Hs _].
      apply elem_of_app in He' as [He'| ->%list_elem_of_singleton]; [|done].
      enough (dd_offset e' < dd_offset e) by lia. apply Hs; [by apply list_elem_of_fmap_2|by left]. }
    split_and!.
    + rewrite fmap_app. apply StronglySorted_app. split_and!; [|done..].
      intros x y (e1 & -> & He1)%list_elem_of_fmap (e2 & -> & He2)%list_elem_of_fmap.
      apply Hlast in He1. apply Hin2 in He2 as [He2 _]. lia.
    + intros e' [He'|He']%elem_of_app.
      * destruct (page_of_entry _ _ _ _ _ Hpg He'). split; [done|]. exists (tables (fs_db s)). split; [by left|done].
      * destruct (Hin2 e' He') as (Hlt' & t & Ht & Hst'). split; [lia|]. exists t. split; [by right|done].
    + intros e' Hlt' Hall. apply elem_of_app.
      destruct (page_of_rest _ _ _ _ _ Hpg (Hall _ ltac:(by left)) Hlt') as [Hin'|(l & Hl' & Hltl)]; [by left|].
      right. simplify_eq. apply Hall2; [done|]. intros t Ht. apply Hall. by right.
Qed.
End paging.
