(* ===== verification/Bench.v ===== *)
(** * Bench: the workloads of the benchmark

    The jobs of examples/bench_io.rs as programs over the operations of the file system: the
    random and sequential writes, with the map of blocks of the random ones, the reads, and the
    listing of a directory and its removal while it is listed. Each call of the standard library
    is the requests that the kernel makes of it; measuring and reporting are left out. *)

From S2P Require Import Prelude Effects Model Chunk Arena OpenTable Sql DbData DbNames Tree.
From S2P Require Import NamesSpec NamesView DbVolume Fuse FuseInv FuseFlush FuseWrite FuseRead.
From S2P Require Import FuseOps FuseHandles FuseSpec FuseLifecycle FuseNames FuseResize FuseAttr.
From S2P Require Import DirStream Paging.

(** ** Random numbers *)

(** The state after a step of xorshift64*, and the number. *)
Definition Rng_next (x : Z) : Z * Z :=
  let x := Z.lxor x (Z.shiftr x 12) in
  let x := Z.lxor x (u64 (Z.shiftl x 25)) in
  let x := Z.lxor x (Z.shiftr x 27) in
  (x, u64 (x * 0x2545F4914F6CDD1D)).

Definition swap {A} (l : list A) (i j : Z) : option (list A) :=
  x ← vget l i; y ← vget l j;
  l ← vset l i y; vset l j x.

(** The loop of [permutation] from index [i] down. *)
Fixpoint shuffle (i : nat) (rng : Z) (order : list Z) : option (list Z) :=
  match i with
  | O => Some order
  | S i' =>
      let '(rng, v) := Rng_next rng in
      let j := v mod u64 (Z.of_nat i + 1) in
      order ← swap order (Z.of_nat i) j;
      shuffle i' rng order
  end.

(** [None] is an index out of range. *)
Definition permutation (blocks : Z) : option (list Z) :=
  let order := seqZ 0 blocks in
  shuffle (length order - 1) 0x9E3779B97F4A7C15 order.

Definition u8_byte (v : Z) : byte := default x00 (Byte.of_N (Z.to_N (v mod 2 ^ 8))).

Fixpoint random_bytes (n : nat) (rng : Z) : list byte :=
  match n with
  | O => []
  | S n => let '(rng, v) := Rng_next rng in u8_byte v :: random_bytes n rng
  end.

Definition payload (bs : Z) : list byte := random_bytes (Z.to_nat bs) 42.

Lemma random_bytes_length n rng : length (random_bytes n rng) = n.
Proof.
  revert rng. induction n as [|n IH]; intros rng; [done|]. cbn [random_bytes]. destruct (Rng_next rng) as [rng' v].
  simpl. by rewrite IH.
Qed.

Lemma payload_length bs : 0 <= bs -> zlen (payload bs) = bs.
Proof. intros Hbs. unfold zlen, payload. rewrite random_bytes_length. lia. Qed.

Lemma swap_spec {A} (l : list A) i j :
  0 <= i < zlen l -> 0 <= j < zlen l -> exists l', swap l i j = Some l' /\ l' ≡ₚ l.
Proof.
  intros Hi Hj. unfold swap, vget, vset. rewrite !decide_True by lia.
  unfold zlen in *. destruct (lookup_lt_is_Some_2 l (Z.to_nat i) ltac:(lia)) as [x Hx].
  destruct (lookup_lt_is_Some_2 l (Z.to_nat j) ltac:(lia)) as [y Hy].
  rewrite Hx, Hy. simpl. rewrite decide_True by (unfold zlen; lia). simpl.
  rewrite decide_True by (unfold zlen; rewrite length_insert; lia). eexists. split; [done|].
  apply Permutation_inj. split; [by rewrite !length_insert|].
  exists (fun k => if decide (k = Z.to_nat i) then Z.to_nat j else if decide (k = Z.to_nat j) then Z.to_nat i else k).
  split; [intros k1 k2; repeat case_decide; congruence|]. intros k.
  destruct (decide (k = Z.to_nat j)) as [->|Hj'].
  - rewrite list_lookup_insert_eq by (rewrite length_insert; lia). case_decide; congruence.
  - rewrite list_lookup_insert_ne by done. case_decide; [subst; by rewrite list_lookup_insert_eq by lia|].
    by rewrite list_lookup_insert_ne.
Qed.

Lemma shuffle_spec i rng order :
  (i < length order)%nat \/ i = O -> Z.of_nat (length order) < 2 ^ 64 ->
  exists out, shuffle i rng order = Some out /\ out ≡ₚ order.
Proof.
  revert rng order. induction i as [|i IH]; intros rng order Hi Hlen; [by exists order|].
  cbn [shuffle]. destruct (Rng_next rng) as [rng' v].
  rewrite (u64_id (Z.of_nat (S i) + 1)) by (unfold U64_MAX; lia).
  pose proof (Z.mod_pos_bound v (Z.of_nat (S i) + 1) ltac:(lia)) as Hj.
  destruct (swap_spec order (Z.of_nat (S i)) (v mod (Z.of_nat (S i) + 1))) as (o' & -> & Hp); [unfold zlen; lia..|].
  destruct (IH rng' o') as (out & Ho & Hp').
  - left. rewrite Hp. lia.
  - by rewrite Hp.
  - exists out. split; [done|]. by etrans.
Qed.

(** The map of the random jobs touches every block exactly once. *)
Lemma permutation_correct blocks :
  0 <= blocks < 2 ^ 64 -> exists order, permutation blocks = Some order /\ order ≡ₚ seqZ 0 blocks.
Proof.
  intros Hb. apply shuffle_spec; rewrite length_seqZ; [destruct (decide (blocks = 0)); [right|left]|]; lia.
Qed.

(** ** Jobs *)

Section jobs.
Context `{World, HashOrder, !EngineLaws H}.
Implicit Types (s : Fs) (fh ino p bs mode umask uid gid : Z) (n buf : list byte) (order : list Z).
Implicit Types (f : Z -> byte).

(** The writes of a job to an open file, block by block: what [write_all] and [write_all_at] come
    to. *)
Fixpoint write_blocks (fsync_each : bool) fh bs buf order : FsM unit :=
  match order with
  | [] => mret tt
  | block :: order =>
      Dbfs.write_fh fh (block * bs) buf ;;
      (if fsync_each then Dbfs.sync_fh fh else mret tt) ;;
      write_blocks fsync_each fh bs buf order
  end.

(** [File::create], and [OpenOptions::open] with [create] and [truncate]: the kernel looks the
    name [n] of directory [p] up and opens and cuts what it finds, or creates the file. The inode
    and the handle. *)
Definition open_truncated p n mode umask uid gid : FsM (Z * Z) :=
  match_result (Dbfs.lookup p n)
    (fun attr =>
       fh ← Dbfs.open (fa_ino attr);
       Dbfs.setattr (fa_ino attr) None None None (Some 0) None None ;;
       mret (fa_ino attr, fh))
    (fun e =>
       if e =? ENOENT then
         r ← Dbfs.create_open p n mode umask uid gid; mret (fa_ino r.1, r.2)
       else throw e).

(** [drop(file)]: the kernel sends a flush and a release, and nobody sees their errors. *)
Definition close_file fh : FsM unit :=
  match_result (Dbfs.flush_fh fh) mret (fun _ => mret tt) ;;
  match_result (Dbfs.release_file fh) mret (fun _ => mret tt).

Definition rand_write p n mode umask uid gid (size bs : Z) (fsync_each : bool) : FsM unit :=
  let buf := payload bs in
  order ← unwrap (permutation (size / bs));
  file ← open_truncated p n mode umask uid gid;
  Dbfs.setattr file.1 None None None (Some size) None None ;;
  write_blocks fsync_each file.2 bs buf order ;;
  close_file file.2.

Definition seq_write p n mode umask uid gid (size bs : Z) : FsM unit :=
  let buf := payload bs in
  file ← open_truncated p n mode umask uid gid;
  write_blocks false file.2 bs buf (seqZ 0 (size / bs)) ;;
  close_file file.2.

(** [f] with [buf] in each of the blocks [order]. *)
Definition laid bs buf f order (p : Z) : byte :=
  if decide (p / bs ∈ order) then zget buf (p mod bs) else f p.

Lemma laid_cons bs buf f block order p :
  0 < bs -> zlen buf = bs -> laid bs buf (write_bytes f (block * bs, buf)) order p = laid bs buf f (block :: order) p.
Proof.
  intros Hbs Hl. unfold laid, write_bytes. cbn [fst snd]. rewrite Hl.
  assert (block * bs <= p < block * bs + bs <-> p / bs = block) as Hb.
  { split; [|intros <-]; [intros Hp; symmetry; apply (Z.div_unique p bs block (p - block * bs)); lia|].
    pose proof (Z.div_mod p bs ltac:(lia)). pose proof (Z.mod_pos_bound p bs ltac:(lia)). lia. }
  destruct (decide (p / bs ∈ order)) as [Hin|Hout]; [by rewrite decide_True by (by right)|].
  destruct (decide (p / bs = block)) as [Heq|Hne].
  - rewrite decide_True by (by apply Hb). rewrite decide_True by (rewrite Heq; by left).
    f_equal. pose proof (Z.div_mod p bs ltac:(lia)). lia.
  - rewrite decide_False by (by rewrite Hb). rewrite decide_False; [done|].
    by intros [?|?]%elem_of_cons.
Qed.

(** The size after the blocks [order] were written. *)
Fixpoint laid_size bs (size : Z) order : Z :=
  match order with
  | [] => size
  | block :: order => laid_size bs (Z.max size (block * bs + bs)) order
  end.

Lemma laid_size_le bs size order m :
  laid_size bs size order <= m <-> size <= m /\ forall b, b ∈ order -> b * bs + bs <= m.
Proof.
  revert size. induction order as [|block order IH]; intros size; simpl.
  - split; [|tauto]. intros Hm. split; [done|]. by intros b ?%elem_of_nil.
  - rewrite IH. split.
    + intros [Hm Hall]. split; [lia|]. intros b [->|Hb]%elem_of_cons; [lia|auto].
    + intros [Hm Hall]. split; [|intros b Hb; apply Hall; by right].
      specialize (Hall block ltac:(by left)). lia.
Qed.

Lemma laid_size_all bs size blocks order :
  0 < bs -> 0 <= blocks -> 0 <= size -> (forall b, b ∈ order <-> 0 <= b < blocks) ->
  laid_size bs size order = Z.max size (blocks * bs).
Proof.
  intros Hbs Hb Hs Hin. pose proof (laid_size_le bs size order) as Hle.
  apply Z.le_antisymm; [apply Hle; split; [lia|]; intros b Hbo%Hin; nia|].
  destruct (proj1 (Hle _) (Z.le_refl _)) as [H1 H2].
  destruct (decide (blocks = 0)) as [->|]; [lia|]. specialize (H2 (blocks - 1) ltac:(apply Hin; lia)). nia.
Qed.

(** How a job ends: every block was written, or the database failed. *)
Lemma wp_write_blocks fsync_each fh ino bs buf blocks order size f s :
  fs_inv s -> valid_ino ino -> handle_ino (fs_table s) fh = Some ino -> closing (fs_table s) = false ->
  kind_of (tables (fs_db s)) ino = Some RegularFile ->
  0 < bs -> zlen buf = bs -> blocks * bs <= MAX_FILE_SIZE -> (forall b, b ∈ order -> 0 <= b < blocks) ->
  contents s ino size f ->
  wp (write_blocks fsync_each fh bs buf order)
    (fun _ s' => file_changed s s' ino (laid_size bs size order) (laid bs buf f order))
    (fun e s' => fs_inv s' /\ stable s s' /\ others_same ino s s' /\ (db_failure e \/ e = EIO)) s.
Proof.
  intros Hinv Hi Hh Hcl Hk Hbs Hl Hmax. revert size f s Hinv Hh Hcl Hk.
  induction order as [|block order IH]; intros size f s Hinv Hh Hcl Hk Hall Hc; simpl.
  - apply wp_ret. constructor; [done|done|done|]. eapply contents_ext; [|done]. intros p _.
    unfold laid. rewrite decide_False; [done|]. by intros ?%elem_of_nil.
  - destruct (Hall block ltac:(by left)) as [Hb0 Hb1].
    assert (block * bs + bs <= blocks * bs) as Hend by nia.
    apply wp_bind, wp_write_fh; [done|nia|rewrite Hl; clia|..].
    + intros ino' size' g s1 Hh' _ _ Hc' _ Hch.
      assert (ino' = ino) as -> by congruence. assert (size' = size) as -> by (by eapply contents_size).
      assert (file_changed s s1 ino (Z.max size (block * bs + bs)) (write_bytes f (block * bs, buf))) as Hch1.
      { destruct Hch as [? ? ? Hc1]. unfold write_size in Hc1. cbn [fst snd] in Hc1. rewrite Hl in Hc1.
        rewrite (proj2 (Z.eqb_neq bs 0)) in Hc1 by lia.
        constructor; [done..|]. eapply contents_ext; [|exact Hc1]. intros p Hp. unfold write_bytes. case_decide; [done|].
        destruct Hc as [_ Hf], Hc' as [_ Hg]. by rewrite <- Hf, <- Hg. }
      assert (forall s2, file_changed s s2 ino (Z.max size (block * bs + bs)) (write_bytes f (block * bs, buf)) ->
        wp (write_blocks fsync_each fh bs buf order)
          (fun _ s' => file_changed s s' ino (laid_size bs (Z.max size (block * bs + bs)) order) (laid bs buf f (block :: order)))
          (fun e s' => fs_inv s' /\ stable s s' /\ others_same ino s s' /\ (db_failure e \/ e = EIO)) s2) as Hrest.
      { intros s2 Hch2. pose proof (fc_stable _ _ _ _ _ Hch2) as Hst. eapply wp_mono.
        - apply (IH (Z.max size (block * bs + bs)) (write_bytes f (block * bs, buf))); [apply Hch2| | | | |apply Hch2].
          + by rewrite (sb_handles _ _ Hst).
          + by rewrite (sb_closing _ _ Hst).
          + by rewrite (same_names_kind _ _ ino (sb_names _ _ Hst)).
          + intros b Hb. apply Hall. by right.
        - intros [] s' Hch3. pose proof (changed_trans _ _ _ _ _ _ _ _ Hch2 Hch3) as [? ? ? Hcs].
          constructor; [done..|]. eapply contents_ext; [|exact Hcs]. intros p _. by apply laid_cons.
        - intros e s' (? & ? & Ho & ?). destruct Hch2. split_and!; [done|by etrans|by etrans|done]. }
      apply wp_bind. destruct fsync_each; [|by apply wp_ret, Hrest].
      apply wp_sync_fh; [apply Hch1|..].
      * intros ino' s2 _ Hinv2 Hq _. apply Hrest. eapply changed_trans; [exact Hch1|].
        by eapply quiet_changed; [apply Hch1|done|done|done|apply Hch1].
      * intros Hno. rewrite (sb_handles _ _ (fc_stable _ _ _ _ _ Hch1)) in Hno. congruence.
      * intros n s2 Hn Hinv2 Hq. assert (file_changed s s2 ino (Z.max size (block * bs + bs)) (write_bytes f (block * bs, buf))) as [? ? ? _].
        { eapply changed_trans; [exact Hch1|]. by eapply quiet_changed; [apply Hch1|done|done|done|apply Hch1]. }
        by split_and!.
    + congruence.
    + intros ino' n Hh' Hr. assert (ino' = ino) as -> by congruence. exfalso. destruct Hr; [|congruence|lia].
      assert (k = RegularFile) as -> by congruence. done.
    + intros ino' n size' g m s' Hh' Hn _ _ [? ? ? _]. assert (ino' = ino) as -> by congruence. split_and!; auto.
Qed.

(** [f] with [payload] in each of the first [blocks] blocks. *)
Definition filled bs blocks f (p : Z) : byte :=
  if decide (0 <= p < blocks * bs) then zget (payload bs) (p mod bs) else f p.

(** The end of the writes to an open file, of [blocks] blocks. *)
Definition block_job_done s ino bs blocks size f (job : FsM unit) : Prop :=
  wp job (fun _ s' => file_changed s s' ino (Z.max size (blocks * bs)) (filled bs blocks f))
    (fun e s' => fs_inv s' /\ stable s s' /\ others_same ino s s' /\ (db_failure e \/ e = EIO)) s.

(** Any order of all the blocks fills the file. *)
Lemma write_blocks_fill fsync_each fh ino bs blocks size f s order :
  fs_inv s -> valid_ino ino -> handle_ino (fs_table s) fh = Some ino -> closing (fs_table s) = false ->
  kind_of (tables (fs_db s)) ino = Some RegularFile ->
  0 < bs -> 0 <= blocks -> blocks * bs <= MAX_FILE_SIZE -> 0 <= size -> contents s ino size f ->
  order ≡ₚ seqZ 0 blocks -> block_job_done s ino bs blocks size f (write_blocks fsync_each fh bs (payload bs) order).
Proof.
  intros Hinv Hi Hh Hcl Hk Hbs Hb Hmax Hsz Hc Hp. assert (forall b, b ∈ order <-> 0 <= b < blocks) as Hin
    by (intros b; rewrite Hp, elem_of_seqZ; lia).
  eapply wp_mono; [apply (wp_write_blocks fsync_each fh ino bs (payload bs) blocks order size f)|..]; try done.
  - apply payload_length. lia.
  - intros b. apply Hin.
  - intros [] s' [? ? ? Hc']. rewrite (laid_size_all bs size blocks) in Hc' by done.
    constructor; [done..|]. eapply contents_ext; [|exact Hc'].
    intros p Hp0. unfold laid, filled. pose proof (Z.div_mod p bs ltac:(lia)). pose proof (Z.mod_pos_bound p bs ltac:(lia)).
    destruct (decide (p / bs ∈ order)) as [Hin'|Hout]; case_decide as Hd; try done; exfalso.
    + apply Hin in Hin'. nia.
    + apply Hout, Hin. nia.
Qed.

(** *** Opening and closing *)

(** File [n] of [p] is open with handle [fh]: inode [ino], which had that name or is new, with
    [size] bytes [f]; nothing else has changed since [s]. *)
Record job_file s s' p n fh ino (size : Z) f : Prop := {
  jf_inv : fs_inv s';
  jf_closing : closing (fs_table s') = closing (fs_table s);
  jf_kind : kind_of (tables (fs_db s')) ino = Some RegularFile;
  jf_tree : tree_set (tables (fs_db s)) (tables (fs_db s')) p n (Some ino);
  jf_which : child_of (tables (fs_db s)) p n = Some ino \/
    child_of (tables (fs_db s)) p n = None /\ t_inodes (tables (fs_db s)) !! ino = None;
  jf_others : others_same ino s s';
  jf_fresh : handle_ino (fs_table s) fh = None;
  jf_fh : handle_ino (fs_table s') fh = Some ino;
  jf_handles : forall fh', fh' <> fh -> handle_ino (fs_table s') fh' = handle_ino (fs_table s) fh';
  jf_contents : contents s' ino size f }.

(** The same with the file closed. *)
Record job_left s s' p n ino (size : Z) f : Prop := {
  jl_inv : fs_inv s';
  jl_kind : kind_of (tables (fs_db s')) ino = Some RegularFile;
  jl_tree : tree_set (tables (fs_db s)) (tables (fs_db s')) p n (Some ino);
  jl_which : child_of (tables (fs_db s)) p n = Some ino \/
    child_of (tables (fs_db s)) p n = None /\ t_inodes (tables (fs_db s)) !! ino = None;
  jl_others : others_same ino s s';
  jl_handles : forall fh, handle_ino (fs_table s') fh = handle_ino (fs_table s) fh;
  jl_contents : contents s' ino size f }.

(** What a job that fails may have changed: the file at its own name. *)
Record job_failed s s' p n : Prop := {
  jx_inv : fs_inv s';
  jx_tree : forall p' n', ~ (p' = p /\ n' = n) ->
    child_of (tables (fs_db s')) p' n' = child_of (tables (fs_db s)) p' n';
  jx_others : forall i, valid_ino i -> is_Some (t_inodes (tables (fs_db s)) !! i) ->
    child_of (tables (fs_db s)) p n <> Some i ->
    same_file (tables (fs_db s)) (fs_table s) (tables (fs_db s')) (fs_table s') i }.

(** Why it fails: the database, or the name cannot be created. *)
Definition job_error (T : Tables) p n (e : Z) : Prop :=
  db_failure e \/ e = EIO \/ create_refused T p n e.

Lemma same_tree_child s s' p n :
  same_tree s s' -> child_of (tables (fs_db s')) p n = child_of (tables (fs_db s)) p n.
Proof. intros [_ Hd _ _]. unfold child_of, find_entry. by rewrite Hd. Qed.

Lemma job_file_valid s s' p n fh ino size f : job_file s s' p n fh ino size f -> valid_ino ino.
Proof. intros []. by eapply kind_valid; [apply (fi_db _ _ _ jf_inv0)|]. Qed.

Lemma job_file_step s s1 s2 p n fh ino size f size' f' :
  job_file s s1 p n fh ino size f -> fs_inv s2 -> same_tree s1 s2 -> others_same ino s1 s2 ->
  contents s2 ino size' f' -> job_file s s2 p n fh ino size' f'.
Proof.
  intros [] Hinv Htr Ho Hc. pose proof Htr as [[Hh Hcl _ _] _ _ Hk]. constructor; try done.
  - congruence.
  - by rewrite Hk.
  - intros p' n'. rewrite (same_tree_child s1 s2) by done. apply jf_tree0.
  - by etrans.
  - by rewrite Hh.
  - intros fh' Hne. rewrite Hh. by apply jf_handles0.
Qed.

Lemma job_file_failed s s1 s2 p n fh ino size f :
  job_file s s1 p n fh ino size f -> fs_inv s2 -> same_tree s1 s2 -> others_same ino s1 s2 ->
  job_failed s s2 p n.
Proof.
  intros [] Hinv Htr Ho. constructor; [done| |].
  - intros p' n' Hne. rewrite (same_tree_child s1 s2) by done. rewrite (jf_tree0 p' n'). by rewrite decide_False.
  - intros i Hv [r Hr] Hne. assert (i <> ino) as Hi by (intros ->; destruct jf_which0 as [?|[_ ?]]; congruence).
    apply (transitivity jf_others0 Ho); done.
Qed.

Lemma job_failed_state s s' p n : fs_inv s -> same_state s s' -> job_failed s s' p n.
Proof.
  intros Hinv Hs. pose proof (same_state_files _ _ Hs) as Hsf. constructor; [by eapply same_state_inv| |auto].
  intros p' n' _. by rewrite (proj1 Hs).
Qed.

Lemma job_file_from s s1 s2 p n fh ino size f :
  same_state s s1 -> job_file s1 s2 p n fh ino size f -> job_file s s2 p n fh ino size f.
Proof. intros (Ht & Hu & _) []. unfold others_same in *. rewrite Ht, Hu in *. by constructor. Qed.

Lemma job_failed_from s s1 s2 p n : same_state s s1 -> job_failed s1 s2 p n -> job_failed s s2 p n.
Proof. intros (Ht & Hu & _) []. rewrite Ht, ?Hu in *. by constructor. Qed.

(** An inode that was unlinked while open has no name. *)
Lemma unlinked_nameless s ino p n :
  fs_inv s -> unlinked_open s ino -> child_of (tables (fs_db s)) p n <> Some ino.
Proof.
  intros Hinv (e & He & Hu) Hc. destruct (entry_of_Some _ _ _ _ _ Hinv He) as (i & Hl & Hent & <-).
  destruct (fi_entry _ _ _ Hinv i e Hl Hent) as [r Hok].
  apply child_of_Some in Hc as (k & d & Hk & _ & _ & Hd); [|apply Hinv].
  refine (unlinked_no_entry _ _ r (fi_db _ _ _ Hinv) (eo_row _ _ _ _ Hok) _ (eo_gone _ _ _ _ Hok Hu) k d Hk Hd).
  rewrite (eo_kind _ _ _ _ Hok). intros [= Hdir]. by apply (eo_file _ _ _ _ Hok).
Qed.

(** A file that has just been created and opened. *)
Lemma created_job_file s s1 s2 p n node uid gid now ino fh :
  fs_inv s -> created_node s s1 p n node uid gid now ino -> node_kind node = RegularFile ->
  opened s1 s2 fh ino -> job_file s s2 p n fh ino (node_size node) (fun _ => x00).
Proof.
  intros Hinv [(k & Hcr) Ht _ _ Hinv1 _ Ho Hc] Hnk [Hinv2 Hcalm Hfresh Hfh Hoth]. pose proof Hcr as Hcr'. destruct Hcr'.
  assert (forall p' n', child_of (tables (fs_db s2)) p' n' = child_of (tables (fs_db s1)) p' n') as Hch.
  { intros p' n'. unfold child_of, find_entry. by rewrite (proj1 (cm_names _ _ Hcalm)). }
  assert (kind_of (tables (fs_db s2)) ino = Some RegularFile) as Hk.
  { rewrite (same_names_kind _ _ ino (cm_names _ _ Hcalm)), (created_kind _ _ _ _ _ _ _ _ _ _ ino Hcr).
    by rewrite decide_True, Hnk. }
  constructor; try done.
  - by rewrite (cm_closing _ _ Hcalm), Ht.
  - intros p' n'. rewrite Hch. eapply child_of_created; [apply Hinv|done].
  - right. split; [|done]. apply child_of_None, find_entry_None. exact (proj2 (proj2 (proj2 (proj2 cr_vacant)))).
  - etrans; [exact Ho|]. by apply others_calm.
  - by rewrite <- Ht.
  - intros fh' Hne. by rewrite Hoth, Ht.
  - eapply calm_contents'; [done| |done]. by eapply kind_valid; [apply (fi_db _ _ _ Hinv2)|].
Qed.

Lemma wp_create_job p n mode umask uid gid (Q : Z * Z -> Fs -> Prop) (R : Z -> Fs -> Prop) s :
  fs_inv s -> valid_ino p -> slot_room (inodes (fs_table s)) -> handles_room s ->
  (forall ino fh s', job_file s s' p n fh ino 0 (fun _ => x00) -> Q (ino, fh) s') ->
  (forall e s', job_error (tables (fs_db s)) p n e -> job_failed s s' p n -> R e s') ->
  wp (r ← Dbfs.create_open p n mode umask uid gid; mret (fa_ino r.1, r.2)) Q R s.
Proof.
  intros Hinv Hp Hroom Hhr HQ HR. apply wp_bind, wp_create_open; [done..| | |].
  - intros now ino fh s1 s2 Hcn Hon. apply wp_ret, HQ.
    exact (created_job_file s s1 s2 p n _ uid gid now ino fh Hinv Hcn eq_refl Hon).
  - intros e s1 He Hs. apply HR; [by right; right|by apply job_failed_state].
  - intros e s1 He Hs. apply HR; [by left|by apply job_failed_state].
Qed.

Lemma opened_from s s1 s2 fh ino : same_state s s1 -> opened s1 s2 fh ino -> opened s s2 fh ino.
Proof.
  intros Hs [Hinv Hcalm Hfresh Hfh Hoth]. pose proof Hs as (_ & Hu & _). rewrite Hu in *.
  constructor; try done. etrans; [by apply same_state_calm|done].
Qed.

(** The file that is there, open. *)
Lemma opened_job_file s s1 p n fh ino size f :
  fs_inv s -> child_of (tables (fs_db s)) p n = Some ino ->
  kind_of (tables (fs_db s)) ino = Some RegularFile -> contents s ino size f ->
  opened s s1 fh ino -> job_file s s1 p n fh ino size f.
Proof.
  intros Hinv Hch Hk Hc [Hinv1 Hcalm Hfresh Hfh Hoth]. pose proof (cm_names _ _ Hcalm) as Hn.
  constructor; try done.
  - apply Hcalm.
  - by rewrite (same_names_kind _ _ ino Hn).
  - intros p' n'. unfold child_of at 1, find_entry. rewrite (proj1 Hn).
    case_decide as Hd; [|done]. destruct Hd as [-> ->]. exact Hch.
  - by left.
  - by apply others_calm.
  - eapply calm_contents'; [done|by eapply kind_valid; [apply (fi_db _ _ _ Hinv)|]|done].
Qed.

(** [set_len], and the cut of [O_TRUNC]. *)
Lemma wp_set_len s s1 p n fh ino size f new (Q : FileAttr -> Fs -> Prop) (R : Z -> Fs -> Prop) :
  job_file s s1 p n fh ino size f -> 0 <= new <= MAX_FILE_SIZE ->
  (forall attr s', job_file s s' p n fh ino new (resized f new) -> Q attr s') ->
  (forall e s', job_error (tables (fs_db s)) p n e -> job_failed s s' p n -> R e s') ->
  wp (Dbfs.setattr ino None None None (Some new) None None) Q R s1.
Proof.
  intros Hj Hnew HQ HR. pose proof Hj as []. pose proof (job_file_valid _ _ _ _ _ _ _ _ Hj) as Hi.
  apply (wp_setattr ino (mkAttrChange None None None (Some new) None None)); [done|done|intros ? [= <-]; lia| | |].
  - intros attr s2 [Hinv2 Htr Ho _ Hf _ _ _]. apply (HQ attr). eapply job_file_step; [done..|]. by apply (Hf size).
  - intros e s2 [[Hno _]|(size' & [= <-] & Hr)] _ _ _; exfalso.
    + unfold kind_of in jf_kind0. by rewrite Hno in jf_kind0.
    + destruct Hr as [Hno|k error Hk He|_ Hl]; [unfold kind_of in jf_kind0; by rewrite Hno in jf_kind0| |lia].
      assert (k = RegularFile) as -> by congruence. done.
  - intros e s2 He (Hinv2 & Htr & Ho & _). apply HR; [by left|]. by eapply job_file_failed.
Qed.

Lemma wp_open_truncated p n mode umask uid gid (Q : Z * Z -> Fs -> Prop) (R : Z -> Fs -> Prop) s :
  fs_inv s -> valid_ino p -> slot_room (inodes (fs_table s)) -> handles_room s ->
  (forall ino, child_of (tables (fs_db s)) p n = Some ino -> kind_of (tables (fs_db s)) ino = Some RegularFile) ->
  (forall ino fh s', job_file s s' p n fh ino 0 (fun _ => x00) -> Q (ino, fh) s') ->
  (forall e s', job_error (tables (fs_db s)) p n e -> job_failed s s' p n -> R e s') ->
  wp (open_truncated p n mode umask uid gid) Q R s.
Proof.
  intros Hinv Hp Hroom Hhr Hreg HQ HR. apply wp_match_result, wp_lookup_name; [done|done|..].
  - intros k d r K attr s1 Hres Hsh Hs1. pose proof Hs1 as (Ht & Hu & _). pose proof (same_state_inv _ _ Hs1 Hinv) as Hinv1.
    destruct (resolves_child _ _ _ _ _ _ _ (fi_db _ _ _ Hinv) Hres) as [Hi Hk].
    assert (child_of (tables (fs_db s)) p n = Some (d_child d)) as Hch
      by (unfold child_of; by rewrite (rs_find _ _ _ _ _ _ _ Hres)).
    rewrite (Hreg _ Hch) in Hk. injection Hk as <-. pose proof (Hreg _ Hch) as Hk.
    rewrite (at_ino _ _ _ _ _ Hsh). set (ino := d_child d) in *.
    assert (exists size f, contents s ino size f) as (size & f & Hc).
    { exists (fa_size attr), (file_byte (tables (fs_db s)) (fs_table s) ino). split; [|done].
      rewrite <- Ht, <- Hu. apply Hsh. }
    apply wp_bind, wp_open; rewrite ?Ht, ?Hu; [done|done|congruence|done|by unfold handles_room; rewrite Hu|..].
    + intros fh s2 Hon. assert (job_file s s2 p n fh ino size f) as Hj.
      { apply opened_job_file; [done..|]. by eapply opened_from. }
      apply wp_bind, (wp_set_len s s2 p n fh ino size f 0); [done|clia| |done].
      intros attr' s3 Hj3. apply wp_ret, HQ. destruct Hj3. constructor; try done. eapply contents_ext; [|done].
      intros q Hq. unfold resized. by rewrite decide_False by lia.
    + intros s2 Hno _. exfalso. unfold kind_of in Hk. by rewrite Hno in Hk.
    + intros e s2 He Hs2. apply HR; [by left|]. apply job_failed_state; [done|by etrans].
  - intros e s1 He Hs1. pose proof Hs1 as (Ht & Hu & _). destruct (Z.eqb_spec e ENOENT) as [_|Hne].
    + apply wp_create_job; rewrite ?Hu; [by eapply same_state_inv|done|done|by unfold handles_room; rewrite Hu|..].
      * intros ino fh s2 Hj. apply HQ. by eapply job_file_from.
      * intros e' s2 He' Hx. rewrite Ht in He'. apply HR; [done|by eapply job_failed_from].
    + apply wp_throw, HR; [|by apply job_failed_state]. destruct He; [|done]. by right; right; constructor.
  - intros e s1 He Hs1. pose proof Hs1 as (Ht & Hu & _). destruct (Z.eqb_spec e ENOENT) as [_|Hne].
    + apply wp_create_job; rewrite ?Hu; [by eapply same_state_inv|done|done|by unfold handles_room; rewrite Hu|..].
      * intros ino fh s2 Hj. apply HQ. by eapply job_file_from.
      * intros e' s2 He' Hx. rewrite Ht in He'. apply HR; [done|by eapply job_failed_from].
    + apply wp_throw, HR; [by left|by apply job_failed_state].
Qed.

(** A release that keeps the file. *)
Lemma job_file_closed s s1 s2 p n fh ino size f :
  job_file s s1 p n fh ino size f -> fs_inv s2 -> handle_dropped s1 s2 fh ->
  same_names (tables (fs_db s1)) (tables (fs_db s2)) -> same_files s1 s2 -> job_left s s2 p n ino size f.
Proof.
  intros Hj Hinv [Hnone Hoth _ _ _] Hn Hf. pose proof Hj as []. constructor; try done.
  - by rewrite (same_names_kind _ _ ino Hn).
  - intros p' n'. unfold child_of at 1, find_entry. rewrite (proj1 Hn). apply jf_tree0.
  - etrans; [done|]. intros k Hk _. by apply Hf.
  - intros fh'. destruct (decide (fh' = fh)) as [->|Hne]; [congruence|]. by rewrite Hoth, jf_handles0.
  - eapply same_files_contents; [done|by eapply job_file_valid|done].
Qed.

Lemma wp_close_file s s1 p n fh ino size f (Q : unit -> Fs -> Prop) (R : Z -> Fs -> Prop) :
  job_file s s1 p n fh ino size f -> (forall s', job_left s s' p n ino size f -> Q tt s') ->
  wp (close_file fh) Q R s1.
Proof.
  intros Hj HQ.
  assert (forall s2, job_file s s2 p n fh ino size f ->
    wp (match_result (Dbfs.release_file fh) mret (fun _ => mret tt)) Q R s2) as Hrelease.
  { intros s2 Hj2. pose proof Hj2 as [Hinv2 _ _ Htree _ _ _ Hfh _ _].
    assert (~ unlinked_open s2 ino) as Hno.
    { intros Hu. eapply (unlinked_nameless s2 ino p n); [done..|]. rewrite (Htree p n). by rewrite decide_True. }
    apply wp_match_result, wp_release_fh; [done| |congruence|].
    - intros ino' s3 Hfh' Hinv3 Hd Hout. assert (ino' = ino) as -> by congruence. apply wp_ret, HQ.
      destruct Hout as [Hu|_ [Hf Hn _ _ _] _]; [by destruct Hno|]. by eapply job_file_closed.
    - intros ino' e s3 Hfh' _ Hinv3 Hd _ Hn Hout. assert (ino' = ino) as -> by congruence. apply wp_ret, HQ.
      destruct Hout as [[[Hu _] _]|Hf]; [by destruct Hno|]. by eapply job_file_closed. }
  pose proof Hj as [Hinv1 _ _ _ _ _ _ Hfh _ Hc]. pose proof (job_file_valid _ _ _ _ _ _ _ _ Hj) as Hi.
  assert (forall s2, fs_inv s2 -> quiet s1 s2 -> job_file s s2 p n fh ino size f) as Hquiet.
  { intros s2 Hinv2 Hq. eapply job_file_step; [exact Hj|done|by apply stable_tree, quiet_stable|by apply quiet_others|].
    by eapply quiet_contents. }
  apply wp_bind, wp_match_result, wp_flush_fh; [done| |congruence|].
  - intros ino' s2 _ Hinv2 Hq _ _. by apply wp_ret, Hrelease, Hquiet.
  - intros e s2 _ Hs. apply wp_ret, Hrelease, Hquiet; [by eapply same_state_inv|by apply quiet_state].
Qed.

(** ** The writing jobs *)

(** How a job on the file [n] of [p] ends: the file has [blocks] blocks of the payload and no
    more, or the job fails. *)
Definition job_fills s p n bs blocks (job : FsM unit) : Prop :=
  wp job
    (fun _ s' => exists ino, job_left s s' p n ino (blocks * bs) (filled bs blocks (fun _ => x00)))
    (fun e s' => job_error (tables (fs_db s)) p n e /\ job_failed s s' p n) s.

(** The blocks written to the open file, and its end. *)
Lemma wp_write_and_close fsync_each s s1 p n fh ino bs blocks size order :
  job_file s s1 p n fh ino size (fun _ => x00) -> closing (fs_table s) = false ->
  0 < bs -> 0 <= blocks -> blocks * bs <= MAX_FILE_SIZE -> 0 <= size <= blocks * bs ->
  order ≡ₚ seqZ 0 blocks ->
  wp (write_blocks fsync_each fh bs (payload bs) order ;; close_file fh)
    (fun _ s' => exists ino, job_left s s' p n ino (blocks * bs) (filled bs blocks (fun _ => x00)))
    (fun e s' => job_error (tables (fs_db s)) p n e /\ job_failed s s' p n) s1.
Proof.
  intros Hj Hcl Hbs Hb Hmax Hsz Hp. pose proof Hj as []. pose proof (job_file_valid _ _ _ _ _ _ _ _ Hj) as Hi.
  apply wp_bind. eapply wp_mono.
  - apply (write_blocks_fill fsync_each fh ino bs blocks size (fun _ => x00)); try done; [by rewrite jf_closing0|lia].
  - intros [] s2 [Hinv2 Hst Ho Hc]. rewrite Z.max_r in Hc by lia.
    eapply (wp_close_file s s2); [eapply job_file_step; [exact Hj|done|by apply stable_tree|done|exact Hc]|].
    intros s3 Hl. by exists ino.
  - intros e s2 (Hinv2 & Hst & Ho & He). split; [by destruct He; [left|right; left]|].
    eapply job_file_failed; [exact Hj|done|by apply stable_tree|done].
Qed.

(** C25. The writing jobs, from the opening of the file to its end: a file with the name, or a
    new one, has the payload in each of its blocks, whatever order the map of the blocks gives
    and whether or not each write is synchronised, and exactly the size of the blocks, whatever
    it had before; no handle is left, and every other name and every other file is as it was.
    Only the database, or a name that cannot be created, makes a job fail, and then still no
    other name and no other file has changed. *)
Theorem jobs_fill p n mode umask uid gid bs blocks s fsync_each :
  fs_inv s -> valid_ino p -> slot_room (inodes (fs_table s)) -> handles_room s ->
  closing (fs_table s) = false ->
  (forall ino, child_of (tables (fs_db s)) p n = Some ino ->
     kind_of (tables (fs_db s)) ino = Some RegularFile) ->
  0 < bs -> 0 <= blocks -> blocks * bs <= MAX_FILE_SIZE ->
  job_fills s p n bs blocks (rand_write p n mode umask uid gid (blocks * bs) bs fsync_each) /\
  job_fills s p n bs blocks (seq_write p n mode umask uid gid (blocks * bs) bs).
Proof.
  intros Hinv Hp Hroom Hhr Hcl Hreg Hbs Hb Hmax. unfold rand_write, seq_write. rewrite Z.div_mul by lia.
  destruct (permutation_correct blocks) as (order & -> & Hperm); [clia|].
  split; [apply wp_bind, wp_ret|]; apply wp_bind, wp_open_truncated; try done;
    intros ino fh s1 Hj; cbn [fst snd].
  - apply wp_bind. eapply (wp_set_len s s1); [exact Hj|nia| |done]. intros attr s2 Hj2.
    apply (wp_write_and_close fsync_each s s2 p n fh ino bs blocks (blocks * bs)); [|done..|nia|done].
    destruct Hj2. constructor; try done. eapply contents_ext; [|done]. intros q _. unfold resized. by case_decide.
  - by apply (wp_write_and_close false s s1 p n fh ino bs blocks 0); [..|nia|].
Qed.

(** ** The reading job *)

Definition MIB : Z := 1024 * 1024.

(** The error of [read_exact_at] at the end of a file, which no system call has. *)
Definition UNEXPECTED_EOF : Z := 0.

(** [read_exact_at]: reads until [n] bytes are there. Each turn reads one byte at least. *)
Fixpoint read_exact (fuel : nat) fh (offset n : Z) : FsM (list byte) :=
  match fuel with
  | O => out_of_fuel
  | S fuel =>
      if n =? 0 then mret []
      else
        data ← Dbfs.read_fh fh offset n;
        if zlen data =? 0 then throw UNEXPECTED_EOF
        else rest ← read_exact fuel fh (offset + zlen data) (n - zlen data); mret (data ++ rest)
  end.

(** The timed loop: what the buffer has been, block by block. *)
Fixpoint read_blocks fh bs order : FsM (list (list byte)) :=
  match order with
  | [] => mret []
  | block :: order =>
      data ← read_exact (S (Z.to_nat bs)) fh (block * bs) bs;
      rest ← read_blocks fh bs order; mret (data :: rest)
  end.

(** The layout phase of [read_job]: the file is created, filled in blocks of a megabyte and
    closed. *)
Definition read_layout p n mode umask uid gid (size : Z) : FsM unit :=
  let buf := payload MIB in
  file ← open_truncated p n mode umask uid gid;
  write_blocks false file.2 MIB buf (seqZ 0 (size / MIB)) ;;
  close_file file.2.

(** What follows it: the file is opened again and read, block by block. *)
Definition read_back p n (size bs : Z) (random : bool) : FsM (list (list byte)) :=
  attr ← Dbfs.lookup p n;
  fh ← Dbfs.open (fa_ino attr);
  order ← unwrap (if random then permutation (size / bs) else Some (seqZ 0 (size / bs)));
  out ← read_blocks fh bs order;
  close_file fh ;;
  mret out.

(** The bytes of [f] in a block. *)
Definition block_data bs f (block : Z) (data : list byte) : Prop :=
  zlen data = bs /\ forall i, 0 <= i < bs -> zget data i = f (block * bs + i).

Lemma wp_read_exact fuel fh ino size f offset (n : Z) (Q : list byte -> Fs -> Prop) (R : Z -> Fs -> Prop) s :
  fs_inv s -> handle_ino (fs_table s) fh = Some ino -> kind_of (tables (fs_db s)) ino = Some RegularFile ->
  contents s ino size f -> 0 <= offset -> 0 <= n -> offset + n <= size -> (1 < fuel)%nat ->
  (forall data s', same_state s s' -> zlen data = n -> (forall i, 0 <= i < n -> zget data i = f (offset + i)) ->
     Q data s') ->
  (forall e s', db_failure e -> same_state s s' -> R e s') ->
  wp (read_exact fuel fh offset n) Q R s.
Proof.
  intros Hinv Hh Hk Hc Ho Hn Hend Hfuel HQ HR. destruct fuel as [|[|fuel]]; [lia..|]. cbn [read_exact].
  destruct (Z.eqb_spec n 0) as [->|Hn0]; [apply wp_ret, HQ; [done|done|lia]|].
  apply wp_bind, wp_read_fh; [done..| | | |done].
  - intros ino' size' g data s' Hh' _ Hc' Hmax [Hlen Hdata] Hs. assert (ino' = ino) as -> by congruence.
    assert (size' = size) as -> by (by eapply contents_size). assert (zlen data = n) as Hl by lia.
    rewrite Hl. destruct (Z.eqb_spec n 0) as [|_]; [done|]. rewrite Z.sub_diag. simpl. apply wp_bind, wp_ret, wp_ret.
    rewrite app_nil_r. apply HQ; [done..|]. intros i Hi. rewrite Hdata by lia.
    destruct Hc as [_ Hf], Hc' as [_ Hg]. by rewrite <- Hf, <- Hg by lia.
  - congruence.
  - intros ino' k error Hh' Hk' Herr. assert (ino' = ino) as -> by congruence. assert (k = RegularFile) as -> by congruence. done.
Qed.

Lemma wp_read_blocks fh ino bs size f order (Q : list (list byte) -> Fs -> Prop) (R : Z -> Fs -> Prop) s :
  fs_inv s -> handle_ino (fs_table s) fh = Some ino -> kind_of (tables (fs_db s)) ino = Some RegularFile ->
  contents s ino size f -> 0 < bs -> (forall b, b ∈ order -> 0 <= b /\ b * bs + bs <= size) ->
  (forall out s', same_state s s' -> Forall2 (block_data bs f) order out -> Q out s') ->
  (forall e s', db_failure e -> same_state s s' -> R e s') ->
  wp (read_blocks fh bs order) Q R s.
Proof.
  revert s Q. induction order as [|block order IH]; intros s Q Hinv Hh Hk Hc Hbs Hall HQ HR; cbn [read_blocks]; [by apply wp_ret, HQ|].
  destruct (Hall block ltac:(by left)) as [Hb0 Hb1].
  apply wp_bind, (wp_read_exact _ fh ino size f); [done..|nia|lia|lia|lia| |done].
  intros data s1 Hs Hlen Hdata. pose proof Hs as (Htab & Htable & _).
  apply wp_bind, IH; rewrite ?Htab, ?Htable; try done.
  - by eapply same_state_inv.
  - unfold contents. by rewrite Htab, Htable.
  - intros b Hb. apply Hall. by right.
  - intros out s2 Hs2 Hf. apply wp_ret, HQ; [by etrans|]. by constructor.
  - intros e s2 He Hs2. apply HR; [done|by etrans].
Qed.

Lemma block_data_ext bs f g order out :
  Forall2 (block_data bs f) order out ->
  (forall b i, b ∈ order -> 0 <= i < bs -> f (b * bs + i) = g (b * bs + i)) ->
  Forall2 (block_data bs g) order out.
Proof.
  induction 1 as [|b data order out [Hl Hd] _ IH]; intros Hfg; constructor.
  - split; [done|]. intros i Hi. rewrite Hd by done. apply Hfg; [by left|done].
  - apply IH. intros b' i Hb. apply Hfg. by right.
Qed.

(** The name of an entry is found. *)
Lemma lookup_not_refused s p n ino e :
  fs_inv s -> child_of (tables (fs_db s)) p n = Some ino -> ~ lookup_refused (tables (fs_db s)) p n e.
Proof.
  intros Hinv Hch [Hlong|Hnone].
  - apply child_of_Some in Hch as (k & d & Hd & _ & <- & _); [|apply Hinv].
    destruct (nw_entry _ (proj2 (fi_db _ _ _ Hinv)) k d Hd) as (_ & _ & _ & Hlen). lia.
  - apply child_of_None in Hnone. congruence.
Qed.

(** The second phase reads each block of the file once, and leaves everything as it was. *)
Lemma wp_read_back p n ino size f bs random s :
  fs_inv s -> valid_ino p -> slot_room (inodes (fs_table s)) -> handles_room s ->
  child_of (tables (fs_db s)) p n = Some ino -> kind_of (tables (fs_db s)) ino = Some RegularFile ->
  contents s ino size f -> 0 < bs -> 0 <= size <= MAX_FILE_SIZE ->
  wp (read_back p n size bs random)
    (fun out s' => job_left s s' p n ino size f /\
       exists order, order ≡ₚ seqZ 0 (size / bs) /\ Forall2 (block_data bs f) order out)
    (fun e s' => db_failure e /\ job_failed s s' p n) s.
Proof.
  intros Hinv Hp Hroom Hhr Hch Hk Hc Hbs Hsz. pose proof (Z.mul_div_le size bs ltac:(lia)) as Hle.
  assert (exists order, (if random then permutation (size / bs) else Some (seqZ 0 (size / bs))) = Some order /\
    order ≡ₚ seqZ 0 (size / bs)) as (order & Horder & Hperm).
  { destruct random; [apply permutation_correct|by eexists]. pose proof (Z.div_pos size bs).
    assert (size / bs <= size) by (apply Z.div_le_upper_bound; nia). clia. }
  unfold read_back. apply wp_bind, wp_lookup_name; [done|done|..].
  2: { intros e s1 He _. exfalso. by eapply lookup_not_refused. }
  2: { intros e s1 He Hs. split; [done|by apply job_failed_state]. }
  intros k d r K attr s1 Hres Hsh Hs1. pose proof Hs1 as (Ht & Hu & _). pose proof (same_state_inv _ _ Hs1 Hinv) as Hinv1.
  assert (fa_ino attr = ino) as ->.
  { rewrite (at_ino _ _ _ _ _ Hsh). unfold child_of in Hch. rewrite (rs_find _ _ _ _ _ _ _ Hres) in Hch. by injection Hch. }
  apply wp_bind, wp_open; rewrite ?Ht, ?Hu;
    [done|by eapply kind_valid; [apply (fi_db _ _ _ Hinv)|]|congruence|done|by unfold handles_room; rewrite Hu|..].
  2: { intros s2 Hno _. exfalso. unfold kind_of in Hk. by rewrite Hno in Hk. }
  2: { intros e s2 He Hs2. split; [done|]. apply job_failed_state; [done|by etrans]. }
  intros fh s2 Hon. assert (job_file s s2 p n fh ino size f) as Hj.
  { apply opened_job_file; [done..|]. by eapply opened_from. }
  rewrite Horder. apply wp_bind, wp_ret, wp_bind. pose proof Hj as [Hinv2 _ Hk2 _ _ _ _ Hfh _ Hc2].
  pose proof (job_file_valid _ _ _ _ _ _ _ _ Hj) as Hi.
  assert (forall s3, same_state s2 s3 -> job_file s s3 p n fh ino size f) as Hsame.
  { intros s3 Hs. pose proof (same_state_inv _ _ Hs Hinv2) as Hinv3. pose proof (quiet_state _ _ Hs) as Hq.
    eapply job_file_step; [exact Hj|done|by apply stable_tree, quiet_stable|by apply quiet_others|by eapply quiet_contents]. }
  apply (wp_read_blocks fh ino bs size f); [done..| | |].
  - intros b Hb. rewrite Hperm, elem_of_seqZ in Hb. nia.
  - intros out s3 Hs3 Hout. apply wp_bind, (wp_close_file s s3 p n fh ino size f); [by apply Hsame|].
    intros s4 Hl. apply wp_ret. split; [done|]. by exists order.
  - intros e s3 He Hs3. split; [done|]. apply (job_file_failed s s2 s3 p n fh ino size f); [done|by eapply same_state_inv| |].
    + apply stable_tree, quiet_stable; [done|by eapply same_state_inv|by apply quiet_state].
    + by apply quiet_others, quiet_state.
Qed.

(** What the reading job reads: every block of the file once, each as it was laid out, where the
    tables have room to open the file again. *)
Lemma read_job_reads p n mode umask uid gid bs m s random :
  fs_inv s -> valid_ino p -> slot_room (inodes (fs_table s)) -> handles_room s ->
  closing (fs_table s) = false ->
  (forall ino, child_of (tables (fs_db s)) p n = Some ino ->
     kind_of (tables (fs_db s)) ino = Some RegularFile) ->
  0 < bs -> 0 <= m -> m * MIB <= MAX_FILE_SIZE ->
  wp (read_layout p n mode umask uid gid (m * MIB))
    (fun _ s1 => slot_room (inodes (fs_table s1)) -> handles_room s1 ->
       wp (read_back p n (m * MIB) bs random)
         (fun out s' => exists ino order, job_left s1 s' p n ino (m * MIB) (filled MIB m (fun _ => x00)) /\
            order ≡ₚ seqZ 0 (m * MIB / bs) /\
            Forall2 (block_data bs (fun q => zget (payload MIB) (q mod MIB))) order out)
         (fun e s' => db_failure e /\ job_failed s1 s' p n) s1)
    (fun e s' => job_error (tables (fs_db s)) p n e /\ job_failed s s' p n) s.
Proof.
  intros Hinv Hp Hroom Hhr Hcl Hreg Hbs Hm Hmax. assert (0 < MIB) as HM by done.
  unfold read_layout. rewrite Z.div_mul by lia. apply wp_bind, wp_open_truncated; try done.
  intros ino fh s1 Hj. eapply wp_mono; [by apply (wp_write_and_close false s s1 p n fh ino MIB m 0); [..|nia|]| |done].
  intros [] s2 (ino' & Hl) Hroom2 Hhr2. pose proof Hl as [Hinv2 Hk2 Htree _ _ _ Hc].
  eapply wp_mono; [apply (wp_read_back p n ino' (m * MIB) (filled MIB m (fun _ => x00)) bs random s2); try done; [|nia]| |done].
  - rewrite (Htree p n). by rewrite decide_True.
  - intros out s3 [Hl3 (order & Hperm & Hout)]. exists ino', order. split_and!; [done..|].
    eapply block_data_ext; [exact Hout|]. intros b i Hb Hi0. unfold filled.
    rewrite Hperm, elem_of_seqZ in Hb. rewrite decide_True; [done|]. pose proof (Z.mul_div_le (m * MIB) bs ltac:(lia)). nia.
Qed.
End jobs.

(** ** Removing a directory while it is listed *)

Section rm_rf.
Context `{World, HashOrder, !EngineLaws H}.
Context (fits : list DbfsDirEntry -> DbfsDirEntry -> bool) (Hfits : forall e, fits [] e = true).
Implicit Types (s : Fs) (t : Tables) (ino p offset : Z) (es : list DbfsDirEntry).

(** [fs::read_dir] leaves out the dots. *)
Definition is_dot (e : DbfsDirEntry) : bool :=
  bool_decide (dd_name e = dot_name) || bool_decide (dd_name e = dotdot_name).

(** The entries of one page, deleted as they stream in. *)
Fixpoint remove_entries ino (es : list DbfsDirEntry) : FsM unit :=
  match es with
  | [] => mret tt
  | e :: es => (if is_dot e then mret tt else Dbfs.unlink ino (dd_name e)) ;; remove_entries ino es
  end.

(** The next page is asked for with the cookie of the last entry, until one is empty. *)
Fixpoint rm_rf (fuel : nat) ino offset : FsM unit :=
  match fuel with
  | O => out_of_fuel
  | S fuel =>
      out ← page fits ino offset;
      match last out with
      | None => mret tt
      | Some e => remove_entries ino out ;; rm_rf fuel ino (dd_offset e)
      end
  end.

(** ** A directory without directories *)

(** No directory below [ino], and no entry with the name of a dot: the kernel makes none. *)
Record flat t ino : Prop := {
  fl_dir : kind_of t ino = Some Directory;
  fl_entry : forall k d, t_dirents t !! k = Some d -> d_parent d = ino ->
    kind_of t (d_child d) <> Some Directory /\ d_name d <> dot_name /\ d_name d <> dotdot_name }.

(** From [s] to [s'] entries of [ino] went, and nothing else that shows. *)
Record thinned ino s s' : Prop := {
  th_inv : fs_inv s';
  th_flat : flat (tables (fs_db s')) ino;
  th_sub : t_dirents (tables (fs_db s')) ⊆ t_dirents (tables (fs_db s));
  th_others : forall k d, t_dirents (tables (fs_db s)) !! k = Some d -> d_parent d <> ino ->
    t_dirents (tables (fs_db s')) !! k = Some d;
  th_files : forall i, valid_ino i ->
    (forall k d, t_dirents (tables (fs_db s)) !! k = Some d -> d_parent d = ino -> d_child d <> i) ->
    same_file (tables (fs_db s)) (fs_table s) (tables (fs_db s')) (fs_table s') i }.

Lemma thinned_refl ino s : fs_inv s -> flat (tables (fs_db s)) ino -> thinned ino s s.
Proof. intros Hinv Hf. by constructor. Qed.

Lemma same_file_trans T1 (u1 : OpenTable) T2 (u2 : OpenTable) T3 (u3 : OpenTable) (i : Z) :
  same_file T1 u1 T2 u2 i -> same_file T2 u2 T3 u3 i -> same_file T1 u1 T3 u3 i.
Proof. intros [A B] [A' B']. split; [congruence|]. intros p Hp. rewrite B' by done. by apply B. Qed.

Lemma thinned_trans ino s1 s2 s3 : thinned ino s1 s2 -> thinned ino s2 s3 -> thinned ino s1 s3.
Proof.
  intros [Hi1 Hf1 Hs1 Ho1 Hfi1] [Hi2 Hf2 Hs2 Ho2 Hfi2]. constructor; [done|done|by etrans|auto|].
  intros i Hv Hno. eapply same_file_trans; [by apply Hfi1|]. apply Hfi2; [done|].
  intros k d Hk. apply (Hno k). by eapply lookup_weaken.
Qed.

Lemma thinned_state ino s s' : fs_inv s -> flat (tables (fs_db s)) ino -> same_state s s' -> thinned ino s s'.
Proof.
  intros Hinv Hf Hs. pose proof (same_state_files _ _ Hs) as Hsf. pose proof (same_state_inv _ _ Hs Hinv) as Hinv'.
  destruct Hs as (Ht & _). constructor; rewrite ?Ht; auto. intros i Hv _. specialize (Hsf i Hv). by rewrite Ht in Hsf.
Qed.

Lemma flat_unlinked t t' ino k d keep :
  names_wf t' -> flat t ino -> t_dirents t !! k = Some d -> d_parent d = ino -> valid_ino (d_child d) ->
  t' ≡ unlink_tables k d keep t -> t_dirents t' = delete k (t_dirents t) -> flat t' ino.
Proof.
  intros Hn [Hd He] Hk Hp Hv Heq Hdel. pose proof (fun i => kind_of_proper _ _ Heq i i eq_refl) as Hkind.
  constructor.
  - rewrite Hkind, unlink_kind by done. rewrite decide_False; [done|]. intros [_ ->]. by destruct (He k d Hk Hp).
  - intros k' d' Hk' Hp'. rewrite Hdel in Hk'. apply lookup_delete_Some in Hk' as [_ Hk'].
    destruct (He k' d' Hk' Hp') as [Hnd Hnames]. split; [|done]. rewrite Hkind, unlink_kind by done. by case_decide.
Qed.

(** One entry less. *)
Lemma wp_unlink_flat ino k d (Q : unit -> Fs -> Prop) (R : Z -> Fs -> Prop) s :
  fs_inv s -> valid_ino ino -> flat (tables (fs_db s)) ino ->
  Z.of_nat (size (t_dirents (tables (fs_db s)))) < U32_MAX ->
  t_dirents (tables (fs_db s)) !! k = Some d -> d_parent d = ino ->
  (forall s', thinned ino s s' ->
     t_dirents (tables (fs_db s')) = delete k (t_dirents (tables (fs_db s))) -> Q tt s') ->
  (forall e s', db_failure e -> same_state s s' -> R e s') ->
  wp (Dbfs.unlink ino (d_name d)) Q R s.
Proof.
  intros Hinv Hi Hflat Hroom Hk Hp HQ HR. pose proof (fi_db _ _ _ Hinv) as [Hd Hn].
  assert (forall k' d', find_entry ino (d_name d) (tables (fs_db s)) = Some (k', d') -> k' = k /\ d' = d) as Huniq.
  { intros k' d' (Hk' & Hp' & Hn')%find_entry_Some; [|done].
    assert (k' = k) as -> by (eapply (nw_unique _ Hn); [done..|congruence|done]). split; [done|congruence]. }
  apply wp_unlink; [done..| | |done].
  - intros k' d' r K s' Hres HK Hinv' _ Ho _ Heq. destruct (Huniq k' d' (rs_find _ _ _ _ _ _ _ Hres)) as [-> ->].
    destruct (resolves_child _ _ _ _ _ _ _ (conj Hd Hn) Hres) as [Hv _].
    assert (t_dirents (tables (fs_db s')) = delete k (t_dirents (tables (fs_db s)))) as Hdel.
    { destruct Heq as [-> _]. apply (unlink_dirents _ k d r K); try done; [apply Hres..|].
      intros [Hle _]%orb_false_iff. by apply Z.ltb_ge in Hle. }
    pose proof (flat_unlinked _ _ _ _ _ _ (proj2 (fi_db _ _ _ Hinv')) Hflat Hk Hp Hv Heq Hdel) as Hflat'.
    apply HQ; [|done]. constructor; [done|done|rewrite Hdel; apply delete_subseteq| |].
    + intros k2 d2 Hk2 Hne. rewrite Hdel. apply lookup_delete_Some. split; [|done]. intros <-. congruence.
    + intros i Hv' Hno. apply Ho; [done|]. intros ->. by eapply Hno.
  - intros e s' He Hs. exfalso. destruct He as [Hlong|Hnone|k' d' r Hres].
    + destruct (nw_entry _ Hn k d Hk) as (_ & _ & _ & Hlen). lia.
    + by apply (proj1 (find_entry_None _ _ _) Hnone k d).
    + destruct (Huniq k' d' (rs_find _ _ _ _ _ _ _ Hres)) as [-> ->].
      destruct (resolves_child _ _ _ _ _ _ _ (conj Hd Hn) Hres) as [_ HK]. by destruct (fl_entry _ _ Hflat k d Hk Hp).
Qed.

(** What a page shows of a flat directory. *)
Definition entry_or_dot t ino (e : DbfsDirEntry) : Prop :=
  is_dot e = true \/
  exists k d, t_dirents t !! k = Some d /\ d_parent d = ino /\ dd_name e = d_name d /\ dd_offset e = k + DOTDOT.

Lemma stream_entry_or_dot t ino e : stream_entry t ino e -> entry_or_dot t ino e.
Proof.
  intros [->|[->|(k & d & K & Hk & Hp & _ & ->)]]; [by left..|]. right. by exists k, d.
Qed.

Lemma thinned_room ino s s' :
  thinned ino s s' -> Z.of_nat (size (t_dirents (tables (fs_db s)))) < U32_MAX ->
  Z.of_nat (size (t_dirents (tables (fs_db s')))) < U32_MAX.
Proof. intros Ht Hroom. pose proof (map_subseteq_size _ _ (th_sub _ _ _ Ht)). lia. Qed.

Lemma thinned_cookies ino s s' :
  thinned ino s s' -> cookies_fit (tables (fs_db s)) -> cookies_fit (tables (fs_db s')).
Proof. intros Ht Hfit k [d Hk]. apply Hfit. exists d. eapply lookup_weaken; [done|apply Ht]. Qed.

Lemma wp_remove_entries ino es (Q : unit -> Fs -> Prop) (R : Z -> Fs -> Prop) s :
  fs_inv s -> valid_ino ino -> flat (tables (fs_db s)) ino ->
  Z.of_nat (size (t_dirents (tables (fs_db s)))) < U32_MAX ->
  StronglySorted Z.lt (dd_offset <$> es) -> Forall (entry_or_dot (tables (fs_db s)) ino) es ->
  (forall s', thinned ino s s' ->
     (forall e k, e ∈ es -> is_dot e = false -> dd_offset e = k + DOTDOT ->
        t_dirents (tables (fs_db s')) !! k = None) -> Q tt s') ->
  (forall e s', db_failure e -> thinned ino s s' -> R e s') ->
  wp (remove_entries ino es) Q R s.
Proof.
  revert s Q. induction es as [|e es IH]; intros s Q Hinv Hi Hflat Hroom Hs Hall HQ HR; simpl.
  - apply wp_ret, HQ; [by apply thinned_refl|]. by intros e k ?%elem_of_nil.
  - apply StronglySorted_inv in Hs as [Hs Hlt]. apply Forall_cons in Hall as [He Hall].
    apply wp_bind. destruct (is_dot e) eqn:Hdot.
    + apply wp_ret, IH; try done. intros s' Ht Hgone. apply HQ; [done|].
      intros e' k [->|Hin]%elem_of_cons; [congruence|by apply Hgone].
    + destruct He as [|(k & d & Hk & Hp & -> & Ho)]; [congruence|].
      eapply (wp_unlink_flat ino k d); try done.
      2: { intros e' s' Hf Hss. apply HR; [done|by apply thinned_state]. }
      intros s1 Ht Hdel. apply IH; [apply Ht|done|apply Ht|by eapply thinned_room|done|..].
      * apply Forall_forall. intros e' He'. rewrite Forall_forall in Hall. destruct (Hall e' He') as [?|(k' & d' & Hk' & Hp' & Hn' & Ho')]; [by left|].
        right. exists k', d'. split_and!; try done. rewrite Hdel. apply lookup_delete_Some. split; [|done].
        rewrite Forall_forall in Hlt. specialize (Hlt (dd_offset e') ltac:(by apply list_elem_of_fmap_2)). lia.
      * intros s' Ht' Hgone. apply HQ; [by eapply thinned_trans|].
        intros e' k' [->|Hin]%elem_of_cons Hd Ho'; [|by eapply Hgone].
        assert (k' = k) as -> by lia. destruct (t_dirents (tables (fs_db s')) !! k) as [d'|] eqn:Hk'; [|done].
        pose proof (lookup_weaken _ _ _ _ Hk' (th_sub _ _ _ Ht')) as Hk1. by rewrite Hdel, lookup_delete_eq in Hk1.
      * intros e' s' Hf Ht'. apply HR; [done|by eapply thinned_trans].
Qed.

(** The cookies of the dots that a listing after [offset] still shows. *)
Definition dots_left offset : Z := if offset <? DOT then 2 else if offset <? DOTDOT then 1 else 0.

Lemma dots_left_range offset offset' : offset <= offset' -> 0 <= dots_left offset' <= dots_left offset.
Proof.
  unfold dots_left, DOT, DOTDOT. destruct (Z.ltb_spec offset 1), (Z.ltb_spec offset 2), (Z.ltb_spec offset' 1), (Z.ltb_spec offset' 2); lia.
Qed.

Lemma child_count_less ino t t' k d :
  t_dirents t' ⊆ t_dirents t -> t_dirents t !! k = Some d -> d_parent d = ino -> t_dirents t' !! k = None ->
  child_count ino t' < child_count ino t.
Proof.
  intros Hsub Hk Hp Hno. unfold child_count.
  assert (filter (fun e : Z * DirentRow => d_parent e.2 = ino) (t_dirents t') ⊆
    delete k (filter (fun e : Z * DirentRow => d_parent e.2 = ino) (t_dirents t))) as Hss%map_subseteq_size.
  { apply map_subseteq_spec. intros k' d' [Hk' Hp']%map_lookup_filter_Some. apply lookup_delete_Some.
    split; [intros <-; congruence|]. apply map_lookup_filter_Some. split; [by eapply lookup_weaken|done]. }
  assert (filter (fun e : Z * DirentRow => d_parent e.2 = ino) (t_dirents t) !! k = Some d) as Hf
    by (by apply map_lookup_filter_Some).
  pose proof (map_size_delete_Some _ _ (mk_is_Some _ _ Hf)) as Hsz. rewrite Hsz in Hss.
  assert (size (filter (fun e : Z * DirentRow => d_parent e.2 = ino) (t_dirents t)) <> 0%nat) as Hne; [|lia].
  apply map_size_non_empty_iff. intros He. by rewrite He in Hf.
Qed.

Lemma child_count_le ino t t' : t_dirents t' ⊆ t_dirents t -> child_count ino t' <= child_count ino t.
Proof.
  intros Hsub. unfold child_count. by apply inj_le, map_subseteq_size, map_filter_subseteq_mono.
Qed.

Lemma child_count_zero ino t :
  (forall k d, t_dirents t !! k = Some d -> d_parent d <> ino) -> child_count ino t = 0.
Proof.
  intros Hno. unfold child_count. fold (entry_count (fun d => d_parent d = ino) (t_dirents t)).
  by apply entry_count_zero.
Qed.

Lemma wp_rm_rf fuel ino offset (Q : unit -> Fs -> Prop) (R : Z -> Fs -> Prop) s :
  fs_inv s -> valid_ino ino -> flat (tables (fs_db s)) ino ->
  Z.of_nat (size (t_dirents (tables (fs_db s)))) < U32_MAX -> cookies_fit (tables (fs_db s)) ->
  0 <= offset <= I64_MAX ->
  (forall k d, t_dirents (tables (fs_db s)) !! k = Some d -> d_parent d = ino -> offset < k + DOTDOT) ->
  child_count ino (tables (fs_db s)) + dots_left offset < Z.of_nat fuel ->
  (forall s', thinned ino s s' -> child_count ino (tables (fs_db s')) = 0 -> Q tt s') ->
  (forall e s', db_failure e -> thinned ino s s' -> R e s') ->
  wp (rm_rf fuel ino offset) Q R s.
Proof.
  revert s offset Q. induction fuel as [|fuel IH]; intros s offset Q Hinv Hi Hflat Hroom Hfit Ho Hleft Hfuel HQ HR.
  { pose proof (dots_left_range offset offset ltac:(lia)). unfold child_count in Hfuel. lia. }
  pose proof (fi_db _ _ _ Hinv) as Hwf. pose proof (proj2 Hwf) as Hn. simpl. apply wp_bind, (wp_page fits Hfits); try done.
  2: { intros s' (K & HK & Hne) _. pose proof (fl_dir _ _ Hflat). congruence. }
  2: { intros s' Hno _. pose proof (fl_dir _ _ Hflat) as HK. unfold kind_of in HK. by rewrite Hno in HK. }
  2: { intros e s' He Hs. apply HR; [done|by apply thinned_state]. }
  intros out s1 Hss Hpg.
  assert (forall k d, t_dirents (tables (fs_db s)) !! k = Some d -> d_parent d = ino ->
    exists e, stream_entry (tables (fs_db s)) ino e /\ dd_name e = d_name d /\ dd_offset e = k + DOTDOT) as Hentry.
  { intros k d Hk Hp. destruct (nw_entry _ Hn k d Hk) as (_ & _ & [K HK] & _).
    exists (mkDbfsDirEntry (d_name d) (d_child d) (file_type K) (k + DOTDOT)). split_and!; [|done..].
    right; right. by exists k, d, K. }
  pose proof (thinned_state ino s s1 Hinv Hflat Hss) as Ht1. pose proof Hss as (Htab & _).
  destruct (last out) as [l|] eqn:Hl.
  2: { apply wp_ret, HQ; [done|]. rewrite Htab. apply child_count_zero. intros k d Hk Hp.
    destruct (Hentry k d Hk Hp) as (e & He & _ & Hoe).
    destruct (page_of_rest _ _ _ _ e Hpg He) as [Hin|(l & Hl' & _)]; [rewrite Hoe; by eapply Hleft| |congruence].
    apply last_None in Hl as ->. by apply elem_of_nil in Hin. }
  assert (l ∈ out) as Hin by (apply last_Some in Hl as [l' ->]; apply elem_of_app; right; by left).
  destruct (page_of_entry _ _ _ _ _ Hpg Hin) as [Hsl Hlt].
  apply wp_bind, wp_remove_entries; [apply Ht1|done|apply Ht1|by eapply thinned_room|by eapply page_of_sorted|..].
  { apply Forall_forall. intros e He. rewrite Htab. by eapply stream_entry_or_dot, page_of_entry. }
  2: { intros e s' He Ht. apply HR; [done|by eapply thinned_trans]. }
  intros s2 Ht2 Hgone. pose proof (thinned_trans _ _ _ _ Ht1 Ht2) as Ht.
  assert (forall e k d, e ∈ out -> t_dirents (tables (fs_db s)) !! k = Some d -> d_parent d = ino ->
    dd_name e = d_name d -> dd_offset e = k + DOTDOT -> t_dirents (tables (fs_db s2)) !! k = None) as Hgone'.
  { intros e k d He Hk Hp Hne Hoe. apply (Hgone e); [done| |done]. unfold is_dot. rewrite Hne.
    destruct (fl_entry _ _ Hflat k d Hk Hp) as (_ & H1 & H2). by rewrite !bool_decide_eq_false_2. }
  apply IH; [apply Ht|done|apply Ht|by eapply thinned_room|by eapply thinned_cookies| | | | |].
  - by eapply stream_cookie.
  - intros k d Hk2 Hp. pose proof (lookup_weaken _ _ _ _ Hk2 (th_sub _ _ _ Ht)) as Hk.
    destruct (Hentry k d Hk Hp) as (e & He & Hne & Hoe).
    destruct (page_of_rest _ _ _ _ e Hpg He) as [Hine|(l' & Hl' & Hltl)]; [rewrite Hoe; by eapply Hleft| |].
    + by rewrite (Hgone' e k d) in Hk2.
    + simplify_eq. lia.
  - pose proof (child_count_le ino _ _ (th_sub _ _ _ Ht)) as Hle.
    pose proof (dots_left_range offset (dd_offset l) ltac:(lia)) as Hdl.
    destruct Hsl as [->|[->|(k & d & K & Hk & Hp & _ & ->)]].
    + simpl in *. unfold dots_left, DOT, DOTDOT in *. destruct (Z.ltb_spec offset 1); simpl in *; lia.
    + simpl in *. unfold dots_left, DOT, DOTDOT in *. destruct (Z.ltb_spec offset 1), (Z.ltb_spec offset 2); simpl in *; lia.
    + pose proof (child_count_less ino _ _ k d (th_sub _ _ _ Ht) Hk Hp) as Hless.
      rewrite (Hgone' _ k d Hin) in Hless by done. specialize (Hless eq_refl). lia.
  - intros s' Ht' Hz. apply HQ; [by eapply thinned_trans|done].
  - intros e s' He Ht'. apply HR; [done|by eapply thinned_trans].
Qed.

(** ** The directory itself *)

(** The names after a directory [ino] with the name [n] in [p] was emptied and removed. *)
Definition tree_removed (T T' : Tables) p n ino : Prop :=
  forall p' n', child_of T' p' n' =
    if decide (p' = ino \/ (p' = p /\ n' = n)) then None else child_of T p' n'.

Lemma child_of_thinned ino s s' p n :
  fs_inv s -> thinned ino s s' -> p <> ino ->
  child_of (tables (fs_db s')) p n = child_of (tables (fs_db s)) p n.
Proof.
  intros Hinv Ht Hp. pose proof (proj2 (fi_db _ _ _ Hinv)) as Hn.
  pose proof (proj2 (fi_db _ _ _ (th_inv _ _ _ Ht))) as Hn'.
  apply option_eq. intros c. rewrite !child_of_Some by done. split; intros (k & d & Hk & <- & Hd).
  - exists k, d. split; [|done]. eapply lookup_weaken; [done|apply Ht].
  - exists k, d. split; [|done]. by apply (th_others _ _ _ Ht).
Qed.

Lemma child_of_empty t ino n : names_wf t -> child_count ino t = 0 -> child_of t ino n = None.
Proof.
  intros Hn Hz. apply child_of_None, find_entry_None. intros k d Hk Hp. exfalso. revert Hz. unfold child_count.
  fold (entry_count (fun d => d_parent d = ino) (t_dirents t)). rewrite entry_count_zero. intros Hno. by eapply Hno.
Qed.

(** What the removal of directory [ino], [n] in [p], leaves: no name of it or in it, and every
    file that had no name in it as it was. *)
Record dir_gone s s' p n ino : Prop := {
  dg_inv : fs_inv s';
  dg_row : t_inodes (tables (fs_db s')) !! ino = None;
  dg_tree : tree_removed (tables (fs_db s)) (tables (fs_db s')) p n ino;
  dg_files : forall i, valid_ino i -> i <> ino ->
    (forall n', child_of (tables (fs_db s)) ino n' <> Some i) ->
    same_file (tables (fs_db s)) (fs_table s) (tables (fs_db s')) (fs_table s') i }.

(** The entry of a flat directory is in another one. *)
Lemma flat_parent t p n ino :
  names_wf t -> child_of t p n = Some ino -> flat t ino -> p <> ino.
Proof.
  intros Hn (k & d & Hk & Hkp & _ & Hkc)%child_of_Some Hflat ->; [|done].
  destruct (fl_entry _ _ Hflat k d Hk Hkp) as [Hnd _]. by rewrite Hkc, (fl_dir _ _ Hflat) in Hnd.
Qed.

(** The directory itself, once its entries are gone. *)
Lemma wp_rmdir_emptied p n ino (Q : unit -> Fs -> Prop) (R : Z -> Fs -> Prop) s s1 :
  fs_inv s -> valid_ino p -> child_of (tables (fs_db s)) p n = Some ino -> flat (tables (fs_db s)) ino ->
  thinned ino s s1 -> child_count ino (tables (fs_db s1)) = 0 ->
  (forall s', dir_gone s s' p n ino -> Q tt s') ->
  (forall e s', db_failure e -> same_state s1 s' -> R e s') ->
  wp (Dbfs.rmdir p n) Q R s1.
Proof.
  intros Hinv Hp Hc Hflat Ht Hz HQ HR. pose proof (proj2 (fi_db _ _ _ Hinv)) as Hn.
  pose proof (flat_parent _ _ _ _ Hn Hc Hflat) as Hne.
  pose proof (th_inv _ _ _ Ht) as Hinv1. pose proof (fi_db _ _ _ Hinv1) as Hwf1.
  pose proof Hc as Hc1. rewrite <- (child_of_thinned ino s s1) in Hc1 by done.
  apply child_of_Some in Hc1 as (k & d & Hk & Hkp & Hkn & Hkc); [|apply Hwf1].
  assert (find_entry p n (tables (fs_db s1)) = Some (k, d)) as Hf1 by (apply find_entry_Some; [apply Hwf1|done]).
  assert (forall k' d' r' K, resolves (tables (fs_db s1)) p n k' d' r' K -> d_child d' = ino) as Huniq
    by (intros k' d' r' K [Hf']; by simplify_eq).
  apply wp_rmdir; [done..| | |done].
  - intros k' d' r' s' Hres Hz' Hinv' _ Ho Hgone Heq. pose proof (Huniq _ _ _ _ Hres) as Hd'. rewrite Hd' in *.
    apply HQ. constructor; [done|done| |].
    + intros p' n'. rewrite (child_of_rmdir _ _ _ _ _ _ _ p' n' Hwf1 (fi_db _ _ _ Hinv') Hres) by (by rewrite ?Hd').
      destruct (decide (p' = p /\ n' = n)); [by rewrite decide_True by auto|].
      destruct (decide (p' = ino)) as [->|Hp'].
      * rewrite decide_True by auto. apply child_of_empty; [apply Hwf1|done].
      * rewrite decide_False by tauto. by apply (child_of_thinned ino).
    + intros i Hv Hni Hno. eapply same_file_trans; [apply (th_files _ _ _ Ht); [done|]|by apply Ho].
      intros k2 d2 Hk2 Hp2 Hci. apply (Hno (d_name d2)), child_of_Some; [done|]. by exists k2, d2.
  - intros e s' He _. exfalso. destruct He as [Hlong|Hnone|k' d' r' K Hres HK|k' d' r' Hres Hfull].
    + destruct (nw_entry _ (proj2 Hwf1) k d Hk) as (_ & _ & _ & Hlen). rewrite Hkn in Hlen. lia.
    + congruence.
    + destruct (resolves_child _ _ _ _ _ _ _ Hwf1 Hres) as [_ HK'].
      rewrite (Huniq _ _ _ _ Hres), (fl_dir _ _ (th_flat _ _ _ Ht)) in HK'. congruence.
    + by rewrite (Huniq _ _ _ _ Hres) in Hfull.
Qed.

(** The removal of the entries, from the first page on. *)
Lemma wp_rm_rf_all fuel ino (Q : unit -> Fs -> Prop) (R : Z -> Fs -> Prop) s :
  fs_inv s -> flat (tables (fs_db s)) ino ->
  Z.of_nat (size (t_dirents (tables (fs_db s)))) < U32_MAX -> cookies_fit (tables (fs_db s)) ->
  child_count ino (tables (fs_db s)) + 2 < Z.of_nat fuel ->
  (forall s', thinned ino s s' -> child_count ino (tables (fs_db s')) = 0 -> Q tt s') ->
  (forall e s', db_failure e -> thinned ino s s' -> R e s') ->
  wp (rm_rf fuel ino 0) Q R s.
Proof.
  intros Hinv Hflat Hroom Hfit Hfuel HQ HR. pose proof (fi_db _ _ _ Hinv) as [Hd Hn].
  apply wp_rm_rf; try done; [by eapply kind_valid, fl_dir|].
  intros k d Hk _. destruct (nw_entry _ Hn k d Hk) as [Hpos _]. unfold DOTDOT. lia.
Qed.

(** ** Listing the entries *)

(** What [ReadDir] gives: an entry, or the error of a read, which is its last item. *)
Definition DirItem : Type := DbfsDirEntry + Z.

(** The entries of a listing that are no dots. *)
Definition plain (L : list DbfsDirEntry) : list DbfsDirEntry := filter (fun e => is_dot e = false) L.

(** The items of a directory that was opened, from [offset] on. *)
Fixpoint dir_items (fuel : nat) ino offset : FsM (list DirItem) :=
  match fuel with
  | O => out_of_fuel
  | S fuel =>
      match_result (page fits ino offset)
        (fun out =>
           match last out with
           | None => mret []
           | Some e => items ← dir_items fuel ino (dd_offset e); mret ((inl <$> plain out) ++ items)
           end)
        (fun e => mret [inr e])
  end.

(** [fs::read_dir] opens the directory [n] of [p]. *)
Definition open_dir p (n : list byte) : FsM Z :=
  attr ← Dbfs.lookup p n;
  match fa_kind attr with FtDirectory => mret (fa_ino attr) | _ => throw ENOTDIR end.

Lemma lists_nodup t ino offset L : lists t ino offset L -> NoDup L.
Proof.
  intros [Hs _]. apply (NoDup_fmap_1 dd_offset). clear -Hs. induction Hs as [|x l _ IH Hx]; constructor; [|done].
  intros Hin. rewrite Forall_forall in Hx. specialize (Hx _ Hin). lia.
Qed.

Lemma lists_unique t ino offset L L' : lists t ino offset L -> lists t ino offset L' -> L = L'.
Proof.
  intros H1 H2. set (before := fun x y : DbfsDirEntry => dd_offset x < dd_offset y).
  assert (forall M, StronglySorted Z.lt (dd_offset <$> M) -> StronglySorted before M) as Hs.
  { induction M as [|x M IH]; intros Hs; [constructor|].
    rewrite fmap_cons in Hs. apply StronglySorted_inv in Hs as [Hs Hx]. constructor; [by apply IH|].
    rewrite Forall_fmap in Hx. exact Hx. }
  assert (AntiSymm (=) before) by (intros x y; unfold before; lia).
  apply (StronglySorted_unique before); [by apply Hs, H1|by apply Hs, H2|].
  apply NoDup_Permutation; [by eapply lists_nodup..|]. intros e. by rewrite (proj2 H1), (proj2 H2).
Qed.

Lemma sorted_last (out : list DbfsDirEntry) e x :
  StronglySorted Z.lt (dd_offset <$> out) -> last out = Some e -> x ∈ out -> dd_offset x <= dd_offset e.
Proof.
  intros Hs [out' ->]%last_Some Hx. rewrite fmap_app in Hs. apply StronglySorted_app in Hs as [Hs _].
  apply elem_of_app in Hx as [Hx| ->%list_elem_of_singleton]; [|done].
  enough (dd_offset x < dd_offset e) by lia. apply Hs; [by apply list_elem_of_fmap_2|by left].
Qed.

(** What is left of a listing after a page. *)
Lemma lists_suffix t ino offset out rest e :
  lists t ino offset (out ++ rest) -> last out = Some e -> lists t ino (dd_offset e) rest.
Proof.
  intros [Hs Hin] He. rewrite fmap_app in Hs. pose proof (proj1 (StronglySorted_app _ _ _) Hs) as (Hcross & Hso & Hsr).
  assert (e ∈ out) as Heo by (apply last_Some in He as [out' ->]; apply elem_of_app; right; by left).
  destruct (proj1 (Hin e) ltac:(apply elem_of_app; by left)) as [_ Ho]. split; [done|]. intros x. split.
  - intros Hx. split; [|by apply Hcross; apply list_elem_of_fmap_2]. apply (Hin x), elem_of_app. by right.
  - intros [Hx Hlx]. assert (x ∈ out ++ rest) as [Hxo|Hxr]%elem_of_app by (apply Hin; split; [done|lia]); [|done].
    pose proof (sorted_last _ _ _ Hso He Hxo). lia.
Qed.

(** A listing of [L]: all of it, or the part before a failure of the database, and that failure. *)
Inductive items_of (L : list DbfsDirEntry) : list DirItem -> Prop :=
  | items_all : items_of L (inl <$> plain L)
  | items_cut L1 L2 e : plain L = L1 ++ L2 -> db_failure e -> items_of L ((inl <$> L1) ++ [inr e]).

Lemma items_of_app L L' items :
  items_of L' items -> items_of (L ++ L') ((inl <$> plain L) ++ items).
Proof.
  assert (plain (L ++ L') = plain L ++ plain L') as Happ by apply filter_app.
  intros [|L1 L2 e Hcut He].
  - rewrite <- fmap_app, <- Happ. constructor.
  - rewrite app_assoc, <- fmap_app. apply (items_cut _ _ L2); [|done]. by rewrite Happ, Hcut, app_assoc.
Qed.

Lemma wp_dir_items fuel ino offset L (Q : list DirItem -> Fs -> Prop) (R : Z -> Fs -> Prop) s :
  fs_inv s -> valid_ino ino -> kind_of (tables (fs_db s)) ino = Some Directory ->
  cookies_fit (tables (fs_db s)) -> 0 <= offset <= I64_MAX ->
  lists (tables (fs_db s)) ino offset L -> (length L < fuel)%nat ->
  (forall items s', same_state s s' -> items_of L items -> Q items s') ->
  wp (dir_items fuel ino offset) Q R s.
Proof.
  revert s offset L Q. induction fuel as [|fuel IH]; intros s offset L Q Hinv Hi Hk Hfit Ho HL Hfuel HQ; [lia|].
  pose proof (fi_db _ _ _ Hinv) as Hwf. simpl. apply wp_match_result, (wp_page fits Hfits); try done.
  2: { intros s' (K & HK & Hne) _. congruence. }
  2: { intros s' Hno _. unfold kind_of in Hk. by rewrite Hno in Hk. }
  2: { intros e s' He Hs. apply wp_ret, HQ; [done|]. by apply (items_cut L [] (plain L)). }
  intros out s1 Hss (rest & HL' & Hnil). pose proof (lists_unique _ _ _ _ _ HL HL') as ->.
  pose proof Hss as (Htab & _). destruct (last out) as [e|] eqn:He.
  - pose proof (lists_suffix _ _ _ _ _ _ HL' He) as Hsuf.
    assert (e ∈ out ++ rest) as Hin by (apply last_Some in He as [out' ->]; rewrite <- app_assoc; apply elem_of_app; right; by left).
    apply HL' in Hin as [Hse Hlt]. apply wp_bind, (IH _ _ rest); rewrite ?Htab; try done.
    + by eapply same_state_inv.
    + by eapply stream_cookie; [apply Hwf|..].
    + rewrite length_app in Hfuel. destruct out; [done|]. simpl in *. lia.
    + intros items s2 Hss2 Hit. apply wp_ret, HQ; [by etrans|by apply items_of_app].
  - apply last_None in He as ->. apply wp_ret, HQ; [done|]. rewrite (Hnil eq_refl). constructor.
Qed.

Lemma entries_count t ino : names_wf t -> zlen (entries_after ino 0 t) = child_count ino t.
Proof.
  intros Hn. unfold zlen, child_count, entries_after. f_equal. rewrite merge_sort_Permutation.
  rewrite <- (length_map_to_list (filter _ (t_dirents t))). apply Permutation_length, NoDup_Permutation.
  - apply NoDup_filter, NoDup_map_to_list.
  - apply NoDup_map_to_list.
  - intros [k d]. rewrite list_elem_of_filter, !elem_of_map_to_list, map_lookup_filter_Some. simpl.
    split; [tauto|]. intros [Hk Hp]. destruct (nw_entry _ Hn k d Hk) as [Hpos _]. tauto || (split_and!; [done|lia|done]).
Qed.

(** A flat directory is listed with one entry for each of its rows. *)
Lemma flat_listing t ino :
  fs_wf t -> cookies_fit t -> flat t ino ->
  exists L, lists t ino 0 L /\ zlen (plain L) = child_count ino t /\ zlen L = child_count ino t + 2.
Proof.
  intros Hwf Hfit Hflat. pose proof (proj2 Hwf) as Hn.
  destruct (joined_rows t ino 0 Hn) as [Hin Hsort]. set (rows := omap _ _) in *.
  exists (dots t ino 0 ++ (shown <$> rows)). split; [by apply lists_rows|].
  assert (zlen rows = child_count ino t) as Hrows.
  { rewrite <- (entries_count t ino Hn). unfold zlen. f_equal. rewrite <- (length_fmap fst). f_equal. apply omap_join_fst.
    intros [k d] He. unfold entries_after in He. rewrite list_elem_of_filter, merge_sort_Permutation in He.
    destruct He as [_ He%elem_of_map_to_list]. by apply entry_joins. }
  split.
  - unfold plain. rewrite filter_app, zlen_app, <- Hrows. assert (filter (fun e => is_dot e = false) (shown <$> rows) = shown <$> rows) as ->.
    { apply filter_all, Forall_forall. intros e (x & -> & Hx)%list_elem_of_fmap. apply Hin in Hx as [(Hk & Hp & _) _].
      destruct (fl_entry _ _ Hflat _ _ Hk Hp) as (_ & H1 & H2). unfold is_dot, shown. simpl. by rewrite !bool_decide_eq_false_2. }
    unfold zlen. by rewrite length_fmap.
  - unfold dots. rewrite zlen_app. simpl. unfold zlen in *. rewrite length_fmap. simpl. lia.
Qed.

(** The directory opens. *)
Lemma wp_open_dir p n ino (Q : Z -> Fs -> Prop) (R : Z -> Fs -> Prop) s :
  fs_inv s -> valid_ino p -> child_of (tables (fs_db s)) p n = Some ino ->
  kind_of (tables (fs_db s)) ino = Some Directory ->
  (forall s', same_state s s' -> Q ino s') -> (forall e s', db_failure e -> same_state s s' -> R e s') ->
  wp (open_dir p n) Q R s.
Proof.
  intros Hinv Hp Hch Hk HQ HR. apply wp_bind, wp_lookup_name; [done|done| | |done].
  - intros k d r K attr s1 Hres Hsh Hs.
    assert (d_child d = ino) as Hd
      by (unfold child_of in Hch; rewrite (rs_find _ _ _ _ _ _ _ Hres) in Hch; by injection Hch).
    destruct (resolves_child _ _ _ _ _ _ _ (fi_db _ _ _ Hinv) Hres) as [_ HK]. rewrite Hd, Hk in HK. injection HK as <-.
    rewrite (at_type _ _ _ _ _ Hsh), (at_ino _ _ _ _ _ Hsh), Hd. by apply wp_ret, HQ.
  - intros e s1 He _. exfalso. by eapply lookup_not_refused.
Qed.

(** What [big_dir] does after the creation of the files in directory [n] of [p]: the items that
    were listed, whether the directory could be removed, and the items that were left over. The
    benchmark reports the number of the items. *)
Definition big_dir (fuel : nat) p (n : list byte) : FsM (list DirItem * bool * list DirItem) :=
  ino ← open_dir p n;
  listed ← dir_items fuel ino 0;
  ino ← open_dir p n;
  rm_rf fuel ino 0 ;;
  rm_ok ← match_result (Dbfs.rmdir p n) (fun _ => mret true) (fun _ => mret false);
  leftover ← (if rm_ok : bool then mret []
              else match_result (open_dir p n) (fun ino => dir_items fuel ino 0) (fun _ => mret []));
  mret (listed, rm_ok, leftover).

(** The items of a listing of directory [ino]: its entries in the order of their cookies, or
    those before a failure of the database, which is an item too. *)
Definition dir_listed (T : Tables) ino (items : list DirItem) : Prop :=
  exists L, lists T ino 0 L /\ items_of L items /\
    (zlen items = child_count ino T \/
     exists e, last items = Some (inr e) /\ db_failure e /\ zlen items <= child_count ino T + 1).

Lemma items_listed T ino L items :
  lists T ino 0 L -> zlen (plain L) = child_count ino T -> items_of L items -> dir_listed T ino items.
Proof.
  intros HL Hc Hit. exists L. split_and!; [done..|]. destruct Hit as [|L1 L2 e Hcut He].
  - left. unfold zlen in *. by rewrite length_fmap.
  - right. exists e. rewrite last_snoc. split_and!; [done..|]. rewrite Hcut, zlen_app in Hc.
    rewrite zlen_app. pose proof (zlen_nonneg L2). unfold zlen in *. rewrite length_fmap. simpl. lia.
Qed.

(** The listing of a flat directory. *)
Lemma wp_list_flat fuel ino (Q : list DirItem -> Fs -> Prop) (R : Z -> Fs -> Prop) s :
  fs_inv s -> flat (tables (fs_db s)) ino -> cookies_fit (tables (fs_db s)) ->
  child_count ino (tables (fs_db s)) + 2 < Z.of_nat fuel ->
  (forall items s', same_state s s' -> dir_listed (tables (fs_db s)) ino items -> Q items s') ->
  wp (dir_items fuel ino 0) Q R s.
Proof.
  intros Hinv Hflat Hfit Hfuel HQ. pose proof (fi_db _ _ _ Hinv) as Hwf.
  pose proof (kind_valid _ _ _ (proj1 Hwf) (fl_dir _ _ Hflat)) as Hi.
  destruct (flat_listing _ _ Hwf Hfit Hflat) as (L & HL & Hcount & Hlen).
  apply (wp_dir_items fuel ino 0 L); [done|done|apply Hflat|done|done|done|unfold zlen in *; lia|].
  intros items s' Hs Hit. apply HQ; [done|]. by eapply items_listed.
Qed.

(** A listing of an empty directory shows no entry. *)
Lemma listed_empty T ino items :
  child_count ino T = 0 -> dir_listed T ino items -> items = [] \/ exists e, db_failure e /\ items = [inr e].
Proof.
  intros Hz (L & _ & _ & [Hl|(e & Hl & He & Hlen)]); rewrite Hz in *.
  - left. destruct items; [done|]. unfold zlen in Hl. simpl in Hl. lia.
  - right. exists e. split; [done|]. apply last_Some in Hl as [items' ->]. rewrite zlen_app in Hlen.
    destruct items'; [done|]. unfold zlen in Hlen. simpl in Hlen. lia.
Qed.

(** C24. The stages of the benchmark's large directory after its creation: the listing has the
    entry of each file in the order of the cookies, however many a page has room for, so that as
    many are counted as there are files; only a failure of the database cuts it short, and is
    then counted as one item. Deleting the entries while the directory is listed comes to an end
    and leaves none over: when the directory could be removed, no name of it is left, and no
    other name and no other file has changed; when it could not, it is empty, and what is
    counted as left over is at most one failure to list it. Only the database makes the stages
    fail. *)
Theorem big_dir_reports fuel p n ino s :
  fs_inv s -> valid_ino p -> child_of (tables (fs_db s)) p n = Some ino -> flat (tables (fs_db s)) ino ->
  Z.of_nat (size (t_dirents (tables (fs_db s)))) < U32_MAX -> cookies_fit (tables (fs_db s)) ->
  child_count ino (tables (fs_db s)) + 2 < Z.of_nat fuel ->
  wp (big_dir fuel p n)
    (fun '(listed, rm_ok, leftover) s' =>
       dir_listed (tables (fs_db s)) ino listed /\
       if rm_ok : bool then leftover = [] /\ dir_gone s s' p n ino
       else thinned ino s s' /\ child_count ino (tables (fs_db s')) = 0 /\
         (leftover = [] \/ exists e, db_failure e /\ leftover = [inr e]))
    (fun e s' => db_failure e /\ thinned ino s s') s.
Proof.
  intros Hinv Hp Hc Hflat Hroom Hfit Hfuel.
  assert (forall s1 s', thinned ino s s1 -> same_state s1 s' -> thinned ino s s') as Hsame.
  { intros s1 s' Ht Hs. eapply thinned_trans; [exact Ht|]. by eapply thinned_state; [apply Ht..|]. }
  pose proof (thinned_refl ino s Hinv Hflat) as Ht0.
  apply wp_bind, (wp_open_dir p n ino); [done|done|done|apply Hflat| |by eauto].
  intros s1 Hs1. pose proof (same_state_inv _ _ Hs1 Hinv) as Hinv1. pose proof Hs1 as (Ht1 & _).
  apply wp_bind, wp_list_flat; rewrite ?Ht1; [done..|]. intros listed s2 Hs2 Hlisted.
  assert (same_state s s2) as Hs02 by (by etrans). pose proof (same_state_inv _ _ Hs02 Hinv) as Hinv2. pose proof Hs02 as (Ht2 & _).
  apply wp_bind, (wp_open_dir p n ino); rewrite ?Ht2; [done|done|done|apply Hflat| |by eauto].
  intros s3 Hs3. assert (same_state s s3) as Hs03 by (by etrans). pose proof (same_state_inv _ _ Hs03 Hinv) as Hinv3.
  pose proof Hs03 as (Ht3 & _). pose proof (Hsame _ _ Ht0 Hs03) as Hth3.
  apply wp_bind, wp_rm_rf_all; rewrite ?Ht3; [done..| |].
  2: { intros e s' He Ht. split; [done|by eapply thinned_trans]. }
  intros s4 Ht4 Hz. pose proof (thinned_trans _ _ _ _ Hth3 Ht4) as Ht. pose proof (th_inv _ _ _ Ht) as Hinv4.
  apply wp_bind, wp_match_result, (wp_rmdir_emptied p n ino _ _ s s4); [done..| |].
  - intros s5 Hgone. by apply wp_ret, wp_bind, wp_ret, wp_ret.
  - intros e s5 He Hs5. apply wp_ret. pose proof (Hsame _ _ Ht Hs5) as Ht5. pose proof (th_inv _ _ _ Ht5) as Hinv5.
    assert (child_count ino (tables (fs_db s5)) = 0) as Hz5 by (by rewrite (proj1 Hs5)).
    apply wp_bind, wp_match_result, (wp_open_dir p n ino); [done|done| |apply Ht5| |].
    + rewrite (child_of_thinned ino s s5); [done|done|done|]. eapply flat_parent; [apply (fi_db _ _ _ Hinv)|done..].
    + intros s6 Hs6. pose proof (Hsame _ _ Ht5 Hs6) as Ht6. pose proof Hs6 as (Htab6 & _).
      apply wp_list_flat; [apply Ht6|apply Ht6|by eapply thinned_cookies|rewrite Htab6, Hz5; unfold child_count in Hfuel; lia|].
      intros items s7 Hs7 Hit. rewrite Htab6 in Hit. apply wp_ret. split_and!; [done|by eapply Hsame| |by eapply listed_empty].
      by rewrite (proj1 Hs7), Htab6.
    + intros e' s6 He' Hs6. apply wp_ret, wp_ret. split_and!; [done|by eapply Hsame| |by left]. by rewrite (proj1 Hs6).
Qed.
End rm_rf.
