(* ===== verification/Views.v ===== *)
(** * Views: the file system as its users see it

    A [View] is a tree of names, the kind and the contents of each inode, and the open
    handles; the requests are those of the kernel. Nothing here knows of tables, slots,
    chunks or buffers. *)

From S2P Require Import Prelude Effects Model Chunk Arena OpenTable Sql DbData DbNames Tree.
From S2P Require Import NamesSpec DbVolume Fuse FuseInv FuseFlush FuseWrite FuseRead FuseOps.
From S2P Require Import FuseHandles FuseSpec FuseLifecycle FuseNames FuseResize FuseAttr DirStream.

(** ** States *)

(** An entry is the inode that a name stands for and the cookie of the name in listings. *)
Record View := mkView {
  v_entry : Z -> list byte -> option (Z * Z);
  v_kind : Z -> option FileKind;
  v_size : Z -> option Z;
  v_byte : Z -> Z -> byte;
  v_target : Z -> option (list byte);
  v_handle : Z -> option Z;
  v_closing : bool;
  v_cache : bool }.

Implicit Types (V : View) (p ino c fh cookie : Z) (n : list byte).

Definition v_child V p n : option Z := fst <$> v_entry V p n.

(** The contents of an inode that exists. *)
Definition same_node V V' ino : Prop :=
  v_size V' ino = v_size V ino /\
  forall q, 0 <= q < MAX_FILE_SIZE -> v_byte V' ino q = v_byte V ino q.

(** The same but for the contents of the inodes that satisfy [P]. *)
Definition alike (P : Z -> Prop) V V' : Prop :=
  (forall p n, v_entry V' p n = v_entry V p n) /\ (forall i, v_kind V' i = v_kind V i) /\
  (forall i, is_Some (v_kind V i) -> ~ P i -> same_node V V' i) /\
  (forall i, v_target V' i = v_target V i) /\ (forall fh, v_handle V' fh = v_handle V fh) /\
  v_closing V' = v_closing V /\ v_cache V' = v_cache V.

#[global] Instance View_equiv : Equiv View := alike (fun _ => False).

#[global] Instance alike_equivalence P : Equivalence (alike P).
Proof.
  split.
  - by intros V.
  - intros V V' (A & B & C & D & E & F & G). split_and!; try done.
    intros i Hi Hp. rewrite B in Hi. destruct (C i Hi Hp) as [S T]. split; [done|]. intros q Hq. by rewrite T.
  - intros V1 V2 V3 (A & B & C & D & E & F & G) (A' & B' & C' & D' & E' & F' & G'). split_and!; try congruence.
    intros i Hi Hp. assert (is_Some (v_kind V2 i)) as Hi2 by (by rewrite B).
    destruct (C i Hi Hp) as [S T], (C' i Hi2 Hp) as [S' T']. split; [congruence|]. intros q Hq. by rewrite T', T.
Qed.

#[global] Instance View_equivalence : Equivalence (≡@{View}).
Proof. apply (alike_equivalence (fun _ => False)). Qed.

Definition v_ttl V : Z := if v_cache V then KERNEL_CACHE_TTL else ATTR_TTL.
Definition v_flags V : Z := if v_cache V then FOPEN_KEEP_CACHE else 0.

(** ** Changes *)

Definition set_entry p n (entry : option (Z * Z)) V : View :=
  mkView (fun p' n' => if decide (p' = p /\ n' = n) then entry else v_entry V p' n')
    (v_kind V) (v_size V) (v_byte V) (v_target V) (v_handle V) (v_closing V) (v_cache V).

Definition set_file ino (size : Z) (f : Z -> byte) V : View :=
  mkView (v_entry V) (v_kind V)
    (fun i => if decide (i = ino) then Some size else v_size V i)
    (fun i => if decide (i = ino) then f else v_byte V i)
    (v_target V) (v_handle V) (v_closing V) (v_cache V).

Definition set_kind ino (kind : option FileKind) (target : option (list byte)) V : View :=
  mkView (v_entry V) (fun i => if decide (i = ino) then kind else v_kind V i) (v_size V) (v_byte V)
    (fun i => if decide (i = ino) then target else v_target V i) (v_handle V) (v_closing V) (v_cache V).

Definition set_handle fh (ino : option Z) V : View :=
  mkView (v_entry V) (v_kind V) (v_size V) (v_byte V) (v_target V)
    (fun fh' => if decide (fh' = fh) then ino else v_handle V fh') (v_closing V) (v_cache V).

#[global] Instance set_handle_proper fh (ino : option Z) : Proper ((≡) ==> (≡)) (set_handle fh ino).
Proof.
  intros V V' (A & B & C & D & E & F & G). split_and!; try done. intros fh'. simpl. by rewrite E.
Qed.

Definition close V : View :=
  mkView (v_entry V) (v_kind V) (v_size V) (v_byte V) (v_target V) (v_handle V) true (v_cache V).

Definition named V ino : Prop := exists p n, v_child V p n = Some ino.
Definition held V ino : Prop := exists fh, v_handle V fh = Some ino.

Definition gone ino V : View := set_kind ino None None V.

(** When the last name of an inode goes, the inode stays while it has a handle. *)
Definition forgets ino V V' : Prop :=
  ((named V ino \/ held V ino) /\ V' ≡ V) \/ (~ named V ino /\ ~ held V ino /\ V' ≡ gone ino V).

(** When its last handle goes, an inode without names goes too. One whose deletion had
    failed before stays for the next start-up to sweep. *)
Definition lets_go ino V V' : Prop :=
  V' ≡ V \/ (~ named V ino /\ ~ held V ino /\ V' ≡ gone ino V).

(** A new node [ino] with the name [n] in directory [p]. *)
Definition add_node p n ino cookie (node : NewNode) V : View :=
  set_entry p n (Some (ino, cookie))
    (set_file ino (node_size node) (fun _ => x00) (set_kind ino (Some (node_kind node)) (node_sym node) V)).

(** Nothing knows inode [ino]. *)
Definition fresh V ino : Prop := v_kind V ino = None /\ ~ named V ino /\ ~ held V ino.

(** A directory that takes the name [n]. *)
Definition takes V p n : Prop := zlen n <= NAME_MAX /\ v_kind V p = Some Directory /\ v_entry V p n = None.

(** Directory [i] is [a] or lies below it. *)
Inductive inside V (a : Z) : Z -> Prop :=
  | in_here : inside V a a
  | in_below p n i : v_child V p n = Some i -> inside V a p -> inside V a i.

(** The directory above [ino]; the root is its own. *)
Definition above V ino p : Prop :=
  (ino = 1 /\ p = 1) \/ (ino <> 1 /\ exists n, v_child V p n = Some ino).

(** The entries of a listing of [ino]. *)
Definition shows V ino (e : DbfsDirEntry) : Prop :=
  e = mkDbfsDirEntry dot_name ino FtDirectory DOT \/
  (exists p, above V ino p /\ e = mkDbfsDirEntry dotdot_name p FtDirectory DOTDOT) \/
  exists n c cookie K, v_entry V ino n = Some (c, cookie) /\ v_kind V c = Some K /\
    e = mkDbfsDirEntry n c (file_type K) cookie.

(** [attr] describes inode [ino]. *)
Definition describes V ino (attr : FileAttr) : Prop :=
  fa_ino attr = ino /\ v_size V ino = Some (fa_size attr) /\
  exists K, v_kind V ino = Some K /\ fa_kind attr = file_type K.

(** ** Requests *)

Inductive Request :=
  | QLookup (p : Z) (n : list byte)
  | QGetattr (ino : Z)
  | QReaddir (ino offset : Z)
  | QStatfs
  | QMkdir (p : Z) (n : list byte) (mode umask uid gid : Z)
  | QCreate (p : Z) (n : list byte) (mode umask uid gid : Z)
  | QMknod (p : Z) (n : list byte) (mode umask uid gid : Z)
  | QSymlink (p : Z) (n target : list byte) (uid gid : Z)
  | QReadlink (ino : Z)
  | QLink (ino p : Z) (n : list byte)
  | QSetattr (ino : Z) (mode uid gid size : option Z) (atime mtime : option TimeOrNow)
  | QGetxattr (ino : Z) (n : list byte) (size : Z)
  | QListxattr (ino size : Z)
  | QSetxattr (ino : Z) (n : list byte)
  | QRemovexattr (ino : Z) (n : list byte)
  | QOpen (ino : Z)
  | QRelease (fh : Z)
  | QFlush (fh : Z)
  | QFsync (fh : Z)
  | QRead (fh offset size : Z)
  | QWrite (fh offset : Z) (data : list byte)
  | QFallocate (ino offset length mode : Z)
  | QUnlink (p : Z) (n : list byte)
  | QRmdir (p : Z) (n : list byte)
  | QRename (p : Z) (n : list byte) (np : Z) (nn : list byte) (flags : Z)
  | QShutdown.

(** A listing is the content of a reply buffer. *)
Inductive Answer := AReply (reply : Reply) | AListing (entries : list DbfsDirEntry).

Abbreviation AError e := (AReply (ReplyError e)).

(** The errors of a failing database. *)
Definition device (e : Z) : Prop := e = EIO \/ e = ENOSPC.

(** The bits of a mode that say what kind of node to make: a regular file or nothing. *)
Definition makes_file (mode : Z) : bool :=
  (Z.land mode S_IFMT =? 0) || (Z.land mode S_IFMT =? S_IFREG).

