(* ===== verification/Answers.v ===== *)
(** * Answers: what the file system may answer

    [answers V q a V'] says that the file system [V] may answer request [q] with [a] and
    be [V'] afterwards. A request that is refused changes nothing; one that meets a
    failing database changes nothing either, but for the exceptions of [broken]. *)

From S2P Require Import Prelude Effects Model Chunk Arena OpenTable Sql DbData DbNames Tree.
From S2P Require Import NamesSpec DbVolume Fuse FuseInv FuseFlush FuseWrite FuseRead FuseOps.
From S2P Require Import FuseHandles FuseSpec FuseLifecycle FuseNames FuseResize FuseAttr DirStream Views.

Implicit Types (V : View) (p ino c fh cookie : Z) (n : list byte) (q : Request).

(** ** Refusals *)

(** The requests that make name [n] in [p]. *)
Inductive makes : Request -> Z -> list byte -> Prop :=
  | mk_mkdir p n mode umask uid gid : makes (QMkdir p n mode umask uid gid) p n
  | mk_create p n mode umask uid gid : makes (QCreate p n mode umask uid gid) p n
  | mk_mknod p n mode umask uid gid : makes_file mode = true -> makes (QMknod p n mode umask uid gid) p n
  | mk_symlink p n target uid gid : makes (QSymlink p n target uid gid) p n
  | mk_link ino p n : makes (QLink ino p n) p n.

(** The requests that remove name [n] from [p]. *)
Inductive removes : Request -> Z -> list byte -> Prop :=
  | rm_unlink p n : removes (QUnlink p n) p n
  | rm_rmdir p n : removes (QRmdir p n) p n.

(** The requests about one inode. *)
Inductive about : Request -> Z -> Prop :=
  | ab_getattr ino : about (QGetattr ino) ino
  | ab_readdir ino offset : about (QReaddir ino offset) ino
  | ab_readlink ino : about (QReadlink ino) ino
  | ab_setattr ino mode uid gid size atime mtime : about (QSetattr ino mode uid gid size atime mtime) ino
  | ab_getxattr ino n size : about (QGetxattr ino n size) ino
  | ab_listxattr ino size : about (QListxattr ino size) ino
  | ab_setxattr ino n : about (QSetxattr ino n) ino
  | ab_removexattr ino n : about (QRemovexattr ino n) ino
  | ab_open ino : about (QOpen ino) ino
  | ab_fallocate ino offset length mode : about (QFallocate ino offset length mode) ino
  | ab_link ino p n : about (QLink ino p n) ino.

(** The requests on an open handle. *)
Inductive through : Request -> Z -> Prop :=
  | th_release fh : through (QRelease fh) fh
  | th_flush fh : through (QFlush fh) fh
  | th_fsync fh : through (QFsync fh) fh
  | th_read fh offset size : 0 <= offset -> through (QRead fh offset size) fh
  | th_write fh offset data : 0 <= offset -> through (QWrite fh offset data) fh.

(** Why a name cannot be made. *)
Inductive make_refused V p n : Z -> Prop :=
  | mf_name : NAME_MAX < zlen n -> make_refused V p n ENAMETOOLONG
  | mf_parent : v_kind V p = None -> make_refused V p n ENOENT
  | mf_file K : v_kind V p = Some K -> K <> Directory -> make_refused V p n ENOTDIR
  | mf_exists : is_Some (v_entry V p n) -> make_refused V p n EEXIST.

(** Why an entry cannot be moved. *)
Inductive move_refused V p n np (nn : list byte) flags : Z -> Prop :=
  | xf_flags : Z.ldiff flags RENAME_NOREPLACE <> 0 -> move_refused V p n np nn flags EINVAL
  | xf_name : NAME_MAX < zlen n \/ NAME_MAX < zlen nn -> move_refused V p n np nn flags ENAMETOOLONG
  | xf_missing : v_entry V p n = None \/ v_kind V np = None -> move_refused V p n np nn flags ENOENT
  | xf_parent K : v_kind V np = Some K -> K <> Directory -> move_refused V p n np nn flags ENOTDIR
  | xf_inside c : v_child V p n = Some c -> v_kind V c = Some Directory -> inside V c np ->
      move_refused V p n np nn flags EINVAL
  | xf_exists : noreplace flags = true -> is_Some (v_entry V np nn) -> move_refused V p n np nn flags EEXIST
  | xf_directory c t K : v_child V p n = Some c -> v_child V np nn = Some t ->
      v_kind V c = Some K -> K <> Directory -> v_kind V t = Some Directory ->
      move_refused V p n np nn flags EISDIR
  | xf_file c t K : v_child V p n = Some c -> v_child V np nn = Some t ->
      v_kind V c = Some Directory -> v_kind V t = Some K -> K <> Directory ->
      move_refused V p n np nn flags ENOTDIR
  | xf_full c t n' : v_child V p n = Some c -> v_child V np nn = Some t ->
      v_kind V c = Some Directory -> v_kind V t = Some Directory -> is_Some (v_entry V t n') ->
      move_refused V p n np nn flags ENOTEMPTY.

(** The reasons to refuse a request, with the error that says so. *)
Inductive refuses V : Request -> Z -> Prop :=
  | re_missing q ino : about q ino -> v_kind V ino = None -> refuses V q ENOENT
  | re_handle q fh : through q fh -> v_handle V fh = None -> refuses V q EBADF
  | re_make q p n e : makes q p n -> make_refused V p n e -> refuses V q e
  | re_long q p n : removes q p n \/ q = QLookup p n -> NAME_MAX < zlen n -> refuses V q ENAMETOOLONG
  | re_absent q p n : removes q p n \/ q = QLookup p n -> v_entry V p n = None -> refuses V q ENOENT
  | re_move p n np nn flags e : move_refused V p n np nn flags e -> refuses V (QRename p n np nn flags) e
  | re_mknod p n mode umask uid gid : makes_file mode = false -> refuses V (QMknod p n mode umask uid gid) EPERM
  | re_link_dir ino p n : v_kind V ino = Some Directory -> refuses V (QLink ino p n) EISDIR
  | re_unlink_dir p n c : v_child V p n = Some c -> v_kind V c = Some Directory -> refuses V (QUnlink p n) EISDIR
  | re_rmdir_file p n c K : v_child V p n = Some c -> v_kind V c = Some K -> K <> Directory ->
      refuses V (QRmdir p n) ENOTDIR
  | re_rmdir_full p n c n' : v_child V p n = Some c -> v_kind V c = Some Directory ->
      is_Some (v_entry V c n') -> refuses V (QRmdir p n) ENOTEMPTY
  | re_readdir ino offset K : v_kind V ino = Some K -> K <> Directory -> refuses V (QReaddir ino offset) ENOTDIR
  | re_readlink ino K : v_kind V ino = Some K -> K <> Symlink -> refuses V (QReadlink ino) EINVAL
  | re_resize ino mode uid gid size atime mtime K error : v_kind V ino = Some K ->
      regular_file_error K = Some error ->
      refuses V (QSetattr ino mode uid gid (Some size) atime mtime) (errno_from_db_error error)
  | re_resize_large ino mode uid gid size atime mtime : MAX_FILE_SIZE < size ->
      refuses V (QSetattr ino mode uid gid (Some size) atime mtime) EFBIG
  | re_getxattr ino n size : is_Some (v_kind V ino) -> refuses V (QGetxattr ino n size) ENODATA
  | re_setxattr ino n : is_Some (v_kind V ino) -> refuses V (QSetxattr ino n) EOPNOTSUPP
  | re_removexattr ino n : is_Some (v_kind V ino) -> refuses V (QRemovexattr ino n) ENODATA
  | re_fallocate_range ino offset length mode : offset < 0 \/ length <= 0 ->
      refuses V (QFallocate ino offset length mode) EINVAL
  | re_fallocate_mode ino offset length mode : Z.ldiff mode FALLOC_FL_KEEP_SIZE <> 0 ->
      refuses V (QFallocate ino offset length mode) EOPNOTSUPP
  | re_fallocate_kind ino offset length mode K : v_kind V ino = Some K -> K <> RegularFile ->
      refuses V (QFallocate ino offset length mode) ENODEV
  | re_fallocate_large ino offset length mode : MAX_FILE_SIZE < offset + length ->
      refuses V (QFallocate ino offset length mode) EFBIG
  | re_read_range fh offset size : offset < 0 -> refuses V (QRead fh offset size) EINVAL
  | re_write_range fh offset data : offset < 0 -> refuses V (QWrite fh offset data) EINVAL
  | re_read_kind fh offset size ino K error : v_handle V fh = Some ino -> v_kind V ino = Some K ->
      regular_file_error K = Some error -> refuses V (QRead fh offset size) (errno_from_db_error error)
  | re_write_kind fh offset data ino K error : v_handle V fh = Some ino -> v_kind V ino = Some K ->
      regular_file_error K = Some error -> refuses V (QWrite fh offset data) (errno_from_db_error error)
  | re_write_closing fh offset data : v_closing V = true -> refuses V (QWrite fh offset data) EIO
  | re_write_large fh offset data : MAX_FILE_SIZE < offset + zlen data ->
      refuses V (QWrite fh offset data) EFBIG.

(** ** Successes *)

(** File [ino] of [V] has [size] bytes [f]. *)
Definition holds V ino (size : Z) (f : Z -> byte) : Prop :=
  v_kind V ino = Some RegularFile /\ v_size V ino = Some size /\ v_byte V ino = f.

(** The file after a change of its size, if one is asked for. *)
Definition resize ino (new : option Z) V : View :=
  match new with
  | Some size => set_file ino size (resized (v_byte V ino) size) V
  | None => V
  end.

(** A node with the attributes asked for. *)
Definition made V ino (node : NewNode) (uid gid : Z) (attr : FileAttr) : Prop :=
  fresh V ino /\ exists now, attr = file_attr_from_inode (node_inode ino node uid gid now).

(** The requests that make a node and describe it in an entry. *)
Inductive asks_node : Request -> Z -> list byte -> NewNode -> Z -> Z -> Prop :=
  | an_mkdir p n mode umask uid gid :
      asks_node (QMkdir p n mode umask uid gid) p n (NewDirectory (Z.ldiff mode umask)) uid gid
  | an_mknod p n mode umask uid gid : makes_file mode = true ->
      asks_node (QMknod p n mode umask uid gid) p n (NewFile (Z.ldiff (Z.ldiff mode S_IFMT) umask)) uid gid
  | an_symlink p n target uid gid : asks_node (QSymlink p n target uid gid) p n (NewSymlink target) uid gid.

(** A replaced inode: an empty directory goes, a file loses one name. *)
Definition replaces V1 (target : option Z) V' : Prop :=
  match target with
  | None => V' ≡ V1
  | Some t => if decide (v_kind V1 t = Some Directory) then V' ≡ gone t V1 else forgets t V1 V'
  end.

(** What a move may put in the place of what. *)
Definition fits_over V c (target : option Z) : Prop :=
  forall t, target = Some t ->
    (v_kind V c = Some Directory <-> v_kind V t = Some Directory) /\
    (v_kind V t = Some Directory -> forall n, v_entry V t n = None).

Inductive grants V : Request -> Answer -> View -> Prop :=
  | gr_lookup p n ino attr V' : v_child V p n = Some ino -> describes V ino attr -> V' ≡ V ->
      grants V (QLookup p n) (AReply (ReplyEntry (v_ttl V) attr 0)) V'
  | gr_getattr ino attr V' : describes V ino attr -> V' ≡ V ->
      grants V (QGetattr ino) (AReply (ReplyAttr (v_ttl V) attr)) V'
  | gr_readdir ino offset out V' : v_kind V ino = Some Directory ->
      StronglySorted Z.lt (dd_offset <$> out) ->
      (forall e, e ∈ out <-> shows V ino e /\ offset < dd_offset e) -> V' ≡ V ->
      grants V (QReaddir ino offset) (AListing out) V'
  | gr_statfs stats V' : V' ≡ V -> grants V QStatfs (AReply (ReplyStatfs stats)) V'
  | gr_node q p n node uid gid ino cookie attr V' : asks_node q p n node uid gid -> takes V p n ->
      made V ino node uid gid attr -> V' ≡ add_node p n ino cookie node V ->
      grants V q (AReply (ReplyEntry (v_ttl V) attr 0)) V'
  | gr_create p n mode umask uid gid ino cookie attr fh V' : takes V p n ->
      made V ino (NewFile (Z.ldiff mode umask)) uid gid attr -> v_handle V fh = None ->
      V' ≡ set_handle fh (Some ino) (add_node p n ino cookie (NewFile (Z.ldiff mode umask)) V) ->
      grants V (QCreate p n mode umask uid gid) (AReply (ReplyCreated (v_ttl V) attr 0 fh (v_flags V))) V'
  | gr_readlink ino target V' : v_target V ino = Some target -> V' ≡ V ->
      grants V (QReadlink ino) (AReply (ReplyData target)) V'
  | gr_link ino p n K attr cookie V' : v_kind V ino = Some K -> K <> Directory -> takes V p n ->
      fa_ino attr = ino -> fa_kind attr = file_type K ->
      V' ≡ set_entry p n (Some (ino, cookie)) V ->
      grants V (QLink ino p n) (AReply (ReplyEntry (v_ttl V) attr 0)) V'
  | gr_setattr ino mode uid gid size atime mtime attr V' :
      (forall len, size = Some len -> v_kind V ino = Some RegularFile /\ len <= MAX_FILE_SIZE) ->
      V' ≡ resize ino size V -> describes V' ino attr ->
      grants V (QSetattr ino mode uid gid size atime mtime) (AReply (ReplyAttr (v_ttl V) attr)) V'
  | gr_listxattr ino size V' : is_Some (v_kind V ino) -> V' ≡ V ->
      grants V (QListxattr ino size) (AReply (reply_xattr [] size)) V'
  | gr_open ino fh V' : is_Some (v_kind V ino) -> v_handle V fh = None ->
      V' ≡ set_handle fh (Some ino) V ->
      grants V (QOpen ino) (AReply (ReplyOpened fh (v_flags V))) V'
  | gr_release fh ino V' : v_handle V fh = Some ino -> lets_go ino (set_handle fh None V) V' ->
      grants V (QRelease fh) (AReply ReplyOk) V'
  | gr_sync q fh V' : q = QFlush fh \/ q = QFsync fh -> is_Some (v_handle V fh) -> V' ≡ V ->
      grants V q (AReply ReplyOk) V'
  | gr_read fh offset size ino len f data V' : 0 <= offset -> v_handle V fh = Some ino ->
      holds V ino len f -> read_result len f offset size data -> V' ≡ V ->
      grants V (QRead fh offset size) (AReply (ReplyData data)) V'
  | gr_write fh offset data ino len f V' : 0 <= offset -> v_handle V fh = Some ino ->
      v_closing V = false -> holds V ino len f -> data = [] \/ offset + zlen data <= MAX_FILE_SIZE ->
      V' ≡ set_file ino (write_size len (offset, data)) (write_bytes f (offset, data)) V ->
      grants V (QWrite fh offset data) (AReply (ReplyWritten (zlen data))) V'
  | gr_fallocate ino offset length mode len f V' : 0 <= offset -> 0 < length ->
      offset + length <= MAX_FILE_SIZE -> holds V ino len f ->
      V' ≡ set_file ino (if keep_size mode then len else Z.max len (offset + length)) f V ->
      grants V (QFallocate ino offset length mode) (AReply ReplyOk) V'
  | gr_unlink p n c K V' : v_child V p n = Some c -> v_kind V c = Some K -> K <> Directory ->
      forgets c (set_entry p n None V) V' -> grants V (QUnlink p n) (AReply ReplyOk) V'
  | gr_rmdir p n c V' : v_child V p n = Some c -> v_kind V c = Some Directory ->
      (forall n', v_entry V c n' = None) -> V' ≡ gone c (set_entry p n None V) ->
      grants V (QRmdir p n) (AReply ReplyOk) V'
  | gr_stay p n flags V' : is_Some (v_entry V p n) -> V' ≡ V ->
      grants V (QRename p n p n flags) (AReply ReplyOk) V'
  | gr_move p n np nn flags c cookie target V' : v_entry V p n = Some (c, cookie) ->
      ~ (p = np /\ n = nn) -> v_kind V np = Some Directory -> zlen nn <= NAME_MAX ->
      (v_kind V c = Some Directory -> ~ inside V c np) ->
      v_child V np nn = target -> fits_over V c target -> (noreplace flags = true -> target = None) ->
      replaces (set_entry np nn (Some (c, cookie)) (set_entry p n None V)) target V' ->
      grants V (QRename p n np nn flags) (AReply ReplyOk) V'
  | gr_shutdown V' : V' ≡ close V -> grants V QShutdown (AReply ReplyOk) V'.

(** ** Failures of the database *)

(** What a request leaves behind when the database fails. *)
Inductive broken V : Request -> View -> Prop :=
  | br_same q V' : (forall fh, q <> QRelease fh) -> q <> QShutdown -> V' ≡ V -> broken V q V'
  (** a prefix of the data is written *)
  | br_write fh offset data ino len f m V' : v_handle V fh = Some ino -> v_size V ino = Some len ->
      v_byte V ino = f ->
      V' ≡ set_file ino (write_size len (offset, take (Z.to_nat m) data))
        (write_bytes f (offset, take (Z.to_nat m) data)) V -> broken V (QWrite fh offset data) V'
  (** the file is cut and its attributes are not set *)
  | br_setattr ino mode uid gid size atime mtime V' : V' ≡ resize ino size V ->
      broken V (QSetattr ino mode uid gid size atime mtime) V'
  (** the handle is gone, and what was buffered of a file without names and handles may be *)
  | br_release fh ino V' : v_handle V fh = Some ino ->
      alike (fun i => i = ino /\ ~ named V ino /\ ~ held V' ino) (set_handle fh None V) V' ->
      broken V (QRelease fh) V'
  | br_shutdown V' : V' ≡ close V -> broken V QShutdown V'.

Inductive answers V q : Answer -> View -> Prop :=
  | aw_granted a V' : grants V q a V' -> answers V q a V'
  | aw_refused e V' : refuses V q e -> V' ≡ V -> answers V q (AError e) V'
  | aw_broken e V' : device e -> broken V q V' -> answers V q (AError e) V'.
