(* ===== verification/ViewOf.v ===== *)
(** * ViewOf: the view of a state

    [view s] is what the users of the file system see of state [s]. Here is how it
    changes with the changes of states that the operations are specified by. *)

From S2P Require Import Prelude Effects Model Chunk Arena OpenTable Sql DbData DbNames Tree.
From S2P Require Import NamesSpec NamesView DbVolume Fuse FuseInv FuseFlush FuseWrite FuseRead.
From S2P Require Import FuseOps FuseHandles FuseSpec FuseLifecycle FuseNames FuseResize FuseAttr.
From S2P Require Import DirStream Views Answers.

(** The inode and the cookie of an entry. *)
Definition shown_entry (e : Z * DirentRow) : Z * Z := (d_child e.2, e.1 + DOTDOT).

Definition view (s : Fs) : View :=
  let T := tables (fs_db s) in
  let t := fs_table s in
  mkView (fun p n => shown_entry <$> find_entry p n T) (kind_of T) (file_size T t) (file_byte T t)
    (fun i => t_symlinks T !! i) (handle_ino t) (closing t) (fs_kernel_cache s).

Section view_of.
Context `{World, HashOrder}.
Implicit Types (s : Fs) (T : Tables) (t : OpenTable) (i : Slot) (e : Entry) (ino p : Z) (n : list byte).

(** ** Names *)

Lemma view_child s p n c : v_child (view s) p n = Some c <-> child_of (tables (fs_db s)) p n = Some c.
Proof. unfold v_child, child_of. simpl. by destruct (find_entry p n _). Qed.

Lemma view_entry_None s p n : v_entry (view s) p n = None <-> find_entry p n (tables (fs_db s)) = None.
Proof. simpl. by rewrite fmap_None. Qed.

Lemma view_entry_is_Some s p n :
  is_Some (v_entry (view s) p n) <-> is_Some (find_entry p n (tables (fs_db s))).
Proof. simpl. by rewrite fmap_is_Some. Qed.

Lemma view_named s ino :
  fs_inv s -> named (view s) ino <-> exists k d, t_dirents (tables (fs_db s)) !! k = Some d /\ d_child d = ino.
Proof.
  intros Hinv. pose proof (fi_db _ _ _ Hinv) as [_ Hn]. split.
  - intros (p & n & Hc%view_child). apply child_of_Some in Hc as (k & d & Hk & _ & _ & Hc); [|done]. by exists k, d.
  - intros (k & d & Hk & Hc). exists (d_parent d), (d_name d). apply view_child, child_of_Some; [done|].
    by exists k, d.
Qed.

(** The link count of a file tells whether it has a name. *)
Lemma named_nlink s ino r K :
  fs_inv s -> t_inodes (tables (fs_db s)) !! ino = Some r -> row_kind r = Some K -> K <> Directory ->
  named (view s) ino <-> 0 < r_nlink r.
Proof.
  intros Hinv Hr HK Hne. rewrite view_named by done. pose proof (fi_db _ _ _ Hinv) as [_ Hn].
  pose proof (nw_nlink _ Hn _ _ Hr) as Hl. rewrite decide_False in Hl by (rewrite (kind_of_row _ _ _ Hr); congruence).
  unfold links in Hl. pose proof (entry_count_zero (fun d => d_child d = ino) (t_dirents (tables (fs_db s)))) as Hz.
  pose proof (entry_count_nonneg (fun d => d_child d = ino) (t_dirents (tables (fs_db s)))).
  split.
  - intros (k & d & Hk & Hc). destruct (decide (r_nlink r = 0)) as [Hl0|]; [|lia].
    rewrite Hl in Hl0. by destruct (proj1 Hz Hl0 k d Hk).
  - intros Hpos. destruct (decide (map_Exists (fun _ d => d_child d = ino) (t_dirents (tables (fs_db s)))))
      as [(k & d & Hk & Hc)|Hno]; [by exists k, d|].
    exfalso. assert (r_nlink r = 0); [|lia]. rewrite Hl. apply Hz. intros k d Hk Hc. apply Hno. by exists k, d.
Qed.

Lemma view_inside s a i :
  fs_inv s -> inside (view s) a i <-> under (t_dirents (tables (fs_db s))) a i.
Proof.
  intros Hinv. pose proof (fi_db _ _ _ Hinv) as [_ Hn]. split.
  - induction 1 as [|p n i Hc%view_child _ IH]; [constructor|].
    apply child_of_Some in Hc as (k & d & Hk & <- & _ & <-); [|done]. by eapply under_step.
  - induction 1 as [|k d Hk _ IH]; [constructor|]. apply (in_below _ _ (d_parent d) (d_name d)); [|done].
    apply view_child, child_of_Some; [done|]. by exists k, d.
Qed.

Lemma view_absent s ino :
  fs_inv s -> t_inodes (tables (fs_db s)) !! ino = None <-> v_kind (view s) ino = None.
Proof.
  intros Hinv. simpl. unfold kind_of. destruct (t_inodes (tables (fs_db s)) !! ino) as [r|] eqn:Hr; [|done].
  destruct (dw_rows _ (proj1 (fi_db _ _ _ Hinv)) _ _ Hr) as (_ & [k Hk] & _). simpl. by rewrite Hk.
Qed.

Lemma view_present s ino :
  fs_inv s -> is_Some (v_kind (view s) ino) -> is_Some (t_inodes (tables (fs_db s)) !! ino).
Proof. intros Hinv [K HK]. simpl in HK. unfold kind_of in HK. destruct (_ !! ino); [by eexists|done]. Qed.

(** An inode that is not there has neither names nor handles. *)
Lemma absent_fresh s ino : fs_inv s -> v_kind (view s) ino = None -> fresh (view s) ino.
Proof.
  intros Hinv Hk. pose proof (fi_db _ _ _ Hinv) as [_ Hn]. split_and!; [done|..].
  - rewrite view_named by done. intros (k & d & Hkd & <-). destruct (nw_entry _ Hn k d Hkd) as (_ & _ & [K HK] & _).
    simpl in Hk. congruence.
  - intros (fh & Hf). simpl in Hf. destruct (handle_ino_Some _ _ _ _ _ Hinv Hf) as (i & e & _ & Hl & He & <- & _).
    destruct (fi_entry _ _ _ Hinv i e Hl He) as [r Hok]. apply view_absent in Hk; [|done].
    pose proof (eo_row _ _ _ _ Hok). congruence.
Qed.

(** ** Handles *)

Lemma open_held s ino : fs_inv s -> Shared.is_open (fs_table s) ino = true -> held (view s) ino.
Proof.
  intros Hinv Ho. pose proof (is_open_spec s ino Hinv) as Hs.
  destruct (inodes_find (inodes (fs_table s)) ino) as [i|]; [|congruence].
  destruct Hs as (e & Hl & He & <- & _ & Hop). rewrite Hop in Ho. apply Z.ltb_lt in Ho.
  destruct (handle_count_exists (handles (fs_table s)) i) as [fh Hf].
  - pose proof (live_slot_bound _ _ _ _ Hinv Hl). lia.
  - by rewrite <- (fi_refs _ _ _ Hinv i e).
  - exists fh. simpl. unfold handle_ino. rewrite Hf. simpl. by rewrite He.
Qed.

Lemma handle_kind s fh ino :
  fs_inv s -> handle_ino (fs_table s) fh = Some ino -> is_Some (kind_of (tables (fs_db s)) ino).
Proof.
  intros Hinv Hf. destruct (handle_ino_Some _ _ _ _ _ Hinv Hf) as (i & e & _ & Hl & He & <- & _).
  destruct (fi_entry _ _ _ Hinv i e Hl He) as [r Hok]. rewrite (kind_of_row _ _ _ (eo_row _ _ _ _ Hok)).
  eexists. apply Hok.
Qed.

(** Directories are never open. *)
Lemma handle_file s fh ino :
  fs_inv s -> handle_ino (fs_table s) fh = Some ino -> exists K, v_kind (view s) ino = Some K /\ K <> Directory.
Proof.
  intros Hinv Hf. destruct (handle_ino_Some _ _ _ _ _ Hinv Hf) as (i & e & _ & Hl & He & <- & _).
  destruct (fi_entry _ _ _ Hinv i e Hl He) as [r Hok]. exists (e_kind e). split; [|by eapply eo_file].
  simpl. rewrite (kind_of_row _ _ _ (eo_row _ _ _ _ Hok)). apply Hok.
Qed.

Lemma closed_not_held s ino :
  fs_inv s -> inodes_find (inodes (fs_table s)) ino = None -> ~ held (view s) ino.
Proof.
  intros Hinv Hno (fh & Hf). simpl in Hf.
  destruct (handle_ino_Some _ _ _ _ _ Hinv Hf) as (i & e & _ & Hl & He & <- & _).
  destruct (inv_live _ _ _ _ Hinv Hl) as (e' & _ & He' & _ & Hfi). congruence.
Qed.

(** An inode that was unlinked while open has no name. *)
Lemma unlinked_not_named s ino : fs_inv s -> unlinked_open s ino -> ~ named (view s) ino.
Proof.
  intros Hinv (e & He & Hu). destruct (entry_of_Some _ _ _ _ _ Hinv He) as (i & Hl & Hent & <-).
  destruct (fi_entry _ _ _ Hinv i e Hl Hent) as [r Hok]. pose proof (eo_row _ _ _ _ Hok) as Hr.
  rewrite (named_nlink s _ r (e_kind e)); [|done|done|apply Hok|by eapply eo_file].
  rewrite (eo_gone _ _ _ _ Hok Hu). lia.
Qed.

Lemma kind_some_valid s ino : fs_inv s -> is_Some (v_kind (view s) ino) -> valid_ino ino.
Proof. intros Hinv [K HK]. eapply kind_valid; [apply (fi_db _ _ _ Hinv)|exact HK]. Qed.

(** ** Files *)

(** Two views with the same tree differ in the files of [P] only. *)
Lemma view_alike (P : Z -> Prop) s s' :
  fs_inv s -> same_tree s s' ->
  (forall i, valid_ino i -> ~ P i ->
     same_file (tables (fs_db s)) (fs_table s) (tables (fs_db s')) (fs_table s') i) ->
  alike P (view s) (view s').
Proof.
  intros Hinv [[] Hd Hs Hk] Hf. unfold alike. simpl. unfold find_entry. rewrite Hd, Hs.
  split_and!; try done. intros i Hi Hp. apply Hf; [|done]. by apply (kind_some_valid s).
Qed.

Lemma view_same s s' : fs_inv s -> same_tree s s' -> same_files s s' -> view s' ≡ view s.
Proof. intros Hinv Htr Hf. symmetry. apply view_alike; [done..|]. intros i Hi _. by apply Hf. Qed.

Lemma view_quiet s s' : fs_inv s -> fs_inv s' -> quiet s s' -> view s' ≡ view s.
Proof. intros Hinv Hinv' Hq. apply view_same; [done|by apply stable_tree, quiet_stable|apply Hq]. Qed.

Lemma view_state s s' : fs_inv s -> same_state s s' -> view s' ≡ view s.
Proof.
  intros Hinv Hs. apply view_quiet; [done|by eapply same_state_inv|by apply quiet_state].
Qed.

Lemma view_set_file s s' ino size f :
  fs_inv s -> same_tree s s' -> others_same ino s s' -> contents s' ino size f ->
  view s' ≡ set_file ino size f (view s).
Proof.
  intros Hinv [[] Hd Hs Hk] Ho [Hsz Hf]. symmetry. unfold equiv, View_equiv, alike. simpl.
  unfold find_entry. rewrite Hd, Hs. split_and!; try done. intros i Hi _. unfold same_node. simpl.
  case_decide as Hii; [subst i; by split|]. apply Ho; [|done]. by apply (kind_some_valid s).
Qed.

Lemma view_changed s s' ino size f :
  fs_inv s -> file_changed s s' ino size f -> view s' ≡ set_file ino size f (view s).
Proof. intros Hinv []. apply view_set_file; try done. by apply stable_tree. Qed.

Lemma view_opened s s' fh ino :
  fs_inv s -> opened s s' fh ino -> view s' ≡ set_handle fh (Some ino) (view s).
Proof.
  intros Hinv [Hinv' [Hf Hn Hc _ Hch] Hfresh Hfh Ho]. symmetry. unfold equiv, View_equiv, alike. simpl.
  pose proof (fun i => same_names_kind _ _ i Hn) as Hk. destruct Hn as (Hd & Hs & _).
  unfold find_entry. rewrite Hd, Hs, Hc, Hch. split_and!; try done.
  - intros i Hi _. apply Hf. by apply (kind_some_valid s).
  - intros fh'. case_decide as Hi; [by subst|by apply Ho].
Qed.

(** The contents that a view shows. *)
Lemma view_holds s ino size f :
  kind_of (tables (fs_db s)) ino = Some RegularFile -> contents s ino size f ->
  holds (view s) ino size (v_byte (view s) ino) /\
  forall q, 0 <= q < MAX_FILE_SIZE -> f q = v_byte (view s) ino q.
Proof. intros Hk [Hs Hf]. split; [done|]. intros q Hq. symmetry. by apply Hf. Qed.

Lemma set_file_ext ino size f g V :
  (forall q, 0 <= q < MAX_FILE_SIZE -> f q = g q) -> set_file ino size f V ≡ set_file ino size g V.
Proof.
  intros Hfg. unfold equiv, View_equiv, alike. split_and!; try done. intros i _ _. unfold same_node. simpl.
  split; [done|]. intros q Hq. case_decide; [|done]. symmetry. by apply Hfg.
Qed.

(** Attributes. *)
Lemma view_describes s ino r K attr : shows_attr s ino r K attr -> describes (view s) ino attr.
Proof.
  intros []. split_and!; [done|done|]. exists K. split; [|done]. simpl. by rewrite (kind_of_row _ _ _ at_row).
Qed.
(** ** Inodes that go *)

(** [V1] has the names and handles of [s'] and the inodes of [s]. *)
Record between s s' (V1 : View) : Prop := {
  bt_entry : forall p n, v_entry V1 p n = v_entry (view s') p n;
  bt_handle : forall fh, v_handle V1 fh = v_handle (view s') fh;
  bt_closing : v_closing V1 = v_closing (view s');
  bt_cache : v_cache V1 = v_cache (view s');
  bt_kind : v_kind V1 = v_kind (view s);
  bt_size : v_size V1 = v_size (view s);
  bt_byte : v_byte V1 = v_byte (view s);
  bt_target : v_target V1 = v_target (view s) }.

Lemma between_named s s' V1 ino : between s s' V1 -> named V1 ino <-> named (view s') ino.
Proof. intros []. unfold named, v_child. by setoid_rewrite bt_entry0. Qed.

Lemma between_held s s' V1 ino : between s s' V1 -> held V1 ino <-> held (view s') ino.
Proof. intros []. unfold held. by setoid_rewrite bt_handle0. Qed.

(** The symlink of an inode is there as long as the inode. *)
Lemma loses_target c T T' i :
  names_wf T -> names_wf T' -> loses c T T' ->
  t_symlinks T' !! i = if decide (kind_of T' i = kind_of T i) then t_symlinks T !! i else None.
Proof.
  intros Hn Hn' [Hs Hk]. pose proof (nw_symlinks _ Hn i) as Hi. pose proof (nw_symlinks _ Hn' i) as Hi'.
  case_decide as Hd.
  - rewrite Hd, <- Hi in Hi'. destruct (t_symlinks T' !! i) as [x|] eqn:E.
    + symmetry. by eapply lookup_weaken.
    + destruct (t_symlinks T !! i); [|done]. destruct (proj2 Hi') as [y Hy]; [by eexists|done].
  - destruct (Hk i) as [?|[_ Hnone]]; [done|]. destruct (t_symlinks T' !! i); [|done].
    rewrite Hnone in Hi'. by discriminate (proj1 Hi' ltac:(by eexists)).
Qed.

Lemma view_kept_on s s' V1 c :
  fs_inv s -> fs_inv s' -> between s s' V1 -> loses c (tables (fs_db s)) (tables (fs_db s')) ->
  others_same c s s' -> is_Some (kind_of (tables (fs_db s')) c) ->
  same_file (tables (fs_db s)) (fs_table s) (tables (fs_db s')) (fs_table s') c -> view s' ≡ V1.
Proof.
  intros Hinv Hinv' [] Hl Ho [K HK] Hf.
  assert (forall i, kind_of (tables (fs_db s')) i = kind_of (tables (fs_db s)) i) as Hk.
  { intros i. destruct (proj2 Hl i) as [?|[-> ?]]; [done|congruence]. }
  unfold equiv, View_equiv, alike. rewrite bt_kind0, bt_target0. split_and!; try done.
  - intros i. symmetry. apply Hk.
  - intros i Hi _. unfold same_node. rewrite bt_size0, bt_byte0. simpl.
    pose proof (kind_some_valid s' i Hinv' Hi) as Hv.
    assert (same_file (tables (fs_db s)) (fs_table s) (tables (fs_db s')) (fs_table s') i) as [Hsz Hb].
    { destruct (decide (i = c)) as [->|Hne]; [done|by apply Ho]. }
    split; [done|]. intros q Hq. by rewrite Hb.
  - intros i. simpl. rewrite (loses_target c (tables (fs_db s)) (tables (fs_db s')) i); [|apply Hinv|apply Hinv'|done].
    by rewrite decide_True.
Qed.

Lemma view_gone s s' V1 c :
  fs_inv s -> fs_inv s' -> between s s' V1 -> loses c (tables (fs_db s)) (tables (fs_db s')) ->
  others_same c s s' -> is_Some (kind_of (tables (fs_db s)) c) ->
  kind_of (tables (fs_db s')) c = None -> view s' ≡ gone c V1.
Proof.
  intros Hinv Hinv' [] Hl Ho [K HK] Hno.
  assert (forall i, kind_of (tables (fs_db s')) i = if decide (i = c) then None else kind_of (tables (fs_db s)) i) as Hk.
  { intros i. case_decide as Hi; [by subst|]. destruct (proj2 Hl i) as [?|[? _]]; done. }
  unfold equiv, View_equiv, alike. simpl. rewrite bt_kind0, bt_target0. split_and!; try done.
  - intros i Hi _. unfold same_node. simpl. rewrite bt_size0, bt_byte0. simpl.
    pose proof (kind_some_valid s' i Hinv' Hi) as Hv. destruct Hi as [x Hi].
    destruct (Ho i Hv) as [Hsz Hb]; [intros ->; congruence|]. split; [done|]. intros q Hq. by rewrite Hb.
  - intros i. rewrite (loses_target c (tables (fs_db s)) (tables (fs_db s')) i); [|apply Hinv|apply Hinv'|done].
    simpl. rewrite Hk. case_decide as Hi; [subst i; by rewrite decide_False by congruence|by rewrite decide_True].
Qed.

(** The inode of a removed entry. *)
Lemma view_forgets s s' V1 c r K :
  fs_inv s -> fs_inv s' -> between s s' V1 -> loses c (tables (fs_db s)) (tables (fs_db s')) ->
  others_same c s s' -> same_flags s s' ->
  t_inodes (tables (fs_db s)) !! c = Some r -> row_kind r = Some K -> K <> Directory ->
  removal s s' c r K -> forgets c V1 (view s').
Proof.
  intros Hinv Hinv' Hb Hl Ho Hfl Hr HK Hne Hrem. unfold forgets.
  rewrite (between_named s s' V1), (between_held s s' V1) by done.
  assert (is_Some (kind_of (tables (fs_db s)) c)) as Hks by (rewrite (kind_of_row _ _ _ Hr); by eexists).
  assert (forall r', t_inodes (tables (fs_db s')) !! c = Some r' ->
    is_Some (kind_of (tables (fs_db s')) c) /\ row_kind r' = Some K) as Hstay.
  { intros r' Hr'. destruct (dw_rows _ (proj1 (fi_db _ _ _ Hinv')) _ _ Hr') as (_ & [k' Hk'] & _).
    rewrite (kind_of_row _ _ _ Hr'). split; [by eexists|].
    destruct (proj2 Hl c) as [Heq|[_ Heq]]; rewrite (kind_of_row _ _ _ Hr') in Heq; [|congruence].
    by rewrite Heq, (kind_of_row _ _ _ Hr). }
  destruct Hrem as [?|_ Hlt Hsf (r' & Hr' & Hn')|_ _ Hop Hsf [_ (r' & Hr' & _)]|_ Hle Hop Hno Hclosed]; [done|..].
  - left. destruct (Hstay r' Hr') as [Hs HK']. split; [|by apply (view_kept_on s s' V1 c)].
    left. rewrite (named_nlink s' c r' K) by done. lia.
  - left. destruct (Hstay r' Hr') as [Hs _]. split; [|by apply (view_kept_on s s' V1 c)]. right.
    destruct (open_held s c Hinv Hop) as [fh Hfh]. exists fh. simpl in *. by rewrite (sf_handles _ _ Hfl).
  - right. apply view_absent in Hno; [|done]. destruct (absent_fresh s' c Hinv' Hno) as (_ & ? & ?).
    split_and!; [done..|]. by apply (view_gone s).
Qed.
(** ** Entries that come and go *)

Lemma view_takes s p n k ino :
  fs_inv s -> entry_vacant (tables (fs_db s)) k (mkDirentRow p n ino) -> takes (view s) p n.
Proof.
  intros Hinv (_ & _ & Hlen & Hk & Hfree). split_and!; [done|done|].
  apply view_entry_None, find_entry_None. apply Hfree.
Qed.

Lemma view_created s s' p n node uid gid now ino :
  fs_inv s -> created_node s s' p n node uid gid now ino ->
  takes (view s) p n /\ fresh (view s) ino /\
  exists cookie, view s' ≡ add_node p n ino cookie node (view s).
Proof.
  intros Hinv [(k & Hcr) Ht _ Hch Hinv' _ Ho [Hsz Hb]]. pose proof (fi_db _ _ _ Hinv) as Hwf.
  split_and!; [by eapply view_takes, Hcr|apply absent_fresh, view_absent; [done..|apply Hcr]|].
  exists (k + DOTDOT). unfold equiv, View_equiv, alike. simpl.
  rewrite Ht, Hch. split_and!; try done.
  - intros p' n'. rewrite (find_created _ _ _ _ _ _ _ _ _ _ _ _ Hwf Hcr). by case_decide.
  - intros i. by rewrite (created_kind _ _ _ _ _ _ _ _ _ _ _ Hcr).
  - intros i Hi _. unfold same_node. simpl. rewrite Ht in *. case_decide as Hii.
    + subst i. split; [done|]. intros q Hq. by rewrite Hb.
    + destruct (Ho i) as [A B]; [by apply (kind_some_valid s')|done|]. rewrite Ht in *.
      split; [done|]. intros q Hq. by rewrite B.
  - intros i. by rewrite (created_symlinks _ _ _ _ _ _ _ _ _ _ _ Hwf Hcr).
Qed.

Lemma view_linked s s' ino p n attr :
  fs_inv s -> linked s s' ino p n attr ->
  takes (view s) p n /\ exists cookie, view s' ≡ set_entry p n (Some (ino, cookie)) (view s).
Proof.
  intros Hinv [Hinv' Hf Hfl Ht (k & Hv & Heq) _]. pose proof (fi_db _ _ _ Hinv) as Hwf.
  pose proof (fi_db _ _ _ Hinv') as Hwf'. split; [by eapply view_takes|].
  exists (k + DOTDOT). pose proof Heq as (_ & _ & Hs & _). destruct Hfl.
  assert (forall i, kind_of (tables (fs_db s')) i = kind_of (tables (fs_db s)) i) as Hk.
  { intros i. rewrite Heq. unfold link_tables. by rewrite kind_of_add_nlink. }
  symmetry. unfold equiv, View_equiv, alike. simpl. rewrite Hs. split_and!; try done.
  - intros p' n'. rewrite (find_linked _ _ _ _ _ _ _ _ Hwf Hwf' Hv Heq). by case_decide.
  - intros i Hi _. apply Hf. by apply (kind_some_valid s).
Qed.

(** The names of [s'] are those of [s] but for the removed one. *)
Lemma between_removed s s' p n :
  same_flags s s' ->
  (forall p' n', find_entry p' n' (tables (fs_db s')) =
     if decide (p' = p /\ n' = n) then None else find_entry p' n' (tables (fs_db s))) ->
  between s s' (set_entry p n None (view s)).
Proof.
  intros [] Hf. constructor; try done; simpl.
  - intros p' n'. rewrite Hf. by case_decide.
  - intros fh. symmetry. apply sf_handles.
Qed.

Lemma view_unlinked s s' p n k d r K :
  fs_inv s -> fs_inv s' -> resolves (tables (fs_db s)) p n k d r K -> K <> Directory ->
  same_flags s s' -> others_same (d_child d) s s' -> removal s s' (d_child d) r K ->
  tables (fs_db s') ≡ unlink_tables k d ((1 <? r_nlink r) || Shared.is_open (fs_table s) (d_child d))
    (tables (fs_db s)) ->
  forgets (d_child d) (set_entry p n None (view s)) (view s').
Proof.
  intros Hinv Hinv' Hres HK Hfl Ho Hrem Heq.
  pose proof (fi_db _ _ _ Hinv) as Hwf. pose proof (fi_db _ _ _ Hinv') as Hwf'.
  destruct (resolves_child _ _ _ _ _ _ _ Hwf Hres) as [Hv Hkd].
  apply (view_forgets s s' _ _ r K); try done; try apply Hres.
  - apply between_removed; [done|]. intros p' n'. eapply find_unlink; try done.
    intros [Hl _]%orb_false_iff. by apply Z.ltb_ge in Hl.
  - eapply loses_proper; [by symmetry|by apply loses_unlink].
Qed.

Lemma view_rmdir s s' p n k d r :
  fs_inv s -> fs_inv s' -> resolves (tables (fs_db s)) p n k d r Directory ->
  child_count (d_child d) (tables (fs_db s)) = 0 ->
  same_flags s s' -> others_same (d_child d) s s' -> t_inodes (tables (fs_db s')) !! d_child d = None ->
  tables (fs_db s') ≡ rmdir_tables k d (tables (fs_db s)) ->
  view s' ≡ gone (d_child d) (set_entry p n None (view s)).
Proof.
  intros Hinv Hinv' Hres Hz Hfl Ho Hno Heq.
  pose proof (fi_db _ _ _ Hinv) as Hwf. pose proof (fi_db _ _ _ Hinv') as Hwf'.
  destruct (resolves_child _ _ _ _ _ _ _ Hwf Hres) as [Hv Hkd].
  apply (view_gone s); try done.
  - apply between_removed; [done|]. intros p' n'. by eapply find_rmdir.
  - eapply loses_proper; [by symmetry|by apply loses_rmdir].
  - by apply (view_absent s').
Qed.

(** A directory without entries. *)
Lemma view_empty s c :
  fs_inv s -> child_count c (tables (fs_db s)) = 0 <-> forall n, v_entry (view s) c n = None.
Proof.
  intros Hinv. unfold child_count. fold (entry_count (fun d => d_parent d = c) (t_dirents (tables (fs_db s)))).
  rewrite entry_count_zero. setoid_rewrite view_entry_None. setoid_rewrite find_entry_None. split.
  - intros Hz n k d Hk Hp. by destruct (Hz k d Hk).
  - intros Hz k d Hk Hp. by apply (Hz (d_name d) k d).
Qed.

Lemma full_entry s c :
  fs_inv s -> child_count c (tables (fs_db s)) <> 0 -> exists n, is_Some (v_entry (view s) c n).
Proof.
  intros Hinv Hz. destruct (decide (map_Exists (fun _ d => d_parent d = c) (t_dirents (tables (fs_db s)))))
    as [(k & d & Hk & Hp)|Hno].
  - exists (d_name d). apply view_entry_is_Some. exists (k, d). apply find_entry_Some; [apply Hinv|done].
  - destruct Hz. unfold child_count. fold (entry_count (fun d => d_parent d = c) (t_dirents (tables (fs_db s)))).
    apply entry_count_zero. intros k d Hk Hp. apply Hno. by exists k, d.
Qed.

Lemma view_entry_of s p n k d r K :
  resolves (tables (fs_db s)) p n k d r K ->
  v_entry (view s) p n = Some (d_child d, k + DOTDOT) /\ v_child (view s) p n = Some (d_child d).
Proof. intros []. unfold v_child. simpl. by rewrite rs_find. Qed.
(** ** Renames *)

Lemma between_renamed s s' k d r K np nn tgt is_open :
  fs_inv s -> fs_inv s' -> same_flags s s' -> rename_ok (tables (fs_db s)) k d r K np nn tgt ->
  tables (fs_db s') ≡ renamed_tables (tables (fs_db s)) k d np nn tgt is_open ->
  between s s' (set_entry np nn (Some (d_child d, k + DOTDOT)) (set_entry (d_parent d) (d_name d) None (view s))).
Proof.
  intros Hinv Hinv' [] Hok Heq. constructor; try done; simpl.
  - intros p' n'. rewrite (find_renamed (tables (fs_db s)) (tables (fs_db s')) k d r K np nn tgt is_open);
      [by repeat case_decide|apply Hinv|apply Hinv'|done..].
  - intros fh. symmetry. apply sf_handles.
Qed.

(** A replaced directory is gone. *)
Lemma replaced_directory T k d np nn k2 d2 r2 is_open :
  valid_ino (d_child d2) ->
  kind_of (renamed_tables T k d np nn (Some (k2, d2, r2, Directory)) is_open) (d_child d2) = None.
Proof.
  intros Hv. unfold renamed_tables. rewrite move_kind, replaced_kind. simpl.
  by rewrite remove_kind, decide_True.
Qed.

Lemma view_renamed s s' p n np nn :
  fs_inv s -> fs_inv s' -> same_flags s s' -> renamed s s' p n np nn -> ~ (p = np /\ n = nn) ->
  exists c cookie K, v_entry (view s) p n = Some (c, cookie) /\ v_kind (view s) c = Some K /\
    v_kind (view s) np = Some Directory /\ zlen nn <= NAME_MAX /\
    (K = Directory -> ~ inside (view s) c np) /\ fits_over (view s) c (v_child (view s) np nn) /\
    replaces (set_entry np nn (Some (c, cookie)) (set_entry p n None (view s))) (v_child (view s) np nn) (view s').
Proof.
  intros Hinv Hinv' Hfl Hren Hne. pose proof (fi_db _ _ _ Hinv) as Hwf.
  destruct Hren as [-> -> _ _|k d r K <- <- Hok Hf Heq|k d r K k2 d2 r2 K2 <- <- Hok Ho Hrem Heq]; [tauto|..];
    exists (d_child d), (k + DOTDOT), K;
    pose proof (ro_source _ _ _ _ _ _ _ _ Hok) as Hres;
    pose proof (source_kind _ _ _ _ _ _ _ _ Hwf Hok) as HK.
  - destruct (view_entry_of s _ _ _ _ _ _ Hres) as [He _].
    assert (v_child (view s) np nn = None) as Hnone.
    { unfold v_child. pose proof (ro_target _ _ _ _ _ _ _ _ Hok) as Hf0. simpl in Hf0.
      simpl. by rewrite Hf0. }
    rewrite Hnone. split_and!; [done|done|apply Hok|apply Hok| |by intros ?|].
    + intros HKd. rewrite view_inside by done. by apply Hok.
    + simpl. apply (view_kept_on s s' _ (d_child d)); try done.
      * by apply (between_renamed s s' k d r K np nn None (fun _ => false)).
      * eapply loses_proper; [by symmetry|apply loses_moved].
      * intros i Hi _. by apply Hf.
      * rewrite Heq, move_kind, HK. by eexists.
      * apply Hf. by eapply (kind_some_valid s); [|eexists].
  - destruct (view_entry_of s _ _ _ _ _ _ Hres) as [He _].
    pose proof (ro_target _ _ _ _ _ _ _ _ Hok) as (Hres2 & Hiff & Hz).
    destruct (view_entry_of s _ _ _ _ _ _ Hres2) as [_ Hc2].
    destruct (resolves_child _ _ _ _ _ _ _ Hwf Hres2) as [Hv2 HK2]. rewrite Hc2.
    assert (between s s' (set_entry np nn (Some (d_child d, k + DOTDOT))
      (set_entry (d_parent d) (d_name d) None (view s)))) as Hb.
    { by apply (between_renamed s s' k d r K np nn (Some (k2, d2, r2, K2)) (Shared.is_open (fs_table s))). }
    assert (loses (d_child d2) (tables (fs_db s)) (tables (fs_db s'))) as Hl.
    { eapply loses_proper; [by symmetry|]. by eapply loses_renamed. }
    split_and!; [done|done|apply Hok|apply Hok| | |].
    + intros HKd. rewrite view_inside by done. by apply Hok.
    + intros t [= <-]. simpl. rewrite HK, HK2. split; [naive_solver|]. intros [= ->].
      apply view_empty; [done|]. by apply Hz.
    + unfold replaces. simpl. rewrite HK2. case_decide as HD.
      * injection HD as ->. apply (view_gone s); try done.
        rewrite Heq. by apply replaced_directory.
      * apply (view_forgets s s' _ _ r2 K2); try done; [apply Hres2|apply Hres2|congruence].
Qed.

(** ** Releases *)

Lemma between_dropped s s' fh :
  handle_dropped s s' fh -> t_dirents (tables (fs_db s')) = t_dirents (tables (fs_db s)) ->
  between s s' (set_handle fh None (view s)).
Proof.
  intros [] Hd. constructor; try done; simpl.
  - intros p n. unfold find_entry. by rewrite Hd.
  - intros fh'. case_decide as Hf; [by subst|]. symmetry. by apply hd_others.
Qed.

(** The tree stays; the files of [P] may be lost. *)
Lemma view_dropped (P : Z -> Prop) s s' fh :
  fs_inv s -> handle_dropped s s' fh -> same_names (tables (fs_db s)) (tables (fs_db s')) ->
  (forall i, valid_ino i -> ~ P i ->
     same_file (tables (fs_db s)) (fs_table s) (tables (fs_db s')) (fs_table s') i) ->
  alike P (set_handle fh None (view s)) (view s').
Proof.
  intros Hinv Hd Hn Hf. pose proof (fun i => same_names_kind _ _ i Hn) as Hk.
  destruct Hn as (Hdir & Hs & _). destruct (between_dropped s s' fh Hd Hdir) as [].
  split_and!; try done.
  - intros i Hi Hp. apply Hf; [|done]. by apply (kind_some_valid s).
  - intros i. simpl. by rewrite Hs.
Qed.

Lemma view_released s s' fh ino :
  fs_inv s -> fs_inv s' -> handle_ino (fs_table s) fh = Some ino -> handle_dropped s s' fh ->
  release_outcome s s' fh ino -> lets_go ino (set_handle fh None (view s)) (view s').
Proof.
  intros Hinv Hinv' Hf Hd Hr.
  destruct Hr as [Hu _ Hno Hdir Hrm Ho|_ Hcalm _].
  - right. pose proof (between_dropped s s' fh Hd Hdir) as Hb.
    rewrite (between_named s s'), (between_held s s') by done.
    apply view_absent in Hno; [|done]. destruct (absent_fresh s' ino Hinv' Hno) as (_ & ? & ?).
    split_and!; [done..|]. apply (view_gone s); try done.
    + rewrite Hrm. apply loses_remove. exact (handle_valid _ _ _ _ _ Hinv Hf).
    + exact (handle_kind s fh ino Hinv Hf).
  - left. symmetry. apply view_dropped; [done|done|apply Hcalm|]. intros i Hi _. by apply Hcalm.
Qed.
End view_of.
