(* ===== verification/Serve.v ===== *)
(** * Serve: one request after the other

    [serve] is the dispatch of the requests to their handlers. Here its refusals, the
    errors of the database and the listings are put in the terms of views. *)

From S2P Require Import Prelude Effects Model Chunk Arena OpenTable Sql DbData DbNames Tree.
From S2P Require Import NamesSpec NamesView DbVolume Fuse FuseInv FuseFlush FuseWrite FuseRead.
From S2P Require Import FuseOps FuseHandles FuseSpec FuseLifecycle FuseNames FuseResize FuseAttr.
From S2P Require Import DirStream Views Answers ViewOf.

Section serve.
Context `{World, HashOrder}.

Definition as_answer (m : FsM Reply) : FsM Answer := reply ← m; mret (AReply reply).

(** A reply buffer without a limit. *)
Definition push (entries : list DbfsDirEntry) (ino next : Z) (kind : FileType) (name : list byte)
    : list DbfsDirEntry * bool := (entries ++ [mkDbfsDirEntry name ino kind next], false).

Definition serve (q : Request) : FsM Answer :=
  match q with
  | QLookup p n => as_answer (Handler.lookup p n)
  | QGetattr ino => as_answer (Handler.getattr ino)
  | QReaddir ino offset =>
      r ← Handler.readdir ino offset push [];
      mret (match r.1 with ReplyOk => AListing r.2 | reply => AReply reply end)
  | QStatfs => as_answer Handler.statfs
  | QMkdir p n mode umask uid gid => as_answer (Handler.mkdir p n mode umask uid gid)
  | QCreate p n mode umask uid gid => as_answer (Handler.create p n mode umask uid gid)
  | QMknod p n mode umask uid gid => as_answer (Handler.mknod p n mode umask uid gid)
  | QSymlink p n target uid gid => as_answer (Handler.symlink p n target uid gid)
  | QReadlink ino => as_answer (Handler.readlink ino)
  | QLink ino p n => as_answer (Handler.link ino p n)
  | QSetattr ino mode uid gid size atime mtime => as_answer (Handler.setattr ino mode uid gid size atime mtime)
  | QGetxattr ino n size => as_answer (Handler.getxattr ino n size)
  | QListxattr ino size => as_answer (Handler.listxattr ino size)
  | QSetxattr ino n => as_answer (Handler.setxattr ino n)
  | QRemovexattr ino n => as_answer (Handler.removexattr ino n)
  | QOpen ino => as_answer (Handler.open ino)
  | QRelease fh => as_answer (Handler.release fh)
  | QFlush fh => as_answer (Handler.flush fh)
  | QFsync fh => as_answer (Handler.fsync fh)
  | QRead fh offset size => as_answer (Handler.read fh offset size)
  | QWrite fh offset data => as_answer (Handler.write fh offset data)
  | QFallocate ino offset length mode => as_answer (Handler.fallocate ino offset length mode)
  | QUnlink p n => as_answer (Handler.unlink p n)
  | QRmdir p n => as_answer (Handler.rmdir p n)
  | QRename p n np nn flags => as_answer (Handler.rename p n np nn flags)
  | QShutdown => as_answer (Handler.answer Shared.flush_for_shutdown Handler.ok_reply)
  end.

Implicit Types (s : Fs) (q : Request) (ino p : Z) (n : list byte).

Lemma wp_as_answer m (Q : Answer -> Fs -> Prop) (R : Z -> Fs -> Prop) s :
  wp m (fun r s' => Q (AReply r) s') R s -> wp (as_answer m) Q R s.
Proof. intros Hm. apply wp_bind. eapply wp_mono; [exact Hm| |done]. intros r s' Hq. by apply wp_ret. Qed.

Lemma wp_handler {A} (m : FsM A) reply (Q : Answer -> Fs -> Prop) (R : Z -> Fs -> Prop) s :
  wp m (fun a s' => Q (AReply (reply a s')) s') (fun e s' => Q (AError e) s') s ->
  wp (as_answer (Handler.answer m reply)) Q R s.
Proof.
  intros Hm. apply wp_as_answer, wp_match_result. eapply wp_mono; [exact Hm|..].
  - intros a s' Hq. by apply wp_gets.
  - intros e s' Hq. by apply wp_ret.
Qed.

(** ** What a served request comes to *)

Definition served s q (a : Answer) (s' : Fs) : Prop := fs_inv s' /\ answers (view s) q a (view s').

Lemma served_granted s q a s' : fs_inv s' -> grants (view s) q a (view s') -> served s q a s'.
Proof. intros Hinv Hg. split; [done|by apply aw_granted]. Qed.

Lemma served_refused s q e s' :
  fs_inv s -> fs_inv s' -> quiet s s' -> refuses (view s) q e -> served s q (AError e) s'.
Proof. intros Hinv Hinv' Hq Hr. split; [done|]. apply aw_refused; [done|by apply view_quiet]. Qed.

Lemma served_refused_same s q e s' :
  fs_inv s -> same_state s s' -> refuses (view s) q e -> served s q (AError e) s'.
Proof. intros Hinv Hs Hr. apply served_refused; [done|by eapply same_state_inv|by apply quiet_state|done]. Qed.

Lemma quiet_request q s s' :
  fs_inv s -> fs_inv s' -> quiet s s' -> (forall fh, q <> QRelease fh) -> q <> QShutdown ->
  broken (view s) q (view s').
Proof. intros Hinv Hinv' Hq H1 H2. apply br_same; [done|done|by apply view_quiet]. Qed.
End serve.

Section errors.
Context `{World, !EngineLaws H}.

Lemma failure_device e : db_failure e -> device e.
Proof.
  intros (de & (n & se & Hf & ->) & ->). destruct se as [|code x m|m]; [by apply fault_not_empty in Hf| |by left].
  simpl. unfold sqlite_failure. destruct (bool_decide (code = DiskFull) || _); [by right|].
  destruct (bool_decide_reflect (code = ConstraintViolation)) as [->|]; [by apply fault_not_constraint in Hf|by left].
Qed.
End errors.

Section failures.
Context `{World, HashOrder, !EngineLaws H}.
Implicit Types (s : Fs) (q : Request) (ino p : Z) (n : list byte).

Lemma served_broken s q e s' :
  fs_inv s' -> db_failure e -> broken (view s) q (view s') -> served s q (AError e) s'.
Proof. intros Hinv He Hb. split; [done|]. apply aw_broken; [by apply failure_device|done]. Qed.

Lemma served_failed s q e s' :
  fs_inv s -> fs_inv s' -> quiet s s' -> db_failure e -> (forall fh, q <> QRelease fh) -> q <> QShutdown ->
  served s q (AError e) s'.
Proof. intros. apply served_broken; [done..|]. by apply quiet_request. Qed.

Lemma served_failed_same s q e s' :
  fs_inv s -> same_state s s' -> db_failure e -> (forall fh, q <> QRelease fh) -> q <> QShutdown ->
  served s q (AError e) s'.
Proof. intros Hinv Hs ???. apply served_failed; try done; [by eapply same_state_inv|by apply quiet_state]. Qed.
End failures.

(** ** Refusals *)

Section refusals.
Context `{World, HashOrder, !EngineLaws H}.
Implicit Types (s : Fs) (q : Request) (ino p : Z) (n : list byte).

Lemma refused_lookup s p n e :
  lookup_refused (tables (fs_db s)) p n e -> refuses (view s) (QLookup p n) e.
Proof.
  intros [].
  - eapply re_long; [by right|done].
  - eapply re_absent; [by right|by apply view_entry_None].
Qed.

Lemma refused_make s q p n e :
  fs_inv s -> makes q p n -> create_refused (tables (fs_db s)) p n e -> refuses (view s) q e \/ e = ENOSPC.
Proof.
  intros Hinv Hm []; [left; eapply re_make; [done|]..|by right].
  - by constructor.
  - constructor. by apply (view_absent s).
  - by eapply mf_file.
  - constructor. by apply view_entry_is_Some.
Qed.

Lemma refused_link s ino p n e :
  fs_inv s -> link_refused (tables (fs_db s)) ino p n e -> refuses (view s) (QLink ino p n) e \/ e = ENOSPC.
Proof.
  intros Hinv Hr. assert (makes (QLink ino p n) p n) as Hm by constructor.
  destruct Hr as [|[Hno|Hno]| | | |]; [left..|by right].
  - eapply re_make; [done|by constructor].
  - eapply re_missing; [constructor|by apply (view_absent s)].
  - eapply re_make; [done|]. constructor. by apply (view_absent s).
  - by apply re_link_dir.
  - eapply re_make; [done|by eapply mf_file].
  - eapply re_make; [done|]. constructor. by apply view_entry_is_Some.
Qed.

Lemma refused_unlink s p n e :
  fs_inv s -> unlink_refused (tables (fs_db s)) p n e -> refuses (view s) (QUnlink p n) e.
Proof.
  intros Hinv [].
  - eapply re_long; [left; constructor|done].
  - eapply re_absent; [left; constructor|by apply view_entry_None].
  - eapply re_unlink_dir; [by eapply view_entry_of|]. simpl.
    eapply (resolves_child _ _ _ _ _ _ _ (fi_db _ _ _ Hinv)). done.
Qed.

Lemma refused_rmdir s p n e :
  fs_inv s -> rmdir_refused (tables (fs_db s)) p n e -> refuses (view s) (QRmdir p n) e.
Proof.
  intros Hinv [Hl|Hno|k d r K Hres HK|k d r Hres Hz].
  - eapply re_long; [left; constructor|done].
  - eapply re_absent; [left; constructor|by apply view_entry_None].
  - destruct (resolves_child _ _ _ _ _ _ _ (fi_db _ _ _ Hinv) Hres).
    eapply re_rmdir_file; [by eapply view_entry_of|done|done].
  - destruct (resolves_child _ _ _ _ _ _ _ (fi_db _ _ _ Hinv) Hres).
    destruct (full_entry s (d_child d) Hinv Hz) as [n' Hn'].
    eapply re_rmdir_full; [by eapply view_entry_of|done|done].
Qed.

Lemma refused_rename s p n np nn flags e :
  fs_inv s -> rename_refused (tables (fs_db s)) p n np nn (noreplace flags) e ->
  refuses (view s) (QRename p n np nn flags) (errno_from_db_error e).
Proof.
  intros Hinv Hr. pose proof (fi_db _ _ _ Hinv) as Hwf. apply re_move.
  destruct Hr as [Hl|Hno|K HK HKd|k d r Hres Hu|Hnr Hex|k d r K k2 d2 r2 K2 e Hres Hres2 He].
  - by constructor.
  - constructor. destruct Hno as [?|?]; [left; by apply view_entry_None|right; by apply (view_absent s)].
  - by eapply xf_parent.
  - destruct (resolves_child _ _ _ _ _ _ _ Hwf Hres). eapply xf_inside; [by eapply view_entry_of|done|].
    by apply view_inside.
  - apply xf_exists; [done|by apply view_entry_is_Some].
  - destruct (resolves_child _ _ _ _ _ _ _ Hwf Hres), (resolves_child _ _ _ _ _ _ _ Hwf Hres2).
    destruct (view_entry_of s _ _ _ _ _ _ Hres) as [_ Hc], (view_entry_of s _ _ _ _ _ _ Hres2) as [_ Ht].
    destruct K, K2; try discriminate He; simpl in He; try (injection He as <-); simpl.
    all: try by eapply xf_directory.
    all: try by eapply xf_file.
    destruct (Z.eqb_spec (child_count (d_child d2) (tables (fs_db s))) 0) as [|Hz]; [done|]. injection He as <-.
    destruct (full_entry s (d_child d2) Hinv Hz) as [n' Hn']. by eapply xf_full.
Qed.

Lemma refused_resize s ino mode uid gid size atime mtime e :
  fs_inv s -> resize_refused (tables (fs_db s)) ino size e ->
  refuses (view s) (QSetattr ino mode uid gid (Some size) atime mtime) e.
Proof.
  intros Hinv [].
  - eapply re_missing; [constructor|by apply (view_absent s)].
  - by eapply re_resize.
  - by apply re_resize_large.
Qed.

Lemma refused_fallocate s ino offset length mode e :
  fs_inv s -> fallocate_refused (tables (fs_db s)) ino offset length mode e ->
  refuses (view s) (QFallocate ino offset length mode) e.
Proof.
  intros Hinv [].
  - by apply re_fallocate_range.
  - by apply re_fallocate_mode.
  - eapply re_missing; [constructor|by apply (view_absent s)].
  - by eapply re_fallocate_kind.
  - by apply re_fallocate_large.
Qed.

Lemma refused_write s fh ino offset data e :
  handle_ino (fs_table s) fh = Some ino -> write_refused s ino offset (zlen data) e ->
  refuses (view s) (QWrite fh offset data) e.
Proof.
  intros Hf [k error Hk He|_ Hc|_ Hl]; [by eapply re_write_kind|by apply re_write_closing|by apply re_write_large].
Qed.

(** ** Listings *)

Lemma view_above s ino x :
  fs_inv s -> kind_of (tables (fs_db s)) ino = Some Directory ->
  above (view s) ino x <-> x = dir_parent (tables (fs_db s)) ino.
Proof.
  intros Hinv Hk. pose proof (fi_db _ _ _ Hinv) as [_ Hn]. unfold above, dir_parent.
  destruct (Z.eqb_spec ino 1) as [->|H1]; [naive_solver|].
  assert (exists k d, t_dirents (tables (fs_db s)) !! k = Some d /\ d_child d = ino /\
    default ino (find_parent ino (tables (fs_db s))) = d_parent d) as (k & d & Hkd & Hc & ->).
  { destruct (find_parent ino (tables (fs_db s))) as [y|] eqn:Hp.
    - apply find_parent_Some in Hp as (k & d & ? & ? & <-). by exists k, d.
    - exfalso. destruct (nw_dirs _ Hn _ Hk) as [Hl _]. rewrite decide_False in Hl by done.
      assert (links (tables (fs_db s)) ino = 0); [|lia]. apply entry_count_zero. by apply find_parent_None. }
  split.
  - intros [[? _]|[_ (n & Hch%view_child)]]; [done|].
    apply child_of_Some in Hch as (k' & d' & Hk' & <- & _ & Hc'); [|done].
    assert (k' = k) as -> by (apply (dir_one_entry (tables (fs_db s)) k' d' k d); congruence). congruence.
  - intros ->. right. split; [done|]. exists (d_name d). apply view_child, child_of_Some; [done|]. by exists k, d.
Qed.

Lemma view_shows s ino e :
  fs_inv s -> kind_of (tables (fs_db s)) ino = Some Directory ->
  shows (view s) ino e <-> stream_entry (tables (fs_db s)) ino e.
Proof.
  intros Hinv Hk. pose proof (fi_db _ _ _ Hinv) as [_ Hn]. unfold shows, stream_entry.
  setoid_rewrite view_above; [|done..]. split.
  - intros [?|[(x & -> & ->)|(n & c & ck & K & He & HK & ->)]]; [by left|by right; left|].
    right; right. simpl in He. apply fmap_Some in He as ([k d] & Hf & [= -> ->]).
    apply find_entry_Some in Hf as (Hkd & Hp & <-); [|done]. by exists k, d, K.
  - intros [?|[->|(k & d & K & Hkd & Hp & HK & ->)]]; [by left|right; left; by eexists|].
    right; right. exists (d_name d), (d_child d), (k + DOTDOT), K. split_and!; try done.
    simpl. rewrite (proj2 (find_entry_Some _ ino (d_name d) k d Hn)); done.
Qed.
End refusals.
