(* ===== verification/Sections.v ===== *)
(** * Sections: what another thread can come between

    A request holds the lock of the table while it works on the table, and calls the storage
    layer without it otherwise. Here a request is the sequence of these sections, each of them
    one step of its thread. [task_serve] shows that the sections in a row are the handler. *)

From S2P Require Import Prelude Effects Model Chunk Arena OpenTable Sql DbData DbNames Tree.
From S2P Require Import NamesSpec NamesView DbVolume Fuse FuseInv FuseFlush FuseWrite FuseRead.
From S2P Require Import FuseOps FuseHandles FuseSpec FuseLifecycle FuseNames FuseResize FuseAttr.
From S2P Require Import DirStream Views Answers ViewOf Serve.

(** What is left of a request: the answer, or a section that says what is left after it. A
    [locked] one holds the lock of the table. *)
#[warnings="-register-all"]
Inductive Task :=
  | Answered (a : Answer)
  | Next (locked : bool) (m : Fs -> outcome Fs Z Task).

(** A request that was answered, with the states at its arrival and at its answer. *)
Record Exchange := mkExchange { x_request : Request; x_answer : Answer; x_arrival : Fs; x_reply : Fs }.

(** All of it without a break. *)
Fixpoint run_task (t : Task) : FsM Answer :=
  match t with
  | Answered a => mret a
  | Next _ m => fun s =>
      match m s with
      | Ok t s' => run_task t s'
      | Err e s' => Err e s'
      | Panic => Panic
      | OutOfFuel => OutOfFuel
      end
  end.

(** Every section of a request, in any state that it may meet. *)
Fixpoint each_section (P : bool -> FsM Task -> Prop) (t : Task) : Prop :=
  match t with
  | Answered _ => True
  | Next locked m => P locked m /\ forall s, match m s with Ok t' _ => each_section P t' | _ => True end
  end.

Section tasks.
Context `{World, HashOrder}.
Implicit Types (q : Request) (ino p : Z) (n : list byte).

(** The last section of a request. *)
Definition whole (m : FsM Answer) : FsM Task := a ← m; mret (Answered a).
Definition ends {A} (m : FsM A) (reply : A -> Fs -> Reply) : FsM Task :=
  whole (as_answer (Handler.answer m reply)).

(** A section before others; an error is answered at once. *)
Definition and_then {A} (m : FsM A) (next : A -> Task) : FsM Task :=
  match_result m (fun a => mret (next a)) (fun e => mret (Answered (AError e))).

(** The attributes of an inode, read from the database, and then the table over them. *)
Definition attr_task {A} (get : DbM Inode) (k : FileAttr -> FsM A) (reply : A -> Fs -> Reply) : Task :=
  Next false (and_then (Shared.db get) (fun inode =>
    Next true (ends (attr ← Shared.overlay_attr (file_attr_from_inode inode); k attr) reply))).

Definition parent_of (ino : Z) : FsM Z :=
  Shared.db (match_result (parent_of_dir ino) mret
    (fun e => match e with NotFound => mret ino | _ => throw e end)).

(** [readdir_stream] after the query for the parent, into a buffer without a limit. *)
Definition list_entries (ino offset parent : Z) : FsM (list DbfsDirEntry) :=
  let acc := if offset <? DOT then [mkDbfsDirEntry dot_name ino FtDirectory DOT] else [] in
  let acc := if offset <? DOTDOT then acc ++ [mkDbfsDirEntry dotdot_name parent FtDirectory DOTDOT] else acc in
  Shared.db (read_dir_after ino (Z.max (i64 (offset - DOTDOT)) 0)
    (fun acc id name child kind => push acc child (i64 (id + DOTDOT)) (file_type kind) name) acc).

Definition listing (m : FsM (list DbfsDirEntry)) : FsM Answer :=
  match_result m (fun out => mret (AListing out)) (fun e => mret (AError e)).

(** [create_open] after the creation. *)
Definition open_created (attr : FileAttr) : FsM (FileAttr * Z) :=
  t ← Shared.table;
  r ← unwrap (inodes_insert (inodes t) (fa_ino attr) RegularFile 0);
  Shared.update (with_slots r.2) ;;
  fh ← Shared.open_slot r.1;
  mret (attr, fh).

(** [fallocate] up to the lock, and from there. *)
Definition fallocate_checks (ino offset length mode : Z) : FsM unit :=
  if (offset <? 0) || (length <=? 0) then throw EINVAL
  else if negb (Z.ldiff mode FALLOC_FL_KEEP_SIZE =? 0) then throw EOPNOTSUPP
  else
    kind ← Shared.db (inode_kind_of ino);
    if negb (bool_decide (kind = RegularFile)) then throw ENODEV
    else if I64_MAX <? offset + length then throw EFBIG
    else if MAX_FILE_SIZE <? offset + length then throw EFBIG
    else mret tt.

Definition extend_locked (ino end_ : Z) : FsM unit :=
  slot ← Dbfs.find_slot ino;
  size ← (match slot with
          | Some slot => Shared.column oi_size slot
          | None => head ← Shared.db (inode_head ino); mret head.2
          end);
  if end_ <=? size then mret tt else Dbfs.truncate_locked ino end_.

(** [unlink] from the lock on. *)
Definition unlink_found p n (inode : Inode) : FsM unit :=
  t ← Shared.table;
  Shared.db (unlink_entry p n inode (Shared.is_open t (i_ino inode))) ;;
  Shared.entry_removed inode.

(** Whether the one section of a request takes the lock. *)
Definition locks q : bool :=
  match q with
  | QOpen _ | QRelease _ | QFlush _ | QRename _ _ _ _ _ | QShutdown => true
  | QRead _ offset _ | QWrite _ offset _ => 0 <=? offset
  | _ => false
  end.

Definition task q : Task :=
  match q with
  | QLookup p n => attr_task (DbNames.lookup p n) mret Handler.entry_reply
  | QGetattr ino => attr_task (get_inode ino) mret Handler.attr_reply
  | QGetxattr ino _ size =>
      attr_task (get_inode ino) (fun _ => throw ENODATA) (fun value _ => reply_xattr value size)
  | QListxattr ino size =>
      attr_task (get_inode ino) (fun _ => mret []) (fun names _ => reply_xattr names size)
  | QSetxattr ino _ => attr_task (get_inode ino) (fun _ => throw EOPNOTSUPP) Handler.ok_reply
  | QRemovexattr ino _ => attr_task (get_inode ino) (fun _ => throw ENODATA) Handler.ok_reply
  | QReaddir ino offset =>
      Next false (and_then (parent_of ino) (fun parent =>
        Next false (whole (listing (list_entries ino offset parent)))))
  | QCreate p n mode umask uid gid =>
      Next false (and_then (Dbfs.create p n mode umask uid gid) (fun attr =>
        Next true (ends (open_created attr)
          (fun r s => ReplyCreated (Dbfs.ttl s) r.1 0 r.2 (Dbfs.open_flags s)))))
  | QSetattr ino mode uid gid size atime mtime =>
      Next false (atime ← Handler.time_or_now atime; mtime ← Handler.time_or_now mtime;
        mret (Next true (ends (Dbfs.setattr ino mode uid gid size atime mtime) Handler.attr_reply)))
  | QFsync fh =>
      Next true (and_then (Dbfs.flush_fh fh) (fun _ =>
        Next false (ends (Shared.db sync_durable) Handler.ok_reply)))
  | QFallocate ino offset length mode =>
      Next false (and_then (fallocate_checks ino offset length mode) (fun _ =>
        if negb (Z.land mode FALLOC_FL_KEEP_SIZE =? 0) then Answered (AReply ReplyOk)
        else Next true (ends (extend_locked ino (offset + length)) Handler.ok_reply)))
  | QUnlink p n =>
      Next false (and_then (Shared.db (DbNames.lookup p n)) (fun inode =>
        Next true (ends (unlink_found p n inode) Handler.ok_reply)))
  | q => Next (locks q) (whole (serve q))
  end.

(** ** The sections in a row *)

Lemma run_whole locked m : run_task (Next locked (whole m)) ≡ m.
Proof. intros s. unfold whole. simpl. unfold mbind, M_bind. by destruct (m s). Qed.

Lemma run_and_then {A} locked (m : FsM A) next :
  run_task (Next locked (and_then m next)) ≡
  match_result m (fun a => run_task (next a)) (fun e => mret (AError e)).
Proof. intros s. simpl. unfold and_then, match_result. by destruct (m s). Qed.

Lemma run_sections {A B} locked (m : FsM A) next (k : A -> FsM B) reply :
  (forall a, run_task (next a) ≡ as_answer (Handler.answer (k a) reply)) ->
  run_task (Next locked (and_then m next)) ≡ as_answer (Handler.answer (a ← m; k a) reply).
Proof.
  intros Hk s. etrans; [apply run_and_then|]. unfold match_result at 1, as_answer, Handler.answer, match_result.
  unfold mbind, M_bind. destruct (m s) as [a s1|e s1| |]; [|done..].
  etrans; [apply Hk|]. unfold as_answer, Handler.answer, match_result, mbind, M_bind. done.
Qed.

#[local] Instance answer_proper {A} : Proper ((≡) ==> eq ==> (≡)) (@Handler.answer A).
Proof. intros m1 m2 Hm reply ? <- s. unfold Handler.answer, match_result. by rewrite (Hm s). Qed.

#[local] Instance as_answer_proper : Proper ((≡) ==> (≡)) as_answer.
Proof. intros m1 m2 Hm s. unfold as_answer, mbind, M_bind. by rewrite (Hm s). Qed.

Lemma run_attr_task {A} get (k : FileAttr -> FsM A) reply :
  run_task (attr_task get k reply) ≡
  as_answer (Handler.answer
    ((inode ← Shared.db get; Shared.overlay_attr (file_attr_from_inode inode)) ≫= k) reply).
Proof. rewrite bind_assoc. apply run_sections. intros inode. apply run_whole. Qed.

Lemma run_list_entries ino offset :
  (parent ← parent_of ino; list_entries ino offset parent) ≡ Dbfs.readdir_stream ino offset push [].
Proof.
  intros s. unfold parent_of, list_entries, Dbfs.readdir_stream, mbind, M_bind.
  destruct (Shared.db _ s) as [parent s1|e s1| |]; [|done..].
  by destruct (offset <? DOT), (offset <? DOTDOT).
Qed.

Lemma run_checks ino offset length mode :
  (fallocate_checks ino offset length mode ;;
   if negb (Z.land mode FALLOC_FL_KEEP_SIZE =? 0) then mret tt else extend_locked ino (offset + length)) ≡
  Dbfs.fallocate ino offset length mode.
Proof.
  intros s. unfold fallocate_checks, Dbfs.fallocate, extend_locked, mbind, M_bind.
  destruct (_ || _); [done|]. destruct (negb (Z.ldiff _ _ =? 0)); [done|].
  destruct (Shared.db _ s) as [kind s1|e s1| |]; [|done..].
  destruct (negb (bool_decide _)); [done|]. destruct (I64_MAX <? _); [done|]. by destruct (MAX_FILE_SIZE <? _).
Qed.

Lemma bind_ret {S E A} (m : M S E A) : m ≫= mret ≡ m.
Proof. intros s. unfold mbind, M_bind. by destruct (m s). Qed.

(** ** Properties of the sections *)

Lemma each_whole P locked m : P locked (whole m) -> each_section P (Next locked (whole m)).
Proof. intros Hm. split; [done|]. intros s. unfold whole, mbind, M_bind. by destruct (m s). Qed.

Lemma each_and_then {A} P locked (m : FsM A) next :
  P locked (and_then m next) -> (forall a, each_section P (next a)) ->
  each_section P (Next locked (and_then m next)).
Proof. intros Hm Hn. split; [done|]. intros s. unfold and_then, match_result. destruct (m s); simpl; auto. Qed.

Lemma each_mono (P P' : bool -> FsM Task -> Prop) :
  (forall locked m, P locked m -> P' locked m) -> forall t, each_section P t -> each_section P' t.
Proof.
  intros HP. fix IH 1. intros [a|locked m]; simpl; [done|]. intros [Hm Hn]. split; [by apply HP|].
  intros s. specialize (Hn s). destruct (m s) as [t' s'|e s'| |]; [by apply IH|done..].
Qed.

(** ** Sections without the lock *)

(** What the two mutexes protect: the table and the outcome of the last flush. *)
Definition with_guarded (T : OpenTable) (last : option Z) (s : Fs) : Fs :=
  mkFs (fs_db s) T last (fs_kernel_cache s).

Definition relabel {A} (T : OpenTable) (last : option Z) (o : outcome Fs Z A) : outcome Fs Z A :=
  match o with
  | Ok a s => Ok a (with_guarded T last s)
  | Err e s => Err e (with_guarded T last s)
  | Panic => Panic
  | OutOfFuel => OutOfFuel
  end.

(** A program that does the same whatever the table is, and leaves it alone. *)
Definition blind {A} (m : FsM A) : Prop := forall T last s, m (with_guarded T last s) = relabel T last (m s).

Lemma blind_ret {A} (a : A) : blind (mret a).
Proof. done. Qed.

Lemma blind_throw {A} e : blind (A := A) (throw e).
Proof. done. Qed.

Lemma blind_db {A} (m : DbM A) : blind (Shared.db m).
Proof. intros T last s. unfold Shared.db, zoom. simpl. by destruct (m (fs_db s)). Qed.

Lemma blind_bind {A B} (m : FsM A) (f : A -> FsM B) : blind m -> (forall a, blind (f a)) -> blind (m ≫= f).
Proof.
  intros Hm Hf T last s. unfold mbind, M_bind. rewrite Hm. destruct (m s) as [a s'| | |]; [apply Hf|done..].
Qed.

Lemma blind_match_result {A B} (m : FsM A) (f : A -> FsM B) g :
  blind m -> (forall a, blind (f a)) -> (forall e, blind (g e)) -> blind (match_result m f g).
Proof.
  intros Hm Hf Hg T last s. unfold match_result. rewrite Hm. destruct (m s); [apply Hf|apply Hg|done..].
Qed.

Lemma blind_answer {A} (m : FsM A) reply :
  blind m -> (forall a T last s, reply a (with_guarded T last s) = reply a s) ->
  blind (as_answer (Handler.answer m reply)).
Proof.
  intros Hm Hr. apply blind_bind; [|done]. apply blind_match_result; [done| |done].
  intros a T last s. unfold gets. simpl. by rewrite Hr.
Qed.

Lemma blind_time_or_now time : blind (Handler.time_or_now time).
Proof. by destruct time as [[]|]. Qed.

Create HintDb blind.
#[local] Hint Resolve blind_ret blind_throw blind_db blind_answer blind_time_or_now : blind.

(** Goes through a program by its structure. *)
Ltac blind :=
  repeat first
    [ progress intros
    | solve [auto with blind nocore]
    | apply blind_bind
    | apply blind_match_result
    | progress (try case_match) ].

(** Whoever has no lock does without the table. *)
Definition lock_discipline (locked : bool) (m : FsM Task) : Prop := locked = false -> blind m.

Lemma discipline_locked (m : FsM Answer) : each_section lock_discipline (Next true (whole m)).
Proof. by apply each_whole. Qed.

Lemma discipline_whole locked (m : FsM Answer) :
  (locked = false -> blind m) -> each_section lock_discipline (Next locked (whole m)).
Proof. intros Hm. apply each_whole. intros Hl. specialize (Hm Hl). unfold whole. blind. Qed.

Lemma discipline_then {A} locked (m : FsM A) next :
  (locked = false -> blind m) -> (forall a, each_section lock_discipline (next a)) ->
  each_section lock_discipline (Next locked (and_then m next)).
Proof. intros Hm Hn. apply each_and_then; [|done]. intros Hl. specialize (Hm Hl). unfold and_then. blind. Qed.

Lemma discipline_attr {A} get (k : FileAttr -> FsM A) reply : each_section lock_discipline (attr_task get k reply).
Proof. apply discipline_then; [intros; apply blind_db|]. intros inode. apply discipline_locked. Qed.

(** The requests of one section. *)
Definition single q : bool :=
  match q with
  | QLookup _ _ | QGetattr _ | QGetxattr _ _ _ | QListxattr _ _ | QSetxattr _ _ | QRemovexattr _ _ | QReaddir _ _
  | QCreate _ _ _ _ _ _ | QSetattr _ _ _ _ _ _ _ | QFsync _ | QFallocate _ _ _ _ | QUnlink _ _ => false
  | _ => true
  end.

Lemma blind_serve q : single q = true -> locks q = false -> blind (serve q).
Proof.
  intros Hs Hl. destruct q; try discriminate Hs; simpl in Hl; try discriminate Hl; simpl;
    unfold Handler.statfs, Handler.mkdir, Handler.mknod, Handler.symlink, Handler.readlink, Handler.link,
      Handler.rmdir, Handler.read, Handler.write, Dbfs.statfs, Dbfs.mkdir, Dbfs.create, Dbfs.symlink,
      Dbfs.readlink, Dbfs.link, Dbfs.rmdir;
    try (assert ((offset <? 0) = true) as -> by lia);
    try case_match; first [apply blind_answer; [blind|done]|unfold as_answer; blind].
Qed.

Lemma task_discipline q : each_section lock_discipline (task q).
Proof.
  destruct q; try apply discipline_attr; try (by apply discipline_whole, blind_serve); cbn [task].
  - apply discipline_then; [intros _; unfold parent_of; blind|]. intros parent. apply discipline_whole.
    intros _. unfold listing, list_entries. blind.
  - apply discipline_then; [intros _; unfold Dbfs.create; blind|]. intros attr. apply discipline_locked.
  - split; [intros _; blind|]. intros s. unfold mbind, M_bind.
    destruct (Handler.time_or_now atime s) as [at_ s1| | |]; try done.
    destruct (Handler.time_or_now mtime s1) as [mt s2| | |]; try done. apply discipline_locked.
  - apply discipline_then; [done|]. intros _. apply discipline_whole. intros _. apply blind_answer; [blind|done].
  - apply discipline_then; [intros _; unfold fallocate_checks; blind|]. intros _.
    destruct (negb _); [done|]. apply discipline_locked.
  - apply discipline_then; [intros _; blind|]. intros inode. apply discipline_locked.
Qed.

(** C7. The critical sections of a request, one after the other, are its handler; and a section
    that runs without the lock neither reads nor writes what the lock protects: whatever the table
    and the outcome of the last flush are, it does the same and leaves them as they are. *)
Theorem task_serve q : run_task (task q) ≡ serve q /\ each_section lock_discipline (task q).
Proof.
  split; [|apply task_discipline]. destruct q; try apply run_whole; try apply run_attr_task; cbn [task].
  - etrans; [apply run_attr_task|]. by rewrite bind_ret.
  - etrans; [apply run_attr_task|]. by rewrite bind_ret.
  - intros s. rewrite (run_and_then _ _ _ s). cbn [serve]. unfold Handler.readdir.
    pose proof (run_list_entries ino offset s) as Hr.
    unfold match_result, mbind, M_bind in *. rewrite <- Hr.
    destruct (parent_of ino s) as [parent s1|e s1| |]; [|done..].
    rewrite (run_whole _ _ s1). unfold listing, match_result. by destruct (list_entries _ _ _ s1).
  - apply run_sections. intros attr. apply run_whole.
  - intros s. cbn [serve run_task]. unfold Handler.setattr, as_answer, mbind, M_bind.
    destruct (Handler.time_or_now atime s) as [at_ s1|e s1| |]; [|done..].
    destruct (Handler.time_or_now mtime s1) as [mt s2|e s2| |]; [|done..].
    exact (run_whole true (as_answer (Handler.answer (Dbfs.setattr ino mode uid gid size at_ mt) Handler.attr_reply)) s2).
  - apply (run_sections _ _ _ (fun _ => Shared.db sync_durable)). intros _. apply run_whole.
  - etrans; [|apply as_answer_proper, answer_proper; [apply run_checks|done]].
    apply run_sections. intros _. destruct (negb _); [done|apply run_whole].
  - apply (run_sections _ _ _ (unlink_found p n)). intros inode. apply run_whole.
Qed.
End tasks.
