(* ===== verification/Refinement.v ===== *)
(** * Refinement: the handlers do what the views allow

    Each request, on each state that satisfies the invariant, is answered as [answers]
    allows, and the invariant holds again. *)

From S2P Require Import Prelude Effects Model Chunk Arena OpenTable Sql DbData DbNames Tree.
From S2P Require Import NamesSpec NamesView DbVolume Fuse FuseInv FuseFlush FuseWrite FuseRead.
From S2P Require Import FuseOps FuseHandles FuseSpec FuseLifecycle FuseNames FuseResize FuseAttr.
From S2P Require Import DirStream Views Answers ViewOf Serve.

(** ** What the kernel asks *)

Definition entry_room (s : Fs) : Prop := Z.of_nat (size (t_dirents (tables (fs_db s)))) < U32_MAX.

(** The arguments are in range and the tables have room: fewer than 2^32 entries, slots
    and handles. Directories are not opened, and an inode without names is not linked. *)
Definition asked (s : Fs) (q : Request) : Prop :=
  match q with
  | QLookup p _ | QMkdir p _ _ _ _ _ | QMknod p _ _ _ _ _ | QRmdir p _ => valid_ino p
  | QGetattr ino | QReadlink ino | QGetxattr ino _ _ | QListxattr ino _ | QSetxattr ino _
  | QRemovexattr ino _ | QFallocate ino _ _ _ => valid_ino ino
  | QReaddir ino offset => valid_ino ino /\ 0 <= offset <= I64_MAX /\ cookies_fit (tables (fs_db s))
  | QCreate p _ _ _ _ _ => valid_ino p /\ slot_room (inodes (fs_table s)) /\ handles_room s
  | QSymlink p _ target _ _ => valid_ino p /\ zlen target <= I64_MAX
  | QLink ino p _ => valid_ino ino /\ valid_ino p /\ ~ unlinked_open s ino /\ entry_room s
  | QSetattr ino _ _ _ size _ _ => valid_ino ino /\ forall n, size = Some n -> 0 <= n
  | QOpen ino => valid_ino ino /\ kind_of (tables (fs_db s)) ino <> Some Directory /\
      slot_room (inodes (fs_table s)) /\ handles_room s
  | QRead _ _ size => 0 <= size
  | QWrite _ offset data => offset <= I64_MAX /\ zlen data <= U32_MAX
  | QUnlink p _ => valid_ino p /\ entry_room s
  | QRename p _ np _ _ => valid_ino p /\ valid_ino np /\ entry_room s
  | QStatfs | QRelease _ | QFlush _ | QFsync _ | QShutdown => True
  end.

Section refinement.
Context `{World, HashOrder, !EngineLaws H}.
Implicit Types (s : Fs) (q : Request) (ino p : Z) (n : list byte).

(** A request is answered: no error, no panic, no loop without end. *)
Definition serves s q : Prop := wp (serve q) (served s q) (fun _ _ => False) s.

Lemma view_ttl s s' : fs_kernel_cache s' = fs_kernel_cache s -> Dbfs.ttl s' = v_ttl (view s).
Proof. unfold Dbfs.ttl, v_ttl. simpl. by intros ->. Qed.

Lemma view_flags s s' : fs_kernel_cache s' = fs_kernel_cache s -> Dbfs.open_flags s' = v_flags (view s).
Proof. unfold Dbfs.open_flags, v_flags. simpl. by intros ->. Qed.

(** ** Attributes *)

Lemma state_shows s s' ino r K attr :
  same_state s s' -> shows_attr s' ino r K attr -> describes (view s) ino attr.
Proof.
  intros (Hd & Ht & _) Ha%view_describes. unfold describes, view in *. simpl in *. by rewrite <- Hd, <- Ht.
Qed.

Lemma serves_getattr s ino : fs_inv s -> asked s (QGetattr ino) -> serves s (QGetattr ino).
Proof.
  intros Hinv Hi. apply wp_handler, wp_getattr; [done|done|..].
  - intros r K attr s' Ha Hs. unfold Handler.attr_reply. rewrite (view_ttl s) by apply Hs.
    apply served_granted; [by eapply same_state_inv|]. apply gr_getattr; [by eapply state_shows|by apply view_state].
  - intros s' Hno Hs. apply served_refused_same; [done..|]. eapply re_missing; [constructor|by apply (view_absent s)].
  - intros n s' Hn Hs. by apply served_failed_same.
Qed.

Lemma serves_lookup s p n : fs_inv s -> asked s (QLookup p n) -> serves s (QLookup p n).
Proof.
  intros Hinv Hi. apply wp_handler, wp_lookup_name; [done|done|..].
  - intros k d r K attr s' Hres Ha Hs. unfold Handler.entry_reply. rewrite (view_ttl s) by apply Hs.
    apply served_granted; [by eapply same_state_inv|].
    eapply gr_lookup; [by eapply view_entry_of|by eapply state_shows|by apply view_state].
  - intros e s' Hr Hs. apply served_refused_same; [done..|by apply refused_lookup].
  - intros e s' Hn Hs. by apply served_failed_same.
Qed.

(** The requests for extended attributes, of which there are none. *)
Lemma serves_xattr s q ino {A} (r : FsM A) reply :
  fs_inv s -> valid_ino ino -> about q ino -> (forall fh, q <> QRelease fh) -> q <> QShutdown ->
  serve q = as_answer (Handler.answer (Dbfs.getattr ino ;; r) reply) ->
  (forall s', same_state s s' -> is_Some (v_kind (view s) ino) ->
     wp r (fun a s' => served s q (AReply (reply a s')) s') (fun e s' => served s q (AError e) s') s') ->
  serves s q.
Proof.
  intros Hinv Hi Hab H1 H2 Hq Hr. unfold serves. rewrite Hq. apply wp_handler, wp_bind, wp_getattr; [done|done|..].
  - intros r0 K attr s' Ha Hs. apply Hr; [done|].
    destruct (state_shows _ _ _ _ _ _ Hs Ha) as (_ & _ & K' & HK' & _). by eexists.
  - intros s' Hno Hs. apply served_refused_same; [done..|]. eapply re_missing; [done|by apply (view_absent s)].
  - intros n s' Hn Hs. by apply served_failed_same.
Qed.
Lemma serves_getxattr s ino n size : fs_inv s -> asked s (QGetxattr ino n size) -> serves s (QGetxattr ino n size).
Proof.
  intros Hinv Hi. eapply serves_xattr; try done; [constructor|]. intros s' Hs Hk. apply wp_throw.
  apply served_refused_same; [done..|by apply re_getxattr].
Qed.

Lemma serves_listxattr s ino size : fs_inv s -> asked s (QListxattr ino size) -> serves s (QListxattr ino size).
Proof.
  intros Hinv Hi. eapply serves_xattr; try done; [constructor|]. intros s' Hs Hk. apply wp_ret.
  apply served_granted; [by eapply same_state_inv|]. apply gr_listxattr; [done|by apply view_state].
Qed.

Lemma serves_setxattr s ino n : fs_inv s -> asked s (QSetxattr ino n) -> serves s (QSetxattr ino n).
Proof.
  intros Hinv Hi. eapply serves_xattr; try done; [constructor|]. intros s' Hs Hk. apply wp_throw.
  apply served_refused_same; [done..|by apply re_setxattr].
Qed.

Lemma serves_removexattr s ino n : fs_inv s -> asked s (QRemovexattr ino n) -> serves s (QRemovexattr ino n).
Proof.
  intros Hinv Hi. eapply serves_xattr; try done; [constructor|]. intros s' Hs Hk. apply wp_throw.
  apply served_refused_same; [done..|by apply re_removexattr].
Qed.

Lemma serves_statfs s : fs_inv s -> serves s QStatfs.
Proof.
  intros Hinv. apply wp_handler. unfold Dbfs.statfs, volume_usage. apply wp_bind, wp_db.
  set (R := fun e c => served s QStatfs (AError (errno_from_db_error e)) (set_db c s)).
  assert (forall A (f : Tables -> A) c0, tables c0 = tables (fs_db s) -> forall (Q : A -> Conn -> Prop),
    (forall v c, tables c = tables (fs_db s) -> Q v c) -> wp (query f) Q R c0) as Hq.
  { intros A f c0 Hc0 Q HQ. apply wp_query; [intros c Hc; apply HQ; congruence|].
    intros e c He Hc. apply served_failed_same; try done; [apply same_state_db; congruence|by exists e]. }
  assert (forall A (f : nat -> A) c0, tables c0 = tables (fs_db s) -> forall (Q : A -> Conn -> Prop),
    (forall v c, tables c = tables (fs_db s) -> Q v c) -> wp (query_engine f) Q R c0) as Hqe.
  { intros A f c0 Hc0 Q HQ. exact (Hq A (fun _ => f (ticks c0)) c0 Hc0 Q HQ). }
  apply wp_bind, Hqe; [done|]. intros v1 c1 Hc1. apply wp_bind, Hqe; [done|]. intros v2 c2 Hc2.
  apply wp_bind, Hqe; [done|]. intros v3 c3 Hc3. apply wp_bind, Hq; [done|]. intros v4 c4 Hc4.
  apply wp_ret, wp_ret. assert (same_state s (set_db c4 s)) as Hs by (by apply same_state_db).
  apply served_granted; [by eapply same_state_inv|]. apply gr_statfs. by apply view_state.
Qed.

Lemma serves_readdir s ino offset : fs_inv s -> asked s (QReaddir ino offset) -> serves s (QReaddir ino offset).
Proof.
  intros Hinv (Hi & Ho & Hfit). apply wp_bind, wp_match_result.
  apply (wp_readdir ino offset); [apply Hinv|done..| | | |].
  - intros out s' Hk Hs [Hsort Hin]. apply wp_ret, wp_ret. simpl.
    apply served_granted; [by eapply same_state_inv|]. apply gr_readdir; try done; [|by apply view_state].
    intros e. by rewrite view_shows.
  - intros s' (K & HK & HKd) Hs. apply wp_ret, wp_ret. apply served_refused_same; [done..|by eapply re_readdir].
  - intros s' Hno Hs. apply wp_ret, wp_ret. apply served_refused_same; [done..|].
    eapply re_missing; [constructor|by apply (view_absent s)].
  - intros e s' He Hs. apply wp_ret, wp_ret. by apply served_failed_same.
Qed.

(** ** Creations *)

(** The requests that answer with the entry of a new node. *)
Lemma serves_node s q p n node uid gid (m : FsM FileAttr) :
  fs_inv s -> valid_ino p -> 0 <= node_size node <= I64_MAX -> makes q p n -> asks_node q p n node uid gid ->
  (forall fh, q <> QRelease fh) -> q <> QShutdown ->
  m = (inode ← Shared.db (create_node p n node uid gid); mret (file_attr_from_inode inode)) ->
  serve q = as_answer (Handler.answer m Handler.entry_reply) ->
  serves s q.
Proof.
  intros Hinv Hp Hsz Hm Ha H1 H2 -> Hq. unfold serves. rewrite Hq. apply wp_handler, wp_new_node; try done.
  - intros now ino s' Hcn. unfold Handler.entry_reply. rewrite (view_ttl s) by apply Hcn.
    destruct (view_created _ _ _ _ _ _ _ _ _ Hinv Hcn) as (Ht & Hf & cookie & Hv).
    apply served_granted; [apply Hcn|]. eapply gr_node; try done. split; [done|]. by exists now.
  - intros e s' Hr Hs. destruct (refused_make s q p n e Hinv Hm Hr) as [He| ->].
    + by apply served_refused_same.
    + split; [by eapply same_state_inv|]. apply aw_broken; [by right|]. apply br_same; [done..|by apply view_state].
  - intros e s' He Hs. by apply served_failed_same.
Qed.

Lemma serves_mkdir s p n mode umask uid gid :
  fs_inv s -> asked s (QMkdir p n mode umask uid gid) -> serves s (QMkdir p n mode umask uid gid).
Proof.
  intros Hinv Hp. eapply (serves_node s _ p n (NewDirectory (Z.ldiff mode umask))); try done; constructor.
Qed.

Lemma serves_symlink s p n target uid gid :
  fs_inv s -> asked s (QSymlink p n target uid gid) -> serves s (QSymlink p n target uid gid).
Proof.
  intros Hinv [Hp Ht]. eapply (serves_node s _ p n (NewSymlink target)); try done; [|constructor..].
  pose proof (zlen_nonneg target). unfold node_size. simpl. lia.
Qed.

Lemma serves_mknod s p n mode umask uid gid :
  fs_inv s -> asked s (QMknod p n mode umask uid gid) -> serves s (QMknod p n mode umask uid gid).
Proof.
  intros Hinv Hp. destruct (makes_file mode) eqn:Hmf.
  - eapply (serves_node s _ p n (NewFile (Z.ldiff (Z.ldiff mode S_IFMT) umask))); try done; [by constructor..|]. simpl. unfold Handler.mknod. cbv zeta.
    unfold makes_file in Hmf. by rewrite Hmf.
  - unfold serves. simpl. unfold Handler.mknod. cbv zeta. fold (makes_file mode). rewrite Hmf.
    apply wp_as_answer, wp_ret. apply served_refused_same; [done..|by apply re_mknod].
Qed.
Lemma serves_create s p n mode umask uid gid :
  fs_inv s -> asked s (QCreate p n mode umask uid gid) -> serves s (QCreate p n mode umask uid gid).
Proof.
  intros Hinv (Hp & Hroom & Hhr). apply wp_handler, wp_create_open; [done..| | |].
  - intros now ino fh s1 s' Hcn Hon. pose proof (cn_inv _ _ _ _ _ _ _ _ _ Hcn) as Hinv1.
    assert (fs_kernel_cache s' = fs_kernel_cache s) as Hk
      by (rewrite (cm_cache _ _ (on_calm _ _ _ _ Hon)); apply Hcn).
    cbn [fst snd]. rewrite (view_ttl s), (view_flags s) by done.
    destruct (view_created _ _ _ _ _ _ _ _ _ Hinv Hcn) as (Ht & Hf & cookie & Hv).
    pose proof (view_opened _ _ _ _ Hinv1 Hon) as Hv2.
    apply served_granted; [apply Hon|]. apply (gr_create _ _ _ _ _ _ _ ino cookie); [done| | |].
    + split; [done|]. by exists now.
    + simpl. rewrite <- (on_fresh _ _ _ _ Hon). by rewrite (cn_table _ _ _ _ _ _ _ _ _ Hcn).
    + etrans; [exact Hv2|]. by apply set_handle_proper.
  - intros e s' Hr Hs. assert (makes (QCreate p n mode umask uid gid) p n) as Hm by constructor.
    destruct (refused_make s _ p n e Hinv Hm Hr) as [He| ->].
    + by apply served_refused_same.
    + split; [by eapply same_state_inv|]. apply aw_broken; [by right|]. apply br_same; [done..|by apply view_state].
  - intros e s' He Hs. by apply served_failed_same.
Qed.

Lemma serves_link s ino p n : fs_inv s -> asked s (QLink ino p n) -> serves s (QLink ino p n).
Proof.
  intros Hinv (Hi & Hp & Hno & Hroom). apply wp_handler, wp_link_name; [done..| | |].
  - intros attr s' Hl. destruct (view_linked _ _ _ _ _ _ Hinv Hl) as (Ht & cookie & Hv).
    pose proof (lk_flags _ _ _ _ _ _ Hl) as Hfl. unfold Handler.entry_reply. rewrite (view_ttl s) by apply Hfl.
    destruct (lk_row _ _ _ _ _ _ Hl) as (r & K & Hr & HK & HKd & Hai & Hak & _).
    apply served_granted; [apply Hl|]. apply (gr_link _ _ _ _ K attr cookie); try done.
    simpl. by rewrite (kind_of_row _ _ _ Hr).
  - intros e s' Hr Hs. destruct (refused_link s ino p n e Hinv Hr) as [He| ->].
    + by apply served_refused_same.
    + split; [by eapply same_state_inv|]. apply aw_broken; [by right|]. apply br_same; [done..|by apply view_state].
  - intros e s' He Hs. by apply served_failed_same.
Qed.

Lemma serves_readlink s ino : fs_inv s -> asked s (QReadlink ino) -> serves s (QReadlink ino).
Proof.
  intros Hinv Hi. apply wp_handler. unfold Dbfs.readlink. apply wp_db, wp_read_symlink; [apply Hinv|done|..].
  - intros target c Ht Hc. assert (same_state s (set_db c s)) as Hs by (by apply same_state_db).
    apply served_granted; [by eapply same_state_inv|]. apply gr_readlink; [done|by apply view_state].
  - intros K c HK HKd Hc. apply served_refused_same; [done|by apply same_state_db|by eapply re_readlink].
  - intros c Hno Hc. apply served_refused_same; [done|by apply same_state_db|].
    eapply re_missing; [constructor|by apply (view_absent s)].
  - intros e c He Hc. apply served_failed_same; try done. by exists e.
Qed.

(** ** Handles *)

Lemma serves_open s ino : fs_inv s -> asked s (QOpen ino) -> serves s (QOpen ino).
Proof.
  intros Hinv (Hi & Hk & Hroom & Hhr). apply wp_handler, wp_open; [done..| | |].
  - intros fh s' Hon. rewrite (view_flags s) by apply Hon. apply served_granted; [apply Hon|].
    apply gr_open; [|apply Hon|by apply view_opened].
    pose proof (handle_kind s' fh ino (on_inv _ _ _ _ Hon) (on_fh _ _ _ _ Hon)) as Hs.
    simpl. by rewrite <- (same_names_kind _ _ ino (cm_names _ _ (on_calm _ _ _ _ Hon))).
  - intros s' Hno Hs. apply served_refused_same; [done..|]. eapply re_missing; [constructor|by apply (view_absent s)].
  - intros e s' He Hs. by apply served_failed_same.
Qed.

Lemma serves_release s fh : fs_inv s -> serves s (QRelease fh).
Proof.
  intros Hinv. apply wp_handler, wp_release_fh; [done|..].
  - intros ino s' Hf Hinv' Hd Hr. apply served_granted; [done|]. eapply gr_release; [exact Hf|by apply view_released].
  - intros Hf. apply served_refused_same; [done..|]. eapply re_handle; [constructor|done].
  - intros ino e s' Hf He Hinv' Hd Ho Hn Hs. apply served_broken; [done..|]. eapply br_release; [exact Hf|].
    apply view_dropped; [done..|]. intros i Hv Hi.
    destruct (decide (i = ino)) as [->|Hne]; [|by apply Ho]. destruct Hs as [[[Hu _] Hcl]|Hs]; [|by apply Hs].
    destruct Hi. split_and!; [done|by apply unlinked_not_named|by apply closed_not_held].
Qed.

Lemma serves_flush s fh : fs_inv s -> serves s (QFlush fh).
Proof.
  intros Hinv. apply wp_handler, wp_flush_fh; [done|..].
  - intros ino s' Hf Hinv' Hq _ _. apply served_granted; [done|].
    eapply gr_sync; [by left|by eexists|by apply view_quiet].
  - intros Hf. apply served_refused_same; [done..|]. eapply re_handle; [constructor|done].
  - intros e s' He Hs. by apply served_failed_same.
Qed.

Lemma serves_fsync s fh : fs_inv s -> serves s (QFsync fh).
Proof.
  intros Hinv. apply wp_handler, wp_sync_fh; [done|..].
  - intros ino s' Hf Hinv' Hq _. apply served_granted; [done|].
    eapply gr_sync; [by right|by eexists|by apply view_quiet].
  - intros Hf. apply served_refused_same; [done..|]. eapply re_handle; [constructor|done].
  - intros e s' [He| ->] Hinv' Hq; [by apply served_failed|]. split; [done|].
    apply aw_broken; [by left|by apply quiet_request].
Qed.
(** ** Data *)

Lemma serves_read s fh offset size : fs_inv s -> asked s (QRead fh offset size) -> serves s (QRead fh offset size).
Proof.
  intros Hinv Hsz. unfold serves. simpl. unfold Handler.read. destruct (Z.ltb_spec offset 0) as [Hneg|Ho].
  { apply wp_as_answer, wp_ret. apply served_refused_same; [done..|by apply re_read_range]. }
  apply wp_handler, wp_read_fh; [done|done|done|..].
  - intros ino len f out s' Hf Hk Hc Hm Hread Hs. apply served_granted; [by eapply same_state_inv|].
    destruct (view_holds s ino len f Hk Hc) as [Hh Hff].
    apply (gr_read _ _ _ _ ino len (v_byte (view s) ino)); try done; [|by apply view_state].
    by apply (read_result_ext len f).
  - intros Hf. apply served_refused_same; [done..|]. eapply re_handle; [by constructor|done].
  - intros ino k error Hf Hk He. apply served_refused_same; [done..|by eapply re_read_kind].
  - intros e s' He Hs. by apply served_failed_same.
Qed.

Lemma serves_write s fh offset data : fs_inv s -> asked s (QWrite fh offset data) -> serves s (QWrite fh offset data).
Proof.
  intros Hinv [Hoff Hlen]. unfold serves. simpl. unfold Handler.write. destruct (Z.ltb_spec offset 0) as [Hneg|Ho].
  { apply wp_as_answer, wp_ret. apply served_refused_same; [done..|by apply re_write_range]. }
  assert (offset + zlen data <= 2 ^ 64 - CHUNK_SIZE) as Hend by (unfold I64_MAX, U32_MAX in *; clia).
  apply wp_handler, wp_write_fh; [done|done|done|..].
  - intros ino len f s' Hf Hk Hcl Hc Hm Hch. destruct (view_holds s ino len f Hk Hc) as [Hh Hff].
    apply served_granted; [apply Hch|]. rewrite u32_id by (pose proof (zlen_nonneg data); unfold U32_MAX in *; lia).
    apply (gr_write _ _ _ _ ino len (v_byte (view s) ino)); try done.
    etrans; [by apply view_changed|]. apply set_file_ext. by apply write_bytes_ext.
  - intros Hf. apply served_refused_same; [done..|]. eapply re_handle; [by constructor|done].
  - intros ino e Hf Hr. apply served_refused_same; [done..|by eapply refused_write].
  - intros ino e len f m s' Hf He Hc _ Hch. apply served_broken; [apply Hch|done|].
    apply (br_write _ _ _ _ ino len (v_byte (view s) ino) m); [done|apply Hc|done|].
    etrans; [by apply view_changed|]. apply set_file_ext, write_bytes_ext. intros q Hq. symmetry. by apply Hc.
Qed.

Lemma serves_fallocate s ino offset length mode :
  fs_inv s -> asked s (QFallocate ino offset length mode) -> serves s (QFallocate ino offset length mode).
Proof.
  intros Hinv Hi. apply wp_handler, wp_fallocate; [done|done|..].
  - intros len f s' Ho Hl Hend _ Hk Hc Hch. destruct (view_holds s ino len f Hk Hc) as [Hh Hff].
    apply served_granted; [apply Hch|].
    apply (gr_fallocate _ _ _ _ _ len (v_byte (view s) ino)); try done.
    etrans; [by apply view_changed|]. by apply set_file_ext.
  - intros e s' Hr Hs. apply served_refused_same; [done..|by apply refused_fallocate].
  - intros e s' He Hinv' Hq. by apply served_failed.
Qed.

Lemma same_state_view s s' : same_state s s' -> view s' = view s.
Proof. intros (Hd & Ht & _ & Hk). unfold view. by rewrite Hd, Ht, Hk. Qed.

Lemma wp_time_or_now time (Q : option SystemTime -> Fs -> Prop) (R : Z -> Fs -> Prop) s :
  (forall t s', same_state s s' -> Q t s') -> wp (Handler.time_or_now time) Q R s.
Proof. intros HQ. destruct time as [[t|]|]; apply HQ; done. Qed.

(** A file of the new size. *)
Lemma view_resized s s' ino new :
  fs_inv s -> same_tree s s' -> others_same ino s s' -> file_resized s s' ino new ->
  view s' ≡ resize ino new (view s).
Proof.
  intros Hinv Htr Ho Hf. destruct (t_inodes (tables (fs_db s)) !! ino) as [r|] eqn:Hr.
  2: { assert (alike (fun i => i = ino) (view s) (view s')) as (A & B & C & D & E & F & G)
      by (by apply view_alike). apply (view_absent s) in Hr; [|done].
    symmetry. unfold equiv, View_equiv, alike. destruct new; split_and!; try done; intros i Hi _;
      (assert (i <> ino) as Hne by (intros ->; simpl in *; rewrite Hr in Hi; by destruct Hi));
      specialize (C i Hi Hne); unfold same_node in *; simpl in *; by rewrite ?decide_False. }
  destruct (file_size_row s ino r Hinv Hr) as (f & size & Hc).
  pose proof (Hf _ _ Hc) as Hc'. destruct new as [n|]; simpl in *.
  - etrans; [by apply view_set_file|]. apply set_file_ext. intros q Hq. unfold resized.
    case_decide; [|done]. symmetry. by apply Hc.
  - apply view_same; [done..|]. intros i Hi. destruct (decide (i = ino)) as [->|Hne]; [|by apply Ho].
    destruct Hc as [A B], Hc' as [A' B']. split; [congruence|]. intros q Hq. by rewrite B, B'.
Qed.

(** With the times that the clock gave. *)
Lemma serves_attributes s ino mode uid gid size atime mtime at_ mt :
  let q := QSetattr ino mode uid gid size atime mtime in
  fs_inv s -> asked s q ->
  wp (Handler.answer (Dbfs.setattr ino mode uid gid size at_ mt) Handler.attr_reply)
    (fun r s' => served s q (AReply r) s') (fun _ _ => False) s.
Proof.
  intros q Hinv [Hi Hpos]. apply wp_match_result.
  apply (wp_setattr ino (mkAttrChange mode uid gid size at_ mt)); [done|done|done|..].
  - intros attr s' Ha. apply wp_gets. pose proof (tr_flags _ _ (as_tree _ _ _ _ _ Ha)) as Hfl.
    unfold Handler.attr_reply. rewrite (view_ttl s) by apply Hfl.
    destruct (as_row _ _ _ _ _ Ha) as (r & r' & K & Hr & _ & Hsh). split; [apply Ha|]. apply aw_granted, gr_setattr.
    + apply Ha.
    + apply view_resized; [done|apply Ha..].
    + by eapply view_describes.
  - intros e s' Hr Hinv' Hq _. apply wp_ret. split; [done|]. apply aw_refused; [|by apply view_quiet].
    destruct Hr as [[Hno ->]|(n & [= ->] & Hr)]; [|by apply refused_resize].
    eapply re_missing; [constructor|by apply (view_absent s)].
  - intros e s' He (Hinv' & Htr & Ho & _ & Hf). apply wp_ret. split; [done|]. apply aw_broken; [by apply failure_device|].
    destruct Hf as [Hf|Hf]; [|apply br_setattr; by apply view_resized].
    apply br_same; [done..|]. by apply (view_resized _ _ ino None).
Qed.

Lemma serves_setattr s ino mode uid gid size atime mtime :
  fs_inv s -> asked s (QSetattr ino mode uid gid size atime mtime) ->
  serves s (QSetattr ino mode uid gid size atime mtime).
Proof.
  intros Hinv Hask. apply wp_as_answer, wp_bind, wp_time_or_now. intros at_ s1 Hs1.
  apply wp_bind, wp_time_or_now. intros mt s2 Hs2. assert (same_state s s2) as Hs by (by etrans).
  pose proof (same_state_inv _ _ Hs Hinv) as Hinv2. unfold served. rewrite <- (same_state_view s s2 Hs).
  by apply serves_attributes.
Qed.

(** ** Names *)

Lemma serves_unlink s p n : fs_inv s -> asked s (QUnlink p n) -> serves s (QUnlink p n).
Proof.
  intros Hinv [Hp Hroom]. apply wp_handler, wp_unlink; [done..| | |].
  - intros k d r K s' Hres HK Hinv' Hfl Ho Hrem Heq. apply served_granted; [done|].
    destruct (resolves_child _ _ _ _ _ _ _ (fi_db _ _ _ Hinv) Hres) as [_ Hk].
    eapply gr_unlink; [by eapply view_entry_of|exact Hk|done|by eapply view_unlinked].
  - intros e s' Hr Hs. apply served_refused_same; [done..|by apply refused_unlink].
  - intros e s' He Hs. by apply served_failed_same.
Qed.

Lemma serves_rmdir s p n : fs_inv s -> asked s (QRmdir p n) -> serves s (QRmdir p n).
Proof.
  intros Hinv Hp. apply wp_handler, wp_rmdir; [done..| | |].
  - intros k d r s' Hres Hz Hinv' Hfl Ho Hno Heq. apply served_granted; [done|].
    destruct (resolves_child _ _ _ _ _ _ _ (fi_db _ _ _ Hinv) Hres) as [_ Hk].
    eapply gr_rmdir; [by eapply view_entry_of|exact Hk|by apply view_empty|by eapply view_rmdir].
  - intros e s' Hr Hs. apply served_refused_same; [done..|by apply refused_rmdir].
  - intros e s' He Hs. by apply served_failed_same.
Qed.

Lemma serves_rename s p n np nn flags :
  fs_inv s -> asked s (QRename p n np nn flags) -> serves s (QRename p n np nn flags).
Proof.
  intros Hinv (Hp & Hnp & Hroom). apply wp_handler, wp_rename; [done..| | | |].
  - intros s' _ Hinv' Hfl Hren Hno. apply served_granted; [done|].
    destruct (decide (p = np /\ n = nn)) as [[<- <-]|Hne].
    + destruct Hren as [_ _ Hex Hs|k d r K <- <- Hok|k d r K k2 d2 r2 K2 <- <- Hok].
      * apply gr_stay; [by apply view_entry_is_Some|by apply view_state].
      * by destruct (ro_moves _ _ _ _ _ _ _ _ Hok).
      * by destruct (ro_moves _ _ _ _ _ _ _ _ Hok).
    + destruct (view_renamed _ _ _ _ _ _ Hinv Hinv' Hfl Hren Hne)
        as (c & cookie & K & He & HK & Hpar & Hlen & Hin & Hover & Hrep).
      eapply gr_move; try done; [by intros HD; apply Hin; congruence|].
      intros [?|Hnone]%Hno; [done|]. unfold v_child. by rewrite (proj2 (view_entry_None s np nn) Hnone).
  - intros Hfl. apply served_refused_same; [done..|]. by apply re_move, xf_flags.
  - intros e s' Hr Hs. apply served_refused_same; [done..|by apply refused_rename].
  - intros e s' He Hs. by apply served_failed_same.
Qed.

(** ** The shutdown *)

Lemma view_closed s s1 o :
  fs_inv s -> fs_inv s1 -> quiet (refusing s) s1 -> view (recorded s1 o) ≡ close (view s).
Proof. intros Hinv Hinv1 Hq. exact (view_quiet (refusing s) s1 (refusing_inv s Hinv) Hinv1 Hq). Qed.

Lemma serves_shutdown s : fs_inv s -> serves s QShutdown.
Proof.
  intros Hinv. apply wp_handler, wp_shutdown; [done|..].
  - intros s1 Hinv1 Hq _. apply served_granted; [done|]. apply gr_shutdown. by apply view_closed.
  - intros e s1 Hinv1 Hq He. split; [done|]. apply aw_broken; [|apply br_shutdown; by apply view_closed].
    destruct He as [->|He]; [by left|by apply failure_device].
Qed.

(** ** Every request *)

Lemma serves_request s q : fs_inv s -> asked s q -> serves s q.
Proof.
  intros Hinv Hq. destruct q.
  - by apply serves_lookup.
  - by apply serves_getattr.
  - by apply serves_readdir.
  - by apply serves_statfs.
  - by apply serves_mkdir.
  - by apply serves_create.
  - by apply serves_mknod.
  - by apply serves_symlink.
  - by apply serves_readlink.
  - by apply serves_link.
  - by apply serves_setattr.
  - by apply serves_getxattr.
  - by apply serves_listxattr.
  - by apply serves_setxattr.
  - by apply serves_removexattr.
  - by apply serves_open.
  - by apply serves_release.
  - by apply serves_flush.
  - by apply serves_fsync.
  - by apply serves_read.
  - by apply serves_write.
  - by apply serves_fallocate.
  - by apply serves_unlink.
  - by apply serves_rmdir.
  - by apply serves_rename.
  - by apply serves_shutdown.
Qed.
End refinement.

(** ** Runs *)

(** [runs s log s']: the requests of [log] were served one after the other, with the
    answers that it records. *)
Inductive runs `{World, HashOrder} : Fs -> list (Request * Answer) -> Fs -> Prop :=
  | runs_nil s : runs s [] s
  | runs_cons s q a s1 log s2 : asked s q -> serve q s = Ok a s1 -> runs s1 log s2 ->
      runs s ((q, a) :: log) s2.

(** The same log on views. *)
Inductive allowed : View -> list (Request * Answer) -> View -> Prop :=
  | allowed_nil V : allowed V [] V
  | allowed_cons V q a V1 log V2 : answers V q a V1 -> allowed V1 log V2 -> allowed V ((q, a) :: log) V2.

Section runs.
Context `{World, HashOrder, !EngineLaws H}.
Implicit Types (s : Fs) (q : Request).

Lemma serve_ok s q a s' : fs_inv s -> asked s q -> serve q s = Ok a s' -> served s q a s'.
Proof.
  intros Hinv Hq Hs. pose proof (serves_request s q Hinv Hq) as Hw. unfold serves, wp in Hw. by rewrite Hs in Hw.
Qed.

Lemma runs_invariant s log s' : fs_inv s -> runs s log s' -> fs_inv s'.
Proof. intros Hinv Hr. induction Hr as [|s q a s1 log s2 Hq Hs _ IH]; [done|]. apply IH. by apply (serve_ok s q a). Qed.

Lemma runs_allowed s log s' : fs_inv s -> runs s log s' -> allowed (view s) log (view s').
Proof.
  intros Hinv Hr. induction Hr as [|s q a s1 log s2 Hq Hs _ IH]; [constructor|].
  destruct (serve_ok s q a s1 Hinv Hq Hs) as [Hinv1 Ha]. eapply allowed_cons; [exact Ha|by apply IH].
Qed.
End runs.
