(* ===== verification/SectionsSpec.v ===== *)
(** * SectionsSpec: requests between the steps of another thread

    While a request is served, the thread that shuts the file system down may refuse writes
    and flush. [meanwhile] is what it can have done between two sections of a request; the
    request is answered all the same as the views allow, at one moment between its arrival and
    its answer. There is one exception, [stale_look]: the attributes of a file without handles
    whose buffered writes were flushed in between are those from before the writes. *)

From S2P Require Import Prelude Effects Model Chunk Arena OpenTable Sql DbData DbNames Tree.
From S2P Require Import NamesSpec NamesView DbVolume Fuse FuseInv FuseFlush FuseWrite FuseRead.
From S2P Require Import FuseOps FuseHandles FuseSpec FuseLifecycle FuseNames FuseResize FuseAttr.
From S2P Require Import DirStream Views Answers ViewOf Serve Sections Refinement.

(** ** What happens meanwhile *)

(** [s'] with the flag and the outcome of the last flush of [s]. *)
Definition masked (s s' : Fs) : Fs :=
  mkFs (fs_db s')
    (mkOpenTable (inodes (fs_table s')) (handles (fs_table s')) (arena (fs_table s')) (closing (fs_table s)))
    (fs_last_flush s) (fs_kernel_cache s').

Section meanwhile.
Context `{World, HashOrder}.
Implicit Types (s : Fs).

Record meanwhile s s' : Prop := {
  mw_inv : fs_inv s';
  mw_quiet : quiet s (masked s s');
  mw_closing : closing (fs_table s) = true -> closing (fs_table s') = true }.

Lemma masked_inv s s' : fs_inv (masked s s') <-> fs_inv s'.
Proof. split; by intros []. Qed.

Lemma masked_same s s' :
  closing (fs_table s') = closing (fs_table s) -> fs_last_flush s' = fs_last_flush s -> masked s s' = s'.
Proof. destruct s' as [c [] l k]. unfold masked. simpl. by intros -> ->. Qed.

Lemma meanwhile_quiet s s' : fs_inv s' -> quiet s s' -> meanwhile s s'.
Proof.
  intros Hinv Hq. constructor; [done| |by rewrite (q_closing _ _ Hq)].
  by rewrite masked_same by apply Hq.
Qed.

Lemma meanwhile_refl s : fs_inv s -> meanwhile s s.
Proof. intros Hinv. by apply meanwhile_quiet, quiet_refl. Qed.

Lemma meanwhile_state s s' : fs_inv s -> same_state s s' -> meanwhile s s'.
Proof. intros Hinv Hs. apply meanwhile_quiet; [by eapply same_state_inv|by apply quiet_state]. Qed.

Lemma meanwhile_refusing s : fs_inv s -> meanwhile s (refusing s).
Proof.
  intros Hinv. constructor; [by apply refusing_inv| |done].
  replace (masked s (refusing s)) with s by (by destruct s as [c [] l k]). apply quiet_refl.
Qed.

Lemma meanwhile_recorded s result : fs_inv s -> meanwhile s (recorded s result).
Proof.
  intros Hinv. constructor; [by destruct Hinv| |done].
  replace (masked s (recorded s result)) with s by (by destruct s as [c [] l k]). apply quiet_refl.
Qed.

Lemma masked_quiet s0 s s' : quiet s s' -> quiet (masked s0 s) (masked s0 s').
Proof. intros []. by constructor. Qed.

Lemma meanwhile_trans s1 s2 s3 : meanwhile s1 s2 -> meanwhile s2 s3 -> meanwhile s1 s3.
Proof.
  intros [Hi2 Hq2 Hc2] [Hi3 Hq3 Hc3]. constructor; [done| |auto].
  eapply (quiet_trans s1 (masked s1 s2)); [by apply masked_inv|done|].
  exact (masked_quiet s1 _ _ Hq3).
Qed.

(** The tables and handles meanwhile. *)
Lemma meanwhile_names s s' : meanwhile s s' -> same_names (tables (fs_db s)) (tables (fs_db s')).
Proof. intros [_ Hq _]. exact (q_names _ _ Hq). Qed.

(** A file without a slot gets none, and stays as it is. *)
Lemma meanwhile_closed s s' ino :
  fs_inv s -> meanwhile s s' -> inodes_find (inodes (fs_table s)) ino = None ->
  inodes_find (inodes (fs_table s')) ino = None.
Proof.
  intros Hinv [Hi Hq _] Hno. destruct (inodes_find (inodes (fs_table s')) ino) as [j|] eqn:Hf; [|done].
  destruct (inv_find _ _ _ _ _ Hi Hf) as (e' & _ & Hl & He & <- & _).
  destruct (q_back _ _ Hq j e' Hl He) as (Hl0 & e & He0 & Hs & _).
  apply same_open_fields in Hs as (Hino & _). destruct (inv_live _ _ _ _ Hinv Hl0) as (e1 & _ & He1 & _ & Hf1).
  assert (e1 = e) as -> by congruence. rewrite Hino in Hno. congruence.
Qed.

Lemma meanwhile_row s s' ino r :
  meanwhile s s' -> t_inodes (tables (fs_db s)) !! ino = Some r ->
  exists r', t_inodes (tables (fs_db s')) !! ino = Some r' /\ row_meta r' = row_meta r.
Proof.
  intros Hw Hr. destruct (meanwhile_names _ _ Hw) as (_ & _ & Hm). specialize (Hm ino). rewrite Hr in Hm.
  by apply fmap_Some in Hm as (r' & Hr' & Heq); exists r'.
Qed.

Lemma meanwhile_size s s' ino :
  meanwhile s s' -> valid_ino ino ->
  file_size (tables (fs_db s')) (fs_table s') ino = file_size (tables (fs_db s)) (fs_table s) ino.
Proof. intros [_ Hq _] Hi. by destruct (q_files _ _ Hq ino Hi). Qed.

(** ** Views meanwhile *)

(** The same file system, which may have begun to refuse writes. *)
Definition late (V V' : View) : Prop := V' ≡ V \/ V' ≡ close V.

Lemma late_refl V : late V V.
Proof. by left. Qed.

#[global] Instance close_proper : Proper ((≡) ==> (≡)) close.
Proof. intros V V' (A & B & C & D & E & F & G). by split_and!. Qed.

Lemma late_trans V1 V2 V3 : late V1 V2 -> late V2 V3 -> late V1 V3.
Proof.
  intros [H1|H1] [H2|H2]; [left; by rewrite H2|right; rewrite H2..].
  - by apply close_proper.
  - done.
  - exact (close_proper _ _ H1).
Qed.

Lemma late_set_handle V V' fh ino : late V V' -> late (set_handle fh ino V) (set_handle fh ino V').
Proof. intros [Hl|Hl]; [left|right]; exact (set_handle_proper fh ino _ _ Hl). Qed.

(** What does not depend on the moment. *)
Lemma late_same V V' : late V V' ->
  (forall p n, v_entry V' p n = v_entry V p n) /\ (forall i, v_kind V' i = v_kind V i) /\
  (forall i, v_target V' i = v_target V i) /\ (forall fh, v_handle V' fh = v_handle V fh) /\
  v_cache V' = v_cache V.
Proof.
  intros [Hv|Hv]; symmetry in Hv; destruct Hv as (A & B & _ & D & E & _ & G);
    exact (conj A (conj B (conj D (conj E G)))).
Qed.

Lemma late_equiv V V' : V' ≡ V -> late V V'.
Proof. by left. Qed.

Lemma view_meanwhile s s' : fs_inv s -> meanwhile s s' -> late (view s) (view s').
Proof.
  intros Hinv [Hi Hq Hc]. assert (view (masked s s') ≡ view s) as Hv
    by (apply view_quiet; [done|by apply masked_inv|done]).
  destruct (closing (fs_table s')) eqn:Hc'.
  - right. rewrite <- Hv. assert (view s' = close (view (masked s s'))) as -> by (unfold view, close; simpl; by rewrite Hc').
    done.
  - left. rewrite <- Hv. destruct (closing (fs_table s)) eqn:Hcs; [by specialize (Hc eq_refl)|].
    assert (view s' = view (masked s s')) as -> by (unfold view; simpl; by rewrite Hc', Hcs). done.
Qed.
End meanwhile.

(** ** Answers of interrupted requests *)

Section answers.
Context `{World, HashOrder}.
Implicit Types (s : Fs) (ino : Z).

(** The attributes of inode [ino] in a request that arrives at [s] and is answered at [s']: at
    its arrival the inode had buffered writes and no handles; the row was read before the flush of
    the slot and the table after it, so they are those of the row without the writes. *)
Record stale_look s s' ino (attr : FileAttr) : Prop := {
  sl_buffered : exists e, entry_of (fs_table s) ino = Some e /\ e_dirty e <> [];
  sl_closed : forall fh, handle_ino (fs_table s) fh <> Some ino;
  sl_row : exists r K, t_inodes (tables (fs_db s)) !! ino = Some r /\ row_kind r = Some K /\
    attr = file_attr_from_inode (inode_view ino r K);
  sl_gone : inodes_find (inodes (fs_table s')) ino = None;
  sl_flushed : t_inodes (tables (fs_db s')) !! ino = buffered_row (tables (fs_db s)) (fs_table s) ino }.

(** The answers with such attributes. *)
Inductive glimpse s : Request -> Answer -> Fs -> Prop :=
  | gl_getattr ino attr s' : stale_look s s' ino attr ->
      glimpse s (QGetattr ino) (AReply (ReplyAttr (v_ttl (view s)) attr)) s'
  | gl_lookup p n ino attr s' : v_child (view s) p n = Some ino -> stale_look s s' ino attr ->
      glimpse s (QLookup p n) (AReply (ReplyEntry (v_ttl (view s)) attr 0)) s'.

(** Request [q] arrives at [s] and is answered with [a] at [s']. *)
Inductive interleaved s (q : Request) (a : Answer) s' : Prop :=
  | il_moment V1 V2 : late (view s) V1 -> answers V1 q a V2 -> late V2 (view s') -> interleaved s q a s'
  | il_glimpse : glimpse s q a s' -> late (view s) (view s') -> interleaved s q a s'.

Lemma shown_closed T t ino : inodes_find (inodes t) ino = None -> buffered_row T t ino = t_inodes T !! ino.
Proof. intros Hno. unfold buffered_row, entry_of. rewrite Hno. apply option_fmap_id. Qed.

Lemma meanwhile_shown s s' ino : meanwhile s s' ->
  buffered_row (tables (fs_db s')) (fs_table s') ino = buffered_row (tables (fs_db s)) (fs_table s) ino.
Proof. intros Hw. exact (q_shown _ _ (mw_quiet _ _ Hw) ino). Qed.

(** It stays so until the answer is sent. *)
Lemma stale_later s s1 s2 ino attr : fs_inv s1 -> stale_look s s1 ino attr -> meanwhile s1 s2 -> stale_look s s2 ino attr.
Proof.
  intros Hinv [He Hh Hr Hno Hf] Hw. pose proof (meanwhile_closed _ _ _ Hinv Hw Hno) as Hno2.
  constructor; [done..|]. rewrite <- Hf. pose proof (meanwhile_shown _ _ ino Hw) as Hs. by rewrite !shown_closed in Hs.
Qed.

(** And it was so from the arrival on. *)
Lemma stale_earlier s s1 s2 ino attr : fs_inv s -> meanwhile s s1 -> stale_look s1 s2 ino attr -> stale_look s s2 ino attr.
Proof.
  intros Hinv Hw [(e & He & Hd) Hh (r & K & Hr & HK & ->) Hno Hf]. pose proof (mw_inv _ _ Hw) as Hinv1.
  pose proof (mw_quiet _ _ Hw) as Hq. destruct (entry_of_Some _ _ _ _ _ Hinv1 He) as (j & Hl & Hj & Hino).
  destruct (q_back _ _ Hq j e Hl Hj) as (Hl0 & e0 & He0 & Hso & [Hd0|Hd0]); [|done].
  apply same_open_fields in Hso as (Hi0 & _). constructor; [| | |done|].
  - exists e0. split; [|congruence]. rewrite <- Hino, Hi0. by eapply entry_of_live.
  - intros fh. pose proof (sb_handles _ _ (quiet_stable _ _ Hinv (proj2 (masked_inv s s1) Hinv1) Hq) fh) as Hfh.
    rewrite <- Hfh. apply Hh.
  - exists r, K. split; [|done]. destruct (q_rows _ _ Hq ino) as [Hrow|[_ Hc]]; [by rewrite <- Hrow|].
    by destruct Hd; apply (Hc j e).
  - rewrite Hf. by apply meanwhile_shown.
Qed.

Lemma interleaved_later s q a s1 s2 : fs_inv s1 -> interleaved s q a s1 -> meanwhile s1 s2 -> interleaved s q a s2.
Proof.
  intros Hinv [U1 U2 H1 H2 H3|H1 H2] Hw; pose proof (view_meanwhile _ _ Hinv Hw) as Hl.
  - eapply il_moment; [done..|by eapply late_trans].
  - apply il_glimpse; [|by eapply late_trans]. destruct H1; econstructor; try done; by eapply stale_later.
Qed.

Lemma late_interleaved s V1 q a s2 : late (view s) V1 -> answers V1 q a (view s2) -> interleaved s q a s2.
Proof. intros. by eapply il_moment; [| |apply late_refl]. Qed.

(** The exchanges [log] one after the other, from [s] on up to [s']. *)
Inductive exchanged s : list Exchange -> Fs -> Prop :=
  | exchanged_nil s' : late (view s) (view s') -> exchanged s [] s'
  | exchanged_snoc log x s' : exchanged s log (x_arrival x) ->
      interleaved (x_arrival x) (x_request x) (x_answer x) (x_reply x) ->
      late (view (x_reply x)) (view s') -> exchanged s (log ++ [x]) s'.

Lemma exchanged_late s log s1 s2 : exchanged s log s1 -> late (view s1) (view s2) -> exchanged s log s2.
Proof.
  intros [s' Hl|log' x s' Ha Hi Hl] Hl2; [apply exchanged_nil|apply exchanged_snoc; [done..|]]; by eapply late_trans.
Qed.
End answers.

Section proceeds.
Context `{World, HashOrder, !EngineLaws H}.
Implicit Types (s : Fs) (q : Request) (ino p : Z) (n : list byte).

(** The rest [t] of request [q] ends without panic and as [Q] says, whatever happens before
    each of its sections. *)
Fixpoint proceeds q (Q : Answer -> Fs -> Prop) (t : Task) (s : Fs) : Prop :=
  match t with
  | Answered a => Q a s
  | Next _ m => forall s1, meanwhile s s1 -> asked s1 q ->
      match m s1 with
      | Ok t s2 => fs_inv s2 /\ proceeds q Q t s2
      | _ => False
      end
  end.

Lemma proceeds_next q Q locked m s :
  (forall s1, meanwhile s s1 -> asked s1 q ->
     wp m (fun t s2 => fs_inv s2 /\ proceeds q Q t s2) (fun _ _ => False) s1) ->
  proceeds q Q (Next locked m) s.
Proof. intros Hm s1 Hw Ha. specialize (Hm s1 Hw Ha). unfold wp in Hm. by destruct (m s1). Qed.

(** What waits is not disturbed. *)
Lemma proceeds_meanwhile q Q t s s' :
  (forall a s s', fs_inv s -> Q a s -> meanwhile s s' -> Q a s') ->
  fs_inv s -> proceeds q Q t s -> meanwhile s s' -> proceeds q Q t s'.
Proof.
  intros HQ Hinv. destruct t as [a|locked m]; simpl; [by eauto|].
  intros Hp Hw s1 Hw1. apply Hp. by eapply meanwhile_trans.
Qed.

(** What request [q] has to come to that arrives at [s0]. *)
Definition due (s0 : Fs) q (a : Answer) (s : Fs) : Prop := interleaved s0 q a s.

Lemma due_meanwhile s0 q a s s' : fs_inv s -> due s0 q a s -> meanwhile s s' -> due s0 q a s'.
Proof. apply interleaved_later. Qed.

(** A section that ends a request at one moment. *)
Lemma proceeds_served s0 q locked m s :
  fs_inv s -> late (view s0) (view s) ->
  (forall s1, fs_inv s1 -> asked s1 q -> wp m (served s1 q) (fun _ _ => False) s1) ->
  proceeds q (due s0 q) (Next locked (whole m)) s.
Proof.
  intros Hinv Hl Hm. apply proceeds_next. intros s1 Hw Ha. pose proof (mw_inv _ _ Hw) as Hinv1.
  apply wp_bind. eapply wp_mono; [by apply Hm| |done]. intros a s2 [Hinv2 Hans]. apply wp_ret. split; [done|].
  eapply late_interleaved; [|done]. eapply late_trans; [done|by apply view_meanwhile].
Qed.

Lemma served_due s0 q a s s' : late (view s0) (view s) -> served s q a s' -> fs_inv s' /\ due s0 q a s'.
Proof. intros Hl [Hinv Ha]. split; [done|]. by eapply late_interleaved. Qed.

Lemma proceeds_ends {A} s0 q locked (m : FsM A) reply s :
  (forall s1, meanwhile s s1 -> asked s1 q ->
     wp m (fun a s2 => fs_inv s2 /\ due s0 q (AReply (reply a s2)) s2)
       (fun e s2 => fs_inv s2 /\ due s0 q (AError e) s2) s1) ->
  proceeds q (due s0 q) (Next locked (ends m reply)) s.
Proof.
  intros Hm. apply proceeds_next. intros s1 Hw Ha. apply wp_bind, wp_handler.
  eapply wp_mono; [by apply Hm|..]; intros a s2 Hd; by apply wp_ret.
Qed.

Lemma proceeds_and_then {A} s0 q locked (m : FsM A) next s :
  (forall s1, meanwhile s s1 -> asked s1 q ->
     wp m (fun a s2 => fs_inv s2 /\ proceeds q (due s0 q) (next a) s2)
       (fun e s2 => fs_inv s2 /\ due s0 q (AError e) s2) s1) ->
  proceeds q (due s0 q) (Next locked (and_then m next)) s.
Proof.
  intros Hm. apply proceeds_next. intros s1 Hw Ha. apply wp_match_result.
  eapply wp_mono; [by apply Hm|..]; intros a s2 Hd; by apply wp_ret.
Qed.

(** ** Attributes *)

(** The row [r] was read at [s1]. *)
Lemma wp_overlay_late ino r K (Q : FileAttr -> Fs -> Prop) (R : Z -> Fs -> Prop) s1 s :
  fs_inv s1 -> meanwhile s1 s -> valid_ino ino ->
  t_inodes (tables (fs_db s1)) !! ino = Some r -> row_kind r = Some K ->
  (forall attr, describes (view s) ino attr \/ stale_look s1 s ino attr -> Q attr s) ->
  wp (Shared.overlay_attr (file_attr_from_inode (inode_view ino r K))) Q R s.
Proof.
  intros Hinv1 Hw Hi Hr HK HQ. pose proof (mw_inv _ _ Hw) as Hinv.
  assert (v_kind (view s) ino = Some K) as Hkind.
  { simpl. rewrite (same_names_kind _ _ ino (meanwhile_names _ _ Hw)). by rewrite (kind_of_row _ _ _ Hr). }
  unfold Shared.overlay_attr. apply wp_bind, wp_table.
  cbn [file_attr_from_inode inode_view fa_ino i_ino]. rewrite (inode_of_valid ino) by done.
  destruct (inodes_find (inodes (fs_table s)) ino) as [i|] eqn:Hf.
  - destruct (inv_find _ _ _ _ _ Hinv Hf) as (e & _ & Hl & He & Hino & _).
    pose proof (entry_of_live _ _ _ _ _ Hinv Hl He) as Heo. rewrite Hino in Heo.
    fs_col He. fs_col He. fs_col He. apply wp_ret, HQ. left. split; [done|].
    split; [|by exists K]. simpl. unfold file_size. by rewrite Heo.
  - apply wp_ret, HQ. assert (clean_file s1 ino \/ exists e, entry_of (fs_table s1) ino = Some e /\ e_dirty e <> []) as [Hc|Hb].
    { unfold clean_file. destruct (entry_of (fs_table s1) ino) as [e|]; [|by left].
      destruct (decide (e_dirty e = [])); [left; by intros ? [= <-]|right; by exists e]. }
    2: { right. constructor; [done| |by exists r, K|done|].
      - intros fh Hfh. apply (closed_not_held s ino Hinv Hf). exists fh. simpl.
        rewrite <- Hfh. exact (sb_handles _ _ (quiet_stable _ _ Hinv1 (proj2 (masked_inv s1 s) Hinv) (mw_quiet _ _ Hw)) fh).
      - rewrite <- (meanwhile_shown _ _ ino Hw). by rewrite shown_closed. }
    left. pose proof (view_describes _ _ _ _ _ (stored_attr s1 ino r K Hinv1 Hr HK Hc)) as (H1 & H2 & H3).
    split; [done|]. split.
    + rewrite <- H2. exact (meanwhile_size _ _ ino Hw Hi).
    + exists K. split; [done|]. done.
Qed.

Lemma late_ttl V V' : late V V' -> v_ttl V' = v_ttl V.
Proof. intros Hl. unfold v_ttl. by destruct (late_same _ _ Hl) as (_ & _ & _ & _ & ->). Qed.

Lemma late_flags V V' : late V V' -> v_flags V' = v_flags V.
Proof. intros Hl. unfold v_flags. by destruct (late_same _ _ Hl) as (_ & _ & _ & _ & ->). Qed.

(** First the row, of an inode as [P] says, and then the table. *)
Lemma proceeds_attr {A} q (P : Z -> Prop) get (k : FileAttr -> FsM A) reply s :
  fs_inv s ->
  (forall s1, fs_inv s1 -> late (view s) (view s1) -> asked s1 q ->
     wp (Shared.db get)
       (fun inode s2 => same_state s1 s2 /\ exists ino r K, P ino /\ valid_ino ino /\
          inode = inode_view ino r K /\ t_inodes (tables (fs_db s1)) !! ino = Some r /\ row_kind r = Some K)
       (fun e s2 => served s1 q (AError e) s2) s1) ->
  (forall ino attr s1, P ino -> fs_inv s1 -> late (view s) (view s1) -> is_Some (v_kind (view s1) ino) ->
     describes (view s1) ino attr \/ stale_look s s1 ino attr ->
     wp (k attr) (fun a s2 => fs_inv s2 /\ due s q (AReply (reply a s2)) s2)
       (fun e s2 => fs_inv s2 /\ due s q (AError e) s2) s1) ->
  proceeds q (due s q) (attr_task get k reply) s.
Proof.
  intros Hinv Hget Hk. apply proceeds_and_then. intros s1 Hw1 Ha1. pose proof (mw_inv _ _ Hw1) as Hinv1.
  assert (late (view s) (view s1)) as Hl1 by (by apply view_meanwhile).
  eapply wp_mono; [by apply Hget| |].
  2: { intros e s2 Hs. by apply (served_due s q _ s1). }
  intros inode s2 [Hs (ino & r & K & HP & Hi & -> & Hr & HK)]. pose proof (same_state_inv _ _ Hs Hinv1) as Hinv2.
  pose proof (meanwhile_trans _ _ _ Hw1 (meanwhile_state _ _ Hinv1 Hs)) as Hw2.
  split; [done|]. apply proceeds_ends. intros s3 Hw3 _. pose proof (mw_inv _ _ Hw3) as Hinv3.
  pose proof (meanwhile_trans _ _ _ Hw2 Hw3) as Hw. rewrite <- (proj1 Hs) in Hr.
  apply wp_bind, (wp_overlay_late ino r K _ _ s2); [done..|]. intros attr Hattr.
  apply (Hk ino); [done|done|by apply view_meanwhile| |].
  - simpl. rewrite (same_names_kind _ _ ino (meanwhile_names _ _ Hw3)), (kind_of_row _ _ _ Hr). by eexists.
  - destruct Hattr as [Hd|Hst]; [by left|right]. by apply (stale_earlier s s2).
Qed.

Lemma wp_row q ino s :
  fs_inv s -> valid_ino ino -> about q ino -> (forall fh, q <> QRelease fh) -> q <> QShutdown ->
  wp (Shared.db (get_inode ino))
    (fun inode s' => same_state s s' /\ exists i r K, i = ino /\ valid_ino i /\
       inode = inode_view i r K /\ t_inodes (tables (fs_db s)) !! i = Some r /\ row_kind r = Some K)
    (fun e s' => served s q (AError e) s') s.
Proof.
  intros Hinv Hi Hab H1 H2. apply wp_db, wp_get_inode; [apply (fi_db _ _ _ Hinv)|done|..].
  - intros r K c Hr HK Hc. split; [by apply same_state_db|]. by exists ino, r, K.
  - intros c Hn Hc. apply served_refused_same; [done|by apply same_state_db|].
    eapply re_missing; [done|by apply (view_absent s)].
  - intros e c He Hc. apply served_failed_same; try done. by exists e.
Qed.

Lemma proceeds_getattr s ino : fs_inv s -> proceeds (QGetattr ino) (due s (QGetattr ino)) (task (QGetattr ino)) s.
Proof.
  intros Hinv. apply (proceeds_attr _ (fun i => i = ino)); [done|..].
  - intros s1 Hinv1 _ Hi. apply wp_row; try done. constructor.
  - intros i attr s1 -> Hinv1 Hl1 _ Hattr. apply wp_ret. split; [done|]. unfold Handler.attr_reply.
    rewrite (view_ttl s1 s1) by done. destruct Hattr as [Hd|Hst].
    + eapply late_interleaved; [done|]. apply aw_granted. by eapply gr_getattr.
    + rewrite (late_ttl _ _ Hl1). apply il_glimpse; [by constructor|done].
Qed.

Lemma proceeds_lookup s p n : fs_inv s -> proceeds (QLookup p n) (due s (QLookup p n)) (task (QLookup p n)) s.
Proof.
  intros Hinv. apply (proceeds_attr _ (fun i => v_child (view s) p n = Some i)); [done|..].
  - intros s1 Hinv1 Hl1 Hp. destruct (late_same _ _ Hl1) as (Hent & _).
    apply wp_db, wp_lookup; [apply (fi_db _ _ _ Hinv1)|done|..].
    + intros k d r K c _ Hres Hc. destruct (resolves_child _ _ _ _ _ _ _ (fi_db _ _ _ Hinv1) Hres) as [Hv Hk].
      split; [by apply same_state_db|]. exists (d_child d), r, K. split_and!; try done; [|apply Hres..].
      unfold v_child. rewrite <- Hent. by destruct (view_entry_of s1 p n k d r K Hres) as [-> _].
    + intros c Hn Hc. apply served_refused_same; [done|by apply same_state_db|]. apply refused_lookup. by constructor.
    + intros c Hn Hc. apply served_refused_same; [done|by apply same_state_db|]. apply refused_lookup. by constructor.
    + intros e c He Hc. apply served_failed_same; try done. by exists e.
  - intros i attr s1 Hi Hinv1 Hl1 _ Hattr. apply wp_ret. split; [done|]. unfold Handler.entry_reply.
    rewrite (view_ttl s1 s1) by done. destruct Hattr as [Hd|Hst].
    + eapply late_interleaved; [done|]. apply aw_granted. eapply gr_lookup; [|done|done].
      destruct (late_same _ _ Hl1) as (Hent & _). unfold v_child. by rewrite Hent.
    + rewrite (late_ttl _ _ Hl1). apply il_glimpse; [by econstructor|done].
Qed.

(** The requests for extended attributes. *)
Lemma proceeds_xattr {A} s q ino (r : FsM A) reply :
  fs_inv s -> (forall s1, asked s1 q -> valid_ino ino) -> about q ino ->
  (forall fh, q <> QRelease fh) -> q <> QShutdown ->
  (forall s1, fs_inv s1 -> is_Some (v_kind (view s1) ino) ->
     wp r (fun a s' => served s1 q (AReply (reply a s')) s') (fun e s' => served s1 q (AError e) s') s1) ->
  proceeds q (due s q) (attr_task (get_inode ino) (fun _ => r) reply) s.
Proof.
  intros Hinv Hi Hab H1 H2 Hr. apply (proceeds_attr _ (fun i => i = ino)); [done|..].
  - intros s1 Hinv1 _ Ha. apply wp_row; eauto.
  - intros i attr s1 -> Hinv1 Hl1 Hk _. eapply wp_mono; [by apply Hr|..].
    + intros a s2. by apply served_due.
    + intros e s2. by apply served_due.
Qed.

(** ** Listings *)

Lemma wp_list_entries s ino offset :
  let q := QReaddir ino offset in
  fs_inv s -> asked s q ->
  wp (listing (list_entries ino offset (dir_parent (tables (fs_db s)) ino))) (served s q) (fun _ _ => False) s.
Proof.
  intros q Hinv (Hi & Ho & Hfit). unfold list_entries. rewrite i64_id by (unfold I64_MAX, DOTDOT in *; lia).
  replace (if offset <? DOTDOT then _ else _) with (dots (tables (fs_db s)) ino offset)
    by (unfold dots; destruct (offset <? DOT), (offset <? DOTDOT); done).
  apply wp_match_result, wp_db, wp_read_dir_after; [apply Hinv|done|..].
  - intros rows c Hk Hrows Hsort Hc. apply wp_ret. rewrite emit_all_feed. unfold push. rewrite feed_push.
    apply served_granted; [by apply set_db_id|].
    destruct (lists_rows (tables (fs_db s)) ino offset rows) as [Hs Hin]; [apply Hinv|done|lia|done|done|].
    apply gr_readdir; [done|done| |by apply view_state, same_state_db]. intros e. by rewrite view_shows.
  - intros c (K & HK & HKd) Hc. apply wp_ret, served_refused_same; [done|by apply same_state_db|by eapply re_readdir].
  - intros c Hno Hc. apply wp_ret, served_refused_same; [done|by apply same_state_db|].
    eapply re_missing; [constructor|by apply (view_absent s)].
  - intros e c He Hc. apply wp_ret, served_failed_same; try done. by exists e.
Qed.

Lemma dir_parent_late T T' ino : same_names T T' -> dir_parent T' ino = dir_parent T ino.
Proof. intros (Hd & _). unfold dir_parent, find_parent. by rewrite Hd. Qed.

Lemma proceeds_readdir s ino offset (q := QReaddir ino offset) : fs_inv s -> proceeds q (due s q) (task q) s.
Proof.
  intros Hinv. apply proceeds_and_then. intros s1 Hw1 (Hi & Ho & Hfit). pose proof (mw_inv _ _ Hw1) as Hinv1.
  assert (late (view s) (view s1)) as Hl1 by (by apply view_meanwhile).
  assert (forall c, tables c = tables (fs_db s1) -> fs_inv (set_db c s1) /\
    proceeds q (due s q)
      (Next false (whole (listing (list_entries ino offset (dir_parent (tables (fs_db s1)) ino))))) (set_db c s1)) as Hrest.
  { intros c Hc. assert (fs_inv (set_db c s1)) as Hinv2 by (by apply set_db_id). split; [done|].
    apply proceeds_next. intros s3 Hw3 Ha3. pose proof (mw_inv _ _ Hw3) as Hinv3.
    pose proof (dir_parent_late _ _ ino (meanwhile_names _ _ Hw3)) as Hp. simpl in Hp. rewrite Hc in Hp.
    rewrite <- Hp. apply wp_bind. eapply wp_mono; [by apply wp_list_entries| |done].
    intros a s4 Hs. apply wp_ret. eapply served_due; [|done]. eapply late_trans; [done|].
    eapply late_trans; [apply late_equiv, view_state; [exact Hinv1|by apply same_state_db]|by apply view_meanwhile]. }
  apply wp_db, wp_match_result, wp_parent_of_dir; [apply Hinv1|done|..].
  - intros c Hc _. by apply wp_ret, Hrest.
  - intros c Hc H1 Hp. apply wp_ret.
    assert (dir_parent (tables (fs_db s1)) ino = ino) as Hdp.
    { unfold dir_parent. destruct (Z.eqb_spec ino 1); [done|]. by rewrite Hp. }
    rewrite Hdp in Hrest. by apply Hrest.
  - intros e c He Hc. assert (fs_inv (set_db c s1) /\ due s q (AError (errno_from_db_error e)) (set_db c s1)) as HRe.
    { eapply served_due; [exact Hl1|]. apply served_failed_same; try done. by exists e. }
    destruct e; try by apply wp_throw. by apply engine_error_found in He.
Qed.

(** ** Creation *)

(** The new file waits for its handle. *)
Lemma wp_open_late s1 s2 s p n node uid gid now ino attr (Q : FileAttr * Z -> Fs -> Prop) (R : Z -> Fs -> Prop) :
  created_node s1 s2 p n node uid gid now ino -> node_kind node = RegularFile -> node_size node = 0 ->
  fa_ino attr = ino -> meanwhile s2 s -> slot_room (inodes (fs_table s)) -> handles_room s ->
  (forall fh s', opened s s' fh ino -> Q (attr, fh) s') -> wp (open_created attr) Q R s.
Proof.
  intros Hcn Hnk Hns <- Hw Hroom Hhr HQ. pose proof (cn_inv _ _ _ _ _ _ _ _ _ Hcn) as Hinv2.
  pose proof (mw_inv _ _ Hw) as Hinv. destruct (cn_tables _ _ _ _ _ _ _ _ _ Hcn) as [k Hcr].
  destruct (cn_contents _ _ _ _ _ _ _ _ _ Hcn) as [Hsz _].
  assert (inodes_find (inodes (fs_table s)) (fa_ino attr) = None) as Hno.
  { apply (meanwhile_closed s2); [done..|]. rewrite (cn_table _ _ _ _ _ _ _ _ _ Hcn). apply Hcn. }
  assert (kind_of (tables (fs_db s2)) (fa_ino attr) = Some RegularFile) as Hk2.
  { rewrite (created_kind _ _ _ _ _ _ _ _ _ _ _ Hcr), decide_True by done. by f_equal. }
  rewrite <- (same_names_kind _ _ (fa_ino attr) (meanwhile_names _ _ Hw)) in Hk2. rename Hk2 into Hk.
  unfold kind_of in Hk. destruct (t_inodes (tables (fs_db s)) !! fa_ino attr) as [r|] eqn:Hr; [|done].
  rewrite <- (meanwhile_size _ _ (fa_ino attr) Hw), Hns in Hsz.
  2: { eapply kind_valid; [apply (fi_db _ _ _ Hinv)|]. unfold kind_of. rewrite Hr. exact Hk. }
  unfold file_size, entry_of in Hsz. rewrite Hno, Hr in Hsz. injection Hsz as Hsz.
  by apply (wp_open_created attr r).
Qed.

Lemma proceeds_create s p n mode umask uid gid (q := QCreate p n mode umask uid gid) :
  fs_inv s -> proceeds q (due s q) (task q) s.
Proof.
  intros Hinv. apply proceeds_and_then. intros s1 Hw1 (Hp & _). pose proof (mw_inv _ _ Hw1) as Hinv1.
  assert (late (view s) (view s1)) as Hl1 by (by apply view_meanwhile).
  assert (makes q p n) as Hm by constructor.
  apply wp_new_node; [done|done|done|..].
  - intros now ino s2 Hcn. pose proof (cn_inv _ _ _ _ _ _ _ _ _ Hcn) as Hinv2.
    destruct (view_created _ _ _ _ _ _ _ _ _ Hinv1 Hcn) as (Ht & Hf & cookie & Hv2).
    split; [done|]. apply proceeds_ends. intros s3 Hw3 (_ & Hroom & Hhr). pose proof (mw_inv _ _ Hw3) as Hinv3.
    pose proof (view_meanwhile _ _ Hinv2 Hw3) as Hl3.
    eapply wp_open_late; [exact Hcn|done..|]. intros fh s4 Hon. split; [apply Hon|]. cbn [fst snd].
    pose proof (view_opened _ _ _ _ Hinv3 Hon) as Hv4.
    destruct (late_same _ _ Hl3) as (_ & _ & _ & Hh3 & Hc3).
    assert (fs_kernel_cache s4 = fs_kernel_cache s1) as Hcache.
    { rewrite (cm_cache _ _ (on_calm _ _ _ _ Hon)), <- (cn_cache _ _ _ _ _ _ _ _ _ Hcn). exact Hc3. }
    rewrite (view_ttl s1), (view_flags s1) by done.
    set (V1 := set_handle fh (Some ino) (add_node p n ino cookie (NewFile (Z.ldiff mode umask)) (view s1))).
    apply (il_moment _ _ _ _ (view s1) V1); [done| |].
    + apply aw_granted. apply (gr_create _ _ _ _ _ _ _ ino cookie); [done| | |done].
      * split; [done|]. by exists now.
      * pose proof (on_fresh _ _ _ _ Hon) as Hfresh. specialize (Hh3 fh). simpl in Hh3.
        rewrite Hfresh, (cn_table _ _ _ _ _ _ _ _ _ Hcn) in Hh3. by simpl.
    + eapply late_trans; [|apply late_equiv; exact Hv4]. apply late_set_handle.
      eapply late_trans; [apply late_equiv; exact Hv2|exact Hl3].
  - intros e s2 Hr Hs. eapply served_due; [exact Hl1|]. destruct (refused_make s1 q p n e Hinv1 Hm Hr) as [He| ->].
    + by apply served_refused_same.
    + split; [by eapply same_state_inv|]. apply aw_broken; [by right|]. apply br_same; [done..|by apply view_state].
  - intros e s2 He Hs. eapply served_due; [exact Hl1|]. by apply served_failed_same.
Qed.

(** ** Attributes and syncs *)

Lemma proceeds_setattr s ino mode uid gid size atime mtime (q := QSetattr ino mode uid gid size atime mtime) :
  fs_inv s -> proceeds q (due s q) (task q) s.
Proof.
  intros Hinv. apply proceeds_next. intros s1 Hw1 _. pose proof (mw_inv _ _ Hw1) as Hinv1.
  assert (late (view s) (view s1)) as Hl1 by (by apply view_meanwhile).
  apply wp_bind, wp_time_or_now. intros at_ s2 Hs2. apply wp_bind, wp_time_or_now. intros mt s3 Hs3.
  assert (same_state s1 s3) as Hs by (by etrans). pose proof (same_state_inv _ _ Hs Hinv1) as Hinv3.
  apply wp_ret. split; [done|]. apply proceeds_served; [done| |].
  - by rewrite (same_state_view s1 s3 Hs).
  - intros s4 Hinv4 Ha4. apply wp_as_answer. by apply (serves_attributes s4 ino mode uid gid size atime mtime).
Qed.

Lemma proceeds_fsync s fh (q := QFsync fh) : fs_inv s -> proceeds q (due s q) (task q) s.
Proof.
  intros Hinv. apply proceeds_and_then. intros s1 Hw1 _. pose proof (mw_inv _ _ Hw1) as Hinv1.
  assert (late (view s) (view s1)) as Hl1 by (by apply view_meanwhile).
  apply wp_flush_fh; [done|..].
  - intros ino s2 Hf Hinv2 Hq _. split; [done|]. apply proceeds_ends. intros s3 Hw3 _.
    pose proof (mw_inv _ _ Hw3) as Hinv3.
    assert (late (view s) (view s3)) as Hl3.
    { eapply late_trans; [exact Hl1|]. apply view_meanwhile; [done|].
      eapply meanwhile_trans; [|exact Hw3]. by apply meanwhile_quiet. }
    apply wp_db, wp_sync_durable.
    + intros c Hc. apply (served_due _ _ _ s3); [done|]. apply served_granted; [by apply set_db_id|].
      eapply gr_sync; [by right| |by apply view_state, same_state_db].
      destruct (late_same _ _ Hl1) as (_ & _ & _ & Hh1 & _), (late_same _ _ Hl3) as (_ & _ & _ & Hh3 & _).
      rewrite Hh3, <- Hh1. exists ino. exact Hf.
    + intros m c Hc. apply (served_due _ _ _ s3); [done|]. split; [by apply set_db_id|].
      apply aw_broken; [by left|]. apply br_same; [done..|]. by apply view_state, same_state_db.
  - intros Hf. apply (served_due _ _ _ s1); [done|]. apply served_refused_same; [done..|].
    eapply re_handle; [constructor|done].
  - intros e s2 He Hs. apply (served_due _ _ _ s1); [done|]. by apply served_failed_same.
Qed.

(** ** Ranges and names *)

Lemma set_file_same V ino size : v_size V ino = Some size -> V ≡ set_file ino size (v_byte V ino) V.
Proof.
  intros Hs. unfold equiv, View_equiv, alike. split_and!; try done.
  intros i _ _. unfold same_node. simpl. by case_decide; subst.
Qed.

(** Before the lock: what is refused, and what the file is. *)
Lemma wp_fallocate_checks s ino offset length mode (Q : unit -> Fs -> Prop) (R : Z -> Fs -> Prop) :
  fs_inv s -> valid_ino ino ->
  (forall s', same_state s s' -> 0 <= offset -> 0 < length -> offset + length <= MAX_FILE_SIZE ->
     kind_of (tables (fs_db s)) ino = Some RegularFile -> Q tt s') ->
  (forall e s', fallocate_refused (tables (fs_db s)) ino offset length mode e -> same_state s s' -> R e s') ->
  (forall e s', db_failure e -> same_state s s' -> R e s') ->
  wp (fallocate_checks ino offset length mode) Q R s.
Proof.
  intros Hinv Hi HQ HF HR. unfold fallocate_checks.
  destruct (decide (offset < 0 \/ length <= 0)) as [Hr|Hr].
  { assert ((offset <? 0) || (length <=? 0) = true) as -> by lia. apply wp_throw, HF; [by constructor|done]. }
  assert ((offset <? 0) || (length <=? 0) = false) as -> by lia.
  destruct (Z.eqb_spec (Z.ldiff mode FALLOC_FL_KEEP_SIZE) 0) as [Hm|Hm]; simpl;
    [|apply wp_throw, HF; [constructor; lia|done]].
  apply wp_bind, wp_db, wp_inode_kind_of; [apply (fi_db _ _ _ Hinv)|done| | |].
  - intros r k c Hrow Hk Hok Hc. cbv beta. assert (same_state s (set_db c s)) as Hss by (by apply same_state_db).
    assert (kind_of (tables (fs_db s)) ino = Some k) as Hkd by (by rewrite (kind_of_row _ _ _ Hrow)).
    case_bool_decide as Hkr; simpl; [subst k|apply wp_throw, HF; [by eapply ar_kind|done]].
    destruct (Z.ltb_spec I64_MAX (offset + length)).
    { apply wp_throw, HF; [apply ar_large; [done|unfold I64_MAX in *; clia]|done]. }
    destruct (Z.ltb_spec MAX_FILE_SIZE (offset + length)); [apply wp_throw, HF; [by apply ar_large|done]|].
    apply wp_ret, HQ; try done; lia.
  - intros c Hn Hc. apply HF; [by constructor|by apply same_state_db].
  - intros de c Hde Hc. apply HR; [by exists de|by apply same_state_db].
Qed.

Lemma proceeds_fallocate s ino offset length mode (q := QFallocate ino offset length mode) :
  fs_inv s -> proceeds q (due s q) (task q) s.
Proof.
  intros Hinv. apply proceeds_and_then. intros s1 Hw1 Hi. pose proof (mw_inv _ _ Hw1) as Hinv1.
  assert (late (view s) (view s1)) as Hl1 by (by apply view_meanwhile).
  apply wp_fallocate_checks; [done|done|..].
  - intros s2 Hs Ho Hlen Hend Hk. pose proof (same_state_inv _ _ Hs Hinv1) as Hinv2. split; [done|].
    fold (keep_size mode). destruct (t_inodes (tables (fs_db s1)) !! ino) as [r|] eqn:Hr;
      [|unfold kind_of in Hk; by rewrite Hr in Hk].
    destruct (keep_size mode) eqn:Hkeep.
    + destruct (file_size_row s1 ino r Hinv1 Hr) as (f & size & Hc). destruct (view_holds s1 ino size f Hk Hc) as [Hh _].
      apply (served_due _ _ _ s1); [done|]. apply served_granted; [done|].
      apply (gr_fallocate _ _ _ _ _ size (v_byte (view s1) ino)); try done. rewrite Hkeep.
      rewrite (view_state s1 s2) by done. by apply set_file_same, Hh.
    + apply proceeds_ends. intros s3 Hw3 _. pose proof (mw_inv _ _ Hw3) as Hinv3.
      assert (late (view s) (view s3)) as Hl3.
      { eapply late_trans; [exact Hl1|]. apply view_meanwhile; [done|].
        eapply meanwhile_trans; [|exact Hw3]. by apply meanwhile_state. }
      assert (kind_of (tables (fs_db s3)) ino = Some RegularFile) as Hk3.
      { rewrite (same_names_kind _ _ ino (meanwhile_names _ _ Hw3)). destruct Hs as (-> & _). exact Hk. }
      destruct (t_inodes (tables (fs_db s3)) !! ino) as [r3|] eqn:Hr3; [|unfold kind_of in Hk3; by rewrite Hr3 in Hk3].
      destruct (file_size_row s3 ino r3 Hinv3 Hr3) as (f & size & Hc).
      destruct (view_holds s3 ino size f Hk3 Hc) as [Hh Hff].
      apply (wp_extend ino (offset + length) size f); [done|done|done|lia|done|..].
      * intros s4 Hch. apply (served_due _ _ _ s3); [done|]. apply served_granted; [apply Hch|].
        apply (gr_fallocate _ _ _ _ _ size (v_byte (view s3) ino)); try done. rewrite Hkeep.
        etrans; [by apply view_changed|]. by apply set_file_ext.
      * intros e s4 He Hinv4 Hq. apply (served_due _ _ _ s3); [done|]. by apply served_failed.
  - intros e s2 Hr Hs. apply (served_due _ _ _ s1); [done|]. apply served_refused_same; [done..|by apply refused_fallocate].
  - intros e s2 He Hs. apply (served_due _ _ _ s1); [done|]. by apply served_failed_same.
Qed.

Lemma late_resolves s s' p n k d r K :
  meanwhile s s' -> resolves (tables (fs_db s)) p n k d r K ->
  exists r', resolves (tables (fs_db s')) p n k d r' K /\ r_nlink r' = r_nlink r.
Proof.
  intros Hw [Hf He Hp Hn Hr HK]. destruct (meanwhile_row _ _ _ _ Hw Hr) as (r' & Hr' & Hm).
  destruct (meanwhile_names _ _ Hw) as (Hd & _). injection Hm as Hk Hnl _ _ _ _. exists r'. split; [|done].
  constructor; try done.
  - unfold find_entry. rewrite Hd. exact Hf.
  - by rewrite Hd.
  - unfold row_kind. by rewrite Hk.
Qed.

Lemma proceeds_unlink s p n (q := QUnlink p n) : fs_inv s -> proceeds q (due s q) (task q) s.
Proof.
  intros Hinv. apply proceeds_and_then. intros s1 Hw1 [Hp _]. pose proof (mw_inv _ _ Hw1) as Hinv1.
  assert (late (view s) (view s1)) as Hl1 by (by apply view_meanwhile).
  pose proof (fi_db _ _ _ Hinv1) as Hwf1.
  assert (forall e c, lookup_refused (tables (fs_db s1)) p n e -> tables c = tables (fs_db s1) ->
    fs_inv (set_db c s1) /\ due s q (AError e) (set_db c s1)) as Hno.
  { intros e c He Hc. apply (served_due _ _ _ s1); [done|]. apply served_refused_same; [done|by apply same_state_db|].
    apply refused_unlink; [done|]. destruct He; by constructor. }
  apply wp_db, wp_lookup; [done|done|..].
  - intros k d r K c _ Hres Hc. assert (same_state s1 (set_db c s1)) as Hs by (by apply same_state_db).
    split; [by eapply same_state_inv|]. apply proceeds_ends. intros s3 Hw3 [_ Hroom].
    pose proof (mw_inv _ _ Hw3) as Hinv3. assert (meanwhile s1 s3) as Hw.
    { eapply meanwhile_trans; [|exact Hw3]. by apply meanwhile_state. }
    assert (late (view s) (view s3)) as Hl3 by (eapply late_trans; [exact Hl1|by apply view_meanwhile]).
    destruct (late_resolves _ _ _ _ _ _ _ _ Hw Hres) as (r3 & Hres3 & Hnl).
    destruct (resolves_child _ _ _ _ _ _ _ (fi_db _ _ _ Hinv3) Hres3) as [_ Hk].
    apply (wp_unlink_found p n k d r r3 K); [done..| | |].
    + intros HK s4 Hinv4 Hfl Ho Hrem Heq. apply (served_due _ _ _ s3); [done|]. apply served_granted; [done|].
      eapply gr_unlink; [by eapply view_entry_of|exact Hk|done|by eapply view_unlinked].
    + intros e s4 Hr Hs4. apply (served_due _ _ _ s3); [done|]. apply served_refused_same; [done..|by apply refused_unlink].
    + intros e s4 He Hs4. apply (served_due _ _ _ s3); [done|]. by apply served_failed_same.
  - intros c Hn Hc. by apply Hno; [constructor|].
  - intros c Hn Hc. by apply Hno; [constructor|].
  - intros e c He Hc. apply (served_due _ _ _ s1); [done|]. apply served_failed_same; try done. by exists e.
Qed.

(** ** Every request *)

(** Whatever the thread that shuts the file system down does between the sections of a
    request, the request is answered, as the views allow at one moment between its arrival and
    its end; or it is a [glimpse]. *)
Theorem request_proceeds s q : fs_inv s -> proceeds q (due s q) (task q) s.
Proof.
  intros Hinv. destruct q.
  all: lazymatch goal with
    | |- proceeds (QLookup _ _) _ _ _ => by apply proceeds_lookup
    | |- proceeds (QGetattr _) _ _ _ => by apply proceeds_getattr
    | |- proceeds (QReaddir _ _) _ _ _ => by apply proceeds_readdir
    | |- proceeds (QCreate _ _ _ _ _ _) _ _ _ => by apply proceeds_create
    | |- proceeds (QSetattr _ _ _ _ _ _ _) _ _ _ => by apply proceeds_setattr
    | |- proceeds (QFsync _) _ _ _ => by apply proceeds_fsync
    | |- proceeds (QFallocate _ _ _ _) _ _ _ => by apply proceeds_fallocate
    | |- proceeds (QUnlink _ _) _ _ _ => by apply proceeds_unlink
    | _ => cbn [task] end.
  all: try (apply proceeds_served; [done|apply late_refl|]; intros s1 Hinv1 Ha1; exact (serves_request s1 _ Hinv1 Ha1)).
  all: eapply (proceeds_xattr s _ ino); [done|by intros|constructor|done|done|]; intros s1 Hinv1 Hk.
  - apply wp_throw. apply served_refused_same; [done..|by apply re_getxattr].
  - apply wp_ret. apply served_granted; [done|]. by apply gr_listxattr.
  - apply wp_throw. apply served_refused_same; [done..|by apply re_setxattr].
  - apply wp_throw. apply served_refused_same; [done..|by apply re_removexattr].
Qed.
End proceeds.
