(* ===== verification/Isolation.v ===== *)
(** * Isolation: what an open file is safe from

    A file that is open keeps its contents through everything that is not done to the file
    itself: other files come and go, its own names are moved, replaced or removed. *)

From S2P Require Import Prelude Effects Model Chunk Arena OpenTable Sql DbData DbNames Tree.
From S2P Require Import NamesSpec DbVolume Fuse FuseInv FuseFlush FuseWrite FuseRead FuseOps.
From S2P Require Import FuseHandles FuseSpec FuseLifecycle FuseNames FuseResize FuseAttr DirStream.
From S2P Require Import Views Answers ViewOf Serve Refinement.

Implicit Types (V : View) (p ino c fh cookie : Z) (n : list byte) (q : Request).

(** Neither a write, nor a change of the size of [ino], nor the release of [fh]. *)
Definition spares ino fh q : Prop :=
  match q with
  | QWrite _ _ _ => False
  | QSetattr i _ _ _ (Some _) _ _ | QFallocate i _ _ _ => i <> ino
  | QRelease fh' => fh' <> fh
  | _ => True
  end.

(** Handle [fh] is on file [ino], whose contents are those in [V0]. *)
Definition keeps ino fh V0 V : Prop :=
  v_handle V fh = Some ino /\ v_kind V ino = v_kind V0 ino /\ same_node V0 V ino.

(** [V] has an open file there. *)
Definition open_file ino fh V : Prop :=
  v_handle V fh = Some ino /\ exists K, v_kind V ino = Some K /\ K <> Directory.

Lemma keeps_open ino fh V0 V : open_file ino fh V0 -> keeps ino fh V0 V -> open_file ino fh V.
Proof. intros (_ & K & HK & HD) (Hf & Hk & _). split; [done|]. exists K. by rewrite Hk. Qed.

Lemma keeps_refl ino fh V : open_file ino fh V -> keeps ino fh V V.
Proof. intros [Hf _]. by split_and!. Qed.

Lemma keeps_trans ino fh V1 V2 V3 : keeps ino fh V1 V2 -> keeps ino fh V2 V3 -> keeps ino fh V1 V3.
Proof.
  intros (_ & K1 & S1 & B1) (F2 & K2 & S2 & B2). split_and!; [done|congruence|]. split; [congruence|].
  intros x Hx. by rewrite B2, B1.
Qed.

Lemma keeps_alike (P : Z -> Prop) ino fh V0 V V' :
  open_file ino fh V0 -> keeps ino fh V0 V -> alike P V V' -> ~ P ino -> keeps ino fh V0 V'.
Proof.
  intros Ho Hk (_ & B & C & _ & E & _ & _) HP. eapply keeps_trans; [exact Hk|].
  destruct (keeps_open _ _ _ _ Ho Hk) as (Hf & K & HK & _). split_and!; [by rewrite E|apply B|].
  apply C; [by eexists|done].
Qed.

Lemma keeps_equiv ino fh V0 V V' :
  open_file ino fh V0 -> keeps ino fh V0 V -> V' ≡ V -> keeps ino fh V0 V'.
Proof. intros Ho Hk Heq. eapply (keeps_alike (fun _ => False)); [done..|by symmetry|tauto]. Qed.

Section changes.
Context (ino fh : Z) (V : View) (Hopen : open_file ino fh V).

Lemma keeps_handle fh' i : fh' <> fh -> keeps ino fh V (set_handle fh' i V).
Proof. intros Hne. split_and!; try done. simpl. rewrite decide_False by done. apply Hopen. Qed.

Lemma keeps_entry p n e : keeps ino fh V (set_entry p n e V).
Proof. by split_and!; [apply Hopen|..]. Qed.

Lemma keeps_file i size f : i <> ino -> keeps ino fh V (set_file i size f V).
Proof. intros Hne. split_and!; [apply Hopen|done|]. unfold same_node. simpl. by rewrite !decide_False by done. Qed.

Lemma keeps_kind i K target : i <> ino -> keeps ino fh V (set_kind i K target V).
Proof. intros Hne. split_and!; [apply Hopen| |done]. simpl. by rewrite decide_False. Qed.

Lemma keeps_node p n i ck node : i <> ino -> keeps ino fh V (add_node p n i ck node V).
Proof.
  intros Hne. split_and!; [apply Hopen| |]; unfold same_node; simpl; by rewrite !decide_False by done.
Qed.

Lemma open_held_by : held V ino.
Proof. exists fh. apply Hopen. Qed.

Lemma keeps_gone i : ~ held V i -> keeps ino fh V (gone i V).
Proof. intros Hno. apply keeps_kind. intros ->. by apply Hno, open_held_by. Qed.

Lemma keeps_gone_directory i : v_kind V i = Some Directory -> keeps ino fh V (gone i V).
Proof. intros Hk. apply keeps_kind. intros ->. destruct Hopen as (_ & K & HK & HD). congruence. Qed.

Lemma keeps_same V' : V' ≡ V -> keeps ino fh V V'.
Proof. intros Heq. by apply (keeps_equiv ino fh V V); [|apply keeps_refl|]. Qed.
End changes.

Section steps.
Context (ino fh : Z).

(** A step to [V1], and what follows it. *)
Lemma keeps_then V V1 V' :
  open_file ino fh V -> keeps ino fh V V1 -> (open_file ino fh V1 -> keeps ino fh V1 V') -> keeps ino fh V V'.
Proof. intros Ho Hk Hn. eapply keeps_trans; [exact Hk|]. apply Hn. by eapply keeps_open. Qed.

Lemma keeps_forgets c V V' : open_file ino fh V -> forgets c V V' -> keeps ino fh V V'.
Proof.
  intros Ho [[_ Heq]|(_ & Hno & Heq)]; [by apply keeps_same|].
  eapply keeps_equiv; [done|by apply keeps_gone|done].
Qed.

Lemma keeps_replaces target V V' : open_file ino fh V -> replaces V target V' -> keeps ino fh V V'.
Proof.
  intros Ho. destruct target as [t|]; simpl; [|by apply keeps_same]. case_decide as Hd.
  - intros Heq. eapply keeps_equiv; [done|by apply keeps_gone_directory|done].
  - by apply keeps_forgets.
Qed.

Lemma keeps_resize i new V : open_file ino fh V -> (is_Some new -> i <> ino) -> keeps ino fh V (resize i new V).
Proof. intros Ho Hne. destruct new; [apply keeps_file; [done|by apply Hne]|by apply keeps_refl]. Qed.

Lemma granted_keeps V q a V' :
  open_file ino fh V -> spares ino fh q -> grants V q a V' -> keeps ino fh V V'.
Proof.
  intros Ho Hsp Hg. destruct Hg as [| | | |q p n node uid gid i ck attr V' Hq _ [(_ & _ & Hno) _] Heq
    |p n mode umask uid gid i ck attr fh' V' _ [(_ & _ & Hno) _] Hfh Heq| |i p n K attr ck V' _ _ _ _ _ Heq
    |i mode uid gid size atime mtime attr V' _ Heq _| |i fh' V' _ Hfh Heq|fh' i V' Hfh Hlet| | |
    |i offset length mode len f V' _ _ _ _ Heq
    |p n c K V' _ _ _ Hf|p n c V' _ Hd _ Heq| |p n np nn flags c ck target V' _ _ _ _ _ _ _ _ Hrep|V' Heq];
    try done; try by apply keeps_same.
  all: try (eapply keeps_equiv; [exact Ho| |exact Heq]).
  - apply keeps_node; [done|]. intros ->. by apply Hno, (open_held_by ino fh V Ho).
  - apply (keeps_then V (add_node p n i ck (NewFile (Z.ldiff mode umask)) V)); [done| |].
    + apply keeps_node; [done|]. intros ->. by apply Hno, (open_held_by ino fh V Ho).
    + intros Ho1. apply keeps_handle; [done|]. intros ->. destruct Ho as [Hf _]. congruence.
  - by apply keeps_entry.
  - apply keeps_resize; [done|]. intros [x ->]. done.
  - apply keeps_handle; [done|]. intros ->. destruct Ho as [Hf _]. congruence.
  - apply (keeps_then V (set_handle fh' None V)); [done|by apply keeps_handle|]. intros Ho1.
    destruct Hlet as [Heq|(_ & Hno & Heq)]; [by apply keeps_same|].
    eapply keeps_equiv; [done|by apply keeps_gone|done].
  - by apply keeps_file.
  - apply (keeps_then V (set_entry p n None V)); [done|by apply keeps_entry|]. intros Ho1. by eapply keeps_forgets.
  - apply (keeps_then V (set_entry p n None V)); [done|by apply keeps_entry|]. intros Ho1.
    by apply keeps_gone_directory.
  - apply (keeps_then V (set_entry p n None V)); [done|by apply keeps_entry|]. intros Ho1.
    eapply keeps_then; [exact Ho1|by apply keeps_entry|]. intros Ho2. by eapply keeps_replaces.
  - by apply (keeps_refl ino fh V).
Qed.

Lemma broken_keeps V q V' : open_file ino fh V -> spares ino fh q -> broken V q V' -> keeps ino fh V V'.
Proof.
  intros Ho Hsp Hb. destruct Hb as [q V' _ _ Heq| |i mode uid gid size atime mtime V' Heq
    |fh' i V' Hf Hal|V' Heq]; try done.
  - by apply keeps_same.
  - eapply keeps_equiv; [done| |exact Heq]. apply keeps_resize; [done|]. intros [x ->]. done.
  - apply (keeps_then V (set_handle fh' None V)); [done|by apply keeps_handle|]. intros Ho1.
    eapply keeps_alike; [exact Ho1|by apply keeps_refl|exact Hal|]. intros (<- & _ & Hno).
    apply Hno. exists fh. destruct Hal as (_ & _ & _ & _ & Hh & _). rewrite Hh. apply Ho1.
  - eapply keeps_equiv; [done| |exact Heq]. by apply (keeps_refl ino fh V).
Qed.

Lemma answers_keep V q a V' : open_file ino fh V -> spares ino fh q -> answers V q a V' -> keeps ino fh V V'.
Proof.
  intros Ho Hsp [a1 V1 Hg|e V1 _ Heq|e V1 _ Hb]; [by eapply granted_keeps|by apply keeps_same|by eapply broken_keeps].
Qed.

Lemma allowed_keep V log V' :
  open_file ino fh V -> Forall (fun e => spares ino fh e.1) log -> allowed V log V' -> keeps ino fh V V'.
Proof.
  intros Ho Hf Ha. revert Ho Hf. induction Ha as [V|V q a V1 log V2 Hq _ IH]; intros Ho Hf;
    [by apply keeps_refl|]. apply Forall_cons in Hf as [Hsp Hf].
  eapply keeps_then; [done|by eapply answers_keep|]. intros Ho1. by apply IH.
Qed.
End steps.
