(* ===== verification/Closing.v ===== *)
(** * Closing: after the shutdown flush nothing is buffered any more

    The flush at shutdown makes the file system refuse writes before it writes out what
    is buffered. Whatever is requested afterwards, no operation but a write puts data in
    the buffers, so what the flush has emptied stays empty. *)

From S2P Require Import Prelude Effects Model Chunk Arena OpenTable Sql DbData DbNames Tree.
From S2P Require Import NamesSpec DbVolume Fuse FuseInv FuseFlush FuseOps Views Answers Serve Sections.

(** ** Runs that may panic

    The claims here are about the states that a run passes on; that no run panics is
    shown with the operations. *)

Definition wlp {S E A} (m : M S E A) (Q : A -> S -> Prop) (R : S -> Prop) (s : S) : Prop :=
  match m s with Ok a s' => Q a s' | Err _ s' => R s' | Panic | OutOfFuel => True end.

Section wlp_rules.
Context {S E : Type}.
Implicit Types (s : S) (R : S -> Prop).

Lemma wlp_ret {A} (a : A) (Q : A -> S -> Prop) R s : Q a s -> wlp (E := E) (mret a) Q R s.
Proof. done. Qed.

Lemma wlp_throw {A} (e : E) (Q : A -> S -> Prop) R s : R s -> wlp (throw e) Q R s.
Proof. done. Qed.

Lemma wlp_gets {A} (f : S -> A) (Q : A -> S -> Prop) R s : Q (f s) s -> wlp (E := E) (gets f) Q R s.
Proof. done. Qed.

Lemma wlp_modify (f : S -> S) (Q : unit -> S -> Prop) R s : Q tt (f s) -> wlp (E := E) (modify f) Q R s.
Proof. done. Qed.

Lemma wlp_unwrap {A} (o : option A) (Q : A -> S -> Prop) R s :
  (forall a, o = Some a -> Q a s) -> wlp (E := E) (unwrap o) Q R s.
Proof. destruct o; unfold wlp; simpl; auto. Qed.

Lemma wlp_ok_or {A} (o : option A) (e : E) (Q : A -> S -> Prop) R s :
  (forall a, o = Some a -> Q a s) -> R s -> wlp (ok_or o e) Q R s.
Proof. destruct o; unfold wlp; simpl; auto. Qed.

Lemma wlp_bind {A B} (m : M S E A) (f : A -> M S E B) (Q : B -> S -> Prop) R s :
  wlp m (fun a s' => wlp (f a) Q R s') R s -> wlp (m ≫= f) Q R s.
Proof. unfold wlp, mbind, M_bind. by destruct (m s). Qed.

Lemma wlp_match_result {A B} (m : M S E A) (f : A -> M S E B) g (Q : B -> S -> Prop) R s :
  wlp m (fun a s' => wlp (f a) Q R s') (fun s' => forall e, wlp (g e) Q R s') s ->
  wlp (match_result m f g) Q R s.
Proof. unfold wlp, match_result. destruct (m s) as [| e s'| |]; [done|intros Hg; exact (Hg e)|done..]. Qed.

Lemma wlp_mono {A} (m : M S E A) (Q Q' : A -> S -> Prop) R R' s :
  wlp m Q R s -> (forall a s', Q a s' -> Q' a s') -> (forall s', R s' -> R' s') -> wlp m Q' R' s.
Proof. unfold wlp. destruct (m s); auto. Qed.
End wlp_rules.

(** Programs that keep a property of states. *)
Definition keeps {S E A} (P : S -> Prop) (m : M S E A) : Prop := forall s, P s -> wlp m (fun _ s' => P s') P s.

Create HintDb keeps.

Section keeps_rules.
Context {S E : Type} (P : S -> Prop).

Lemma keeps_ret {A} (a : A) : keeps (E := E) P (mret a).
Proof. by intros s. Qed.

Lemma keeps_throw {A} (e : E) : keeps (A := A) P (throw e).
Proof. by intros s. Qed.

Lemma keeps_gets {A} (f : S -> A) : keeps (E := E) P (gets f).
Proof. by intros s. Qed.

Lemma keeps_unwrap {A} (o : option A) : keeps (E := E) P (unwrap o).
Proof. by destruct o; intros s. Qed.

Lemma keeps_ok_or {A} (o : option A) (e : E) : keeps P (ok_or o e).
Proof. by destruct o; intros s. Qed.

Lemma keeps_bind {A B} (m : M S E A) (f : A -> M S E B) :
  keeps P m -> (forall a, keeps P (f a)) -> keeps P (m ≫= f).
Proof. intros Hm Hf s Hs. apply wlp_bind. eapply wlp_mono; [by apply Hm| |done]. intros a s'. apply Hf. Qed.

Lemma keeps_match_result {A B} (m : M S E A) (f : A -> M S E B) g :
  keeps P m -> (forall a, keeps P (f a)) -> (forall e, keeps P (g e)) -> keeps P (match_result m f g).
Proof.
  intros Hm Hf Hg s Hs. apply wlp_match_result. eapply wlp_mono; [by apply Hm|..].
  - intros a s'. apply Hf.
  - intros s' Hs' e. by apply Hg.
Qed.

Lemma keeps_for_each {X} (l : list X) (f : X -> M S E unit) : (forall x, keeps P (f x)) -> keeps P (for_each l f).
Proof. intros Hf. induction l; simpl; [apply keeps_ret|]. by apply keeps_bind. Qed.

Lemma keeps_fold_each {X A} (l : list X) (f : A -> X -> M S E A) a :
  (forall a x, keeps P (f a x)) -> keeps P (fold_each l f a).
Proof. intros Hf. revert a. induction l; intros a'; simpl; [apply keeps_ret|]. by apply keeps_bind. Qed.
End keeps_rules.

#[export] Hint Resolve keeps_ret keeps_throw keeps_gets keeps_unwrap keeps_ok_or keeps_bind
  keeps_match_result keeps_for_each keeps_fold_each : keeps.

(** Goes through a program by its structure; the named operations are hints. *)
Ltac keeps :=
  repeat first
    [ progress intros
    | solve [auto with keeps nocore]
    | apply keeps_bind
    | apply keeps_match_result
    | progress (try case_match) ].

(** *** Sections *)

(** The sections that satisfy [C] keep [I]. *)
Definition keeping (C : bool -> Prop) (I : Fs -> Prop) (locked : bool) (m : FsM Task) : Prop :=
  C locked -> keeps I m.

Section each.
Context `{World, HashOrder} (C : bool -> Prop) (I : Fs -> Prop).

Lemma each_last locked m : (C locked -> keeps I m) -> each_section (keeping C I) (Next locked (whole m)).
Proof. intros Hm. apply each_whole. intros Hc. specialize (Hm Hc). unfold whole. keeps. Qed.

Lemma each_ends {A} locked (m : FsM A) reply :
  (C locked -> keeps I m) -> each_section (keeping C I) (Next locked (ends m reply)).
Proof.
  intros Hm. apply each_last. intros Hc. specialize (Hm Hc). unfold as_answer, Handler.answer. keeps.
Qed.

Lemma each_then {A} locked (m : FsM A) next :
  (C locked -> keeps I m) -> (forall a, each_section (keeping C I) (next a)) ->
  each_section (keeping C I) (Next locked (and_then m next)).
Proof. intros Hm Hn. apply each_and_then; [|done]. intros Hc. specialize (Hm Hc). unfold and_then. keeps. Qed.

Lemma each_setattr ino mode uid gid size atime mtime :
  (C false -> forall time, keeps I (Handler.time_or_now time)) ->
  (C true -> forall atime mtime, keeps I (Dbfs.setattr ino mode uid gid size atime mtime)) ->
  each_section (keeping C I) (task (QSetattr ino mode uid gid size atime mtime)).
Proof.
  intros Ht Hm. split.
  - intros Hc. specialize (Ht Hc). keeps.
  - intros s. unfold mbind, M_bind. destruct (Handler.time_or_now atime s) as [at_ s1|e s1| |]; try done.
    destruct (Handler.time_or_now mtime s1) as [mt s2|e s2| |]; try done. apply each_ends. auto.
Qed.
End each.

(** ** Slots without data *)

Lemma vget_vset {A} (l l' : list A) i x j :
  vset l i x = Some l' -> vget l' j = if decide (j = i) then Some x else vget l j.
Proof.
  unfold vset. case_decide as Hi; [|done]. intros [= <-]. destruct (decide (0 <= j)) as [Hj|Hj].
  - rewrite vget_insert by done. repeat case_decide; congruence.
  - rewrite !vget_None by lia. case_decide; [lia|done].
Qed.

Lemma vget_app_l {A} (l d : list A) i x : vget l i = Some x -> vget (l ++ d) i = Some x.
Proof.
  intros Hl. pose proof (vget_Some _ _ _ Hl) as Hr. revert Hl. unfold vget. case_decide; [|done].
  intros Hl. rewrite lookup_app_l; [done|]. by eapply lookup_lt_Some.
Qed.

Lemma vget_snoc_inv {A} (l : list A) i x y : vget (l ++ [x]) i = Some y -> vget l i = Some y \/ y = x.
Proof.
  unfold vget. case_decide; [|done]. intros [Hl|[_ Hl]]%lookup_app_Some; [by left|right].
  by apply list_lookup_singleton_Some in Hl as [_ ->].
Qed.

(** No slot has data, but for those of unlinked inodes; free slots have none. *)
Definition drained_slots (i : OpenInodes) : Prop :=
  (forall j d, vget (oi_dirty i) j = Some d -> d = [] \/ vget (oi_unlinked i) j = Some true) /\
  forall j, j ∈ oi_free i -> vget (oi_dirty i) j = Some [].

Lemma drained_ext i i' :
  oi_dirty i' = oi_dirty i -> oi_unlinked i' = oi_unlinked i -> oi_free i' = oi_free i ->
  drained_slots i -> drained_slots i'.
Proof. unfold drained_slots. by intros -> -> ->. Qed.

Lemma drained_set_dirty i i' slot : set_dirty i slot [] = Some i' -> drained_slots i -> drained_slots i'.
Proof.
  intros (l & Hl & [= <-])%bind_Some [Hd Hf]. split; simpl.
  - intros j d. rewrite (vget_vset _ _ _ _ _ Hl). case_decide; [intros [= <-]; by left|apply Hd].
  - intros j Hj. rewrite (vget_vset _ _ _ _ _ Hl). case_decide; [done|by apply Hf].
Qed.

Lemma drained_set_unlinked i i' slot : set_unlinked i slot true = Some i' -> drained_slots i -> drained_slots i'.
Proof.
  intros (l & Hl & [= <-])%bind_Some [Hd Hf]. split; simpl; [|done]. intros j d Hj.
  rewrite (vget_vset _ _ _ _ _ Hl). case_decide; [by right|by apply Hd].
Qed.

(** The mark goes when the slot has no data. *)
Lemma drained_clear_unlinked i i' slot :
  set_unlinked i slot false = Some i' -> vget (oi_dirty i) slot = Some [] -> drained_slots i -> drained_slots i'.
Proof.
  intros (l & Hl & [= <-])%bind_Some Hs [Hd Hf]. split; simpl; [|done]. intros j d Hj.
  rewrite (vget_vset _ _ _ _ _ Hl). case_decide as Hjs; [|by apply Hd]. subst. left. congruence.
Qed.

Lemma set_refs_same i slot v i' : set_refs i slot v = Some i' ->
  oi_dirty i' = oi_dirty i /\ oi_unlinked i' = oi_unlinked i /\ oi_free i' = oi_free i /\ oi_by_ino i' = oi_by_ino i.
Proof. by intros (l & Hl & [= <-])%bind_Some. Qed.

Lemma drained_remove i i' slot :
  inodes_remove i slot = Some i' -> vget (oi_dirty i) slot = Some [] -> drained_slots i -> drained_slots i'.
Proof.
  intros (k & Hk & (t1 & (H1 & H2 & H3 & _)%set_refs_same & (t2 & Hu & [= <-])%bind_Some)%bind_Some)%bind_Some Hs Hd.
  simpl in *. assert (drained_slots t1) as Hd1 by (by eapply drained_ext).
  pose proof (drained_clear_unlinked _ _ _ Hu ltac:(by rewrite H1) Hd1) as [Hd2 Hf2].
  apply bind_Some in Hu as (l & _ & [= <-]). simpl in *. split; [done|]. simpl.
  intros j [Hj| ->%list_elem_of_singleton]%elem_of_app; [by apply Hf2|by rewrite H1].
Qed.

Lemma drained_insert i ino kind size r :
  inodes_insert i ino kind size = Some r -> drained_slots i -> drained_slots r.2.
Proof.
  unfold inodes_insert. intros (r0 & Hr & Heq)%bind_Some [Hd Hf].
  assert (drained_slots r0.2) as Hd0.
  2:{ destruct r0 as [slot t]. injection Heq as <-. revert Hd0. by apply drained_ext. }
  destruct (vec_pop (oi_free i)) as [[slot free]|] eqn:Hp.
  - apply vec_pop_Some in Hp. repeat (apply bind_Some in Hr as (? & ? & Hr)). injection Hr as <-. simpl.
    repeat match goal with Hv : set_unlinked _ _ _ = Some _ |- _ =>
      eapply (drained_clear_unlinked _ _ _ Hv); clear Hv end;
    repeat match goal with Hv : ?f _ _ _ = Some ?t |- _ =>
      apply bind_Some in Hv as (? & _ & Hv); injection Hv as <- end; simpl.
    + apply Hf. rewrite Hp. set_solver.
    + split; [exact Hd|]. simpl. intros j Hj. apply Hf. rewrite Hp. set_solver.
  - injection Hr as <-. simpl. split; simpl.
    + intros j d [Hj| ->]%vget_snoc_inv; [|by left]. destruct (Hd j d Hj); [by left|right].
      by apply vget_app_l.
    + intros j Hj. by apply vget_app_l, Hf.
Qed.

(** ** Operations of a file system that is closing *)

(** Writes are refused, the outcome of the last flush is [last], and under condition [D]
    there is no data in the slots. *)
Definition sealed (D : Prop) (last : option Z) (s : Fs) : Prop :=
  closing (fs_table s) = true /\ fs_last_flush s = last /\ (D -> drained_slots (inodes (fs_table s))).

Section shared.
Context `{World, HashOrder} (D : Prop) (last : option Z).
Implicit Types (s : Fs) (i : OpenInodes).

Lemma keeps_db {A} (m : DbM A) : keeps (sealed D last) (Shared.db m).
Proof. intros s Hs. unfold wlp, Shared.db, zoom. by destruct (m (fs_db s)). Qed.

Lemma keeps_table : keeps (sealed D last) Shared.table.
Proof. apply keeps_gets. Qed.

Lemma wlp_column {A} (f : OpenInodes -> list A) slot (Q : A -> Fs -> Prop) R s :
  (forall a, vget (f (inodes (fs_table s))) slot = Some a -> Q a s) -> wlp (Shared.column f slot) Q R s.
Proof. intros HQ. apply wlp_bind, wlp_gets. by apply wlp_unwrap. Qed.

Lemma keeps_column {A} (f : OpenInodes -> list A) slot : keeps (sealed D last) (Shared.column f slot).
Proof. intros s Hs. by apply wlp_column. Qed.

Definition same_slots s s' : Prop :=
  inodes (fs_table s') = inodes (fs_table s) /\ closing (fs_table s') = closing (fs_table s) /\
  fs_last_flush s' = fs_last_flush s.

Lemma sealed_same s s' : same_slots s s' -> sealed D last s -> sealed D last s'.
Proof. unfold sealed. by intros (-> & -> & ->). Qed.

Lemma wlp_update f (Q : unit -> Fs -> Prop) R s :
  Q tt (set_table (f (fs_table s)) s) -> wlp (Shared.update f) Q R s.
Proof. done. Qed.

Lemma keeps_with_arena a : keeps (sealed D last) (Shared.update (with_arena a)).
Proof. intros s Hs. apply wlp_update. by eapply sealed_same. Qed.

Lemma keeps_with_handles h : keeps (sealed D last) (Shared.update (with_handles h)).
Proof. intros s Hs. apply wlp_update. by eapply sealed_same. Qed.

Definition slots_set i' s : Fs := set_table (with_slots i' (fs_table s)) s.

Lemma sealed_slots i' s :
  (drained_slots (inodes (fs_table s)) -> drained_slots i') -> sealed D last s ->
  sealed D last (slots_set i' s).
Proof. intros Hi (Hc & Hl & Hd). split_and!; [done|done|]. simpl. auto. Qed.

Lemma wlp_store f (Q : unit -> Fs -> Prop) R s :
  (forall i', f (inodes (fs_table s)) = Some i' -> Q tt (slots_set i' s)) -> wlp (Shared.store f) Q R s.
Proof.
  intros HQ. apply wlp_bind, wlp_gets, wlp_bind, wlp_unwrap. intros i' Hi'. apply wlp_update. by apply HQ.
Qed.

Lemma keeps_store f :
  (forall i i', f i = Some i' -> drained_slots i -> drained_slots i') -> keeps (sealed D last) (Shared.store f).
Proof. intros Hf s Hs. apply wlp_store. intros i' Hi'. apply sealed_slots; [|done]. by apply Hf. Qed.

Lemma keeps_set_size slot v : keeps (sealed D last) (Shared.store (fun i => OpenTable.set_size i slot v)).
Proof. apply keeps_store. intros i i' (l & _ & [= <-])%bind_Some. by apply drained_ext. Qed.

Lemma keeps_set_refs slot v : keeps (sealed D last) (Shared.store (fun i => set_refs i slot v)).
Proof. apply keeps_store. intros i i' (l & _ & [= <-])%bind_Some. by apply drained_ext. Qed.

Lemma keeps_set_unlinked slot : keeps (sealed D last) (Shared.store (fun i => set_unlinked i slot true)).
Proof. apply keeps_store. intros i i'. apply drained_set_unlinked. Qed.

Lemma keeps_set_dirty slot : keeps (sealed D last) (Shared.store (fun i => set_dirty i slot [])).
Proof. apply keeps_store. intros i i'. apply drained_set_dirty. Qed.

#[local] Hint Resolve keeps_db keeps_table keeps_column keeps_with_arena keeps_with_handles
  keeps_set_size keeps_set_refs keeps_set_unlinked keeps_set_dirty : keeps.

Lemma keeps_flush_slot slot u : keeps (sealed D last) (Shared.flush_slot slot u).
Proof. unfold Shared.flush_slot, dirty_release_into. keeps. Qed.

(** The slot that goes has been seen to be empty. *)
Lemma keeps_free_if_idle slot : keeps (sealed D last) (Shared.free_if_idle slot).
Proof.
  intros s Hs. unfold Shared.free_if_idle. apply wlp_bind, wlp_column. intros refs Hrefs.
  destruct (refs =? 0); [|by apply wlp_ret]. apply wlp_bind, wlp_column. intros d Hd.
  case_bool_decide as He; [|by apply wlp_ret]. apply wlp_store. intros i' Hi'.
  apply sealed_slots; [|done]. subst. by apply (drained_remove _ _ slot).
Qed.

Lemma keeps_discard_slot slot : keeps (sealed D last) (Shared.discard_slot slot).
Proof.
  intros s Hs. unfold Shared.discard_slot, dirty_release_into. apply wlp_bind, wlp_column. intros d Hd.
  apply wlp_bind, wlp_gets, wlp_bind, wlp_store. intros i1 H1. apply wlp_bind, wlp_update, wlp_store.
  intros i2 H2. simpl in H2.
  assert (vget (oi_dirty i1) slot = Some []) as Hempty.
  { apply bind_Some in H1 as (l & Hl & [= <-]). simpl. by rewrite (vget_vset _ _ _ _ _ Hl), decide_True. }
  destruct Hs as (Hc & Hl & Hd0). split_and!; [done|done|]. intros HD. simpl.
  eapply drained_remove; [done..|]. eapply drained_set_dirty; [done|by apply Hd0].
Qed.

Lemma keeps_slot_for ino : keeps (sealed D last) (Shared.slot_for ino).
Proof.
  intros s Hs. unfold Shared.slot_for. apply wlp_bind, wlp_gets. case_match; [by apply wlp_ret|].
  apply wlp_bind. unfold wlp at 1, Shared.db, zoom. destruct (inode_head ino (fs_db s)) as [[kind size] c|e c| |]; try done.
  apply wlp_bind, wlp_unwrap. intros r Hr. apply wlp_bind, wlp_update, wlp_ret.
  apply (sealed_slots r.2 (set_db c s)); [|done]. simpl. by eapply drained_insert.
Qed.

Lemma keeps_open_slot slot : keeps (sealed D last) (Shared.open_slot slot).
Proof. unfold Shared.open_slot. keeps. Qed.

Lemma keeps_read_slot slot offset size : keeps (sealed D last) (Shared.read_slot slot offset size).
Proof. unfold Shared.read_slot, Shared.overlay_chunk. keeps. Qed.

(** A write is refused. *)
Lemma keeps_write_slot slot offset data : keeps (sealed D last) (Shared.write_slot slot offset data).
Proof.
  intros s Hs. unfold Shared.write_slot. apply wlp_bind, wlp_column. intros kind Hk.
  case_match; [by apply wlp_throw|]. apply wlp_bind, wlp_gets. pose proof Hs as (Hc & _ & _).
  rewrite Hc. by apply wlp_throw.
Qed.

#[local] Hint Resolve keeps_flush_slot keeps_free_if_idle keeps_discard_slot keeps_slot_for keeps_open_slot
  keeps_read_slot keeps_write_slot : keeps.

Lemma keeps_release_fh fh : keeps (sealed D last) (Shared.release_fh fh).
Proof. unfold Shared.release_fh. keeps. Qed.

Lemma keeps_entry_removed target : keeps (sealed D last) (Shared.entry_removed target).
Proof. unfold Shared.entry_removed. keeps. Qed.

Lemma keeps_overlay_attr attr : keeps (sealed D last) (Shared.overlay_attr attr).
Proof. unfold Shared.overlay_attr. keeps. Qed.

#[local] Hint Resolve keeps_release_fh keeps_entry_removed keeps_overlay_attr : keeps.

(** *** Operations and handlers *)

Lemma keeps_find_slot ino : keeps (sealed D last) (Dbfs.find_slot ino).
Proof. unfold Dbfs.find_slot. keeps. Qed.

Lemma keeps_handle_slot fh : keeps (sealed D last) (Dbfs.handle_slot fh).
Proof. unfold Dbfs.handle_slot. keeps. Qed.

#[local] Hint Resolve keeps_find_slot keeps_handle_slot : keeps.

Lemma keeps_truncate_locked ino size : keeps (sealed D last) (Dbfs.truncate_locked ino size).
Proof. unfold Dbfs.truncate_locked. keeps. Qed.

#[local] Hint Resolve keeps_truncate_locked : keeps.

Lemma keeps_getattr ino : keeps (sealed D last) (Dbfs.getattr ino).
Proof. unfold Dbfs.getattr. keeps. Qed.

Lemma keeps_lookup p n : keeps (sealed D last) (Dbfs.lookup p n).
Proof. unfold Dbfs.lookup. keeps. Qed.

Lemma keeps_readdir_stream {X} ino offset (emit : X -> Z -> Z -> FileType -> list byte -> X * bool) acc :
  keeps (sealed D last) (Dbfs.readdir_stream ino offset emit acc).
Proof. unfold Dbfs.readdir_stream. keeps. Qed.

Lemma keeps_create p n mode umask uid gid : keeps (sealed D last) (Dbfs.create p n mode umask uid gid).
Proof. unfold Dbfs.create. keeps. Qed.

Lemma keeps_setattr ino mode uid gid size atime mtime :
  keeps (sealed D last) (Dbfs.setattr ino mode uid gid size atime mtime).
Proof. unfold Dbfs.setattr. keeps. Qed.

Lemma keeps_write_fh fh offset data : keeps (sealed D last) (Dbfs.write_fh fh offset data).
Proof. unfold Dbfs.write_fh. keeps. Qed.

Lemma keeps_fallocate ino offset length mode : keeps (sealed D last) (Dbfs.fallocate ino offset length mode).
Proof. unfold Dbfs.fallocate. keeps. Qed.

Lemma keeps_unlink p n : keeps (sealed D last) (Dbfs.unlink p n).
Proof. unfold Dbfs.unlink. keeps. Qed.

Lemma keeps_rename p n np nn flags : keeps (sealed D last) (Dbfs.rename p n np nn flags).
Proof. unfold Dbfs.rename. keeps. Qed.

(** The new file gets an empty slot. *)
Lemma keeps_create_open p n mode umask uid gid : keeps (sealed D last) (Dbfs.create_open p n mode umask uid gid).
Proof.
  intros s Hs. unfold Dbfs.create_open. apply wlp_bind. eapply wlp_mono; [by apply keeps_create| |done].
  intros attr s1 Hs1. apply wlp_bind, wlp_gets, wlp_bind, wlp_unwrap. intros r Hr. apply wlp_bind, wlp_update.
  apply wlp_bind. eapply wlp_mono; [apply keeps_open_slot| |done].
  - apply (sealed_slots r.2 s1); [|done]. by eapply drained_insert.
  - intros fh s2 Hs2. by apply wlp_ret.
Qed.

#[local] Hint Resolve keeps_getattr keeps_lookup keeps_readdir_stream keeps_create keeps_setattr keeps_write_fh
  keeps_fallocate keeps_unlink keeps_rename keeps_create_open : keeps.

Lemma keeps_answer {A} (m : FsM A) reply : keeps (sealed D last) m -> keeps (sealed D last) (as_answer (Handler.answer m reply)).
Proof. intros Hm. unfold as_answer, Handler.answer. keeps. Qed.

Lemma keeps_time_or_now t : keeps (sealed D last) (Handler.time_or_now t).
Proof.
  assert (keeps (sealed D last) Handler.system_now) by (intros s Hs; exact Hs).
  unfold Handler.time_or_now. keeps.
Qed.

(** No request of the kernel puts data in the buffers of a closing file system. *)
Lemma keeps_serve q : q <> QShutdown -> keeps (sealed D last) (serve q).
Proof.
  intros Hq. pose proof keeps_time_or_now. destruct q; try done; simpl;
    unfold Handler.lookup, Handler.getattr, Handler.statfs, Handler.mkdir, Handler.create, Handler.mknod,
      Handler.symlink, Handler.readlink, Handler.link, Handler.setattr, Handler.getxattr, Handler.listxattr,
      Handler.setxattr, Handler.removexattr, Handler.open, Handler.release, Handler.flush, Handler.fsync,
      Handler.read, Handler.write, Handler.fallocate, Handler.unlink, Handler.rmdir, Handler.rename,
      Handler.readdir, Dbfs.statfs, Dbfs.mkdir, Dbfs.symlink, Dbfs.readlink, Dbfs.link, Dbfs.getxattr,
      Dbfs.listxattr, Dbfs.setxattr, Dbfs.removexattr, Dbfs.open, Dbfs.flush_fh, Dbfs.sync_fh, Dbfs.read_fh,
      Dbfs.rmdir; first [apply keeps_answer; keeps|unfold as_answer, Handler.answer; keeps].
Qed.

(** *** Sections *)

#[local] Hint Resolve keeps_time_or_now keeps_answer keeps_serve : keeps.

Lemma keeps_open_created attr : keeps (sealed D last) (open_created attr).
Proof.
  intros s Hs. apply wlp_bind, wlp_gets, wlp_bind, wlp_unwrap. intros r Hr. apply wlp_bind, wlp_update.
  apply wlp_bind. eapply wlp_mono; [apply keeps_open_slot| |done].
  - apply (sealed_slots r.2 s); [|done]. by eapply drained_insert.
  - intros fh s2 Hs2. by apply wlp_ret.
Qed.

Lemma keeps_task q : q <> QShutdown -> each_section (keeping (fun _ => True) (sealed D last)) (task q).
Proof.
  intros Hq. pose proof keeps_open_created. destruct q; try (by apply each_last; auto using keeps_serve);
    cbn [task]; unfold attr_task.
  all: try (apply each_then; [intros; keeps|intros a]; apply each_ends; intros; keeps).
  - apply each_then; [intros; unfold parent_of; keeps|intros parent]. apply each_last. intros.
    unfold listing, list_entries. keeps.
  - apply each_setattr; intros; keeps.
  - apply each_then; [intros; unfold fallocate_checks; keeps|intros a]. destruct (negb _); [done|].
    apply each_ends. intros. unfold extend_locked. keeps.
Qed.
End shared.

(** ** The sections without the lock *)

Section unlocked.
Context `{World, HashOrder}.

(** A part of the state that the storage layer does not reach. *)
Definition own_state (T : OpenTable) (last : option Z) (s : Fs) : Prop := fs_table s = T /\ fs_last_flush s = last.

(** They leave the table and the outcome of the last flush alone. *)
Lemma unlocked_task T last q : each_section (keeping (fun locked => locked = false) (own_state T last)) (task q).
Proof.
  eapply each_mono; [|apply task_discipline]. intros locked m Hm Hl s [<- <-]. specialize (Hm Hl (fs_table s) (fs_last_flush s) s).
  replace (with_guarded _ _ s) with s in Hm by (by destruct s). unfold wlp. destruct (m s) as [t s'|e s'| |]; [..|done|done];
    injection Hm as Hs'; by rewrite Hs'.
Qed.
End unlocked.

(** ** Emptied slots *)

Section emptied.
Context `{World, HashOrder}.
Implicit Types (s : Fs).

Lemma entry_columns t j e :
  entry_at t j = Some e -> vget (oi_unlinked t) j = Some (e_unlinked e) /\ vget (oi_dirty t) j = Some (e_dirty e).
Proof. intros He%entry_at_Some. tauto. Qed.

Lemma flushed_drained s : fs_inv s -> all_flushed s -> drained_slots (inodes (fs_table s)).
Proof.
  intros Hinv Hfl. pose proof (fi_slots _ _ _ Hinv) as Hwf. split.
  - intros j d Hd. pose proof (vget_Some _ _ _ Hd) as Hr. destruct (iw_lens _ Hwf) as (_ & _ & _ & _ & _ & Hlen).
    destruct (iw_cover _ Hwf j) as [Hj|Hj]; [unfold in_range; lia| |].
    + destruct (iw_free _ Hwf j Hj) as (Hrange & _ & He). apply entry_at_is_Some in Hrange as [e Hent]; [|apply Hwf].
      destruct (entry_columns _ _ _ Hent) as [_ Hd']. left. destruct (He e Hent). congruence.
    + destruct (inv_live _ _ _ _ Hinv Hj) as (e & _ & He & _). destruct (entry_columns _ _ _ He) as [Hu Hd'].
      destruct (Hfl j e Hj He) as [Hn|Hn]; [left|right]; congruence.
  - intros j Hj. destruct (iw_free _ Hwf j Hj) as (Hrange & _ & He).
    apply entry_at_is_Some in Hrange as [e Hent]; [|apply Hwf].
    destruct (entry_columns _ _ _ Hent) as [_ Hd']. destruct (He e Hent). congruence.
Qed.

Lemma drained_flushed s : drained_slots (inodes (fs_table s)) -> all_flushed s.
Proof.
  intros [Hd _] j e Hl He. destruct (entry_columns _ _ _ He) as [Hu Hdj].
  destruct (Hd j _ Hdj); [by left|right; congruence].
Qed.
End emptied.
