(* ===== verification/Samples.v ===== *)
(** * Samples: a concrete engine and small file systems

    An engine that runs every statement and gives out the next free row id, the
    tables of a new volume, a mounted file system with one open file, and the
    facts about them that instances of the theorems need. *)

From S2P Require Import Prelude Effects Model Chunk Arena OpenTable Sql DbData DbNames Tree.
From S2P Require Import NamesSpec DbVolume Fuse FuseInv FuseFlush FuseWrite FuseRead FuseOps.
From S2P Require Import FuseHandles FuseSpec FuseLifecycle FuseNames.

(** ** A world *)

(** SQLite's rule for a table without AUTOINCREMENT: one more than the largest id. *)
Definition next_rowid (s : gset Z) : option Z :=
  let r := foldr Z.max 0 (elements s) + 1 in
  if decide (r <= I64_MAX) then Some r else None.

Definition sample_world : World := {|
  fault := fun _ => None;
  clock := fun n => 1700000000 * 10 ^ 9 + Z.of_nat n;
  new_rowid := next_rowid;
  conversion_message := fun _ => [];
  constraint_message := fun _ => [];
  pragma_value := fun _ _ => 4096;
  pragma_text := fun _ _ => [];
  db_path := None;
  open_result := fun _ _ => None;
  sync_result := fun _ _ => None;
  mount_uid := 1000;
  mount_gid := 1000 |}.

(** The same engine, out of order from its first statement on. *)
Definition broken_world : World := {|
  fault := fun _ => Some (SqliteFailure (OtherCode 10) 10 []);
  clock := fun _ => 0;
  new_rowid := next_rowid;
  conversion_message := fun _ => [];
  constraint_message := fun _ => [];
  pragma_value := fun _ _ => 4096;
  pragma_text := fun _ _ => [];
  db_path := None;
  open_result := fun _ _ => None;
  sync_result := fun _ _ => None;
  mount_uid := 1000;
  mount_gid := 1000 |}.

Lemma foldr_max_le (l : list Z) x : x ∈ l -> x <= foldr Z.max 0 l.
Proof. induction l as [|y l IH]; intros Hin; cbn [foldr]; [by apply elem_of_nil in Hin|].
  apply elem_of_cons in Hin as [->|Hin%IH]; lia.
Qed.

Lemma foldr_max_nonneg (l : list Z) : 0 <= foldr Z.max 0 l.
Proof. induction l; cbn [foldr]; lia. Qed.

Lemma next_rowid_laws s r :
  next_rowid s = Some r -> (r ∉ s) /\ 0 < r /\ r <= I64_MAX.
Proof.
  unfold next_rowid. case_decide as Hle; [|done]. intros [= <-].
  pose proof (foldr_max_nonneg (elements s)).
  split; [|lia]. intros Hin%elem_of_elements%foldr_max_le. lia.
Qed.

#[global] Instance sample_laws : EngineLaws sample_world.
Proof.
  split; simpl; [..|done|done]; intros s r Hr%next_rowid_laws; [..|intros _|]; apply Hr.
Qed.

(** ** A new volume *)

Definition root_row : InodeRow := mkInodeRow (as_i64 Directory) 493 1000 1000 0 0 0 0 2.
Definition root_tables : Tables := mkTables {[1 := root_row]} ∅ ∅ ∅.

Lemma root_fs_wf : fs_wf root_tables.
Proof.
  assert (forall i r, t_inodes root_tables !! i = Some r -> i = 1 /\ r = root_row) as Hone.
  { intros i r Hr. simpl in Hr. apply lookup_singleton_Some in Hr as [-> ->]. done. }
  assert (forall i, kind_of root_tables i = Some Directory -> i = 1) as Hdir.
  { intros i Hk. unfold kind_of in Hk. destruct (t_inodes root_tables !! i) as [r|] eqn:Hr; [|done].
    by apply Hone in Hr as [-> _]. }
  split; [split|constructor].
  - intros ino r Hr. apply Hone in Hr as [-> ->]. by split_and!.
  - intros key data Hk. simpl in Hk. by rewrite lookup_empty in Hk.
  - done.
  - intros k1 d1 k2 d2 Hk. simpl in Hk. by rewrite lookup_empty in Hk.
  - intros k d Hk. simpl in Hk. by rewrite lookup_empty in Hk.
  - intros i r Hr; apply Hone in Hr as [-> ->]. done.
  - intros i ->%Hdir. split; [done|]. exists 0%nat. constructor.
  - intros i. split; [intros [x Hx]; simpl in Hx; by rewrite lookup_empty in Hx|].
    intros Hk. unfold kind_of in Hk. destruct (t_inodes root_tables !! i) as [r|] eqn:Hr; [|done].
    by apply Hone in Hr as [-> ->].
Qed.

(** ** Mounted file systems *)

(** A buffer of two chunks. *)
Definition sample_budget : Z := 131072.

Definition empty_fs : Fs := Dbfs.with_write_buffer (mkConn root_tables 0) sample_budget.

Definition state_of {A} (s0 : Fs) (o : outcome Fs Z A) : Fs :=
  match o with Ok _ s | Err _ s => s | Panic | OutOfFuel => s0 end.

Definition value_of {A} (a0 : A) (o : outcome Fs Z A) : A :=
  match o with Ok a _ => a | _ => a0 end.

Definition is_ok {A} (o : outcome Fs Z A) : bool := match o with Ok _ _ => true | _ => false end.

(** What a triple says of a run that was computed. *)
Lemma wp_state {A} (m : FsM A) (P : A -> Fs -> Prop) s0 a0 :
  is_ok (m s0) = true -> wp m P (fun _ _ => True) s0 -> P (value_of a0 (m s0)) (state_of s0 (m s0)).
Proof. unfold wp. by destruct (m s0). Qed.

Definition sample_name : list byte := [x61].

Section sample.
#[local] Existing Instance sample_world.
#[local] Existing Instance key_order.

Definition sample_open : FsM (FileAttr * Z) := Dbfs.create_open 1 sample_name 420 18 1000 1000.

(** One file, inode 2, open on handle 0. *)
Definition sample_fs : Fs := state_of empty_fs (sample_open empty_fs).

Lemma sample_no_faults e : ~ db_failure e.
Proof. intros (de & Hde & _). by apply no_faults_engine_error in Hde. Qed.

Lemma empty_inv : fs_inv empty_fs.
Proof. apply inv_fresh; [apply root_fs_wf|done]. Qed.

Lemma root_valid : valid_ino 1.
Proof. unfold valid_ino. clia. Qed.

Definition no_attr : FileAttr := file_attr_from_inode (inode_view 0 root_row Directory).

Lemma sample_facts :
  fs_inv sample_fs /\ contents sample_fs 2 0 (fun _ => x00) /\
  kind_of (tables (fs_db sample_fs)) 2 = Some RegularFile.
Proof.
  assert (wp sample_open (fun r s => fs_inv s /\ contents s (fa_ino r.1) 0 (fun _ => x00))
    (fun _ _ => True) empty_fs) as Hwp.
  { apply wp_create_open; [apply empty_inv|apply root_valid|by right|done| |done|done].
    intros now ino fh s1 s' Hcn []. split; [done|]. eapply calm_contents'; [done| |apply Hcn].
    destruct (cn_tables _ _ _ _ _ _ _ _ _ Hcn) as [k []]. unfold valid_ino. cbn. lia. }
  apply (wp_state _ _ _ (no_attr, 0)) in Hwp; [|vm_compute; reflexivity].
  assert (fa_ino (value_of (no_attr, 0) (sample_open empty_fs)).1 = 2) as Hino by (vm_compute; reflexivity).
  cbv beta in Hwp. rewrite Hino in Hwp. destruct Hwp as [Hinv Hc].
  assert (kind_of (tables (fs_db sample_fs)) 2 = Some RegularFile) as Hk2 by (vm_compute; reflexivity).
  by split_and!.
Qed.

Lemma sample_handle : handle_ino (fs_table sample_fs) 0 = Some 2.
Proof. vm_compute. reflexivity. Qed.

Lemma sample_closing : closing (fs_table sample_fs) = false.
Proof. vm_compute. reflexivity. Qed.
End sample.
