(* ===== verification/Correctness.v ===== *)
(** * Correctness: what the file system promises

    The contracts of the operations under the invariant, as total triples: each
    excludes a panic and an exhausted loop, gives the result, the contents of every
    file afterwards, and the errors that can be answered. *)

From S2P Require Import Prelude Effects Model Chunk Arena OpenTable Sql DbData DbNames Tree.
From S2P Require Import NamesSpec NamesView DbVolume Fuse FuseInv FuseFlush FuseWrite FuseRead.
From S2P Require Import FuseOps FuseHandles FuseSpec FuseLifecycle FuseNames DirStream Samples.

(** ** Reading and writing through a handle *)

Section data.
Context `{World, HashOrder}.
Implicit Types (s : Fs) (fh ino offset : Z).

(** The ways a write of [data] fails: the handle is not open, the write is refused
    with nothing changed, or the database failed after a prefix. *)
Definition write_failed s s' fh offset (data : list byte) (e : Z) : Prop :=
  (e = EBADF /\ handle_ino (fs_table s) fh = None /\ s' = s) \/
  exists ino, handle_ino (fs_table s) fh = Some ino /\
    ((write_refused s ino offset (zlen data) e /\ s' = s) \/
     (db_failure e /\ fs_inv s' /\ stable s s' /\ others_same ino s s' /\
      partly_written s s' ino offset data)).

(** C11. A write through a handle: the file has its old bytes with [data] laid over
    them at [offset], the size grows to the end of the write, every other file and
    the names are as before; a failed write leaves the file as it was or with a
    prefix of [data] written. *)
Theorem write_fh_correct s fh offset data :
  fs_inv s -> 0 <= offset -> offset + zlen data <= 2 ^ 64 - CHUNK_SIZE ->
  wp (Dbfs.write_fh fh offset data)
    (fun n s' => n = u32 (zlen data) /\ exists ino size f,
       handle_ino (fs_table s) fh = Some ino /\ closing (fs_table s) = false /\
       contents s ino size f /\
       file_changed s s' ino (write_size size (offset, data)) (write_bytes f (offset, data)))
    (fun e s' => write_failed s s' fh offset data e) s.
Proof.
  intros Hinv Ho Hend. apply wp_write_fh; try done.
  - intros ino size f s' Hf _ Hcl Hc _ Hch. split; [done|]. by exists ino, size, f.
  - intros Hf. by left.
  - intros ino n Hf Hr. right. exists ino. split; [done|]. by left.
  - intros ino n size f m s' Hf Hn Hc Hm [? ? ? ?]. right. exists ino. split; [done|]. right.
    split_and!; try done. by exists size, f, m.
Qed.

(** C12. A read through a handle gives the bytes of the file from [offset] on, as many
    as asked for and as there are, dirty data included, and changes nothing. *)
Theorem read_fh_correct s fh offset n :
  fs_inv s -> 0 <= offset -> 0 <= n ->
  wp (Dbfs.read_fh fh offset n)
    (fun out s' => same_state s s' /\ exists ino size f, handle_ino (fs_table s) fh = Some ino /\
       contents s ino size f /\ size <= MAX_FILE_SIZE /\ read_result size f offset n out)
    (fun e s' => same_state s s' /\
       ((e = EBADF /\ handle_ino (fs_table s) fh = None) \/
        (exists ino k error, handle_ino (fs_table s) fh = Some ino /\
           kind_of (tables (fs_db s)) ino = Some k /\ regular_file_error k = Some error /\
           e = errno_from_db_error error) \/
        db_failure e)) s.
Proof.
  intros Hinv Ho Hn. apply wp_read_fh; try done.
  - intros ino size f out s' Hf _ Hc Hs Hr Hss. split; [done|]. by exists ino, size, f.
  - intros Hf. split; [done|]. by left.
  - intros ino k error Hf Hk Herr. split; [done|]. right; left. by exists ino, k, error.
  - intros e s' He Hs. split; [done|]. by right; right.
Qed.

(** C13. What was written through one handle is what a read of the same range gives,
    through any handle of the file; only the database can fail in between. *)
Theorem read_after_write s fh fh' ino size f offset data :
  fs_inv s -> handle_ino (fs_table s) fh = Some ino -> handle_ino (fs_table s) fh' = Some ino ->
  kind_of (tables (fs_db s)) ino = Some RegularFile -> closing (fs_table s) = false ->
  contents s ino size f -> 0 <= offset -> offset + zlen data <= MAX_FILE_SIZE ->
  wp (Dbfs.write_fh fh offset data ;; Dbfs.read_fh fh' offset (zlen data))
    (fun out s' => out = data /\
       file_changed s s' ino (write_size size (offset, data)) (write_bytes f (offset, data)))
    (fun e s' => db_failure e) s.
Proof.
  intros Hinv Hf Hf' Hk Hcl Hc Ho Hend. apply wp_bind.
  apply wp_write_fh; [done|done|revert Hend; clia| |congruence| |by auto].
  2: { intros ino' n Hf2 Hr. assert (ino' = ino) as -> by congruence. exfalso.
    destruct Hr as [k error Hk' He|_ Hcl'|_ Hbig]; [|congruence|lia].
    rewrite Hk in Hk'. injection Hk' as <-. done. }
  intros ino' size' f' s1 Hf2 _ _ Hc' _ Hch. assert (ino' = ino) as -> by congruence.
  assert (size' = size) as -> by (by eapply contents_size).
  assert (file_changed s s1 ino (write_size size (offset, data)) (write_bytes f (offset, data))) as Hch'.
  { eapply changed_ext; [|exact Hch]. apply write_bytes_ext. by eapply contents_bytes. }
  pose proof Hch' as [Hinv1 Hst _ Hc1].
  assert (handle_ino (fs_table s1) fh' = Some ino) as Hf1 by (by rewrite (sb_handles _ _ Hst)).
  apply wp_read_fh; [done|done|apply zlen_nonneg| | | |by auto].
  - intros ino2 size2 f2 out s2 Hf3 _ Hc2 Hmax Hread Hss.
    assert (ino2 = ino) as -> by congruence.
    assert (size2 = write_size size (offset, data)) as -> by (by eapply contents_size).
    pose proof (contents_bytes _ _ _ _ _ _ Hc' Hc) as Hff.
    split.
    + apply (read_written size f offset); [done..|].
      eapply read_result_ext; [done..| |exact Hread]. by eapply contents_bytes, (fc_contents _ _ _ _ _ Hch').
    + eapply changed_state; [exact Hch'|done|]. by eapply handle_valid.
  - congruence.
  - intros ino2 k error Hf3 Hk3 Herr. assert (ino2 = ino) as -> by congruence.
    rewrite (same_names_kind _ _ ino (sb_names _ _ Hst)), Hk in Hk3. injection Hk3 as <-. done.
Qed.

(** ** Durability *)

(** The file system that mounts the database of [s] anew: what a crash leaves. *)
Definition remounted s (budget : Z) : Fs := Dbfs.with_write_buffer (fs_db s) budget.

Lemma remounted_inv s budget : fs_inv s -> budget < 2 ^ 48 -> fs_inv (remounted s budget).
Proof. intros Hinv Hb. apply inv_fresh; [apply Hinv|done]. Qed.

Lemma remounted_contents s budget ino size f :
  file_stored s ino -> contents s ino size f -> contents (remounted s budget) ino size f.
Proof.
  intros Hst Hc. destruct (Hst _ _ Hc) as [(r & Hr & Hs) Hb].
  assert (entry_of (fs_table (remounted s budget)) ino = None) as Hno by done.
  split; [unfold file_size; rewrite Hno; cbn; rewrite Hr; cbn; congruence|].
  intros p Hp. unfold file_byte. rewrite Hno. by apply Hb.
Qed.

(** C14. Unmounting: after a shutdown flush that succeeds, mounting the database again
    shows every file as it was, but for those unlinked while open; the flush itself
    changes no file and refuses later writes, and when it fails the outcome is kept. *)
Theorem shutdown_durable s budget :
  fs_inv s -> budget < 2 ^ 48 ->
  wp Shared.flush_for_shutdown
    (fun _ s' => fs_inv s' /\ same_files s s' /\ closing (fs_table s') = true /\
       fs_last_flush s' = None /\ fs_inv (remounted s' budget) /\
       forall ino size f, valid_ino ino -> ~ unlinked_open s' ino -> contents s ino size f ->
         contents (remounted s' budget) ino size f)
    (fun e s' => fs_inv s' /\ same_files s s' /\ closing (fs_table s') = true /\
       fs_last_flush s' = Some e /\ (e = EIO \/ db_failure e)) s.
Proof.
  intros Hinv Hb. apply wp_shutdown; [done|..].
  - intros s1 Hinv1 Hq Hfl. assert (same_files s s1) as Hsf by (etrans; [|apply Hq]; done).
    split_and!; try done; [exact (q_closing _ _ Hq)|by apply (remounted_inv s1)|].
    intros ino size f Hi Hno Hc. apply (remounted_contents s1); [|by eapply same_files_contents].
    by apply all_flushed_stored.
  - intros e s1 Hinv1 Hq He. assert (same_files s s1) as Hsf by (etrans; [|apply Hq]; done).
    split_and!; try done. exact (q_closing _ _ Hq).
Qed.

(** C15. [flush] of a handle, as at its close. Unless the file was unlinked while open it is in
    the database afterwards just as the file system shows it, so that a mount after the process
    has died shows it unchanged (a power failure is a matter of [fsync]); a file that was
    unlinked while open is not written out, and then nothing happens at all. In both cases
    nothing that the file system shows changes. *)
Theorem flush_durable s fh budget :
  fs_inv s ->
  wp (Dbfs.flush_fh fh)
    (fun _ s' => exists ino, handle_ino (fs_table s) fh = Some ino /\ fs_inv s' /\ quiet s s' /\
       (unlinked_open s ino -> s' = s) /\
       (~ unlinked_open s ino ->
        forall size f, contents s ino size f -> contents (remounted s' budget) ino size f))
    (fun e s' => (e = EBADF /\ handle_ino (fs_table s) fh = None /\ s' = s) \/
       (db_failure e /\ same_state s s')) s.
Proof.
  intros Hinv. apply wp_flush_fh; [done| |by auto|by auto].
  intros ino s' Hf Hinv' Hq Hsame Hst. exists ino. split_and!; try done.
  intros Hno size f Hc. destruct Hst as [Hu|Hst]; [done|]. apply remounted_contents; [done|].
  eapply quiet_contents; [done|eapply handle_valid; [exact Hinv|exact Hf]|done].
Qed.

(** Writing by inode number behaves as writing through a handle, and leaves no
    slot behind that would keep the data from being evicted. *)
Theorem write_correct s ino offset data :
  fs_inv s -> valid_ino ino -> kind_of (tables (fs_db s)) ino <> Some Directory ->
  slot_room (inodes (fs_table s)) -> 0 <= offset -> offset + zlen data <= 2 ^ 64 - CHUNK_SIZE ->
  wp (Dbfs.write ino offset data)
    (fun n s' => n = u32 (zlen data) /\ ((data = [] /\ s' = s) \/ exists size f,
       contents s ino size f /\
       file_changed s s' ino (write_size size (offset, data)) (write_bytes f (offset, data))))
    (fun e s' => fs_inv s' /\ stable s s' /\ others_same ino s s' /\
       ((e = ENOENT /\ t_inodes (tables (fs_db s)) !! ino = None /\ same_files s s') \/
        (write_refused s ino offset (zlen data) e /\ same_files s s') \/
        (db_failure e /\ (same_files s s' \/ partly_written s s' ino offset data)))) s.
Proof.
  intros Hinv Hi Hfile Hroom Ho Hend. apply wp_write; try done.
  - intros ->. split; [done|]. by left.
  - intros size f s' _ _ Hc _ _ Hch. split; [done|]. right. by exists size, f.
  - intros s' Hn Hs. pose proof (same_state_inv _ _ Hs Hinv) as Hinv'.
    split_and!; [done|by apply quiet_stable, quiet_state|by apply others_calm, same_state_calm|].
    left. split_and!; [done..|by apply same_state_files].
  - intros n s' Hr Hinv' Hst Hsf. split_and!; [done..|by intros k Hk _; apply Hsf|]. right; left. done.
  - intros n s' Hn Hinv' Hst Ho' Hcase. split_and!; [done..|]. by right; right.
Qed.
End data.

(** ** Names and handles *)

Section names.
Context `{World, HashOrder, !EngineLaws H}.
Implicit Types (s : Fs) (fh ino p np : Z) (n nn : list byte).

(** C16. [open] of anything but a directory gives a handle that nobody has, on the inode
    asked for; no file, name or other handle changes. *)
Theorem open_correct s ino :
  fs_inv s -> valid_ino ino -> kind_of (tables (fs_db s)) ino <> Some Directory ->
  slot_room (inodes (fs_table s)) -> handles_room s ->
  wp (Dbfs.open ino) (fun fh s' => opened s s' fh ino)
    (fun e s' => same_state s s' /\
       ((e = ENOENT /\ t_inodes (tables (fs_db s)) !! ino = None) \/ db_failure e)) s.
Proof. intros. apply wp_open; try done; intros; split; auto. Qed.

(** C17. [create] makes one new empty file under a free name and opens it: all other
    files, names and handles stay; a refused creation changes nothing. *)
Theorem create_open_correct s p n mode umask uid gid :
  fs_inv s -> valid_ino p -> slot_room (inodes (fs_table s)) -> handles_room s ->
  wp (Dbfs.create_open p n mode umask uid gid)
    (fun r s' => exists now ino s1, fa_ino r.1 = ino /\
       created_node s s1 p n (NewFile (Z.ldiff mode umask)) uid gid now ino /\
       opened s1 s' r.2 ino /\ contents s' ino 0 (fun _ => x00))
    (fun e s' => same_state s s' /\ (create_refused (tables (fs_db s)) p n e \/ db_failure e)) s.
Proof.
  intros. apply wp_create_open; try done; [|by auto..].
  intros now ino fh s1 s' Hcn Hon. exists now, ino, s1. split_and!; try done.
  eapply calm_contents'; [apply Hon| |apply Hcn].
  destruct Hcn as [(k & []) _ _ _ _ _ _ _]. unfold valid_ino. lia.
Qed.

(** C18. [unlink]: the name goes, and no other. While other names or open handles remain
    the file stays as it was, and with the last of them it is deleted at once; the other
    files are untouched and a refused call changes nothing. *)
Theorem unlink_correct s p n :
  fs_inv s -> valid_ino p -> Z.of_nat (size (t_dirents (tables (fs_db s)))) < U32_MAX ->
  wp (Dbfs.unlink p n)
    (fun _ s' => exists k d r K, resolves (tables (fs_db s)) p n k d r K /\ K <> Directory /\
       tree_set (tables (fs_db s)) (tables (fs_db s')) p n None /\ fs_inv s' /\ same_flags s s' /\
       others_same (d_child d) s s' /\ removal s s' (d_child d) r K)
    (fun e s' => same_state s s' /\ (unlink_refused (tables (fs_db s)) p n e \/ db_failure e)) s.
Proof.
  intros Hinv Hp Hroom. apply wp_unlink; try done; [|by auto..].
  intros k d r K s' Hres HK Hinv' Hfl Ho Hrem Heq. exists k, d, r, K. split_and!; try done.
  intros p' n'. eapply child_of_unlink; [apply Hinv|apply Hinv'|done|done| |done].
  intros [Hl _]%orb_false_iff. by apply Z.ltb_ge in Hl.
Qed.

(** C19. [release]: the handle is gone whatever the outcome. The last handle of a file
    that was unlinked while open deletes its rows, and no other release deletes anything: then
    every file stays as it was, and is in the database afterwards unless it was unlinked. *)
Theorem release_correct s fh :
  fs_inv s ->
  wp (Dbfs.release_file fh)
    (fun _ s' => exists ino, handle_ino (fs_table s) fh = Some ino /\ fs_inv s' /\
       handle_dropped s s' fh /\ release_outcome s s' fh ino)
    (fun e s' => (e = EBADF /\ handle_ino (fs_table s) fh = None /\ s' = s) \/
       exists ino, handle_ino (fs_table s) fh = Some ino /\ db_failure e /\ fs_inv s' /\
         handle_dropped s s' fh /\ others_same ino s s' /\
         ((unlinked_open s ino /\ last_handle s fh ino) \/ same_files s s')) s.
Proof.
  intros Hinv. apply wp_release_fh; [done| |by auto|].
  - intros ino s' Hf Hinv' Hd Ho. by exists ino.
  - intros ino n s' Hf Hn Hinv' Hd Ho _ Hs. right. exists ino. split_and!; try done. destruct Hs as [[? _]|?]; auto.
Qed.

(** An entry moved, over whatever had its new name. *)
Definition tree_moved (T T' : Tables) p n np nn : Prop :=
  exists c, child_of T p n = Some c /\ forall p' n', child_of T' p' n' =
    if decide (p' = np /\ n' = nn) then Some c
    else if decide (p' = p /\ n' = n) then None else child_of T p' n'.

Lemma renamed_tree s s' p n np nn :
  fs_inv s -> fs_inv s' -> renamed s s' p n np nn -> ~ (p = np /\ n = nn) ->
  tree_moved (tables (fs_db s)) (tables (fs_db s')) p n np nn.
Proof.
  intros Hinv Hinv' Hren Hne. pose proof (fi_db _ _ _ Hinv) as Hwf. pose proof (fi_db _ _ _ Hinv') as Hwf'.
  assert (forall k d r K tgt is_open, d_parent d = p -> d_name d = n ->
    rename_ok (tables (fs_db s)) k d r K np nn tgt ->
    tables (fs_db s') ≡ renamed_tables (tables (fs_db s)) k d np nn tgt is_open ->
    tree_moved (tables (fs_db s)) (tables (fs_db s')) p n np nn) as Hmk.
  { intros k d r K tgt is_open <- <- Hok Heq. exists (d_child d).
    split; [by eapply child_of_resolves, Hok|]. intros p' n'. by eapply child_of_renamed. }
  destruct Hren as [-> -> _ _|k d r K Hp Hn Hok _ Heq|k d r K k2 d2 r2 K2 Hp Hn Hok _ _ Heq]; [tauto| |].
  - by apply (Hmk k d r K None (fun _ => false)).
  - by eapply Hmk.
Qed.

(** C20. [rename]: nothing when both names are the same, else the entry moves and the
    replaced inode, if any, goes as by an unlink; never to a place below itself, never
    over a directory that has entries or of another sort, never over anything when asked
    not to. A refusal changes nothing. *)
Theorem rename_correct s p n np nn flags :
  fs_inv s -> valid_ino p -> valid_ino np ->
  Z.of_nat (size (t_dirents (tables (fs_db s)))) < U32_MAX ->
  wp (Dbfs.rename p n np nn flags)
    (fun _ s' => fs_inv s' /\ same_flags s s' /\ renamed s s' p n np nn /\
       (~ (p = np /\ n = nn) -> tree_moved (tables (fs_db s)) (tables (fs_db s')) p n np nn /\
          (noreplace flags = true -> child_of (tables (fs_db s)) np nn = None)))
    (fun e s' => same_state s s' /\ ((Z.ldiff flags RENAME_NOREPLACE <> 0 /\ e = EINVAL) \/
       (exists de, rename_refused (tables (fs_db s)) p n np nn (noreplace flags) de /\
          e = errno_from_db_error de) \/ db_failure e)) s.
Proof.
  intros Hinv Hp Hnp Hroom. apply wp_rename; try done.
  - intros s' _ Hinv' Hfl Hren Hno. split_and!; try done. intros Hne. split; [by apply renamed_tree|].
    intros [?|Hnone]%Hno; [tauto|by apply child_of_None].
  - intros Hfl. split; [done|]. by left.
  - intros e s' Hr Hs. split; [done|]. right; left. by exists e.
  - intros e s' Hn Hs. split; [done|]. by right; right.
Qed.

(** C21. [rmdir] removes an empty directory and its name; anything else is refused with
    nothing changed. *)
Theorem rmdir_correct s p n :
  fs_inv s -> valid_ino p ->
  wp (Dbfs.rmdir p n)
    (fun _ s' => exists k d r, resolves (tables (fs_db s)) p n k d r Directory /\
       child_count (d_child d) (tables (fs_db s)) = 0 /\ fs_inv s' /\ same_flags s s' /\
       others_same (d_child d) s s' /\ t_inodes (tables (fs_db s')) !! d_child d = None /\
       tree_set (tables (fs_db s)) (tables (fs_db s')) p n None)
    (fun e s' => same_state s s' /\ (rmdir_refused (tables (fs_db s)) p n e \/ db_failure e)) s.
Proof.
  intros Hinv Hp. apply wp_rmdir; try done; [|by auto..].
  intros k d r s' Hres Hz Hinv' Hfl Ho Hgone Heq. exists k, d, r. split_and!; try done.
  intros p' n'. eapply child_of_rmdir; [apply Hinv|apply Hinv'|done..].
Qed.

(** C22. [readdir]: the entries of the directory with a larger cookie than the one given,
    each once, in the order of their cookies, dots first; so a listing that resumes at
    the cookie of its last entry misses nothing and repeats nothing. *)
Theorem readdir_correct s ino offset :
  fs_inv s -> valid_ino ino -> 0 <= offset <= I64_MAX -> cookies_fit (tables (fs_db s)) ->
  wp (Dbfs.readdir ino offset)
    (fun out s' => same_state s s' /\ StronglySorted Z.lt (dd_offset <$> out) /\
       forall e, e ∈ out <-> stream_entry (tables (fs_db s)) ino e /\ offset < dd_offset e)
    (fun e s' => same_state s s' /\
       ((e = ENOTDIR /\ exists K, kind_of (tables (fs_db s)) ino = Some K /\ K <> Directory) \/
        (e = ENOENT /\ t_inodes (tables (fs_db s)) !! ino = None) \/ db_failure e)) s.
Proof.
  intros Hinv Hi Ho Hfit. apply wp_readdir; [apply Hinv|done..| | | |]; [|intros; split; auto..].
  intros out s' _ Hs [Hsort Hin]. done.
Qed.
End names.
