(* ===== verification/Attributes.v ===== *)
(** * Attributes: what is promised of attributes, links and new nodes

    The contracts of [getattr], [setattr], [fallocate], [link], [mkdir] and [symlink]
    under the invariant, and what a link answers while writes are buffered. *)

From S2P Require Import Prelude Effects Model Chunk Arena OpenTable Sql DbData DbNames Tree.
From S2P Require Import NamesSpec NamesView DbVolume Fuse FuseInv FuseFlush FuseWrite FuseRead.
From S2P Require Import FuseOps FuseHandles FuseSpec FuseLifecycle FuseNames FuseResize FuseAttr.
From S2P Require Import Samples Correctness.

Section attributes.
Context `{World, HashOrder}.
Implicit Types (s : Fs) (ino p : Z) (n : list byte).

(** [getattr] answers with the row of the inode, the size that the file system shows and
    the time of the last buffered write, and changes nothing. *)
Theorem getattr_correct s ino :
  fs_inv s -> valid_ino ino ->
  wp (Dbfs.getattr ino)
    (fun attr s' => same_state s s' /\ exists r K, shows_attr s ino r K attr)
    (fun e s' => same_state s s' /\
       ((e = ENOENT /\ t_inodes (tables (fs_db s)) !! ino = None) \/ db_failure e)) s.
Proof.
  intros Hinv Hi. apply wp_getattr; [done|done| |by auto..].
  intros r K attr s' Ha Hs. split; [done|]. exists r, K. pose proof Hs as (Hd & Ht & _).
  destruct Ha. rewrite Hd, ?Ht in *. by constructor.
Qed.

(** C26. [setattr]: the row has the new attributes and keeps those that were not asked for, the
    time of modification included unless the file is cut; the file is cut or extended with zeros
    to the new size, whatever was buffered is in the database, and every other file, every other
    row and the tree are as before. A refusal changes nothing that is shown and no other row, and
    a failing database leaves at most the cut. *)
Theorem setattr_correct s ino ch :
  fs_inv s -> valid_ino ino -> (forall size, ac_size ch = Some size -> 0 <= size) ->
  wp (Dbfs.setattr ino (ac_mode ch) (ac_uid ch) (ac_gid ch) (ac_size ch) (ac_atime ch) (ac_mtime ch))
    (fun attr s' => attr_set s s' ino ch attr)
    (fun e s' =>
       (((e = ENOENT /\ t_inodes (tables (fs_db s)) !! ino = None) \/
         exists size, ac_size ch = Some size /\ resize_refused (tables (fs_db s)) ino size e) /\
        fs_inv s' /\ quiet s s' /\ rows_but ino s s') \/
       (db_failure e /\ setattr_failed s s' ino ch)) s.
Proof.
  intros Hinv Hi Hpos. apply wp_setattr; [done..|by auto| |by auto].
  intros e s' [[? ->]|Hr] Hinv' Hq Hrows; left; (split; [|done]); auto.
Qed.

(** C27. [fallocate] extends the file with zeros up to the end of the range unless the size is
    to be kept, and never shrinks it. It succeeds on regular files only, and only with mode 0 or
    [FALLOC_FL_KEEP_SIZE]: any other mode, kind or range is refused with nothing changed. *)
Theorem fallocate_correct s ino offset length mode :
  fs_inv s -> valid_ino ino ->
  wp (Dbfs.fallocate ino offset length mode)
    (fun _ s' => exists size f, 0 <= offset /\ 0 < length /\ offset + length <= MAX_FILE_SIZE /\
       (mode = 0 \/ mode = FALLOC_FL_KEEP_SIZE) /\
       kind_of (tables (fs_db s)) ino = Some RegularFile /\ contents s ino size f /\
       file_changed s s' ino (if keep_size mode then size else Z.max size (offset + length)) f /\
       forall q, size <= q < MAX_FILE_SIZE -> 0 <= q -> f q = x00)
    (fun e s' =>
       (fallocate_refused (tables (fs_db s)) ino offset length mode e /\ same_state s s') \/
       (db_failure e /\ fs_inv s' /\ quiet s s')) s.
Proof.
  intros Hinv Hi. apply wp_fallocate; [done|done| |by auto..].
  intros size f s' Ho Hl Hend Hm Hk Hc Hch. exists size, f. split_and!; try done; [by apply fallocate_mode|].
  intros q Hq Hq0. by eapply contents_past.
Qed.

(** [fsync] of a handle: a remount shows the file as it was, whatever happens to the
    process, and nothing that is shown changes. *)
Theorem sync_correct s fh budget :
  fs_inv s ->
  wp (Dbfs.sync_fh fh)
    (fun _ s' => exists ino, handle_ino (fs_table s) fh = Some ino /\ fs_inv s' /\ quiet s s' /\
       (unlinked_open s ino \/
        forall size f, contents s ino size f -> contents (remounted s' budget) ino size f))
    (fun e s' => (e = EBADF /\ handle_ino (fs_table s) fh = None /\ s' = s) \/
       ((db_failure e \/ e = EIO) /\ fs_inv s' /\ quiet s s')) s.
Proof.
  intros Hinv. apply wp_sync_fh; [done| |by auto|by auto].
  intros ino s' Hf Hinv' Hq Hst. exists ino. split_and!; try done.
  destruct Hst as [Hu|Hst]; [by left|right]. intros size f Hc. apply remounted_contents; [done|].
  eapply quiet_contents; [done|eapply handle_valid; [exact Hinv|exact Hf]|done].
Qed.
End attributes.

Section nodes.
Context `{World, HashOrder, !EngineLaws H}.
Implicit Types (s : Fs) (ino p : Z) (n : list byte).

Lemma created_tree s s' p n node uid gid now ino :
  fs_inv s -> created_node s s' p n node uid gid now ino ->
  tree_set (tables (fs_db s)) (tables (fs_db s')) p n (Some ino).
Proof.
  intros Hinv [(k & Hcr) _ _ _ _ _ _ _] p' n'. eapply child_of_created; [apply Hinv|done].
Qed.

(** [mkdir]: a new empty directory under a free name; nothing else changes, and a
    refusal changes nothing. *)
Theorem mkdir_correct s p n mode umask uid gid :
  fs_inv s -> valid_ino p ->
  wp (Dbfs.mkdir p n mode umask uid gid)
    (fun attr s' => exists now, let node := NewDirectory (Z.ldiff mode umask) in
       created_node s s' p n node uid gid now (fa_ino attr) /\
       tree_set (tables (fs_db s)) (tables (fs_db s')) p n (Some (fa_ino attr)) /\
       fa_kind attr = FtDirectory /\ fa_nlink attr = 2)
    (fun e s' => same_state s s' /\ (create_refused (tables (fs_db s)) p n e \/ db_failure e)) s.
Proof.
  intros Hinv Hp. apply wp_new_node; [done|done|done| |by auto..].
  intros now ino s' Hcn. exists now. cbv zeta.
  assert (fa_ino (file_attr_from_inode (node_inode ino (NewDirectory (Z.ldiff mode umask)) uid gid now)) = ino) as ->
    by done.
  split_and!; try done. by eapply created_tree.
Qed.

(** C28. [symlink]: a new link under a free name, whose target [readlink] gives back. *)
Theorem symlink_correct s p n target uid gid :
  fs_inv s -> valid_ino p -> zlen target <= I64_MAX ->
  wp (attr ← Dbfs.symlink p n target uid gid; target' ← Dbfs.readlink (fa_ino attr); mret (attr, target'))
    (fun r s' => r.2 = target /\ exists now s1,
       created_node s s1 p n (NewSymlink target) uid gid now (fa_ino r.1) /\ same_state s1 s' /\
       tree_set (tables (fs_db s)) (tables (fs_db s1)) p n (Some (fa_ino r.1)))
    (fun e s' => (same_state s s' /\ create_refused (tables (fs_db s)) p n e) \/ db_failure e) s.
Proof.
  intros Hinv Hp Hlen. apply wp_bind, wp_new_node; [done|done|pose proof (zlen_nonneg target); unfold node_size; simpl; lia| |by auto..].
  intros now ino s1 Hcn. pose proof Hcn as [(k & Hcr) _ _ _ Hinv1 _ _ _].
  cbn [file_attr_from_inode node_inode i_ino fa_ino].
  apply wp_bind. unfold Dbfs.readlink. apply wp_db, wp_read_symlink; [apply Hinv1| |..].
  - pose proof (cr_ino _ _ _ _ _ _ _ _ _ _ Hcr). unfold valid_ino. lia.
  - intros target' c' Ht Hc. apply wp_ret. split.
    + rewrite (created_symlinks _ _ _ _ _ _ _ _ _ _ _ (fi_db _ _ _ Hinv) Hcr), decide_True in Ht by done. by injection Ht.
    + exists now, s1. split_and!; [done|by apply same_state_db|]. by eapply created_tree.
  - intros K c' HK HKd. rewrite (created_kind _ _ _ _ _ _ _ _ _ _ _ Hcr), decide_True in HK by done.
    by injection HK as <-.
  - intros c' Hno. by rewrite (cr_row _ _ _ _ _ _ _ _ _ _ Hcr) in Hno.
  - intros e c' He _. right. by exists e.
Qed.

(** [link]: one more name of a file, and nothing else; a refusal changes nothing. The
    size in the reply is the stored one. *)
Theorem link_correct s ino p n :
  fs_inv s -> valid_ino ino -> valid_ino p -> ~ unlinked_open s ino ->
  Z.of_nat (size (t_dirents (tables (fs_db s)))) < U32_MAX ->
  wp (Dbfs.link ino p n)
    (fun attr s' => linked s s' ino p n attr /\
       tree_set (tables (fs_db s)) (tables (fs_db s')) p n (Some ino))
    (fun e s' => same_state s s' /\ (link_refused (tables (fs_db s)) ino p n e \/ db_failure e)) s.
Proof.
  intros Hinv Hi Hp Hno Hroom. apply wp_link_name; try done; [|by auto..].
  intros attr s' Hl. split; [done|]. pose proof Hl as [Hinv' _ _ _ (k & Hv & Heq) _].
  intros p' n'. eapply child_of_linked; [apply Hinv|apply Hinv'|done..].
Qed.
End nodes.

(** ** The size in the reply to a link *)

#[local] Existing Instance sample_world.
#[local] Existing Instance key_order.

(** While a write of a file is buffered, a link to the file answers with the size
    before the write, and [getattr] with the size after it. *)
Theorem link_stale_size :
  wp (Dbfs.write_fh 0 0 [x41] ;; linked ← Dbfs.link 2 1 [x62]; shown ← Dbfs.getattr 2;
      mret (fa_size linked, fa_size shown))
    (fun r _ => r = (0, 1)) (fun _ _ => False) sample_fs.
Proof. vm_compute. reflexivity. Qed.
