(* ===== verification/Specification.v ===== *)
(** * Specification: the file system implements its views

    The refinement theorems: each request is answered as the views allow, and so is
    each sequence of requests from a mount on; a crash at any point leaves a database
    that mounts again with the same tree. *)

From S2P Require Import Prelude Effects Model Chunk Arena OpenTable Sql DbData DbNames Tree.
From S2P Require Import NamesSpec NamesView DbVolume Fuse FuseInv FuseFlush FuseWrite FuseRead.
From S2P Require Import FuseOps FuseHandles FuseSpec FuseLifecycle FuseNames FuseResize FuseAttr.
From S2P Require Import DirStream Views Answers ViewOf Serve Refinement Isolation Samples Correctness.

Section specification.
Context `{World, HashOrder, !EngineLaws H}.
Implicit Types (s : Fs) (q : Request).

(** C1. Every request of the kernel, on any consistent state, is answered (without a panic,
    an unhandled error or a loop without end) as the abstract file system may answer it,
    and the state is consistent again and shows what the abstract one has become. *)
Theorem serve_refines s q :
  fs_inv s -> asked s q ->
  exists a s', serve q s = Ok a s' /\ fs_inv s' /\ answers (view s) q a (view s').
Proof.
  intros Hinv Hq. pose proof (serves_request s q Hinv Hq) as Hw. unfold serves, wp in Hw.
  destruct (serve q s) as [a s'|e s'| |]; [|done..]. destruct Hw. by exists a, s'.
Qed.

(** C2. Any sequence of requests served from a consistent state is a sequence that the
    abstract file system allows, with the same answers. *)
Theorem run_refines s log s' :
  fs_inv s -> runs s log s' -> fs_inv s' /\ allowed (view s) log (view s').
Proof. intros Hinv Hr. split; [by eapply runs_invariant|by apply runs_allowed]. Qed.

(** A crash after any sequence of requests leaves a consistent database: mounted anew,
    it has the same names, inodes and symlinks, no open handles, and the files without
    buffered writes as they were. *)
Theorem crash_keeps_tree s log s' budget :
  fs_inv s -> runs s log s' -> budget < 2 ^ 48 ->
  let V := view s' in
  let V' := view (remounted s' budget) in
  fs_inv (remounted s' budget) /\
  (forall p n, v_entry V' p n = v_entry V p n) /\ (forall i, v_kind V' i = v_kind V i) /\
  (forall i, v_target V' i = v_target V i) /\ (forall fh, v_handle V' fh = None) /\
  (forall i, is_Some (v_kind V i) -> clean_file s' i -> same_node V V' i).
Proof.
  intros Hinv Hr Hb V V'. pose proof (runs_invariant _ _ _ Hinv Hr) as Hinv'.
  split_and!; try done.
  { by apply remounted_inv. }
  { intros fh. simpl. unfold handle_ino, handles_get. simpl. rewrite vget_None; [done|]. unfold zlen. simpl. lia. }
  intros i Hi Hc. apply view_present in Hi as [r Hr']; [|done].
  destruct (file_size_row s' i r Hinv' Hr') as (f & size & Hf).
  pose proof (remounted_contents s' budget i size f (clean_file_stored s' i Hinv' Hc) Hf) as [A B].
  destruct Hf as [A' B']. split; [exact (eq_trans A (eq_sym A'))|].
  intros x Hx. exact (eq_trans (B x Hx) (eq_sym (B' x Hx))).
Qed.

(** C9. An open file is safe from everything but a write, a change of its size and the
    release of the handle: whatever else is served, be it the removal of all its names,
    the handle stays on it and its contents stay as they are. *)
Theorem open_file_keeps s log s' fh ino :
  fs_inv s -> runs s log s' -> handle_ino (fs_table s) fh = Some ino ->
  Forall (fun e => spares ino fh e.1) log ->
  handle_ino (fs_table s') fh = Some ino /\ kind_of (tables (fs_db s')) ino = kind_of (tables (fs_db s)) ino /\
  same_file (tables (fs_db s)) (fs_table s) (tables (fs_db s')) (fs_table s') ino.
Proof.
  intros Hinv Hr Hf Hsp. apply (allowed_keep ino fh (view s) log (view s')); [|done|by apply runs_allowed].
  split; [done|]. by apply (handle_file s fh).
Qed.

(** C10. The rows that requests leave have the types that the code reads them with: every inode
    row converts, with its own number, kind and size, so that no read fails on a stored value;
    every entry names an inode, and every chunk lies within a regular file. *)
Theorem rows_decode s log s' :
  fs_inv s -> runs s log s' ->
  let T := tables (fs_db s') in
  (forall ino r c, t_inodes T !! ino = Some r -> exists i, inode_from_row ino r c = Ok i c /\
     i_ino i = ino /\ kind_of T ino = Some (i_kind i) /\ i_size i = r_size r /\
     (i_kind i = RegularFile -> i_size i <= MAX_FILE_SIZE)) /\
  (forall k d, t_dirents T !! k = Some d -> 0 < k <= I64_MAX /\ is_Some (t_inodes T !! d_child d)) /\
  (forall key data, t_chunks T !! key = Some data -> chunk_row_ok T key data).
Proof.
  intros Hinv Hr. cbv zeta. pose proof (runs_invariant _ _ _ Hinv Hr) as [Hd Hn]%fi_db. split_and!.
  - intros ino r c Hrow. pose proof (dw_rows _ Hd _ _ Hrow) as Hok. pose proof (ino_ok_valid _ _ Hok) as Hv.
    destruct Hok as (_ & [K HK] & Hsz & Hreg). unfold inode_from_row.
    pose proof (proj1 (row_kind_from_i64 r K) HK) as ->. eexists. split; [reflexivity|]. simpl.
    rewrite (kind_of_row _ _ _ Hrow), u64_id, u64_id by (unfold valid_ino, I64_MAX in *; clia).
    split_and!; [done..|]. intros ->. by apply Hreg.
  - intros k d Hk. destruct (nw_entry _ Hn k d Hk) as (Hpos & _ & [K HK] & _). split; [done|].
    unfold kind_of in HK. destruct (t_inodes (tables (fs_db s')) !! d_child d); [by eexists|done].
  - exact (dw_chunks _ Hd).
Qed.
End specification.
