(* ===== verification/Recovery.v ===== *)
(** * Recovery: opening the database of a file system that has crashed

    A crash keeps the tables and loses the buffers. The database is then opened and
    mounted: its names are as they were, and so are the files that had no buffered
    writes; the inodes whose last name was removed while they were open are gone. *)

From S2P Require Import Prelude Effects Model Chunk Arena OpenTable Sql DbData DbNames Tree.
From S2P Require Import NamesSpec NamesView DbVolume Schema SchemaSpec StartUp Fuse FuseInv.
From S2P Require Import FuseFlush FuseWrite FuseRead FuseOps FuseHandles FuseSpec FuseLifecycle.
From S2P Require Import FuseNames FuseResize FuseAttr DirStream Views Answers ViewOf Serve.
From S2P Require Import Refinement Correctness.

Section recovery.
Context `{World, HashOrder, !EngineLaws H}.
Implicit Types (s : Fs) (d : Disk) (i : Z).

(** A file system mounted on a repaired database shows the names of the one before. *)
Record recovered s (V' : View) : Prop := {
  rc_entry : forall p m, v_entry V' p m = v_entry (view s) p m;
  rc_kind : forall i, i = 1 \/ named (view s) i -> v_kind V' i = v_kind (view s) i;
  rc_gone : forall i, i <> 1 -> ~ named (view s) i -> v_kind V' i = None;
  rc_target : forall i, named (view s) i -> v_target V' i = v_target (view s) i;
  rc_file : forall i, named (view s) i -> clean_file s i -> same_node (view s) V' i;
  rc_handle : forall fh, v_handle V' fh = None }.

Lemma repaired_recovered s t' n budget :
  fs_inv s -> repaired (tables (fs_db s)) t' ->
  recovered s (view (Dbfs.with_write_buffer (mkConn t' n) budget)).
Proof.
  intros Hinv Hrep. pose proof (fi_db _ _ _ Hinv) as Hwf. set (T := tables (fs_db s)) in *.
  assert (forall i, named (view s) i -> exists k e, t_dirents T !! k = Some e /\ d_child e = i) as Hnamed.
  { intros i. by rewrite view_named. }
  assert (forall i r, i = 1 \/ named (view s) i -> t_inodes T !! i = Some r ->
    exists r', t_inodes t' !! i = Some r' /\ row_shape r' = row_shape r) as Hrow.
  { intros i r Hi Hr. eapply repaired_row; [done..|]. destruct Hi; [by left|right; auto]. }
  assert (forall i, i = 1 \/ named (view s) i -> exists r, t_inodes T !! i = Some r) as Hsome.
  { intros i Hi. assert (is_Some (kind_of T i)) as [K HK].
    { destruct Hi as [->|Hi]; [rewrite nw_root by apply Hwf; by eexists|].
      destruct (Hnamed i Hi) as (k & d & Hk & <-). by apply (nw_entry _ (proj2 Hwf) k d Hk). }
    unfold kind_of in HK. destruct (t_inodes T !! i) as [r|]; [by exists r|done]. }
  constructor; simpl.
  - intros p m. unfold find_entry. by rewrite (rp_entries _ _ Hrep).
  - intros i Hi. destruct (Hsome i Hi) as [r Hr]. destruct (Hrow i r Hi Hr) as (r' & Hr' & Hsh).
    injection Hsh as Hk _ _. fold T. rewrite (kind_of_row _ _ _ Hr'), (kind_of_row _ _ _ Hr). unfold row_kind. by rewrite Hk.
  - intros i Hne Hno. unfold kind_of. erewrite repaired_gone; [done|exact Hwf|exact Hrep|done|].
    intros k d Hk Hc. apply Hno, view_named; [done|]. by exists k, d.
  - intros i Hi. destruct (Hsome i (or_intror Hi)) as [r Hr].
    destruct (Hrow i r (or_intror Hi) Hr) as (r' & Hr' & _). apply (rp_symlink _ _ Hrep). by eexists.
  - intros i Hi Hc. destruct (Hsome i (or_intror Hi)) as [r Hr].
    destruct (Hrow i r (or_intror Hi) Hr) as (r' & Hr' & Hsh). injection Hsh as _ Hs _.
    destruct (file_size_row s i r Hinv Hr) as (f & size & Hf).
    destruct (clean_file_stored s i Hinv Hc _ _ Hf) as [(r0 & Hr0 & Hs0) Hb].
    fold T in Hr0, Hb. rewrite Hr in Hr0. injection Hr0 as <-. destruct Hf as [Hsz Hf].
    split; simpl; unfold file_size, file_byte, entry_of; simpl.
    + rewrite Hr'. simpl. rewrite Hs, Hs0. exact (eq_sym Hsz).
    + intros x Hx. transitivity (f x); [|exact (eq_sym (Hf x Hx))]. rewrite <- (Hb x Hx). unfold stored_byte.
      rewrite (rp_chunk _ _ Hrep); [done|by eexists|by apply valid_chunk_pos].
  - intros fh. unfold handle_ino, handles_get. simpl. rewrite vget_None; [done|]. unfold zlen. simpl. lia.
Qed.

(** C3. After any sequence of requests and a crash, opening the database succeeds unless the
    engine fails, and the file system mounted on it is consistent and has the names,
    kinds and symlinks it had, the files without buffered writes as they were, no handles,
    and none of the inodes that had lost their names. After a failure it still opens. *)
Theorem recovery_correct s log s' d fk n budget :
  fs_inv s -> runs s log s' -> budget < 2 ^ 48 ->
  current_layout d -> tables_of d = Some (tables (fs_db s')) ->
  wp Db_open
    (fun _ c' => exists t', tables_of (dc_disk c') = Some t' /\
       let S := Dbfs.with_write_buffer (mkConn t' (dc_ticks c')) budget in
       fs_inv S /\ recovered s' (view S))
    (fun e c' => engine_error e /\
       exists t', opens (dc_disk c') t' /\ t_dirents t' = t_dirents (tables (fs_db s')))
    (mkDiskConn d fk n).
Proof.
  intros Hinv Hr Hb Hl Ht. pose proof (runs_invariant _ _ _ Hinv Hr) as Hinv'.
  eapply wp_mono; [apply (wp_open_disk d (tables (fs_db s')))|..]; simpl.
  - apply opens_current; [done..|]. apply wf_repairable, Hinv'.
  - intros _ c' (t' & _ & Ht' & Hrep & _). exists t'. split_and!; [done| |by apply repaired_recovered].
    apply inv_fresh; [apply Hrep|done].
  - intros e c' [[He|He] Ho]; [done|]. by destruct (current_not_refused d e Hl).
Qed.
End recovery.
