(* ===== verification/Cli.v ===== *)
(** * Cli: sizes on the command line (src/cli.rs)

    The arguments are parsed by clap; what the program does itself is the parser of the
    size of the write buffer. A Rust string is the list of its characters. *)

From stdpp Require Import strings.
From S2P Require Import Prelude.

(** ** Strings *)

(** A [char] by its number. *)
Abbreviation Str := (list Z).

Definition str (s : string) : Str := (fun a => Z.of_nat (Ascii.nat_of_ascii a)) <$> String.list_ascii_of_string s.

(** [char::is_whitespace] *)
Definition is_whitespace (c : Z) : bool :=
  ((9 <=? c) && (c <=? 13)) || (c =? 32) || (c =? 133) || (c =? 160) || (c =? 5760) ||
  ((8192 <=? c) && (c <=? 8202)) || (c =? 8232) || (c =? 8233) || (c =? 8239) || (c =? 8287) || (c =? 12288).

Fixpoint trim_start (text : Str) : Str :=
  match text with
  | c :: rest => if is_whitespace c then trim_start rest else text
  | [] => []
  end.

Definition trim_end (text : Str) : Str := reverse (trim_start (reverse text)).

Definition trim (text : Str) : Str := trim_end (trim_start text).

Definition to_ascii_uppercase (c : Z) : Z := if (97 <=? c) && (c <=? 122) then c - 32 else c.

Definition digit (c : Z) : option Z := if (48 <=? c) && (c <=? 57) then Some (c - 48) else None.

Fixpoint parse_digits (acc : Z) (text : Str) : option Z :=
  match text with
  | [] => Some acc
  | c :: rest =>
      d ← digit c;
      if U64_MAX <? acc * 10 + d then None else parse_digits (acc * 10 + d) rest
  end.

(** [str::parse::<usize>]: an optional plus sign and at least one digit. *)
Definition parse_usize (text : Str) : option Z :=
  match text with
  | [] => None
  | [c] => d ← digit c; Some d
  | c :: rest => if c =? 43 then parse_digits 0 rest else parse_digits 0 text
  end.

(** ** [MountConfig] *)

Record MountConfig := mkMountConfig {
  allow_other : bool;
  allow_root : bool;
  auto_unmount : bool;
  extra : list Str;
  write_buffer : option Z;
  kernel_cache : bool }.

Definition default_config : MountConfig := mkMountConfig false false false [] None false.

(** The digits and the power of two of the suffix. *)
Definition split_suffix (text : Str) : Str * Z :=
  match last text with
  | Some c =>
      if to_ascii_uppercase c =? 75 then (removelast text, 10)
      else if to_ascii_uppercase c =? 77 then (removelast text, 20)
      else if to_ascii_uppercase c =? 71 then (removelast text, 30)
      else (text, 0)
  | None => (text, 0)
  end.

Definition parse_size (text : Str) : Z + Str :=
  let text := trim text in
  let '(digits, shift) := split_suffix text in
  match parse_usize digits with
  | None => inr (str "`" ++ text ++ str "` is not a size such as 65536, 512K, 8M or 1G")
  | Some value =>
      let bytes := value * 2 ^ shift in
      if U64_MAX <? bytes then inr (str "`" ++ text ++ str "` is too large")
      else if bytes <? 64 * 1024 then inr (str "`" ++ text ++ str "` is below the 64K minimum (one chunk)")
      else inl bytes
  end.

(** ** What is accepted *)

(** The number that a list of digits stands for. *)
Definition number (ds : list Z) : Z := foldl (fun a d => a * 10 + d) 0 ds.

Definition digits_of (ds : list Z) : Str := (fun d => d + 48) <$> ds.

(** A suffix and its power of two. *)
Inductive suffix : Str -> Z -> Prop :=
  | no_suffix : suffix [] 0
  | suffix_K c : c = 75 \/ c = 107 -> suffix [c] 10
  | suffix_M c : c = 77 \/ c = 109 -> suffix [c] 20
  | suffix_G c : c = 71 \/ c = 103 -> suffix [c] 30.

(** [text] writes the size [n]: blanks, an optional plus sign, digits, a suffix, blanks. *)
Definition writes_size (text : Str) (n : Z) : Prop :=
  exists blank1 sign ds suf shift blank2,
    text = blank1 ++ sign ++ digits_of ds ++ suf ++ blank2 /\
    Forall (fun c => is_whitespace c = true) blank1 /\ Forall (fun c => is_whitespace c = true) blank2 /\
    (sign = [] \/ sign = str "+") /\ ds <> [] /\ Forall (fun d => 0 <= d <= 9) ds /\
    suffix suf shift /\ n = number ds * 2 ^ shift.

Lemma digit_Some c d : digit c = Some d <-> c = d + 48 /\ 0 <= d <= 9.
Proof. unfold digit. case_match; split; intros; simplify_eq; [lia|f_equal; lia|lia]. Qed.

Lemma foldl_grows ds acc : 0 <= acc -> Forall (fun d => 0 <= d <= 9) ds ->
  acc <= foldl (fun a d => a * 10 + d) acc ds.
Proof.
  revert acc. induction ds as [|d ds IH]; intros acc Ha; simpl; [lia|].
  intros [Hd Hds]%Forall_cons. specialize (IH (acc * 10 + d) ltac:(lia) Hds). lia.
Qed.

Lemma parse_digits_spec acc text n : 0 <= acc <= U64_MAX ->
  parse_digits acc text = Some n <->
  exists ds, text = digits_of ds /\ Forall (fun d => 0 <= d <= 9) ds /\
    n = foldl (fun a d => a * 10 + d) acc ds /\ n <= U64_MAX.
Proof.
  revert acc. induction text as [|c text IH]; intros acc Ha; simpl.
  - split.
    + intros [= <-]. exists []. split_and!; [done..|lia].
    + intros ([|d ds] & Ht & _ & -> & _); done.
  - split.
    + intros (d & [-> Hd]%digit_Some & Hn)%bind_Some. case_match eqn:Hlt; [done|].
      apply IH in Hn as (ds & -> & Hds & -> & Hle); [|lia]. exists (d :: ds).
      split_and!; [done|by constructor|done|done].
    + intros ([|d ds] & [= -> ->] & Hds & -> & Hle). apply Forall_cons in Hds as [Hd Hds].
      apply bind_Some. exists d. split; [apply digit_Some; lia|]. simpl in Hle.
      pose proof (foldl_grows ds (acc * 10 + d) ltac:(lia) Hds). case_match eqn:Hlt; [lia|].
      apply IH; [lia|]. by exists ds.
Qed.

Lemma parse_usize_spec text n :
  parse_usize text = Some n <->
  exists sign ds, text = sign ++ digits_of ds /\ (sign = [] \/ sign = str "+") /\ ds <> [] /\
    Forall (fun d => 0 <= d <= 9) ds /\ n = number ds /\ n <= U64_MAX.
Proof.
  assert (0 <= 0 <= U64_MAX) as H0 by (unfold U64_MAX; lia).
  assert (str "+" = [43]) as Hplus by done. rewrite Hplus.
  destruct text as [|c [|c' rest]].
  - split; [done|]. intros ([|x sign] & [|d ds] & Ht & _ & Hne & _); done.
  - simpl. split.
    + intros (d & [-> Hd]%digit_Some & [= <-])%bind_Some. exists [], [d].
      split_and!; [done|by left|done|by constructor| |unfold U64_MAX; lia]. unfold number. simpl. lia.
    + intros (sign & ds & Ht & [-> | ->] & Hne & Hds & -> & _).
      * destruct ds as [|d [|]]; simplify_eq/=. apply Forall_cons in Hds as [Hd _].
        apply bind_Some. exists d. split; [by apply digit_Some|]. done.
      * by destruct ds.
  - unfold parse_usize. set (text := c :: c' :: rest). destruct (Z.eqb_spec c 43) as [Hc|Hc].
    + rewrite parse_digits_spec by done. split.
      * intros (ds & Ht & Hds & -> & Hle). exists [43], ds.
        split_and!; [unfold text; by rewrite Hc, Ht|by right| |done..]. intros ->. by destruct rest.
      * intros (sign & ds & Ht & [-> | ->] & Hne & Hds & -> & Hle).
        { destruct ds as [|d ds]; [done|]. unfold text in Ht. injection Ht as -> _.
          apply Forall_cons in Hds as [Hd _]. lia. }
        exists ds. injection Ht as _ Ht. by split_and!.
    + rewrite parse_digits_spec by done. split.
      * intros (ds & Ht & Hds & -> & Hle). exists [], ds. split_and!; [done|by left| |done..]. by intros ->.
      * intros (sign & ds & Ht & [-> | ->] & Hne & Hds & -> & Hle); [by exists ds|].
        unfold text in Ht. by injection Ht.
Qed.

(** *** Suffixes *)

Lemma split_suffix_parts text digits shift :
  split_suffix text = (digits, shift) -> exists suf, text = digits ++ suf /\ suffix suf shift.
Proof.
  unfold split_suffix. destruct (last text) as [c|] eqn:Hl.
  2:{ intros [= <- <-]. exists []. rewrite app_nil_r. split; [done|constructor]. }
  apply last_Some in Hl as [l ->]. rewrite removelast_last. unfold to_ascii_uppercase.
  intros Heq. repeat case_match; simplify_eq;
    first [exists [c]; split; [done|constructor; lia]|exists []; rewrite app_nil_r; split; [done|constructor]].
Qed.

Lemma split_suffix_join digits c suf shift :
  last digits = Some c -> 48 <= c <= 57 -> suffix suf shift -> split_suffix (digits ++ suf) = (digits, shift).
Proof.
  intros Hl Hc Hs. unfold split_suffix, to_ascii_uppercase. destruct Hs as [|x Hx|x Hx|x Hx].
  - rewrite app_nil_r, Hl. repeat case_match; lia || done.
  - rewrite last_snoc, removelast_last. destruct Hx as [-> | ->]; done.
  - rewrite last_snoc, removelast_last. destruct Hx as [-> | ->]; done.
  - rewrite last_snoc, removelast_last. destruct Hx as [-> | ->]; done.
Qed.

(** *** Blanks *)

Abbreviation blank := (fun c => is_whitespace c = true).

Lemma trim_start_parts text : exists b, text = b ++ trim_start text /\ Forall blank b.
Proof.
  induction text as [|c text [b [Ht Hb]]]; simpl; [by exists []|].
  case_match eqn:Hw; [|by exists []]. exists (c :: b). split; [simpl; by f_equal|by constructor].
Qed.

Lemma trim_start_blank b c text :
  Forall blank b -> is_whitespace c = false -> trim_start (b ++ c :: text) = c :: text.
Proof. intros Hb Hc. induction Hb as [|x b Hx _ IH]; simpl; [by rewrite Hc|by rewrite Hx]. Qed.

Lemma trim_parts text :
  exists b1 b2, text = b1 ++ trim text ++ b2 /\ Forall blank b1 /\ Forall blank b2.
Proof.
  destruct (trim_start_parts text) as (b1 & Ht & Hb1).
  destruct (trim_start_parts (reverse (trim_start text))) as (b2 & Ht2 & Hb2).
  exists b1, (reverse b2). split_and!; [|done|by apply Forall_reverse].
  rewrite Ht at 1. f_equal. unfold trim, trim_end.
  apply (f_equal reverse) in Ht2. rewrite reverse_involutive in Ht2. rewrite Ht2 at 1. by rewrite reverse_app.
Qed.

Lemma trim_between b1 b2 text c1 c2 :
  Forall blank b1 -> Forall blank b2 -> head text = Some c1 -> last text = Some c2 ->
  is_whitespace c1 = false -> is_whitespace c2 = false -> trim (b1 ++ text ++ b2) = text.
Proof.
  intros Hb1 Hb2 Hh Hl Hc1 Hc2. destruct text as [|x text]; [done|]. injection Hh as ->.
  unfold trim. change ((c1 :: text) ++ b2) with (c1 :: (text ++ b2)). rewrite trim_start_blank by done.
  apply last_Some in Hl as [l Hl]. unfold trim_end. change (c1 :: (text ++ b2)) with ((c1 :: text) ++ b2).
  rewrite Hl, <- app_assoc, !reverse_app, reverse_singleton, <- (app_assoc _ [c2]). simpl.
  rewrite trim_start_blank by (done || by apply Forall_reverse).
  by rewrite reverse_cons, reverse_involutive.
Qed.

Lemma last_digits ds : ds <> [] -> Forall (fun d => 0 <= d <= 9) ds ->
  exists c, last (digits_of ds) = Some c /\ 48 <= c <= 57.
Proof.
  intros Hne Hds. unfold digits_of. rewrite fmap_last. destruct (last ds) as [d|] eqn:Hl.
  - exists (d + 48). split; [done|]. apply last_Some in Hl as [l ->]. apply Forall_app in Hds as [_ [Hd _]%Forall_cons]. lia.
  - by apply last_None in Hl.
Qed.

Lemma digit_not_blank c : 43 <= c <= 122 -> is_whitespace c = false.
Proof. unfold is_whitespace. lia. Qed.

(** C36. The sizes that are accepted are exactly the decimal numbers, with blanks around them
    and a suffix for a power of 1024, that are at least one chunk and fit a usize, and each
    is taken for the number of bytes it writes; anything else gives a message. *)
Theorem parse_size_correct text n :
  parse_size text = inl n <-> writes_size text n /\ 64 * 1024 <= n <= U64_MAX.
Proof.
  unfold parse_size. split.
  - destruct (split_suffix (trim text)) as [digits shift] eqn:Hs.
    destruct (parse_usize digits) as [v|] eqn:Hp; [|done]. repeat case_match; [done..|]. intros [= <-].
    split; [|lia]. apply split_suffix_parts in Hs as (suf & Ht & Hs).
    apply parse_usize_spec in Hp as (sign & ds & -> & Hsign & Hne & Hds & -> & _).
    destruct (trim_parts text) as (b1 & b2 & Htext & Hb1 & Hb2).
    exists b1, sign, ds, suf, shift, b2. split_and!; try done. rewrite Htext at 1. rewrite Ht.
    by rewrite <- !app_assoc.
  - intros ((b1 & sign & ds & suf & shift & b2 & -> & Hb1 & Hb2 & Hsign & Hne & Hds & Hs & ->) & Hmin & Hmax).
    destruct (last_digits ds Hne Hds) as (c2 & Hl2 & Hc2).
    assert (0 <= number ds <= number ds * 2 ^ shift) as Hn.
    { pose proof (foldl_grows ds 0 ltac:(lia) Hds). unfold number. destruct Hs; lia. }
    assert (exists c1, head (sign ++ digits_of ds ++ suf) = Some c1 /\ 43 <= c1 <= 122) as (c1 & Hc1 & Hr1).
    { destruct Hsign as [-> | ->]; [|exists 43; split; [done|lia]].
      destruct ds as [|d ds]; [done|]. apply Forall_cons in Hds as [Hd _]. exists (d + 48). split; [done|lia]. }
    assert (last (sign ++ digits_of ds) = Some c2) as Hlast by (rewrite last_app, Hl2; done).
    assert (exists c3, last (sign ++ digits_of ds ++ suf) = Some c3 /\ 43 <= c3 <= 122) as (c3 & Hc3 & Hr3).
    { rewrite app_assoc, last_app.
      destruct Hs; simpl; [exists c2; split; [done|lia]|eexists; split; [done|lia]..]. }
    replace (b1 ++ sign ++ digits_of ds ++ suf ++ b2) with (b1 ++ (sign ++ digits_of ds ++ suf) ++ b2)
      by (by rewrite <- !app_assoc).
    rewrite (trim_between b1 b2 _ c1 c3) by (done || by apply digit_not_blank).
    rewrite app_assoc, (split_suffix_join _ c2 suf shift) by done.
    assert (parse_usize (sign ++ digits_of ds) = Some (number ds)) as ->.
    { apply parse_usize_spec. exists sign, ds. split_and!; try done. lia. }
    cbv zeta. repeat case_match; [lia..|done].
Qed.

Lemma parse_size_correct_witness : parse_size (str " +512K ") = inl (512 * 1024).
Proof.
  apply (parse_size_correct (str " +512K ") (512 * 1024)). split; [|unfold U64_MAX; lia].
  exists (str " "), (str "+"), [5; 1; 2], (str "K"), 10, (str " ").
  split_and!; [done|by repeat constructor|by repeat constructor|by right|done|by repeat constructor| |done].
  constructor. by left.
Defined.
