(* ===== verification/Run.v ===== *)
(** * Run: mount options and the life of a mount (src/run.rs)

    The options of the command line become the options of the FUSE session; the main
    thread waits for the session to end or for a signal, on which it flushes and unmounts.
    The session, the threads and the signals belong to the system: they are the steps of a
    transition system, and the main thread's part of it is the code's. *)

From stdpp Require Import strings pretty.
From S2P Require Import Prelude Effects Model Chunk Arena OpenTable Sql DbData DbNames Tree.
From S2P Require Import NamesSpec DbVolume Schema Cli Fuse FuseInv FuseOps Views Answers Serve.
From S2P Require Import Refinement Sections.

(** ** Errors *)

Inductive ErrorKind := PermissionDenied | OtherErrorKind (code : Z).

#[global] Instance ErrorKind_eq_dec : EqDecision ErrorKind.
Proof. solve_decision. Defined.

(** [io::Error]: its kind and its text. *)
Record IoFailure := mkIoFailure { io_kind : ErrorKind; io_text : Str }.

Inductive RunError :=
  | RunDb (error : DbError)
  | RunMount (error : IoFailure)
  | RunSession (error : IoFailure)
  | RunShutdownFlush (errno : Z)
  | RunMountOptions (message : Str).

(** ** Mount options *)

Inductive MountOption :=
  | FSName (name : Str) | Subtype (name : Str) | CUSTOM (text : Str)
  | AllowOther | AllowRoot | AutoUnmount | DefaultPermissions
  | Dev | NoDev | Suid | NoSuid | RO | RW | Exec | NoExec | Atime | NoAtime | DirSync | Sync | Async.

#[global] Instance MountOption_eq_dec : EqDecision MountOption.
Proof. solve_decision. Defined.

Definition mount_options : list MountOption := [FSName (str "dbfs"); DefaultPermissions].

(** [str::split] at a character: one piece more than there are separators. *)
Fixpoint split_at (sep : Z) (text : Str) : list Str :=
  match text with
  | [] => [[]]
  | c :: rest =>
      match split_at sep rest with
      | [] => [[]]
      | piece :: pieces => if c =? sep then [] :: piece :: pieces else (c :: piece) :: pieces
      end
  end.

(** [str::split_once] *)
Fixpoint split_once (sep : Z) (text : Str) : option (Str * Str) :=
  match text with
  | [] => None
  | c :: rest =>
      if c =? sep then Some ([], rest)
      else '(before, after) ← split_once sep rest; Some (c :: before, after)
  end.

Fixpoint starts_with (needle text : Str) : bool :=
  match needle, text with
  | [], _ => true
  | _, [] => false
  | x :: needle, y :: text => (x =? y) && starts_with needle text
  end.

(** [str::contains] *)
Fixpoint contains (needle text : Str) : bool :=
  starts_with needle text || match text with [] => false | _ :: rest => contains needle rest end.

Definition is_text (text : Str) (name : string) : bool := bool_decide (text = str name).

(** The names that stand for an option. *)
Definition named_options : list (string * MountOption) :=
  [("ro", RO); ("rw", RW); ("allow_other", AllowOther); ("allow_root", AllowRoot);
   ("auto_unmount", AutoUnmount); ("default_permissions", DefaultPermissions); ("atime", Atime);
   ("noatime", NoAtime); ("suid", Suid); ("nosuid", NoSuid); ("dev", Dev); ("nodev", NoDev);
   ("exec", Exec); ("noexec", NoExec); ("dirsync", DirSync); ("sync", Sync); ("async", Async)]%string.

Definition parse_option (token : Str) : MountOption + RunError :=
  let token := trim token in
  if bool_decide (token = []) then inr (RunMountOptions (str "empty mount option"))
  else if contains (str "default_permissions") token && negb (is_text token "default_permissions") then
    inr (RunMountOptions (str "'" ++ token ++
      str "' would disable kernel permission checks; default_permissions is always enabled"))
  else
    match find (fun e => is_text token e.1) named_options with
    | Some (_, option) => inl option
    | None =>
        match split_once 61 token with
        | Some (key, value) =>
            if (is_text key "fsname" || is_text key "subtype") && bool_decide (value = []) then
              inr (RunMountOptions (str "'" ++ token ++ str "' needs a value"))
            else if is_text key "fsname" then inl (FSName value)
            else if is_text key "subtype" then inl (Subtype value)
            else inl (CUSTOM token)
        | None => inl (CUSTOM token)
        end
    end.

(** The loop over the tokens, up to the first that is refused. *)
Fixpoint parse_tokens (tokens : list Str) : list MountOption + RunError :=
  match tokens with
  | [] => inl []
  | token :: rest =>
      match parse_option token with
      | inr e => inr e
      | inl option =>
          match parse_tokens rest with
          | inl options => inl (option :: options)
          | inr e => inr e
          end
      end
  end.

Definition flag (set : bool) (option : MountOption) : list MountOption := if set then [option] else [].

Definition requested_options (config : MountConfig) : list MountOption + RunError :=
  match parse_tokens (concat (split_at 44 <$> extra config)) with
  | inl options =>
      inl (flag (allow_other config) AllowOther ++ flag (allow_root config) AllowRoot ++
           flag (auto_unmount config) AutoUnmount ++ options)
  | inr e => inr e
  end.

Definition is_fsname (o : MountOption) : bool := match o with FSName _ => true | _ => false end.
Definition is_subtype (o : MountOption) : bool := match o with Subtype _ => true | _ => false end.
Definition has (o : MountOption) (options : list MountOption) : bool := bool_decide (o ∈ options).

Definition add_option (options : list MountOption) (o : MountOption) : list MountOption :=
  match o with
  | FSName _ => filter (fun existing => is_fsname existing = false) options ++ [o]
  | Subtype _ => filter (fun existing => is_subtype existing = false) options ++ [o]
  | _ => if negb (has o options) then options ++ [o] else options
  end.

Definition mount_options_for (config : MountConfig) : list MountOption + RunError :=
  match requested_options config with
  | inr e => inr e
  | inl requested =>
      let options := fold_left add_option requested mount_options in
      let other := has AllowOther options in
      let root := has AllowRoot options in
      if other && root then
        inr (RunMountOptions (str "--allow-other and --allow-root cannot be used together"))
      else if has AutoUnmount options && negb (other || root) then
        inr (RunMountOptions (str "auto_unmount requires --allow-other or --allow-root (fusermount3 requests allow_other for auto-unmount)"))
      else inl options
  end.

Definition ALLOW_OTHER_HINT : Str :=
  str "hint: allow_other requires 'user_allow_other' in /etc/fuse.conf".

Definition mount_failure (error : IoFailure) (options : list MountOption) (euid : Z) : RunError :=
  let allow_other_refused :=
    negb (euid =? 0) && has AllowOther options && bool_decide (io_kind error = PermissionDenied) in
  if allow_other_refused
  then RunMount (mkIoFailure (io_kind error) (trim_end (io_text error) ++ [10] ++ ALLOW_OTHER_HINT))
  else RunMount error.

(** ** Messages *)

Section display.
(** The derived [Debug] of [DbError], and the system's text for an error number. *)
Variable db_error_debug : DbError -> Str.
Variable os_error_text : Z -> Str.

Definition RunError_fmt (e : RunError) : Str :=
  match e with
  | RunDb (UnsupportedSchema version) =>
      str "database schema version " ++ str (pretty version) ++ str " is newer than this dbfs supports (" ++
      str (pretty SCHEMA_VERSION) ++ str "); upgrade dbfs"
  | RunDb error => str "database error: " ++ db_error_debug error
  | RunMount error => str "mount error: " ++ trim_end (io_text error)
  | RunMountOptions message => str "invalid mount options: " ++ message
  | RunSession error => str "filesystem session error: " ++ io_text error
  | RunShutdownFlush errno =>
      str "failed to flush unsaved data on shutdown; recent writes may be lost: " ++ os_error_text errno
  end.
End display.

(** ** From the command line to the mount *)

Section mounting.
Context `{World, HashOrder}.

(** A new connection to a database file. *)
Definition new_connection (d : Disk) (n : nat) : DiskConn := mkDiskConn d 0 n.

(** The file system on an opened database; [Dbfs] has just been made, so nothing else
    refers to its state. *)
Definition mounted_fs (config : MountConfig) (c : DiskConn) (t : Tables) : option Fs :=
  Dbfs.with_kernel_cache
    (Dbfs.with_write_buffer (mkConn t (dc_ticks c)) (default DEFAULT_WRITE_BUFFER (write_buffer config)))
    true (kernel_cache config).

(** The result is [None] for [Ok(())], next to what is left of the database file. *)
Definition run_with_mounter (config : MountConfig) (d : Disk) (n : nat)
    (mounter : Fs -> list MountOption -> option RunError * Disk) : option (option RunError * Disk) :=
  match mount_options_for config with
  | inr e => Some (Some e, d)
  | inl options =>
      match Db_open (new_connection d n) with
      | Ok _ c =>
          t ← tables_of (dc_disk c);
          fs ← mounted_fs config c t;
          Some (mounter fs options)
      | Err e c => Some (Some (RunDb e), dc_disk c)
      | Panic | OutOfFuel => None
      end
  end.

(** ** The life of a mount *)

Inductive Event :=
  | Shutdown
  | SessionEnded (result : option IoFailure).    (* None is Ok(()) *)

(** How far a thread is with its flush: it takes the lock of the table, goes through the
    slots, lets go of the lock, syncs the database and records the outcome. *)
Inductive Flushing :=
  | FlushStart
  | FlushingSlots (todo : list Slot) (first_error : option Z)
  | FlushedSlots (first_error : option Z)
  | Synced (result : option Z)
  | Recorded.

Definition holds_lock (f : Flushing) : bool := match f with FlushingSlots _ _ => true | _ => false end.

Definition flush_sync (first_error : option Z) : FsM (option Z) :=
  match_result (Shared.db sync_durable)
    (fun _ => mret first_error)
    (fun e => mret (Some (default e first_error))).

Inductive flush_step : Flushing -> Fs -> Flushing -> Fs -> Prop :=
  | flush_lock s : flush_step FlushStart s (FlushingSlots (live_slots (inodes (fs_table s))) None) s
  | flush_one_slot s slot todo first_error first_error' s' :
      Shared.flush_one first_error slot s = Ok first_error' s' ->
      flush_step (FlushingSlots (slot :: todo) first_error) s (FlushingSlots todo first_error') s'
  | flush_unlock s first_error : flush_step (FlushingSlots [] first_error) s (FlushedSlots first_error) s
  | flush_synced s first_error result s' :
      flush_sync first_error s = Ok result s' -> flush_step (FlushedSlots first_error) s (Synced result) s'
  | flush_record s result s' :
      Shared.record_flush result s = Ok tt s' -> flush_step (Synced result) s Recorded s'.

(** The main thread: in [events.recv()], in [flush_for_shutdown] and then [unmount], in the
    loop of [shut_down], or done. *)
Inductive Phase := Waiting | ShuttingDown (f : Flushing) | Draining | Exited (result : option RunError).

(** The thread of the session: between requests, with a request that arrived at a state, in
    [destroy], or ended. *)
Inductive SessionPhase :=
  | Serving
  | Working (arrival : Fs) (q : Request) (t : Task)
  | Destroying (f : Flushing)
  | Ended.

(** Where the threads are with their flushes. *)
Definition main_flushing (p : Phase) : Flushing :=
  match p with ShuttingDown f => f | Draining => Recorded | _ => FlushStart end.
Definition session_flushing (p : SessionPhase) : Flushing :=
  match p with Destroying f => f | Ended => Recorded | _ => FlushStart end.

(** The end of [mount_dbfs]. *)
Definition finish (session_result : option IoFailure) (s : Fs) : option RunError :=
  match session_result with
  | Some e => Some (RunSession e)
  | None => RunShutdownFlush <$> fs_last_flush s
  end.

(** The first event that the main thread takes. *)
Definition first_event (event : Event) (s : Fs) : outcome Fs Z Phase :=
  match event with
  | SessionEnded result => Ok (Exited (finish result s)) s
  | Shutdown => (Shared.refuse_writes ;; mret (ShuttingDown FlushStart)) s
  end.

(** [unmounter.unmount()?]: the error of the flush is dropped, this one is not. *)
Definition after_unmount (unmount : option IoFailure) (s : Fs) : Phase :=
  match unmount with Some e => Exited (finish (Some e) s) | None => Draining end.

(** One turn of the loop of [shut_down]. *)
Definition drain_event (event : Event) (s : Fs) : Phase :=
  match event with
  | SessionEnded result => Exited (finish result s)
  | Shutdown => Draining
  end.

Record Mount := mkMount {
  m_fs : Fs;
  m_phase : Phase;
  m_session : SessionPhase;
  m_events : list Event;                     (* the channel *)
  m_sent : list Exchange }.                  (* what was answered, the last one at the end *)

Definition started (s : Fs) : Mount := mkMount s Waiting Serving [] [].

(** The other thread does not have the lock. *)
Definition free_of_main (p : Phase) : Prop := holds_lock (main_flushing p) = false.
Definition free_of_session (p : SessionPhase) : Prop := holds_lock (session_flushing p) = false.

(** The steps of the main thread; [unmount] and the end of the grace period are the
    system's. A message that has arrived is taken before the time runs out. *)
Inductive main_step : Mount -> Mount -> Prop :=
  | main_first s session event events sent phase s' :
      (event = Shutdown -> free_of_session session) ->
      first_event event s = Ok phase s' ->
      main_step (mkMount s Waiting session (event :: events) sent) (mkMount s' phase session events sent)
  | main_flush s session events sent f f' s' :
      (holds_lock f' = true -> free_of_session session) ->
      flush_step f s f' s' ->
      main_step (mkMount s (ShuttingDown f) session events sent) (mkMount s' (ShuttingDown f') session events sent)
  | main_unmount s session events sent unmount :
      main_step (mkMount s (ShuttingDown Recorded) session events sent)
        (mkMount s (after_unmount unmount s) session events sent)
  | main_drain s session event events sent :
      main_step (mkMount s Draining session (event :: events) sent)
        (mkMount s (drain_event event s) session events sent)
  | main_timeout s session sent :
      main_step (mkMount s Draining session [] sent) (mkMount s (Exited (finish None s)) session [] sent).

(** The flush in [destroy]. *)
Inductive session_flush : Mount -> Mount -> Prop :=
  | session_flush_step s phase events sent f f' s' :
      (holds_lock f' = true -> free_of_main phase) ->
      flush_step f s f' s' ->
      session_flush (mkMount s phase (Destroying f) events sent) (mkMount s' phase (Destroying f') events sent).

(** The steps of the session, the signals and the main thread, in any order. *)
Inductive step : Mount -> Mount -> Prop :=
  | step_arrival s phase events sent q :
      q <> QShutdown ->
      step (mkMount s phase Serving events sent) (mkMount s phase (Working s q (task q)) events sent)
  | step_section s phase events sent s0 q locked m t s' :
      (locked = true -> free_of_main phase) -> asked s q -> m s = Ok t s' ->
      step (mkMount s phase (Working s0 q (Next locked m)) events sent) (mkMount s' phase (Working s0 q t) events sent)
  | step_answer s phase events sent s0 q a :
      step (mkMount s phase (Working s0 q (Answered a)) events sent)
        (mkMount s phase Serving events (sent ++ [mkExchange q a s0 s]))
  | step_destroy s phase events sent :
      step (mkMount s phase Serving events sent) (mkMount s phase (Destroying FlushStart) events sent)
  | step_session_flush m m' : session_flush m m' -> step m m'
  | step_session_end s phase events sent result :
      step (mkMount s phase (Destroying Recorded) events sent)
        (mkMount s phase Ended (events ++ [SessionEnded result]) sent)
  | step_signal s phase session events sent :
      step (mkMount s phase session events sent) (mkMount s phase session (events ++ [Shutdown]) sent)
  | step_main m m' : main_step m m' -> step m m'.

(** What the process goes through, up to its exit. *)
Inductive reaches : Mount -> Mount -> Prop :=
  | reaches_refl m : reaches m m
  | reaches_step m m1 m2 : reaches m m1 -> (forall r, m_phase m1 <> Exited r) -> step m1 m2 -> reaches m m2.

(** ** [mount_dbfs] *)

(** What it returns for [fs], [None] for [Ok(())], and what is left of it. When [Session::new]
    fails nothing has been served. A failure after it, of the signal mask or of one of the two
    threads, drops the session, which runs [destroy]. Otherwise the threads run. *)
Inductive mount_dbfs (options : list MountOption) (fs : Fs) : option RunError -> Fs -> Prop :=
  | mount_no_session e euid : mount_dbfs options fs (Some (mount_failure e options euid)) fs
  | mount_no_threads e u fs' :
      Handler.destroy fs = Ok u fs' -> mount_dbfs options fs (Some (RunSession e)) fs'
  | mount_exits m result :
      reaches (started fs) m -> m_phase m = Exited result -> mount_dbfs options fs result (m_fs m).
End mounting.
