(* ===== verification/RunSpec.v ===== *)
(** * RunSpec: options, start and exit of a mount

    What the options of a mount can be; that a mount begins with a consistent file system;
    and that a process that reports success has put every file in its database. *)

From stdpp Require Import strings.
From S2P Require Import Prelude Effects Model Chunk Arena OpenTable Sql DbData DbNames Tree.
From S2P Require Import NamesSpec NamesView DbVolume Schema SchemaSpec StartUp Cli Fuse FuseInv.
From S2P Require Import FuseFlush FuseWrite FuseRead FuseOps FuseHandles FuseSpec FuseLifecycle.
From S2P Require Import FuseNames FuseResize FuseAttr DirStream Views Answers ViewOf Serve.
From S2P Require Import Sections Refinement SectionsSpec Closing Correctness Recovery Run.

(** ** Options *)

(** Neither of the two options that take the place of an earlier one. *)
Definition plain (o : MountOption) : Prop := is_fsname o = false /\ is_subtype o = false.

Definition fsname_of (o : MountOption) : option Str := match o with FSName n => Some n | _ => None end.
Definition subtype_of (o : MountOption) : option Str := match o with Subtype n => Some n | _ => None end.

(** The options that a list of requests comes to. *)
Record comes_to (requested options : list MountOption) : Prop := {
  ct_nodup : NoDup options;
  ct_plain : forall o, plain o -> o ∈ options <-> o = DefaultPermissions \/ o ∈ requested;
  ct_fsname : forall n, FSName n ∈ options <-> n = default (str "dbfs") (last (omap fsname_of requested));
  ct_subtype : forall n, Subtype n ∈ options <-> last (omap subtype_of requested) = Some n }.

Lemma has_spec o options : has o options = true <-> o ∈ options.
Proof. apply bool_decide_eq_true. Qed.

Lemma comes_to_start : comes_to [] mount_options.
Proof.
  constructor; unfold mount_options.
  - apply NoDup_cons. split; [|apply NoDup_singleton]. intros Hin%list_elem_of_singleton. done.
  - intros o [Hf _]. rewrite !elem_of_cons, elem_of_nil. split; [intros [->|[->|]]; [done|by left|done]|].
    intros [->|[]]. by right; left.
  - intros n. rewrite !elem_of_cons, elem_of_nil. simpl. split; [by intros [[= ->]|[|]]|intros ->; by left].
  - intros n. rewrite !elem_of_cons, elem_of_nil. simpl. split; [by intros [|[|]]|done].
Qed.

Lemma last_omap_snoc {A B} (f : A -> option B) l x :
  last (omap f (l ++ [x])) = match f x with Some y => Some y | None => last (omap f l) end.
Proof.
  rewrite omap_app. simpl. destruct (f x) as [y|]; [by rewrite last_snoc|by rewrite app_nil_r].
Qed.

(** An option of the kind [P] in place of those that are there. *)
Lemma comes_to_replace (P : MountOption -> bool) options o :
  NoDup options -> P o = true ->
  let options' := filter (fun existing => P existing = false) options ++ [o] in
  NoDup options' /\ (forall o', o' ∈ options' <-> (P o' = false /\ o' ∈ options) \/ o' = o).
Proof.
  intros Hnd Ho options'. assert (forall o', o' ∈ options' <-> (P o' = false /\ o' ∈ options) \/ o' = o) as Hin.
  { intros o'. unfold options'. by rewrite elem_of_app, list_elem_of_filter, list_elem_of_singleton. }
  split; [|done]. unfold options'. apply NoDup_app. split_and!; [by apply NoDup_filter| |apply NoDup_singleton].
  intros o' [Hf _]%list_elem_of_filter ->%list_elem_of_singleton. congruence.
Qed.

Lemma comes_to_next requested options o :
  comes_to requested options -> comes_to (requested ++ [o]) (add_option options o).
Proof.
  intros [Hnd Hp Hf Hs].
  assert (forall o', o' ∈ requested ++ [o] <-> o' ∈ requested \/ o' = o) as Hreq
    by (intros; by rewrite elem_of_app, list_elem_of_singleton).
  destruct (is_fsname o) eqn:Hfo; [|destruct (is_subtype o) eqn:Hso].
  - destruct o as [n0| | | | | | | | | | | | | | | | | | |]; try done. simpl.
    destruct (comes_to_replace is_fsname options (FSName n0) Hnd eq_refl) as [Hnd' Hin].
    constructor; [done|..].
    + intros o [Hpf Hps]. rewrite Hin, Hreq, (Hp o) by done. naive_solver.
    + intros n. rewrite Hin, last_omap_snoc. simpl. naive_solver.
    + intros n. rewrite Hin, last_omap_snoc. simpl. rewrite <- Hs. naive_solver.
  - destruct o as [|n0| | | | | | | | | | | | | | | | | |]; try done. simpl.
    destruct (comes_to_replace is_subtype options (Subtype n0) Hnd eq_refl) as [Hnd' Hin].
    constructor; [done|..].
    + intros o [Hpf Hps]. rewrite Hin, Hreq, (Hp o) by done. naive_solver.
    + intros n. rewrite Hin, last_omap_snoc. simpl. rewrite <- Hf. naive_solver.
    + intros n. rewrite Hin, last_omap_snoc. simpl. naive_solver.
  - assert (add_option options o = if negb (has o options) then options ++ [o] else options) as -> by (by destruct o).
    assert (fsname_of o = None /\ subtype_of o = None) as [Hfn Hsn] by (by destruct o).
    assert (forall o', o' ∈ (if negb (has o options) then options ++ [o] else options) <-> o' ∈ options \/ o' = o) as Hin.
    { intros o'. destruct (has o options) eqn:Hh; simpl; [|by rewrite elem_of_app, list_elem_of_singleton].
      apply has_spec in Hh. naive_solver. }
    constructor.
    + destruct (has o options) eqn:Hh; simpl; [done|]. apply NoDup_app. split_and!; [done| |apply NoDup_singleton].
      intros o' Ho' ->%list_elem_of_singleton. apply has_spec in Ho'. congruence.
    + intros o' Ho'. rewrite Hin, Hreq, (Hp o') by done. tauto.
    + intros n. rewrite Hin, last_omap_snoc, Hfn, <- Hf. naive_solver.
    + intros n. rewrite Hin, last_omap_snoc, Hsn, <- Hs. naive_solver.
Qed.

Lemma comes_to_all requested : comes_to requested (fold_left add_option requested mount_options).
Proof.
  induction requested as [|o requested IH] using rev_ind; [apply comes_to_start|].
  rewrite fold_left_app. by apply comes_to_next.
Qed.

(** *** Tokens *)

Lemma parse_option_error token e : parse_option token = inr e -> exists message, e = RunMountOptions message.
Proof. unfold parse_option. intros He. repeat case_match; simplify_eq; by eexists. Qed.

(** An option that is passed on says nothing of permissions. *)
Lemma parse_option_custom token text :
  parse_option token = inl (CUSTOM text) -> contains (str "default_permissions") text = false.
Proof.
  unfold parse_option. case_bool_decide; [done|].
  destruct (contains (str "default_permissions") (trim token)) eqn:Hc; cbn [andb].
  - destruct (is_text (trim token) "default_permissions") eqn:Hi; cbn [negb]; [|done].
    apply bool_decide_eq_true_1 in Hi. rewrite Hi. intros Hr. by vm_compute in Hr.
  - destruct (find (fun e => is_text (trim token) e.1) named_options) as [[name o]|] eqn:Hf.
    + intros [= ->]. apply find_some in Hf as [Hin _]. simpl in Hin. naive_solver.
    + intros Hr. repeat case_match; by simplify_eq.
Qed.

Lemma parse_tokens_spec tokens :
  match parse_tokens tokens with
  | inl options => Forall2 (fun token option => parse_option token = inl option) tokens options
  | inr e => exists token, token ∈ tokens /\ parse_option token = inr e
  end.
Proof.
  induction tokens as [|token tokens IH]; simpl; [constructor|].
  destruct (parse_option token) as [o|e] eqn:Ho; [|exists token; split; [by left|done]].
  destruct (parse_tokens tokens) as [os|e]; [by constructor|].
  destruct IH as (token' & Hin & He). exists token'. split; [by right|done].
Qed.

(** The tokens of the command line. *)
Definition tokens (config : MountConfig) : list Str := concat (split_at 44 <$> extra config).

Lemma requested_custom config requested text :
  requested_options config = inl requested -> CUSTOM text ∈ requested ->
  contains (str "default_permissions") text = false.
Proof.
  unfold requested_options. pose proof (parse_tokens_spec (concat (split_at 44 <$> extra config))) as Hp.
  destruct (parse_tokens _) as [os|]; [|done]. intros [= <-]. rewrite !elem_of_app. unfold flag.
  intros [Ht|[Ht|[Ht|Ht]]]; repeat case_match; try by apply elem_of_nil in Ht.
  all: try by apply list_elem_of_singleton in Ht.
  all: apply list_elem_of_lookup in Ht as [j Hj]; destruct (Forall2_lookup_r _ _ _ _ _ Hp Hj) as (token & _ & Hpt);
    by eapply parse_option_custom.
Qed.

(** C35. The options of a mount: what was asked for and the kernel's permission checks, each once;
    one name of the file system, the last one given; never both kinds of access for others, and
    automatic unmounting only with one of them; and no text that could turn the permission checks
    off. Other requests are refused with a message before anything is opened. *)
Theorem mount_options_for_correct config :
  match mount_options_for config with
  | inl options => exists requested,
      requested_options config = inl requested /\ comes_to requested options /\
      (DefaultPermissions ∈ options) /\ ~ ((AllowOther ∈ options) /\ (AllowRoot ∈ options)) /\
      ((AutoUnmount ∈ options) -> (AllowOther ∈ options) \/ (AllowRoot ∈ options)) /\
      (forall text, (CUSTOM text ∈ options) -> contains (str "default_permissions") text = false)
  | inr e => (exists message, e = RunMountOptions message) /\
      ((exists token, (token ∈ tokens config) /\ parse_option token = inr e) \/
       exists requested, requested_options config = inl requested /\
         (((AllowOther ∈ requested) /\ (AllowRoot ∈ requested)) \/
          ((AutoUnmount ∈ requested) /\ (AllowOther ∉ requested) /\ (AllowRoot ∉ requested))))
  end.
Proof.
  unfold mount_options_for. destruct (requested_options config) as [requested|e] eqn:Hr.
  - pose proof (comes_to_all requested) as Hc. set (options := fold_left add_option requested mount_options) in *.
    assert (forall o, plain o -> o <> DefaultPermissions -> o ∈ options <-> o ∈ requested) as Hin.
    { intros o Ho Hne. rewrite (ct_plain _ _ Hc o Ho). naive_solver. }
    pose proof (Hin AllowOther ltac:(done) ltac:(done)) as Hao.
    pose proof (Hin AllowRoot ltac:(done) ltac:(done)) as Har.
    pose proof (Hin AutoUnmount ltac:(done) ltac:(done)) as Hau.
    pose proof (has_spec AllowOther options) as Ho. pose proof (has_spec AllowRoot options) as Hro.
    pose proof (has_spec AutoUnmount options) as Hu.
    destruct (has AllowOther options), (has AllowRoot options), (has AutoUnmount options); simpl;
      try (split; [by eexists|right; exists requested; split; [done|]; rewrite <- ?Hao, <- ?Har, <- ?Hau, <- ?Ho, <- ?Hro, <- ?Hu; naive_solver]);
      (exists requested; split_and!; [done|done|apply (ct_plain _ _ Hc); [done|by left]|naive_solver|naive_solver|]).
    all: intros text Htext%Hin; [by eapply requested_custom|done|done].
  - unfold requested_options in Hr. pose proof (parse_tokens_spec (concat (split_at 44 <$> extra config))) as Hp.
    destruct (parse_tokens _) as [|e0]; [done|]. injection Hr as ->. destruct Hp as (token & Hin & He).
    split; [by eapply parse_option_error|]. left. by exists token.
Qed.

(** ** Start *)

Section start.
Context `{World, HashOrder, !EngineLaws H}.

Lemma mounted_fs_inv config c t :
  fs_wf t -> default DEFAULT_WRITE_BUFFER (write_buffer config) < 2 ^ 48 ->
  exists s, mounted_fs config c t = Some s /\ fs_inv s /\ tables (fs_db s) = t /\
    fs_kernel_cache s = kernel_cache config /\ fs_last_flush s = None.
Proof.
  intros Hwf Hb. eexists. split; [reflexivity|]. split_and!; try done. by apply inv_fresh.
Qed.

(** C34. A mount begins on a consistent file system that holds what the database says, with
    options that are in order. When the options are refused the database is not
    touched, and when it cannot be opened it is left so that it can be opened later. *)
Theorem run_with_mounter_correct config d t n mounter :
  opens d t -> default DEFAULT_WRITE_BUFFER (write_buffer config) < 2 ^ 48 ->
  match mount_options_for config with
  | inr e => run_with_mounter config d n mounter = Some (Some e, d)
  | inl options =>
      (exists s, run_with_mounter config d n mounter = Some (mounter s options) /\
         fs_inv s /\ repaired t (tables (fs_db s)) /\ fs_kernel_cache s = kernel_cache config) \/
      (exists e d', run_with_mounter config d n mounter = Some (Some (RunDb e), d') /\
         (engine_error e \/ migrate_refused (created d) e) /\
         exists t', opens d' t' /\ t_dirents t' = t_dirents t)
  end.
Proof.
  intros Ho Hb. unfold run_with_mounter. destruct (mount_options_for config) as [options|e]; [|done].
  pose proof (wp_open_disk d t 0 n Ho) as Hw. unfold wp in Hw. fold (new_connection d n) in Hw.
  destruct (Db_open (new_connection d n)) as [[] c|e c| |]; [|right|done..].
  - left. destruct Hw as (t' & _ & Ht & Hrep & _). rewrite Ht.
    destruct (mounted_fs_inv config c t' (rp_wf _ _ Hrep) Hb) as (s & Hs & Hinv & Htab & Hk & _).
    exists s. cbn [mbind option_bind]. rewrite Hs. split_and!; [done|done|by rewrite Htab|done].
  - exists e, (dc_disk c). split; [done|]. exact Hw.
Qed.
End start.

(** ** Exit *)

Section exit.
Context `{World, HashOrder, !EngineLaws H}.
Implicit Types (s : Fs) (m : Mount).

(** *** One flush *)

(** No data is left to write. *)
Definition drained s : Prop := drained_slots (inodes (fs_table s)).

Lemma quiet_drained s s' : fs_inv s' -> quiet s s' -> drained s -> drained s'.
Proof.
  intros Hinv Hq Hd%drained_flushed. apply flushed_drained; [done|].
  intros j e Hl He. apply (slot_flushed_quiet s s' j Hq); [|done..].
  intros e' Hl' He'. by apply (Hd j e').
Qed.

(** The slots that the loop has yet to see are there, and it has seen the others. *)
Record flushing_ok (todo : list Slot) (first_error : option Z) s : Prop := {
  fo_nodup : NoDup todo;
  fo_live : forall j, j ∈ todo -> live (inodes (fs_table s)) j;
  fo_seen : first_error = None -> forall j, j ∉ todo -> slot_flushed s j }.

(** What a thread knows of the buffers from how far its flush is. *)
Definition flush_ok (f : Flushing) s : Prop :=
  match f with
  | FlushingSlots todo first_error => flushing_ok todo first_error s
  | FlushedSlots None | Synced None => drained s
  | Recorded => fs_last_flush s = None -> drained s
  | _ => True
  end.

(** What a step that leaves the buffers alone, or empties some, does to the flush of the
    other thread. *)
Record settles s s' : Prop := {
  se_drained : drained s -> drained s';
  se_last : fs_last_flush s' = None -> fs_last_flush s = None \/ drained s' }.

Lemma settles_ok f s s' : holds_lock f = false -> settles s s' -> flush_ok f s -> flush_ok f s'.
Proof.
  intros Hl [Hd Hn]. destruct f as [|todo e|[]|[]|]; simpl; auto; [done|]. intros Hr [Hs|]%Hn; auto.
Qed.

(** A step that does not reach the table. *)
Lemma same_table_ok f s s' :
  fs_table s' = fs_table s -> fs_last_flush s' = fs_last_flush s -> flush_ok f s -> flush_ok f s'.
Proof.
  intros Ht Hl. destruct f as [|todo e|[]|[]|]; simpl; unfold drained; rewrite ?Ht, ?Hl; try done.
  intros []. constructor; unfold slot_flushed in *; by rewrite ?Ht.
Qed.

Lemma quiet_settles s s' : fs_inv s' -> quiet s s' -> settles s s'.
Proof. intros Hinv Hq. constructor; [by apply quiet_drained|]. rewrite (q_last _ _ Hq). auto. Qed.

(** One slot. *)
Lemma flush_one_ok slot todo first_error s :
  fs_inv s -> flushing_ok (slot :: todo) first_error s ->
  wp (Shared.flush_one first_error slot)
    (fun first_error' s' => fs_inv s' /\ quiet s s' /\ flushing_ok todo first_error' s') (fun _ _ => False) s.
Proof.
  intros Hinv [Hnd Hlive Hseen]. apply NoDup_cons in Hnd as [Hni Hnd].
  assert (live (inodes (fs_table s)) slot) as Hl by (apply Hlive; by left).
  destruct (inv_live _ _ _ _ Hinv Hl) as (e & _ & He & _).
  apply (wp_flush_one first_error slot e); [done..|]. intros e' s' Hi' Hq Hlv Hnone Hsome.
  split_and!; [done|done|]. constructor; [done| |].
  - intros j Hj. apply Hlv; [by intros ->|]. apply Hlive. by right.
  - intros Hn j Hj. destruct (Hnone Hn) as [Hn0 Hs]. destruct (decide (j = slot)) as [->|Hne]; [done|].
    apply (slot_flushed_quiet s s' j Hq), Hseen; [done|]. by intros [?|?]%elem_of_cons.
Qed.

Lemma flush_sync_ok first_error s :
  fs_inv s -> flush_ok (FlushedSlots first_error) s ->
  wp (flush_sync first_error) (fun result s' => same_state s s' /\ flush_ok (Synced result) s') (fun _ _ => False) s.
Proof.
  intros Hinv Hok. unfold flush_sync. apply wp_match_result, wp_db, wp_sync_durable.
  - intros c Hc. apply wp_ret. split; [by apply same_state_db|]. by destruct first_error.
  - intros msg c Hc. apply wp_ret. split; [by apply same_state_db|]. by destruct first_error.
Qed.

(** What a section of a flush does. *)
Lemma section_ok f s f' s' :
  fs_inv s -> flush_step f s f' s' -> flush_ok f s ->
  flush_ok f' s' /\ meanwhile s s' /\ settles s s' /\
  (holds_lock f = false -> fs_table s' = fs_table s) /\
  (fs_last_flush s' = fs_last_flush s \/ f' = Recorded) /\ closing (fs_table s') = closing (fs_table s).
Proof.
  intros Hinv Hst Hok. pose proof (meanwhile_refl s Hinv) as Hrefl. pose proof (quiet_settles s s Hinv (quiet_refl s)) as Hset.
  destruct Hst as [s|s slot todo e e' s' Hs|s e|s e result s' Hs|s result s' Hs].
  - split_and!; try done; [|by left]. constructor; [apply live_slots_nodup, Hinv|by intros j ?%elem_of_live_slots|].
    intros _ j Hj e Hl. by destruct Hj; apply elem_of_live_slots.
  - destruct (wp_Ok _ _ _ _ _ _ (flush_one_ok slot todo e s Hinv Hok) Hs) as (Hi' & Hq & Hok').
    split_and!; [done|by apply meanwhile_quiet|by apply quiet_settles|done|left; apply Hq|apply Hq].
  - split_and!; try done; [|by left]. destruct e; simpl; [done|].
    apply flushed_drained; [done|]. intros j e Hl. apply (fo_seen _ _ _ Hok eq_refl); [by apply not_elem_of_nil|done].
  - destruct (wp_Ok _ _ _ _ _ _ (flush_sync_ok e s Hinv Hok) Hs) as [Hss Hok'].
    split_and!; [done|by apply meanwhile_state|by apply quiet_settles; [eapply same_state_inv|apply quiet_state]|..];
      [intros _; apply Hss|left; apply Hss|by destruct Hss as (_ & -> & _)].
  - injection Hs as <-. split_and!; [by destruct result; [|intros _; exact Hok]|by apply meanwhile_recorded| |done|by right|done].
    constructor; [done|]. destruct result as [e|]; [done|]. intros _. by right.
Qed.

(** The steps of a flush, in a row, are the flush of the code. *)
Definition flush_turn (a b : Flushing * Fs) : Prop := flush_step a.1 a.2 b.1 b.2.

Lemma turn f s f' s' x : flush_step f s f' s' -> rtc flush_turn (f', s') x -> rtc flush_turn (f, s) x.
Proof. intros Hst. by apply rtc_l. Qed.

Lemma slots_in_a_row l first_error s first_error' s' :
  fold_each l Shared.flush_one first_error s = Ok first_error' s' ->
  rtc flush_turn (FlushingSlots l first_error, s) (FlushedSlots first_error', s').
Proof.
  revert first_error s. induction l as [|slot l IH]; intros e s; simpl.
  - intros [= -> ->]. by eapply turn; [apply flush_unlock|].
  - unfold mbind, M_bind. destruct (Shared.flush_one e slot s) as [e1 s1|e1 s1| |] eqn:Hs; try done.
    intros Hl. eapply turn; [by apply flush_one_slot|by apply IH].
Qed.

Lemma flush_in_a_row s result s' :
  fs_inv s -> Shared.flush_recorded s = Ok result s' -> rtc flush_turn (FlushStart, s) (Recorded, s').
Proof.
  intros Hinv. pose proof (wp_flush_slots s Hinv) as Hw. unfold wp in Hw.
  unfold Shared.flush_recorded, Shared.flush_all, Shared.table, match_result, gets, mbind, M_bind.
  destruct (fold_each _ Shared.flush_one None s) as [first s1|e s1| |] eqn:Hl; [|done..].
  apply slots_in_a_row in Hl. intros Hrec.
  eapply turn; [apply flush_lock|]. etrans; [exact Hl|].
  destruct (Shared.db sync_durable s1) as [[] s2|e s2| |] eqn:Hsync; [| |done..].
  - assert (flush_sync first s1 = Ok first s2) as Hf by (unfold flush_sync, match_result; by rewrite Hsync).
    eapply turn; [by apply flush_synced|]. eapply turn; [by apply flush_record|]. destruct first; by injection Hrec as <- <-.
  - assert (flush_sync first s1 = Ok (Some (default e first)) s2) as Hf
      by (unfold flush_sync, match_result; by rewrite Hsync).
    eapply turn; [by apply flush_synced|]. eapply turn; [by apply flush_record|]. by injection Hrec as <- <-.
Qed.

(** A flush that is not done can go on. *)
Lemma section_progress f s : fs_inv s -> flush_ok f s -> f = Recorded \/ exists f' s', flush_step f s f' s'.
Proof.
  intros Hinv Hok. destruct f as [|[|slot todo] e|e|result|]; [right..|by left].
  - eexists _, _. apply flush_lock.
  - eexists _, _. apply flush_unlock.
  - pose proof (flush_one_ok slot todo e s Hinv Hok) as Hw. unfold wp in Hw.
    destruct (Shared.flush_one e slot s) as [e' s'|e' s'| |] eqn:Hs; try done. eexists _, _. by apply flush_one_slot.
  - pose proof (flush_sync_ok e s Hinv Hok) as Hw. unfold wp in Hw.
    destruct (flush_sync e s) as [result s'|e' s'| |] eqn:Hs; try done. eexists _, _. by apply flush_synced.
  - eexists _, _. by apply flush_record.
Qed.

(** *** The session *)

(** The sections of what is left of a request keep the buffers of a closing file system
    empty, and only those with the lock reach the table. *)
Definition well_behaved (t : Task) : Prop :=
  (forall D last, each_section (keeping (fun _ => True) (sealed D last)) t) /\
  forall T last, each_section (keeping (fun locked => locked = false) (own_state T last)) t.

Lemma task_well_behaved q : q <> QShutdown -> well_behaved (task q).
Proof. intros Hq. split; [intros D l; by apply keeps_task|intros T l; apply unlocked_task]. Qed.

Lemma section_well_behaved locked body t s s' : well_behaved (Next locked body) -> body s = Ok t s' -> well_behaved t.
Proof.
  intros [Hs Hu] Hm. split; [intros D l|intros T l].
  - destruct (Hs D l) as [_ Hn]. specialize (Hn s). by rewrite Hm in Hn.
  - destruct (Hu T l) as [_ Hn]. specialize (Hn s). by rewrite Hm in Hn.
Qed.

(** A section, while writes are refused. *)
Lemma section_sealed locked body t s s' :
  well_behaved (Next locked body) -> closing (fs_table s) = true -> body s = Ok t s' ->
  closing (fs_table s') = true /\ settles s s'.
Proof.
  intros [Hs _] Hc Hm. destruct (Hs (drained s) (fs_last_flush s)) as [Hk _].
  specialize (Hk I s). unfold wlp in Hk. rewrite Hm in Hk. destruct Hk as (Hc' & Hl & Hd); [done|].
  split; [done|]. constructor; [done|]. rewrite Hl. auto.
Qed.

Lemma section_unlocked body t s s' :
  well_behaved (Next false body) -> body s = Ok t s' ->
  fs_table s' = fs_table s /\ fs_last_flush s' = fs_last_flush s.
Proof.
  intros [_ Hu] Hm. destruct (Hu (fs_table s) (fs_last_flush s)) as [Hk _].
  specialize (Hk eq_refl s). unfold wlp in Hk. rewrite Hm in Hk. by apply Hk.
Qed.

(** The answers so far, and the one that is due. *)
Definition session_ok (S0 : Fs) (p : SessionPhase) (sent : list Exchange) s : Prop :=
  match p with
  | Working s0 q t => well_behaved t /\ exchanged S0 sent s0 /\ proceeds q (due s0 q) t s
  | _ => exchanged S0 sent s
  end.

Lemma session_meanwhile S0 p sent s s' :
  fs_inv s -> session_ok S0 p sent s -> meanwhile s s' -> session_ok S0 p sent s'.
Proof.
  intros Hinv Hp Hw. pose proof (view_meanwhile s s' Hinv Hw) as Hl.
  destruct p as [|s0 q t|f|]; simpl in *; [by eapply exchanged_late| |by eapply exchanged_late..].
  destruct Hp as (Hb & Ha & Ht). split_and!; [done..|].
  eapply proceeds_meanwhile; [|exact Hinv|exact Ht|exact Hw]. intros a s1 s2. by apply due_meanwhile.
Qed.

(** *** Every point of a mount *)

Definition past_signal (p : Phase) : Prop :=
  match p with ShuttingDown _ | Draining => True | _ => False end.

Record mount_ok (S0 : Fs) m : Prop := {
  mo_inv : fs_inv (m_fs m);
  mo_closing : past_signal (m_phase m) -> closing (fs_table (m_fs m)) = true;
  mo_ended : (exists r, SessionEnded r ∈ m_events m) -> m_session m = Ended;
  mo_main : flush_ok (main_flushing (m_phase m)) (m_fs m);
  mo_session : flush_ok (session_flushing (m_session m)) (m_fs m);
  mo_lock : free_of_main (m_phase m) \/ free_of_session (m_session m);
  mo_answers : session_ok S0 (m_session m) (m_sent m) (m_fs m);
  mo_exit : m_phase m = Exited None -> drained (m_fs m) }.

Lemma started_ok s : fs_inv s -> mount_ok s (started s).
Proof.
  intros Hinv. constructor; simpl; try done; [by intros (r & ?%not_elem_of_nil)|by left|].
  apply exchanged_nil, late_refl.
Qed.

Lemma finish_ok r s : finish r s = None -> fs_last_flush s = None.
Proof. destruct r; simpl; [done|]. by destruct (fs_last_flush s). Qed.

(** The first signal closes the table, and nothing else. *)
Lemma first_shutdown s : first_event Shutdown s = Ok (ShuttingDown FlushStart) (refusing s).
Proof. reflexivity. Qed.

Lemma refusing_ok f s : flush_ok f s -> flush_ok f (refusing s).
Proof. destruct f as [|todo e|[]|[]|]; simpl; try done. by intros []. Qed.

(** A message is gone from the channel. *)
Lemma ended_tail event events session :
  ((exists r, SessionEnded r ∈ event :: events) -> session = Ended) ->
  (exists r, SessionEnded r ∈ events) -> session = Ended.
Proof. intros He (r & Hr). apply He. exists r. by right. Qed.

(** A step of a flush, for the flush of the other thread. *)
Lemma section_other_ok f s f' s' g :
  fs_inv s -> flush_step f s f' s' -> flush_ok f s ->
  holds_lock f = false \/ holds_lock g = false -> flush_ok g s -> flush_ok g s'.
Proof.
  intros Hinv Hst Hok Hlock Hg. destruct (section_ok f s f' s' Hinv Hst Hok) as (_ & _ & Hset & Ht & Hl & _).
  destruct (holds_lock g) eqn:Hlg; [|by eapply settles_ok].
  destruct Hlock as [Hlf|]; [|done]. destruct g as [|todo e| | |]; try done.
  destruct Hg. constructor; unfold slot_flushed in *; by rewrite ?(Ht Hlf).
Qed.

Lemma main_step_ok S0 m m' : mount_ok S0 m -> main_step m m' -> mount_ok S0 m'.
Proof.
  intros [Hinv Hcl Hend Hmain Hses Hlock Hans _] Hst. destruct Hst as
    [s session event events sent phase s' Hfree Hf|s session events sent f f' s' Hfree Hf
    |s session events sent unmount|s session event events sent|s session sent]; simpl in *.
  - pose proof (ended_tail _ _ _ Hend) as Hev. destruct event as [|result].
    + rewrite first_shutdown in Hf. injection Hf as <- <-. pose proof (refusing_inv s Hinv).
      constructor; simpl; try done; [by apply refusing_ok|].
      eapply session_meanwhile; [exact Hinv|done|by apply meanwhile_refusing].
    + injection Hf as <- <-. assert (session = Ended) as -> by (apply Hend; exists result; by left).
      constructor; simpl; try done; try (by left). intros [= Hfin%finish_ok]. auto.
  - destruct (section_ok f s f' s' Hinv Hf Hmain) as (Hok & Hw & _ & _ & _ & Hc).
    constructor; simpl; [apply Hw|by rewrite Hc|done|done|by eapply section_other_ok| | |done].
    + unfold free_of_main. simpl. destruct (holds_lock f') eqn:Hf'; [right; auto|by left].
    + by eapply session_meanwhile.
  - destruct unmount as [e|]; simpl; constructor; simpl; try done; by left.
  - pose proof (ended_tail _ _ _ Hend) as Hev. destruct event as [|result]; simpl;
      constructor; simpl; try done; try (by left). intros [= Hfin%finish_ok]. auto.
  - constructor; simpl; try done; try (by left). intros Hfin. apply Hmain. by destruct (fs_last_flush s).
Qed.

Lemma session_flush_ok S0 m m' :
  mount_ok S0 m -> (forall r, m_phase m <> Exited r) -> session_flush m m' -> mount_ok S0 m'.
Proof.
  intros Hm Hne Hst. destruct Hst as [s phase events sent f f' s' Hfree Hf].
  destruct Hm as [Hinv Hcl Hend Hmain Hses Hlock Hans _]; simpl in *.
  destruct (section_ok f s f' s' Hinv Hf Hses) as (Hok & Hw & _ & _ & _ & Hc).
  constructor; simpl; [apply Hw|by rewrite Hc|by intros Hr%Hend| |done| | |by intros Hp; destruct (Hne None)].
  - eapply section_other_ok; [exact Hinv|exact Hf|done| |done]. destruct Hlock; [by right|by left].
  - unfold free_of_session. simpl. destruct (holds_lock f') eqn:Hf'; [left; auto|by right].
  - eapply exchanged_late; [exact Hans|by apply view_meanwhile].
Qed.

(** A section of a request. *)
Lemma section_step_ok S0 s phase events sent s0 q locked body t s' :
  let m := mkMount s phase (Working s0 q (Next locked body)) events sent in
  mount_ok S0 m -> (forall r, phase <> Exited r) ->
  (locked = true -> free_of_main phase) -> asked s q -> body s = Ok t s' ->
  mount_ok S0 (mkMount s' phase (Working s0 q t) events sent).
Proof.
  intros m [Hinv Hcl Hend Hmain Hses Hlock (Hb & Ha & Ht) _] Hne Hfree Hask Hs; simpl in *.
  specialize (Ht s (meanwhile_refl s Hinv) Hask). rewrite Hs in Ht. destruct Ht as [Hinv' Ht].
  constructor; simpl; try done.
  - intros Hp. by destruct (section_sealed _ _ _ _ _ Hb (Hcl Hp) Hs).
  - by intros Hr%Hend.
  - destruct (holds_lock (main_flushing phase)) eqn:Hl.
    + destruct locked; [by rewrite (Hfree eq_refl) in Hl|].
      destruct (section_unlocked _ _ _ _ Hb Hs). by eapply same_table_ok.
    + destruct phase as [|f| |r]; try done; (eapply settles_ok; [done| |exact Hmain]);
        by destruct (section_sealed _ _ _ _ _ Hb (Hcl I) Hs).
  - split; [by eapply section_well_behaved|done].
  - intros Hp. by destruct (Hne None).
Qed.

Lemma step_ok S0 m m' : mount_ok S0 m -> (forall r, m_phase m <> Exited r) -> step m m' -> mount_ok S0 m'.
Proof.
  intros Hm Hne Hst. destruct Hst as
    [s phase events sent q Hq|s phase events sent s0 q locked body t s' Hfree Hask Hs|s phase events sent s0 q a
    |s phase events sent|m m' Hst|s phase events sent result|s phase session events sent|m m' Hst].
  2: by eapply section_step_ok.
  4: by eapply session_flush_ok.
  6: by eapply main_step_ok.
  all: destruct Hm as [Hinv Hcl Hend Hmain Hses Hlock Hans Hexit]; simpl in *; constructor; simpl; try done.
  all: try (by intros Hr%Hend).
  all: try (by right).
  - split; [by apply task_well_behaved|]. split; [done|by apply request_proceeds].
  - destruct Hans as (_ & Ha & Ht). by apply exchanged_snoc, late_refl.
  - intros (r & [Hr|Hr%list_elem_of_singleton]%elem_of_app); [|done]. apply Hend. by exists r.
Qed.

Lemma reaches_ok S0 m m' : mount_ok S0 m -> reaches m m' -> mount_ok S0 m'.
Proof.
  intros Hm Hr. induction Hr as [|m0 m1 m2 Hr IH Hne Hst]; [done|].
  exact (step_ok S0 m1 m2 (IH Hm) Hne Hst).
Qed.

(** A file with a name has no data in the buffers. *)
Lemma drained_clean s i : fs_inv s -> drained s -> named (view s) i -> clean_file s i.
Proof.
  intros Hinv Hd Hn e He. pose proof He as Hent. apply (entry_of_Some _ _ _ _ _ Hinv) in He as (j & Hl & Hj & Hi).
  destruct (drained_flushed s Hd j e Hl Hj) as [|Hu]; [done|].
  exfalso. eapply unlinked_not_named; [done| |exact Hn]. exists e. by split.
Qed.

(** What the next mount shows of the file system that [fs] was at the end. *)
Definition kept (fs : Fs) (budget : Z) (c : DiskConn) : Prop :=
  exists t', tables_of (dc_disk c) = Some t' /\
    let S := Dbfs.with_write_buffer (mkConn t' (dc_ticks c)) budget in
    fs_inv S /\ recovered fs (view S) /\ forall i, named (view fs) i -> same_node (view fs) (view S) i.

Lemma wp_reopen fs d fk n budget :
  fs_inv fs -> drained fs -> budget < 2 ^ 48 -> current_layout d -> tables_of d = Some (tables (fs_db fs)) ->
  wp Db_open (fun _ c' => kept fs budget c') (fun e _ => engine_error e) (mkDiskConn d fk n).
Proof.
  intros Hinv Hd Hb Hl Ht. eapply wp_mono; [apply (wp_open_disk d (tables (fs_db fs)))|..]; simpl.
  - apply opens_current; [done..|]. apply wf_repairable, Hinv.
  - intros _ c' (t' & _ & Ht' & Hrep & _). exists t'. cbv zeta.
    pose proof (repaired_recovered fs t' (dc_ticks c') budget Hinv Hrep) as Hrec.
    split_and!; [done|apply inv_fresh; [apply Hrep|done]|done|].
    intros i Hi. apply (rc_file _ _ Hrec); [done|]. by apply drained_clean.
  - intros e c' [[He|He] _]; [done|]. by destruct (current_not_refused d e Hl).
Qed.

(** C4. A process that ends with success has lost nothing: whatever was requested, and
    however signals, the end of the session and the grace period fell, opening the
    database again shows each name, and each file as it was at the end. *)
Theorem exit_keeps_files s m d fk n budget :
  fs_inv s -> reaches (started s) m -> m_phase m = Exited None -> budget < 2 ^ 48 ->
  current_layout d -> tables_of d = Some (tables (fs_db (m_fs m))) ->
  wp Db_open
    (fun _ c' => exists t', tables_of (dc_disk c') = Some t' /\
       let S := Dbfs.with_write_buffer (mkConn t' (dc_ticks c')) budget in
       fs_inv S /\ recovered (m_fs m) (view S) /\
       forall i, named (view (m_fs m)) i -> same_node (view (m_fs m)) (view S) i)
    (fun e _ => engine_error e)
    (mkDiskConn d fk n).
Proof.
  intros Hinv Hr Hx Hb Hl Ht. pose proof (reaches_ok _ _ _ (started_ok s Hinv) Hr) as Hm.
  apply wp_reopen; [apply Hm|by apply (mo_exit _ _ Hm)|done..].
Qed.

(** *** From the command line to the exit *)

(** Mounters that do as [mount_dbfs], and leave the tables of the file system in the file. *)
Definition mounts (mounter : Fs -> list MountOption -> option RunError * Disk) : Prop :=
  forall fs options, fs_inv fs -> exists fs', mount_dbfs options fs (mounter fs options).1 fs' /\
    current_layout (mounter fs options).2 /\ tables_of (mounter fs options).2 = Some (tables (fs_db fs')).

Lemma destroy_ok fs u fs' : fs_inv fs -> Handler.destroy fs = Ok u fs' -> fs_inv fs'.
Proof.
  intros Hinv Hd. assert (wp Handler.destroy (fun _ fs' => fs_inv fs') (fun _ _ => True) fs) as Hw.
  { apply wp_bind, wp_flush_recorded; [done|..]; intros; by apply wp_ret. }
  unfold wp in Hw. by rewrite Hd in Hw.
Qed.

Lemma mount_dbfs_inv options fs result fs' : fs_inv fs -> mount_dbfs options fs result fs' -> fs_inv fs'.
Proof.
  intros Hinv [e euid|e u fs1 Hd|m r Hr Hx]; [done|by eapply destroy_ok|].
  apply (mo_inv _ _ (reaches_ok _ _ _ (started_ok fs Hinv) Hr)).
Qed.

(** C5. The whole program, from the options to the exit status: whatever comes of it, a
    database that could be opened can be opened again; and success means that a consistent
    file system with the repaired content of the database was mounted, and that the next
    opening shows every name and every file as they were when the process ended. *)
Theorem run_keeps_files config d t n mounter result d' :
  opens d t -> default DEFAULT_WRITE_BUFFER (write_buffer config) < 2 ^ 48 -> mounts mounter ->
  run_with_mounter config d n mounter = Some (result, d') ->
  (exists t', opens d' t') /\
  (result = None -> exists fs m, fs_inv fs /\ repaired t (tables (fs_db fs)) /\
     reaches (started fs) m /\ m_phase m = Exited None /\
     forall budget fk n', budget < 2 ^ 48 ->
       wp Db_open (fun _ c' => kept (m_fs m) budget c') (fun e _ => engine_error e) (mkDiskConn d' fk n')).
Proof.
  intros Ho Hb Hm Hrun. unfold run_with_mounter in Hrun.
  destruct (mount_options_for config) as [options|e]; [|injection Hrun as <- <-; split; [by exists t|done]].
  pose proof (wp_open_disk d t 0 n Ho) as Hw. unfold wp in Hw. fold (new_connection d n) in Hw.
  destruct (Db_open (new_connection d n)) as [[] c|e c| |]; [| |done..].
  2: { injection Hrun as <- <-. destruct Hw as (_ & t' & Ht' & _). split; [by exists t'|done]. }
  destruct Hw as (t1 & _ & Ht1 & Hrep & _). rewrite Ht1 in Hrun.
  destruct (mounted_fs_inv config c t1 (rp_wf _ _ Hrep) Hb) as (fs & Hfs & Hinv & Htab & _).
  cbn [mbind option_bind] in Hrun. rewrite Hfs in Hrun. cbn [mbind option_bind] in Hrun. injection Hrun as Hrun.
  destruct (Hm fs options Hinv) as (fs' & Hmount & Hl & Ht). rewrite Hrun in Hmount, Hl, Ht. cbn [fst snd] in *.
  pose proof (mount_dbfs_inv _ _ _ _ Hinv Hmount) as Hinv'. split.
  - exists (tables (fs_db fs')). apply opens_current; [done..|]. apply wf_repairable, Hinv'.
  - intros ->. inversion Hmount as [| |m r Hr Hx Heq1 Heq2]; subst. exists fs, m. split_and!; try done.
    intros budget fk n' Hbud. pose proof (reaches_ok _ _ _ (started_ok fs Hinv) Hr) as Hok.
    apply wp_reopen; [done|by apply (mo_exit _ _ Hok)|done..].
Qed.

(** C8. Requests that the shutdown comes between are served all the same: the invariant holds
    throughout; each request that has been answered was answered as the abstract file system
    allows at one moment between its arrival and its answer, with the one exception of
    [stale_look], a [getattr] or [lookup] of a file without handles whose buffered writes were
    flushed between its two sections, which answers with the row from before the writes; and the
    next section of a request that is not answered yet does not panic. *)
Theorem mount_answers s m :
  fs_inv s -> reaches (started s) m ->
  fs_inv (m_fs m) /\
  exchanged s (m_sent m) (match m_session m with Working arrival _ _ => arrival | _ => m_fs m end) /\
  (forall s0 q locked body, m_session m = Working s0 q (Next locked body) -> asked (m_fs m) q ->
     exists t s', body (m_fs m) = Ok t s').
Proof.
  intros Hinv Hr. pose proof (reaches_ok _ _ _ (started_ok s Hinv) Hr) as Hm.
  pose proof (mo_inv _ _ Hm) as Hinv'. pose proof (mo_answers _ _ Hm) as Ha. split; [done|].
  destruct m as [s' phase [|s1 q t|f|] events sent]; simpl in *; [done| |done..].
  destruct Ha as (_ & Ha & Ht). split; [done|].
  intros s0 q' locked body [= <- <- ->] Hask. specialize (Ht s' (meanwhile_refl s' Hinv') Hask).
  destruct (body s') as [t s2|e s2| |]; try done. by exists t, s2.
Qed.

(** *** The main thread comes to an end *)

(** The steps of the main thread that are left if nothing is added. *)
Definition flush_left (f : Flushing) : nat :=
  match f with
  | FlushStart => 4
  | FlushingSlots todo _ => 3 + length todo
  | FlushedSlots _ => 2
  | Synced _ => 1
  | Recorded => 0
  end.
Definition steps_left m : nat :=
  match m_phase m with
  | Waiting => 6 + length (m_events m)
  | ShuttingDown f => 2 + flush_left f + length (m_events m)
  | Draining => 1 + length (m_events m)
  | Exited _ => 0
  end.

(** What a step adds: a message, or the slots that the main thread finds. *)
Definition slots_todo (p : Phase) : nat :=
  match p with ShuttingDown (FlushingSlots todo _) => length todo | _ => 0 end.
Definition adds m m' : nat :=
  (length (m_events m') - length (m_events m)) + (slots_todo (m_phase m') - slots_todo (m_phase m)).

(** From [m] to [m'] in any steps, [k] of them of the main thread; [n] is what they add. *)
Inductive goes : nat -> nat -> Mount -> Mount -> Prop :=
  | goes_refl m : goes 0 0 m m
  | goes_main k n m1 m2 m3 : main_step m1 m2 -> goes k n m2 m3 -> goes (S k) (adds m1 m2 + n) m1 m3
  | goes_other k n m1 m2 m3 : step m1 m2 -> ~ main_step m1 m2 -> goes k n m2 m3 -> goes k (adds m1 m2 + n) m1 m3.

Lemma main_step_left m m' : main_step m m' -> (S (steps_left m') <= steps_left m + adds m m')%nat.
Proof.
  destruct 1 as [s session event events sent phase s' Hfree Hf|s session events sent f f' s' Hfree Hf
    |s session events sent unmount|s session event events sent|s session sent]; unfold steps_left, adds; simpl.
  - destruct event; [rewrite first_shutdown in Hf|]; injection Hf as <- <-; simpl; lia.
  - destruct Hf; simpl; lia.
  - destruct unmount; simpl; lia.
  - destruct event; simpl; lia.
  - lia.
Qed.

Lemma other_step_left m m' : step m m' -> ~ main_step m m' -> (steps_left m' <= steps_left m + adds m m')%nat.
Proof.
  intros Hst Hno. destruct Hst as [ | | | |m m' [ ]| | | ]; unfold steps_left, adds; simpl;
    rewrite ?length_app; simpl; try done; destruct phase; simpl; lia.
Qed.

Lemma goes_left k n m m' : goes k n m m' -> (k + steps_left m' <= steps_left m + n)%nat.
Proof.
  induction 1 as [m|k n m1 m2 m3 Hst _ IH|k n m1 m2 m3 Hst Hno _ IH]; [lia|..].
  - pose proof (main_step_left _ _ Hst). lia.
  - pose proof (other_step_left _ _ Hst Hno). lia.
Qed.

(** Only an event that has not come stops the main thread, or the lock that the session has
    while it flushes. *)
Lemma main_progress S0 m : mount_ok S0 m ->
  (exists m', main_step m m' \/ session_flush m m') \/
  (m_phase m = Waiting /\ m_events m = []) \/ exists r, m_phase m = Exited r.
Proof.
  intros [Hinv _ _ Hmain Hses Hlock _ _]. destruct m as [s phase session events sent]; simpl in *.
  assert (~ free_of_session session -> exists m', session_flush (mkMount s phase session events sent) m') as Hother.
  { unfold free_of_session. destruct session as [|s0 q t|f|]; simpl in *; try done. intros Hf.
    destruct (section_progress f s Hinv Hses) as [->|(f' & s' & Hst)]; [done|].
    eexists. apply (session_flush_step _ _ _ _ _ f' s'); [|done]. by destruct Hlock. }
  assert (free_of_session session \/ ~ free_of_session session) as [Hfree|Hheld]
    by (unfold free_of_session; destruct (holds_lock _); auto).
  2: { left. destruct (Hother Hheld) as [m' Hm']. exists m'. by right. }
  destruct phase as [|f| |r].
  - destruct events as [|[|result] events]; [by right; left|left..]; eexists; left; by eapply main_first.
  - left. destruct (section_progress f s Hinv Hmain) as [->|(f' & s' & Hf)]; eexists; left.
    + by apply (main_unmount _ _ _ _ None).
    + by eapply main_flush.
  - left. destruct events as [|event events]; eexists; left; [apply main_timeout|apply main_drain].
  - right; right. by exists r.
Qed.

Lemma main_waiting_left m m' : main_step m m' -> m_phase m' <> Waiting.
Proof.
  destruct 1 as [s session event events sent phase s' Hfree Hf|s session events sent f f' s' Hfree Hf
    |s session events sent unmount|s session event events sent|s session sent]; simpl; try done.
  - destruct event; [rewrite first_shutdown in Hf|]; by injection Hf as <- <-.
  - by destruct unmount.
  - by destruct event.
Qed.

(** A message stays until the main thread takes it. *)
Lemma event_stays m m' :
  step m m' -> m_phase m' = Waiting -> (m_phase m = Waiting -> m_events m <> []) -> m_events m' <> [].
Proof.
  intros Hst Hp Hev. destruct Hst as [ | | | |m m' [ ]| | |m m' Hst]; simpl in *; auto;
    [by intros []%app_nil..|by destruct (main_waiting_left _ _ Hst)].
Qed.

(** C6. Once a signal or the end of the session has come, the process ends. However the
    steps of the session come between, the main thread makes at most one step for each event
    and each slot that it finds and six more (the lock, its release, the sync, the record, the
    unmount and the end of the grace period); it waits for nothing but a flush of the
    session, and where nothing is left to do it has exited. *)
Theorem main_thread_ends s m :
  fs_inv s -> reaches (started s) m -> m_phase m <> Waiting \/ m_events m <> [] ->
  (forall k n m', goes k n m m' -> (k <= 6 + length (m_events m) + slots_todo (m_phase m) + n)%nat) /\
  (forall m', reaches m m' ->
     (forall m2, ~ main_step m' m2 /\ ~ session_flush m' m2) -> exists r, m_phase m' = Exited r).
Proof.
  intros Hinv Hr Hev. pose proof (reaches_ok _ _ _ (started_ok s Hinv) Hr) as Hm. split.
  - intros k n m' Hk%goes_left. unfold steps_left in Hk at 2. destruct (m_phase m) as [|[]| |]; simpl in *; lia.
  - intros m' Hrm Hstop. assert (mount_ok s m' /\ (m_phase m' = Waiting -> m_events m' <> [])) as [Hm' Hev'].
    { assert (m_phase m = Waiting -> m_events m <> []) as Hw by (by destruct Hev).
      clear Hr Hstop Hev. induction Hrm as [m|m m1 m2 _ IH Hne Hst]; [done|].
      destruct (IH Hm Hw) as [Hm1 Hw1]. split; [by eapply step_ok|]. intros Hp. by eapply event_stays. }
    destruct (main_progress _ m' Hm') as [(m2 & [Hst|Hst])|[[Hp He]|]]; [by destruct (Hstop m2)..|by destruct (Hev' Hp)|done].
Qed.
End exit.
