(* ===== verification/Storage.v ===== *)
(** * Storage: what the storage layer promises

    The contracts of the operations of the database layer under its invariant, as
    total triples; a failed operation leaves the tables as they were. *)

From S2P Require Import Prelude Effects Model Chunk Arena OpenTable Sql DbData DbNames Tree.
From S2P Require Import NamesSpec NamesView DbVolume.

Section storage.
Context `{World}.
Implicit Types (c : Conn) (ino size offset p : Z).

(** Why a file operation is refused. *)
Inductive file_refused (t : Tables) ino : DbError -> Prop :=
  | rf_missing : t_inodes t !! ino = None -> file_refused t ino NotFound
  | rf_kind r k e : t_inodes t !! ino = Some r -> row_kind r = Some k ->
      regular_file_error k = Some e -> file_refused t ino e.

(** C29. A batch of writes is one transaction: all of them are laid over the file in
    order, chunk by chunk, or none of them; no other file changes, and the rows stay
    consistent. A batch with a write past the largest file is refused as a whole. *)
Theorem write_batch_correct c ino ws modified :
  data_wf (tables c) -> valid_ino ino -> (forall w, w ∈ ws -> 0 <= w.1) ->
  wp (write_file_batch_at ino ws modified)
    (fun n c' => exists r, regular (tables c) ino r /\
       ((n = 0 /\ Forall (fun w => zlen w.2 = 0) ws /\ tables c' = tables c) \/
        (n = u32 (foldl (fun n w => n + zlen w.2) 0 ws) /\ Forall (fun w => ~ too_large w) ws /\
         file_set ino (foldl write_size (r_size r) ws) (to_ns modified)
           (foldl write_bytes (stored_byte (tables c) ino) ws) (tables c) (tables c'))))
    (fun e c' => tables c' = tables c /\
       ((e = FileTooLarge /\ Exists too_large ws) \/ file_refused (tables c) ino e \/ engine_error e)) c.
Proof.
  intros Hwf Hi Hpos. apply wp_write_file_batch_at; try done.
  - intros r c' Hr Hz Hc. exists r. split; [done|]. by left.
  - intros r c' Hr Hl Hf. exists r. split; [done|]. by right.
  - intros r c' Hr Hl Hc. split; [done|]. by left.
  - intros r k e c' Hr Hk He Hc. split; [done|]. right; left. by eapply rf_kind.
  - intros c' Hn Hc. split; [done|]. right; left. by constructor.
  - intros e c' He Hc. split; [done|]. by right; right.
Qed.

(** C30. Truncation, both ways: the size is the new one, the bytes below it are kept and
    all others read as zero from then on, also when the file grows again. *)
Theorem truncate_correct c ino size :
  data_wf (tables c) -> valid_ino ino -> 0 <= size ->
  wp (truncate_file ino size)
    (fun _ c' => size <= MAX_FILE_SIZE /\ exists r now, regular (tables c) ino r /\
       file_set ino size (to_ns now)
         (fun p => if decide (p < size) then stored_byte (tables c) ino p else x00)
         (tables c) (tables c'))
    (fun e c' => tables c' = tables c /\
       ((e = FileTooLarge /\ MAX_FILE_SIZE < size) \/ file_refused (tables c) ino e \/ engine_error e)) c.
Proof.
  intros Hwf Hi Hs. apply wp_truncate_file; try done.
  - intros r now c' Hr Hm Hf. split; [done|]. by exists r, now.
  - intros r c' Hr Hm Hc. split; [done|]. by left.
  - intros r k e c' Hr Hk He Hc. split; [done|]. right; left. by eapply rf_kind.
  - intros c' Hn Hc. split; [done|]. right; left. by constructor.
  - intros e c' He Hc. split; [done|]. by right; right.
Qed.

(** A read from storage after a batch of one write: the bytes of the write, in a file
    that other rows of the database cannot disturb. *)
Theorem storage_roundtrip c ino offset data modified :
  data_wf (tables c) -> valid_ino ino -> 0 <= offset -> data <> [] ->
  wp (write_file_batch_at ino [(offset, data)] modified ;; read_file ino offset (zlen data))
    (fun out c' => out = data /\ data_wf (tables c'))
    (fun e c' => data_wf (tables c') /\
       ((e = FileTooLarge /\ MAX_FILE_SIZE < offset + zlen data) \/
        file_refused (tables c) ino e \/ engine_error e)) c.
Proof.
  intros Hwf Hi Ho Hne. pose proof (zlen_nonneg data) as Hz.
  assert (zlen data <> 0) as Hnz by (intros E; by apply Hne, zlen_0_inv).
  apply wp_bind, wp_write_file_batch_at; try done.
  - by intros w ->%list_elem_of_singleton.
  - intros r c1 Hr Hall _. exfalso. apply Forall_cons in Hall as [Hall _]. by apply Hnz.
  - intros r c1 Hr Hl Hf. apply Forall_cons in Hl as [Hl _]. unfold too_large in Hl. cbn [fst snd foldl] in *.
    pose proof (DbData.fs_wf _ _ _ _ _ _ Hf) as Hwf1. pose proof (file_set_regular _ _ _ _ _ _ _ Hf Hr) as Hr1.
    set (sz := write_size (r_size r) (offset, data)) in *.
    assert (offset + zlen data <= sz) as Hsz.
    { subst sz. unfold write_size. cbn [fst snd]. destruct (Z.eqb_spec (zlen data) 0); lia. }
    apply wp_read_file; try done.
    + intros r2 out c2 Hr2 Hc2 Hlen Hout.
      assert (r2 = row_set_size sz (to_ns modified) r) as -> by (destruct Hr1, Hr2; congruence).
      simpl in Hlen. split; [|congruence].
      assert (zlen out = zlen data) as Hld by lia. apply zlist_eq; [done|]. intros i Hin.
      rewrite Hout by done. rewrite (fs_bytes _ _ _ _ _ _ Hf) by lia.
      unfold write_bytes. cbn [fst snd]. rewrite decide_True by lia. f_equal. lia.
    + intros r2 k e c2 Hr2 Hk He _. destruct Hr1 as [Hr1 Hk1].
      rewrite Hr1 in Hr2. injection Hr2 as <-. rewrite Hk1 in Hk. by injection Hk as <-.
    + intros c2 Hn _. destruct Hr1. congruence.
    + intros e c2 He Hc2. split; [congruence|]. by right; right.
  - intros r c1 Hr Hl Hc1. split; [congruence|]. left. split; [done|].
    by apply Exists_exists in Hl as (w & ->%list_elem_of_singleton & Hw).
  - intros r k e c1 Hr Hk He Hc1. split; [congruence|]. right; left. by eapply rf_kind.
  - intros c1 Hn Hc1. split; [congruence|]. right; left. by constructor.
  - intros e c1 He Hc1. split; [congruence|]. by right; right.
Qed.

(** C31. The ancestor search of a rename answers for every tree: the walk from a directory
    to the root ends within its bound, and finds the other directory exactly when it is
    on the way. *)
Theorem is_descendant_correct c ino a :
  fs_wf (tables c) -> kind_of (tables c) ino = Some Directory ->
  wp (is_descendant ino a)
    (fun b c' => tables c' = tables c /\ (b = true <-> under (t_dirents (tables c)) a ino))
    (fun e c' => tables c' = tables c /\ engine_error e) c.
Proof. intros Hwf Hk. by apply wp_is_descendant. Qed.
End storage.
