(* ===== verification/Instances.v ===== *)
(** * Instances: the theorems at concrete inputs

    Each contract applied to the small file systems of [Samples], where its
    hypotheses hold. *)

From S2P Require Import Prelude Effects Model Chunk Arena OpenTable Sql DbData DbNames Tree.
From S2P Require Import NamesSpec NamesView DbVolume Fuse FuseInv FuseFlush FuseWrite FuseRead.
From S2P Require Import FuseOps FuseHandles FuseSpec FuseLifecycle FuseNames DirStream Samples.
From S2P Require Import FuseResize FuseAttr Views Answers ViewOf Serve Refinement Isolation.
From S2P Require Import Correctness Attributes Specification Storage.

#[local] Existing Instance sample_world.
#[local] Existing Instance key_order.

Lemma sample_inv : fs_inv sample_fs.
Proof. apply sample_facts. Qed.

Lemma sample_contents : contents sample_fs 2 0 (fun _ => x00).
Proof. apply sample_facts. Qed.

Lemma sample_kind : kind_of (tables (fs_db sample_fs)) 2 = Some RegularFile.
Proof. apply sample_facts. Qed.

Lemma two_valid : valid_ino 2.
Proof. unfold valid_ino. clia. Qed.

Definition served_state (s : Fs) (q : Request) : Fs := state_of s (serve q s).

Lemma served_inv s q : fs_inv s -> asked s q -> fs_inv (served_state s q).
Proof.
  intros Hinv Hq. pose proof (serves_request s q Hinv Hq) as Hs. unfold serves, wp in Hs.
  unfold served_state, state_of. destruct (serve q s); try done. apply Hs.
Qed.

(** The file with three bytes that are buffered, without its name, and next to a directory. *)
Definition dirty_fs : Fs := served_state sample_fs (QWrite 0 1 [x41; x42]).
Definition nameless_fs : Fs := served_state sample_fs (QUnlink 1 sample_name).
Definition dir_fs : Fs := served_state sample_fs (QMkdir 1 [x64] 493 18 1000 1000).

Lemma dirty_inv : fs_inv dirty_fs.
Proof. apply served_inv; [apply sample_inv|]. split; vm_compute; discriminate. Qed.

Lemma nameless_inv : fs_inv nameless_fs.
Proof. apply served_inv; [apply sample_inv|]. split; [apply root_valid|vm_compute; reflexivity]. Qed.

Lemma dir_inv : fs_inv dir_fs.
Proof. apply served_inv; [apply sample_inv|apply root_valid]. Qed.

(** What is buffered of the file of [dirty_fs], and what is stored. *)
Definition dirty_bytes : Z -> byte := file_byte (tables (fs_db dirty_fs)) (fs_table dirty_fs) 2.

Lemma dirty_contents : contents dirty_fs 2 3 dirty_bytes.
Proof. split; [vm_compute; reflexivity|reflexivity]. Qed.

Example dirty_unstored :
  dirty_bytes 1 = x41 /\ stored_byte (tables (fs_db dirty_fs)) 2 1 = x00.
Proof. vm_compute. split; reflexivity. Qed.

Lemma dirty_named : ~ unlinked_open dirty_fs 2.
Proof. intros (e & He & Hu). vm_compute in He. injection He as <-. discriminate. Qed.

Lemma nameless_last : unlinked_open nameless_fs 2 /\ last_handle nameless_fs 0 2.
Proof.
  split; [eexists; split; vm_compute; reflexivity|]. intros fh (i & Hi & _)%bind_Some.
  apply handles_get_Some in Hi as [Hi%vget_Some _].
  assert (zlen (h_slot (handles (fs_table nameless_fs))) = 1) as Hl by (vm_compute; reflexivity). lia.
Qed.

Lemma write_fh_correct_witness :
  wp (Dbfs.write_fh 0 3 [x41; x42])
    (fun n s' => n = 2 /\ exists size f,
       file_changed sample_fs s' 2 (write_size size (3, [x41; x42])) (write_bytes f (3, [x41; x42])))
    (fun e s' => write_failed sample_fs s' 0 3 [x41; x42] e) sample_fs.
Proof.
  eapply wp_mono; [apply (write_fh_correct sample_fs 0 3 [x41; x42])| |done].
  - apply sample_inv.
  - done.
  - vm_compute. discriminate.
  - intros n s' (-> & ino & size & f & Hf & _ & _ & Hch). rewrite sample_handle in Hf.
    injection Hf as <-. split; [done|]. by exists size, f.
Defined.

Lemma read_fh_correct_witness :
  wp (Dbfs.read_fh 0 0 10) (fun _ s' => same_state sample_fs s') (fun _ s' => same_state sample_fs s') sample_fs.
Proof.
  eapply wp_mono; [apply (read_fh_correct sample_fs 0 0 10); [apply sample_inv|done..]|..].
  - intros out s' [Hs _]. done.
  - intros e s' [Hs _]. done.
Defined.

Lemma read_after_write_witness :
  wp (Dbfs.write_fh 0 70000 [x41; x42] ;; Dbfs.read_fh 0 70000 2)
    (fun out _ => out = [x41; x42]) (fun e _ => db_failure e) sample_fs.
Proof.
  eapply wp_mono; [apply (read_after_write sample_fs 0 0 2 0 (fun _ => x00) 70000 [x41; x42])|..].
  - apply sample_inv.
  - apply sample_handle.
  - apply sample_handle.
  - apply sample_kind.
  - apply sample_closing.
  - apply sample_contents.
  - done.
  - vm_compute. discriminate.
  - intros out s' [Ho _]. done.
  - done.
Defined.

Lemma shutdown_durable_witness :
  wp Shared.flush_for_shutdown
    (fun _ s' => closing (fs_table s') = true /\
       (~ unlinked_open s' 2 -> contents (remounted s' sample_budget) 2 3 dirty_bytes))
    (fun e _ => e = EIO \/ db_failure e) dirty_fs.
Proof.
  eapply wp_mono; [apply (shutdown_durable dirty_fs sample_budget); [apply dirty_inv|done]|..].
  - intros _ s' (_ & _ & Hc & _ & _ & Hfiles). split; [exact Hc|]. intros Hno.
    apply (Hfiles 2 3 dirty_bytes); [apply two_valid|exact Hno|apply dirty_contents].
  - intros e s' (_ & _ & _ & _ & He). exact He.
Defined.

(** Before the flush a mount would show a zero where the file system shows what was written. *)
Lemma flush_durable_witness :
  wp (Dbfs.flush_fh 0)
    (fun _ s' => contents (remounted s' sample_budget) 2 3 dirty_bytes) (fun e _ => db_failure e) dirty_fs.
Proof.
  assert (handle_ino (fs_table dirty_fs) 0 = Some 2) as Hh by (vm_compute; reflexivity).
  eapply wp_mono; [apply (flush_durable dirty_fs 0 sample_budget); apply dirty_inv|..].
  - intros _ s' (ino & Hf & _ & _ & _ & Hc). rewrite Hh in Hf. injection Hf as <-.
    apply Hc; [apply dirty_named|apply dirty_contents].
  - intros e s' [(_ & Hno & _)|[He _]]; [rewrite Hh in Hno; discriminate|exact He].
Defined.

Lemma write_correct_witness :
  wp (Dbfs.write 2 5 [x41]) (fun n _ => n = 1) (fun _ s' => fs_inv s') sample_fs.
Proof.
  eapply wp_mono; [apply (write_correct sample_fs 2 5 [x41])|..].
  - apply sample_inv.
  - apply two_valid.
  - by rewrite sample_kind.
  - right. vm_compute. reflexivity.
  - done.
  - vm_compute. discriminate.
  - intros n s' [Hn _]. done.
  - intros e s' [Hinv _]. done.
Defined.

Lemma open_correct_witness :
  wp (Dbfs.open 2) (fun fh s' => opened sample_fs s' fh 2) (fun _ s' => same_state sample_fs s') sample_fs.
Proof.
  eapply wp_mono; [apply (open_correct sample_fs 2)|..].
  - apply sample_inv.
  - apply two_valid.
  - by rewrite sample_kind.
  - right. vm_compute. reflexivity.
  - vm_compute. reflexivity.
  - done.
  - intros e s' [Hs _]. done.
Defined.

Lemma create_open_correct_witness :
  wp sample_open (fun r s' => contents s' (fa_ino r.1) 0 (fun _ => x00)) (fun _ s' => same_state empty_fs s') empty_fs.
Proof.
  eapply wp_mono; [apply (create_open_correct empty_fs 1 sample_name 420 18 1000 1000)|..].
  - apply empty_inv.
  - apply root_valid.
  - by right.
  - done.
  - intros r s' (now & ino & s1 & <- & _ & _ & Hc). done.
  - intros e s' [Hs _]. done.
Defined.

Lemma unlink_correct_witness :
  wp (Dbfs.unlink 1 sample_name)
    (fun _ s' => fs_inv s' /\ tree_set (tables (fs_db sample_fs)) (tables (fs_db s')) 1 sample_name None)
    (fun _ s' => same_state sample_fs s') sample_fs.
Proof.
  eapply wp_mono; [apply (unlink_correct sample_fs 1 sample_name)|..].
  - apply sample_inv.
  - apply root_valid.
  - vm_compute. reflexivity.
  - intros _ s' (k & d & r & K & _ & _ & Ht & Hinv & _). done.
  - intros e s' [Hs _]. done.
Defined.

(** The last handle of a file without names. *)
Lemma release_correct_witness :
  wp (Dbfs.release_file 0)
    (fun _ s' => t_inodes (tables (fs_db s')) !! 2 = None) (fun e _ => db_failure e) nameless_fs.
Proof.
  assert (handle_ino (fs_table nameless_fs) 0 = Some 2) as Hh by (vm_compute; reflexivity).
  eapply wp_mono; [apply (release_correct nameless_fs 0); apply nameless_inv|..].
  - intros _ s' (ino & Hf & _ & _ & Hout). rewrite Hh in Hf. injection Hf as <-.
    destruct Hout as [_ _ Hrow _ _ _|Hno _ _]; [exact Hrow|]. destruct (Hno nameless_last).
  - intros e s' [(_ & Hno & _)|(ino & _ & He & _)]; [rewrite Hh in Hno; discriminate|exact He].
Defined.

Lemma rename_correct_witness :
  wp (Dbfs.rename 1 sample_name 1 [x62] 0)
    (fun _ s' => tree_moved (tables (fs_db sample_fs)) (tables (fs_db s')) 1 sample_name 1 [x62])
    (fun _ s' => same_state sample_fs s') sample_fs.
Proof.
  eapply wp_mono; [apply (rename_correct sample_fs 1 sample_name 1 [x62] 0)|..].
  - apply sample_inv.
  - apply root_valid.
  - apply root_valid.
  - vm_compute. reflexivity.
  - intros _ s' (_ & _ & _ & Ht). destruct Ht as [Ht _]; [by intros [_ ?]|done].
  - intros e s' [Hs _]. done.
Defined.

Lemma rmdir_correct_witness :
  wp (Dbfs.rmdir 1 [x64]) (fun _ s' => child_of (tables (fs_db s')) 1 [x64] = None)
    (fun _ s' => same_state dir_fs s') dir_fs.
Proof.
  eapply wp_mono; [apply (rmdir_correct dir_fs 1 [x64])|..].
  - apply dir_inv.
  - apply root_valid.
  - intros _ s' (k & d & r & _ & _ & _ & _ & _ & _ & Ht). rewrite (Ht 1 [x64]).
    apply decide_True. split; reflexivity.
  - intros e s' [Hs _]. exact Hs.
Defined.

Example rmdir_sample : is_ok (Dbfs.rmdir 1 [x64] dir_fs) = true.
Proof. vm_compute. reflexivity. Qed.

Lemma readdir_correct_witness :
  wp (Dbfs.readdir 1 0) (fun out _ => StronglySorted Z.lt (dd_offset <$> out))
    (fun _ s' => same_state sample_fs s') sample_fs.
Proof.
  eapply wp_mono; [apply (readdir_correct sample_fs 1 0)|..].
  - apply sample_inv.
  - apply root_valid.
  - done.
  - intros k [d Hk]. assert (t_dirents (tables (fs_db sample_fs)) =
      {[1 := mkDirentRow 1 sample_name 2]}) as Hd by (vm_compute; reflexivity).
    rewrite Hd in Hk. apply lookup_singleton_Some in Hk as [<- _]. done.
  - intros out s' (_ & Hs & _). done.
  - intros e s' [Hs _]. done.
Defined.

(** ** Attributes, links and new nodes *)

Lemma getattr_correct_witness :
  wp (Dbfs.getattr 2) (fun attr s' => fa_ino attr = 2) (fun _ s' => same_state sample_fs s') sample_fs.
Proof.
  eapply wp_mono; [apply (getattr_correct sample_fs 2); [apply sample_inv|apply two_valid]|..].
  - intros attr s' (_ & r & K & Ha). apply Ha.
  - intros e s' [Hs _]. done.
Defined.

(** A change of the owner alone keeps the time of the buffered write and every other row. *)
Lemma setattr_correct_witness :
  wp (Dbfs.setattr 2 None (Some 7) None None None None)
    (fun _ s' => contents s' 2 3 dirty_bytes /\ rows_but 2 dirty_fs s' /\
       exists r r', buffered_row (tables (fs_db dirty_fs)) (fs_table dirty_fs) 2 = Some r /\
         r_uid r' = 7 /\ r_mtime_ns r' = to_ns (from_ns (r_mtime_ns r)))
    (fun _ s' => fs_inv s') dirty_fs.
Proof.
  eapply wp_mono; [apply (setattr_correct dirty_fs 2 (mkAttrChange None (Some 7) None None None None))|..].
  - apply dirty_inv.
  - apply two_valid.
  - discriminate.
  - intros attr s' Hset. split; [apply (as_file _ _ _ _ _ Hset 3), dirty_contents|].
    split; [apply Hset|]. destruct (as_row _ _ _ _ _ Hset) as (r & r' & K & Hr & Hch & _).
    destruct Hch as (_ & _ & _ & Hu & _ & _ & Hm). exists r, r'. split; [exact Hr|]. split; [exact Hu|].
    apply Hm. reflexivity.
  - intros e s' [(_ & Hi & _)|(_ & Hi & _)]; exact Hi.
Defined.

Lemma fallocate_correct_witness :
  wp (Dbfs.fallocate 2 10 20 0)
    (fun _ s' => file_size (tables (fs_db s')) (fs_table s') 2 = Some 30) (fun _ s' => fs_inv s') sample_fs.
Proof.
  eapply wp_mono; [apply (fallocate_correct sample_fs 2 10 20 0); [apply sample_inv|apply two_valid]|..].
  - intros _ s' (size & f & _ & _ & _ & _ & _ & Hc & Hch & _).
    assert (size = 0) as -> by (apply (contents_size _ _ _ _ _ _ sample_contents Hc)).
    exact (proj1 (fc_contents _ _ _ _ _ Hch)).
  - intros e s' [[_ Hs]|(_ & Hi & _)]; [|exact Hi]. eapply same_state_inv; [exact Hs|apply sample_inv].
Defined.

Lemma sync_correct_witness :
  wp (Dbfs.sync_fh 0) (fun _ s' => quiet sample_fs s') (fun _ _ => True) sample_fs.
Proof.
  eapply wp_mono; [apply (sync_correct sample_fs 0 sample_budget); apply sample_inv|..].
  - intros _ s' (ino & _ & _ & Hq & _). done.
  - done.
Defined.

Lemma mkdir_correct_witness :
  wp (Dbfs.mkdir 1 [x62] 493 18 1000 1000)
    (fun attr s' => tree_set (tables (fs_db sample_fs)) (tables (fs_db s')) 1 [x62] (Some (fa_ino attr)))
    (fun _ s' => same_state sample_fs s') sample_fs.
Proof.
  eapply wp_mono; [apply (mkdir_correct sample_fs 1 [x62] 493 18 1000 1000)|..].
  - apply sample_inv.
  - apply root_valid.
  - intros attr s' (now & _ & Ht & _). done.
  - intros e s' [Hs _]. done.
Defined.

Lemma symlink_correct_witness :
  wp (attr ← Dbfs.symlink 1 [x62] [x2f; x61] 1000 1000; target ← Dbfs.readlink (fa_ino attr);
      mret (attr, target))
    (fun r _ => r.2 = [x2f; x61]) (fun _ _ => True) sample_fs.
Proof.
  eapply wp_mono; [apply (symlink_correct sample_fs 1 [x62] [x2f; x61] 1000 1000)|..].
  - apply sample_inv.
  - apply root_valid.
  - done.
  - intros r s' [Hr _]. done.
  - done.
Defined.

Lemma link_correct_witness :
  wp (Dbfs.link 2 1 [x62])
    (fun attr s' => fa_nlink attr = 2 /\ fs_inv s') (fun _ s' => same_state sample_fs s') sample_fs.
Proof.
  eapply wp_mono; [apply (link_correct sample_fs 2 1 [x62])|..].
  - apply sample_inv.
  - apply two_valid.
  - apply root_valid.
  - intros (e & He & Hu). assert (entry_of (fs_table sample_fs) 2 =
      Some (with_refs (fresh_entry 2 RegularFile 0) 1)) as Hs by (vm_compute; reflexivity).
    rewrite Hs in He. by injection He as <-.
  - vm_compute. reflexivity.
  - intros attr s' [Hl _]. split; [|apply Hl].
    destruct (lk_row _ _ _ _ _ _ Hl) as (r & K & Hr & _ & _ & _ & _ & Hn & _).
    assert (r_nlink <$> t_inodes (tables (fs_db sample_fs)) !! 2 = Some 1) as H1 by (vm_compute; reflexivity).
    rewrite Hr in H1. injection H1 as H1. by rewrite Hn, H1.
  - intros e s' [Hs _]. done.
Defined.

(** ** The storage layer *)

Lemma sample_data_wf : data_wf (tables (fs_db sample_fs)).
Proof. apply sample_inv. Qed.

Lemma write_batch_correct_witness :
  wp (write_file_batch_at 2 [(0, [x41]); (1, [x42])] EPOCH)
    (fun n _ => n = 0 \/ n = 2) (fun _ c' => tables c' = tables (fs_db sample_fs)) (fs_db sample_fs).
Proof.
  eapply wp_mono; [apply (write_batch_correct (fs_db sample_fs) 2 [(0, [x41]); (1, [x42])] EPOCH)|..].
  - apply sample_data_wf.
  - apply two_valid.
  - intros w [->|[->|Hw]%elem_of_cons]%elem_of_cons; [done..|by apply elem_of_nil in Hw].
  - intros n c' (r & _ & [(-> & _)|(-> & _)]); [by left|by right].
  - intros e c' [Hc _]. done.
Defined.

Lemma truncate_correct_witness :
  wp (truncate_file 2 100) (fun _ c' => exists r, t_inodes (tables c') !! 2 = Some r /\ r_size r = 100) (fun _ c' => tables c' = tables (fs_db sample_fs)) (fs_db sample_fs).
Proof.
  eapply wp_mono; [apply (truncate_correct (fs_db sample_fs) 2 100)|..].
  - apply sample_data_wf.
  - apply two_valid.
  - done.
  - intros _ c' (_ & r & now & [Hr _] & Hf). exists (row_set_size 100 (to_ns now) r).
    rewrite (fs_inodes _ _ _ _ _ _ Hf), lookup_alter_eq, Hr. split; reflexivity.
  - intros e c' [Hc _]. done.
Defined.

Lemma storage_roundtrip_witness :
  wp (write_file_batch_at 2 [(65535, [x41; x42])] EPOCH ;; read_file 2 65535 2)
    (fun out _ => out = [x41; x42]) (fun _ c' => data_wf (tables c')) (fs_db sample_fs).
Proof.
  eapply wp_mono; [apply (storage_roundtrip (fs_db sample_fs) 2 65535 [x41; x42] EPOCH)|..].
  - apply sample_data_wf.
  - apply two_valid.
  - done.
  - done.
  - intros out c' [Ho _]. done.
  - intros e c' [Hc _]. done.
Defined.

Lemma is_descendant_correct_witness :
  wp (is_descendant 1 2) (fun b _ => b = true <-> under (t_dirents (tables (fs_db sample_fs))) 2 1)
    (fun e _ => engine_error e) (fs_db sample_fs).
Proof.
  eapply wp_mono; [apply (is_descendant_correct (fs_db sample_fs) 1 2)|..].
  - apply sample_inv.
  - vm_compute. reflexivity.
  - intros b c' [_ Hb]. done.
  - intros e c' [_ He]. done.
Defined.

(** ** Requests and runs *)

Lemma serve_refines_witness :
  exists a s', serve (QUnlink 1 sample_name) sample_fs = Ok a s' /\
    answers (view sample_fs) (QUnlink 1 sample_name) a (view s').
Proof.
  destruct (serve_refines sample_fs (QUnlink 1 sample_name)) as (a & s' & Hs & _ & Ha).
  - apply sample_inv.
  - split; [apply root_valid|vm_compute; reflexivity].
  - by exists a, s'.
Defined.

(** A file is written, loses its only name, is read and let go. *)
Definition sample_log : list (Request * Answer) :=
  [(QWrite 0 1 [x41; x42], AReply (ReplyWritten 2)); (QUnlink 1 sample_name, AReply ReplyOk);
   (QRead 0 0 10, AReply (ReplyData [x00; x41; x42])); (QRelease 0, AReply ReplyOk)].

Definition sample_end : Fs := fold_left (fun s e => served_state s e.1) sample_log sample_fs.

Definition answer_of (o : outcome Fs Z Answer) : option Answer := match o with Ok a _ => Some a | _ => None end.

Lemma run_step s q a log s' :
  asked s q -> answer_of (serve q s) = Some a -> runs (served_state s q) log s' -> runs s ((q, a) :: log) s'.
Proof.
  intros Hq Ha Hr. eapply runs_cons; [done| |exact Hr]. unfold served_state.
  destruct (serve q s); try done. by injection Ha as ->.
Qed.

Lemma sample_run : runs sample_fs sample_log sample_end.
Proof.
  apply run_step; [split; vm_compute; discriminate|vm_compute; reflexivity|].
  apply run_step; [split; [apply root_valid|vm_compute; reflexivity]|vm_compute; reflexivity|].
  apply run_step; [vm_compute; discriminate|vm_compute; reflexivity|].
  apply run_step; [done|vm_compute; reflexivity|].
  apply runs_nil.
Qed.

Lemma run_refines_witness :
  fs_inv sample_end /\ allowed (view sample_fs) sample_log (view sample_end).
Proof. apply (run_refines sample_fs sample_log sample_end); [apply sample_inv|apply sample_run]. Defined.

Lemma rows_decode_witness :
  fs_inv sample_end /\
  forall k d, t_dirents (tables (fs_db sample_end)) !! k = Some d ->
    is_Some (t_inodes (tables (fs_db sample_end)) !! d_child d).
Proof.
  split; [apply (runs_invariant sample_fs sample_log); [apply sample_inv|apply sample_run]|].
  destruct (rows_decode sample_fs sample_log sample_end) as (_ & Hd & _); [apply sample_inv|apply sample_run|].
  intros k d Hk. apply (Hd k d Hk).
Defined.

Lemma crash_keeps_tree_witness :
  fs_inv (remounted sample_end sample_budget) /\
  forall i, v_kind (view (remounted sample_end sample_budget)) i = v_kind (view sample_end) i.
Proof.
  destruct (crash_keeps_tree sample_fs sample_log sample_end sample_budget) as (Hinv & _ & Hk & _).
  - apply sample_inv.
  - apply sample_run.
  - done.
  - done.
Defined.

Definition sample_unlink : list (Request * Answer) := [(QUnlink 1 sample_name, AReply ReplyOk)].

Lemma open_file_keeps_witness :
  handle_ino (fs_table (served_state sample_fs (QUnlink 1 sample_name))) 0 = Some 2.
Proof.
  apply (open_file_keeps sample_fs sample_unlink (served_state sample_fs (QUnlink 1 sample_name)) 0 2).
  - apply sample_inv.
  - apply run_step; [split; [apply root_valid|vm_compute; reflexivity]|vm_compute; reflexivity|].
    apply runs_nil.
  - apply sample_handle.
  - by repeat constructor.
Defined.
