(* ===== verification/Disks.v ===== *)
(** * Disks: opening at concrete database files

    A file in the first layout, a new file, and the file of a file system that crashed
    after the last name of an open file had been removed. *)

From stdpp Require Import strings.
From S2P Require Import Prelude Effects Model Chunk Arena OpenTable Sql DbData DbNames Tree.
From S2P Require Import NamesSpec DbVolume Schema SchemaSpec StartUp Fuse FuseInv FuseOps Views.
From S2P Require Import FuseLifecycle ViewOf Serve Sections Refinement SectionsSpec Closing Samples.
From S2P Require Import Instances Recovery Cli Run RunSpec.

#[local] Existing Instance sample_world.
#[local] Existing Instance key_order.

(** ** The first layout *)

Definition old_root : SplitRow := mkSplitRow (as_i64 Directory) 493 0 0 0 1600000000 1600000000 1600000000 5 0 0 0.
Definition old_file : SplitRow := mkSplitRow (as_i64 RegularFile) 420 0 0 1 1600000000 (-5) 1600000000 1 0 0 0.

(** A file of one byte, and a chunk that no inode has. *)
Definition old_disk : Disk :=
  mkDisk (Some (SplitInodes [] {[1 := old_root; 2 := old_file]}))
    (Some (KeyedDirents {[(1, [x61]) := 2]})) (Some (PairChunks {[(2, 0) := [x41]; (9, 0) := [x42]]}))
    (Some ∅) [] 0.

Lemma old_layout : layout_ok old_disk.
Proof.
  constructor; try done; try (by eexists).
  - intros columns rows [= <- _] x []%not_elem_of_nil.
  - intros rows ino x data [= <-].
    intros [[[= <- <-] _]|[_ [[= <- <-] _]%lookup_singleton_Some]]%lookup_insert_Some; lia.
Qed.

Lemma migrate_correct_witness :
  wp migrate (fun _ c' => current_layout (dc_disk c') /\ same_content old_disk (dc_disk c'))
    (fun e c' => migrate_refused old_disk e \/ engine_error e) (mkDiskConn old_disk 1 0).
Proof.
  eapply wp_mono; [apply (migrate_correct (mkDiskConn old_disk 1 0)); exact old_layout|..]; simpl.
  - intros _ c' (Hl & Hsc & _). by split.
  - intros e c' [[He _]|[He _]]; [by right|by left].
Defined.

(** What it does here. *)
Example migrate_old_disk :
  match migrate (mkDiskConn old_disk 1 0) with
  | Ok _ c' => tables_of (dc_disk c') = upgraded old_disk /\ is_Some (upgraded old_disk)
  | _ => False
  end.
Proof. vm_compute. split; [reflexivity|by eexists]. Qed.

(** ** A new file *)

Lemma new_only_root i : i <> 1 -> t_inodes (counted no_tables) !! i = None.
Proof.
  intros Hne. unfold counted. rewrite recompute_row.
  change (t_inodes (insert_root 0 0 0 no_tables))
    with (<[1 := mkInodeRow 2 493 0 0 0 0 0 0 2]> (∅ : gmap Z InodeRow)).
  by rewrite lookup_insert_ne.
Qed.

Lemma new_repairable : repairable no_tables.
Proof.
  unfold repairable. assert (counted no_tables ≡ root_tables) as ->; [|apply root_fs_wf].
  split_and!; try done. intros i.
  destruct (decide (i = 1)) as [->|Hne]; [reflexivity|]. rewrite new_only_root by done.
  simpl. by rewrite lookup_singleton_ne.
Qed.

Lemma new_opens : opens empty_disk no_tables.
Proof.
  split_and!; [|reflexivity|apply new_repairable]. constructor; try done; by eexists.
Qed.

Lemma open_disk_correct_witness :
  wp Db_open
    (fun _ c' => exists t', tables_of (dc_disk c') = Some t' /\ fs_wf t' /\ forall i, i <> 1 -> t_inodes t' !! i = None)
    (fun e c' => engine_error e \/ migrate_refused (created empty_disk) e) (mkDiskConn empty_disk 0 0).
Proof.
  eapply wp_mono; [apply (open_disk_correct empty_disk no_tables 0 0)|..]; simpl.
  - apply new_opens.
  - intros _ c' (t' & _ & Ht & Hr & _). exists t'. split_and!; [done|apply Hr|].
    intros i Hne. rewrite (rp_row _ _ Hr), new_only_root by done. done.
  - intros e c' [He _]. done.
Defined.

(** ** After a crash *)

Definition crashed : Fs := served_state sample_fs (QUnlink 1 sample_name).

Definition crashed_disk : Disk :=
  with_tables (mkDisk None None None None ["dirents_name"%string] 4) (tables (fs_db crashed)).

Lemma recovery_correct_witness :
  wp Db_open
    (fun _ c' => exists t', tables_of (dc_disk c') = Some t' /\
       recovered crashed (view (Dbfs.with_write_buffer (mkConn t' (dc_ticks c')) sample_budget)))
    (fun e c' => engine_error e) (mkDiskConn crashed_disk 0 0).
Proof.
  eapply wp_mono; [apply (recovery_correct sample_fs sample_unlink crashed crashed_disk 0 0 sample_budget)|..]; simpl.
  - apply sample_inv.
  - apply run_step; [split; [apply root_valid|vm_compute; reflexivity]|vm_compute; reflexivity|].
    apply runs_nil.
  - done.
  - split_and!; [done|by eexists|set_solver|vm_compute; reflexivity].
  - apply tables_of_with.
  - intros _ c' (t' & Ht & _ & Hr). by exists t'.
  - intros e c' [He _]. done.
Defined.

(** ** A whole mount *)

Definition no_mounter (s : Fs) (options : list MountOption) : option RunError * Disk := (None, empty_disk).

Lemma run_with_mounter_correct_witness :
  (exists s, run_with_mounter default_config empty_disk 0 no_mounter = Some (no_mounter s mount_options) /\ fs_inv s) \/
  (exists e d', run_with_mounter default_config empty_disk 0 no_mounter = Some (Some (RunDb e), d')).
Proof.
  assert (mount_options_for default_config = inl mount_options) as Ho by (vm_compute; reflexivity).
  pose proof (run_with_mounter_correct default_config empty_disk no_tables 0 no_mounter new_opens eq_refl) as Hr.
  rewrite Ho in Hr. destruct Hr as [(s & Hs & Hinv & _)|(e & d' & He & _)].
  - left. exists s. split; [exact Hs|exact Hinv].
  - right. exists e, d'. exact He.
Defined.

(** A write, a signal, and no end of the session within the grace period. *)
Definition sample_write : Request := QWrite 0 1 [x41; x42].
Definition written : Fs := served_state sample_fs sample_write.
Definition sent_write : list Exchange := [mkExchange sample_write (AReply (ReplyWritten 2)) sample_fs written].

Definition returned {A} (o : outcome Fs Z A) : option A := match o with Ok a _ => Some a | _ => None end.

Lemma ok_state {A} (m : FsM A) s a : returned (m s) = Some a -> m s = Ok a (state_of s (m s)).
Proof. destruct (m s); try done. by intros [= ->]. Qed.

Lemma whole_ok q s a : returned (serve q s) = Some a -> whole (serve q) s = Ok (Answered a) (served_state s q).
Proof.
  unfold whole, served_state, mbind, M_bind. destruct (serve q s); try done. by intros [= ->].
Qed.

Definition busy (s : Fs) (t : Task) : Mount := mkMount s Waiting (Working sample_fs sample_write t) [] [].

Lemma sample_arrived : reaches (started sample_fs) (busy sample_fs (task sample_write)).
Proof.
  apply (reaches_step _ (started sample_fs)); [apply reaches_refl|discriminate|].
  by apply (step_arrival sample_fs Waiting [] []).
Qed.

Lemma sample_worked : reaches (started sample_fs) (busy written (Answered (AReply (ReplyWritten 2)))).
Proof.
  apply (reaches_step _ (busy sample_fs (task sample_write))); [apply sample_arrived|discriminate|].
  apply (step_section sample_fs Waiting [] [] sample_fs sample_write true (whole (serve sample_write))).
  - reflexivity.
  - split; vm_compute; discriminate.
  - apply whole_ok. vm_compute. reflexivity.
Qed.

Lemma sample_served : reaches (started sample_fs) (mkMount written Waiting Serving [] sent_write).
Proof.
  apply (reaches_step _ (busy written (Answered (AReply (ReplyWritten 2))))); [apply sample_worked|discriminate|].
  apply (step_answer written Waiting [] []).
Qed.

(** *** The shutdown *)

Definition one_slot (s : Fs) : Fs := state_of s (Shared.flush_one None 0 s).
Definition synced (s : Fs) : Fs := state_of s (flush_sync None s).
Definition flushed_fs (s : Fs) : Fs := recorded (synced (one_slot (refusing s))) None.

(** A flush of one slot without errors. *)
Lemma flush_steps session sent s :
  free_of_session session ->
  live_slots (inodes (fs_table (refusing s))) = [0] ->
  returned (Shared.flush_one None 0 (refusing s)) = Some None ->
  returned (flush_sync None (one_slot (refusing s))) = Some None ->
  nsteps main_step 6 (mkMount s Waiting session [Shutdown] sent)
    (mkMount (flushed_fs s) (ShuttingDown Recorded) session [] sent).
Proof.
  intros Hfree Hl Hslot%ok_state Hsync%ok_state. pose proof (flush_lock (refusing s)) as Hlock. rewrite Hl in Hlock.
  eapply nsteps_l; [by apply main_first; [|apply first_shutdown]|].
  eapply nsteps_l; [by apply main_flush; [|exact Hlock]|].
  eapply nsteps_l; [by apply main_flush; [|apply flush_one_slot, Hslot]|].
  eapply nsteps_l; [by apply main_flush; [|apply flush_unlock]|].
  eapply nsteps_l; [by apply main_flush; [|apply flush_synced, Hsync]|].
  by apply nsteps_once, main_flush; [|apply flush_record].
Qed.

(** What the main thread does, the mount does. *)
Lemma main_steps_reach k m m1 m2 : nsteps main_step k m1 m2 -> reaches m m1 -> reaches m m2.
Proof.
  induction 1 as [|k m1 m2 m3 Hst _ IH]; [done|]. intros Hr. apply IH.
  apply (reaches_step m m1 m2); [done|by destruct Hst|by apply step_main].
Qed.

Lemma main_steps_go k m1 m2 : nsteps main_step k m1 m2 -> exists n, goes k n m1 m2.
Proof.
  induction 1 as [m|k m1 m2 m3 Hst _ (n & IH)]; [exists 0%nat; apply goes_refl|].
  eexists. by eapply goes_main.
Qed.

Lemma written_flush : nsteps main_step 6 (mkMount written Waiting Serving [Shutdown] sent_write)
    (mkMount (flushed_fs written) (ShuttingDown Recorded) Serving [] sent_write).
Proof. apply flush_steps; vm_compute; reflexivity. Qed.

Lemma sample_exit : reaches (started sample_fs) (mkMount (flushed_fs written) (Exited None) Serving [] sent_write).
Proof.
  assert (finish None (flushed_fs written) = None) as <- by reflexivity.
  apply (main_steps_reach 2 _ (mkMount (flushed_fs written) (ShuttingDown Recorded) Serving [] sent_write)).
  { eapply nsteps_l; [apply (main_unmount _ _ _ _ None)|]. apply nsteps_once, main_timeout. }
  apply (main_steps_reach 6 _ (mkMount written Waiting Serving [Shutdown] sent_write)); [apply written_flush|].
  apply (reaches_step _ (mkMount written Waiting Serving [] sent_write)); [apply sample_served|done|].
  apply (step_signal _ _ _ []).
Qed.

Lemma mount_answers_witness :
  fs_inv written /\ exchanged sample_fs sent_write written.
Proof.
  destruct (mount_answers sample_fs (mkMount written Waiting Serving [] sent_write)) as (Hinv & Ha & _).
  - apply sample_inv.
  - apply sample_served.
  - split; [exact Hinv|exact Ha].
Defined.

Lemma main_thread_ends_witness :
  exists n, (8 <= 6 + length [Shutdown] + 0 + n)%nat.
Proof.
  assert (nsteps main_step 8 (mkMount written Waiting Serving [Shutdown] sent_write)
    (mkMount (flushed_fs written) (Exited (finish None (flushed_fs written))) Serving [] sent_write)) as Hk.
  { apply (nsteps_trans 6 2 _ _ _ written_flush).
    eapply nsteps_l; [apply (main_unmount _ _ _ _ None)|]. apply nsteps_once, main_timeout. }
  destruct (main_steps_go _ _ _ Hk) as [n Hn]. exists n.
  refine (proj1 (main_thread_ends sample_fs (mkMount written Waiting Serving [Shutdown] sent_write) _ _ _) _ _ _ Hn).
  - apply sample_inv.
  - apply (reaches_step _ (mkMount written Waiting Serving [] sent_write)); [apply sample_served|discriminate|].
    apply (step_signal _ _ _ []).
  - right. discriminate.
Defined.

(** *** A mount without a request *)

Definition disk_of (s : Fs) : Disk :=
  with_tables (mkDisk None None None None ["dirents_name"%string] 4) (tables (fs_db s)).

(** A signal comes at once, or there is no FUSE device. *)
Definition idle_mounter (fs : Fs) (options : list MountOption) : option RunError * Disk :=
  match live_slots (inodes (fs_table (refusing fs))), flush_sync None (refusing fs) with
  | [], Ok result s' => (finish None (recorded s' result), disk_of (recorded s' result))
  | _, _ => (Some (mount_failure (mkIoFailure (OtherErrorKind 2) []) options 0), disk_of fs)
  end.

Lemma disk_of_layout s : fs_inv s -> current_layout (disk_of s) /\ tables_of (disk_of s) = Some (tables (fs_db s)).
Proof.
  intros Hinv. split; [|apply tables_of_with]. split_and!; [done|by eexists|set_solver|].
  eapply unique_no_duplicates; [reflexivity|]. intros k1 k2 e1 e2. apply (nw_unique _ (proj2 (fi_db _ _ _ Hinv))).
Qed.

Lemma idle_reaches fs result s' :
  live_slots (inodes (fs_table (refusing fs))) = [] -> flush_sync None (refusing fs) = Ok result s' ->
  reaches (started fs)
    (mkMount (recorded s' result) (Exited (finish None (recorded s' result))) Serving [] []).
Proof.
  intros Hl Hs. pose proof (flush_lock (refusing fs)) as Hlock. rewrite Hl in Hlock.
  assert (nsteps main_step 7 (mkMount fs Waiting Serving [Shutdown] [])
    (mkMount (recorded s' result) (Exited (finish None (recorded s' result))) Serving [] [])) as Hk.
  { eapply nsteps_l; [by apply main_first; [|apply first_shutdown]|].
    eapply nsteps_l; [by apply main_flush; [|exact Hlock]|].
    eapply nsteps_l; [by apply main_flush; [|apply flush_unlock]|].
    eapply nsteps_l; [by apply main_flush; [|apply flush_synced, Hs]|].
    eapply nsteps_l; [by apply main_flush; [|apply flush_record]|].
    eapply nsteps_l; [apply (main_unmount _ _ _ _ None)|]. apply nsteps_once, main_timeout. }
  apply (main_steps_reach _ _ _ _ Hk).
  apply (reaches_step _ (started fs)); [apply reaches_refl|discriminate|]. apply (step_signal fs Waiting Serving []).
Qed.

Lemma idle_mounts : mounts idle_mounter.
Proof.
  intros fs options Hinv. unfold idle_mounter.
  destruct (live_slots (inodes (fs_table (refusing fs)))) as [|i l] eqn:Hl;
    [destruct (flush_sync None (refusing fs)) as [result s'|e s'| |] eqn:Hs|].
  1: { pose proof (mount_exits options fs _ _ (idle_reaches fs result s' Hl Hs) eq_refl) as Hm.
    exists (recorded s' result). split; [exact Hm|]. apply disk_of_layout. exact (mount_dbfs_inv _ _ _ _ Hinv Hm). }
  all: exists fs; split; [apply mount_no_session|by apply disk_of_layout].
Qed.

Lemma run_keeps_files_witness :
  exists d', run_with_mounter default_config empty_disk 0 idle_mounter = Some (None, d') /\
    exists fs, fs_inv fs /\ repaired no_tables (tables (fs_db fs)).
Proof.
  destruct (run_with_mounter default_config empty_disk 0 idle_mounter) as [[[e|] d']|] eqn:Hr.
  1, 3: exfalso; assert (match run_with_mounter default_config empty_disk 0 idle_mounter with
    | Some (None, _) => true | _ => false end = true) as Hok by (vm_compute; reflexivity); rewrite Hr in Hok; discriminate.
  exists d'. split; [reflexivity|].
  destruct (run_keeps_files default_config empty_disk no_tables 0 idle_mounter None d' new_opens eq_refl idle_mounts Hr)
    as [_ (fs & m & Hinv & Hrep & _)]; [reflexivity|]. exists fs. split; assumption.
Defined.

(** *** A look at a file in the middle of its flush *)

Definition mtime_sent (o : outcome Fs Z Answer) : option SystemTime :=
  match o with Ok (AReply (ReplyAttr _ attr)) _ => Some (fa_mtime attr) | _ => None end.

(** The first section of [q] at [s1], the others at [s2]. *)
Definition split_run q (s1 s2 : Fs) : outcome Fs Z Answer :=
  match task q with
  | Next _ m => match m s1 with Ok t _ => run_task t s2 | _ => Panic end
  | Answered _ => Panic
  end.

(** The time of the write is shown before the flush and after it. In between, the row is from
    before the flush and the slot is clean already, so an earlier time is sent. *)
Lemma getattr_stale_mtime :
  exists old new, old <> new /\
    mtime_sent (serve (QGetattr 2) written) = Some new /\
    mtime_sent (serve (QGetattr 2) (flushed_fs written)) = Some new /\
    mtime_sent (split_run (QGetattr 2) written (flushed_fs written)) = Some old.
Proof. do 2 eexists. split_and!; cycle 1; [vm_compute; reflexivity..|discriminate]. Qed.

Definition flushed_disk : Disk :=
  with_tables (mkDisk None None None None ["dirents_name"%string] 4) (tables (fs_db (flushed_fs written))).

Lemma exit_keeps_files_witness :
  wp Db_open
    (fun _ c' => exists t', tables_of (dc_disk c') = Some t' /\
       recovered (flushed_fs written) (view (Dbfs.with_write_buffer (mkConn t' (dc_ticks c')) sample_budget)))
    (fun e _ => engine_error e) (mkDiskConn flushed_disk 0 0).
Proof.
  eapply wp_mono; [apply (exit_keeps_files sample_fs (mkMount (flushed_fs written) (Exited None) Serving [] sent_write) flushed_disk 0 0 sample_budget)|..]; simpl.
  - apply sample_inv.
  - apply sample_exit.
  - done.
  - done.
  - split_and!; [done|by eexists|set_solver|vm_compute; reflexivity].
  - apply tables_of_with.
  - intros _ c' (t' & Ht & _ & Hr & _). by exists t'.
  - intros e c' He. done.
Defined.
