(* ===== verification/BenchRuns.v ===== *)
(** * BenchRuns: the workloads on a small file system

    The theorems of [Paging] and [Bench] at a directory of two files, whose listing has room
    for two entries on a page. *)

From S2P Require Import Prelude Effects Model Chunk Arena OpenTable Sql DbData DbNames Tree.
From S2P Require Import NamesSpec NamesView DbVolume Fuse FuseInv FuseFlush FuseWrite FuseRead.
From S2P Require Import FuseOps FuseHandles FuseSpec FuseLifecycle FuseNames DirStream Paging Bench.
From S2P Require Import Views ViewOf Serve Refinement Samples Instances Disks.

#[local] Existing Instance sample_world.
#[local] Existing Instance key_order.

(** Directory 3 with the files 4 and 5. *)
Definition one_file_fs : Fs := served_state dir_fs (QMknod 3 [x66] 33188 18 1000 1000).
Definition two_files_fs : Fs := served_state one_file_fs (QMknod 3 [x67] 33188 18 1000 1000).
Definition unlinked_fs : Fs := served_state two_files_fs (QUnlink 3 [x66]).

Lemma valid_three : valid_ino 3.
Proof. unfold valid_ino. clia. Qed.

Lemma two_files_inv : fs_inv two_files_fs.
Proof.
  repeat apply served_inv; [apply sample_inv|apply root_valid|apply valid_three|apply valid_three].
Qed.

Lemma unlinked_inv : fs_inv unlinked_fs.
Proof. apply served_inv; [apply two_files_inv|]. split; [apply valid_three|]. vm_compute. reflexivity. Qed.

(** What holds of every entry. *)
Lemma all_dirents (P : Z -> DirentRow -> Prop) `{forall k d, Decision (P k d)} t :
  bool_decide (map_Forall P (t_dirents t)) = true -> forall k d, t_dirents t !! k = Some d -> P k d.
Proof. by intros Hall%bool_decide_eq_true. Qed.

Lemma sample_cookies s :
  bool_decide (map_Forall (fun k _ => k + DOTDOT <= I64_MAX) (t_dirents (tables (fs_db s)))) = true ->
  cookies_fit (tables (fs_db s)).
Proof. intros Hall k [d Hk]. exact (all_dirents _ _ Hall k d Hk). Qed.

Definition two_on_a_page (acc : list DbfsDirEntry) (e : DbfsDirEntry) : bool := zlen acc <? 2.

Lemma room_for_one e : two_on_a_page [] e = true.
Proof. reflexivity. Qed.

Definition shown_file : DbfsDirEntry := mkDbfsDirEntry [x67] 5 (file_type RegularFile) 6.
Definition shown_dots : list DbfsDirEntry :=
  [mkDbfsDirEntry dot_name 3 FtDirectory 1; mkDbfsDirEntry dotdot_name 1 FtDirectory 2].

(** The first file is unlinked between the first page and the second. *)
Lemma sample_listing :
  listing_of two_on_a_page 3
    [tables (fs_db two_files_fs); tables (fs_db unlinked_fs); tables (fs_db unlinked_fs)] 0
    (shown_dots ++ [shown_file] ++ []).
Proof.
  eapply (listing_page _ _ two_files_fs);
    [apply two_files_inv|apply sample_cookies; vm_compute; reflexivity|apply ok_state; vm_compute; reflexivity|reflexivity|].
  eapply (listing_page _ _ unlinked_fs);
    [apply unlinked_inv|apply sample_cookies; vm_compute; reflexivity|apply ok_state; vm_compute; reflexivity|reflexivity|].
  eapply (listing_end _ _ unlinked_fs);
    [apply unlinked_inv|apply sample_cookies; vm_compute; reflexivity|apply ok_state; vm_compute; reflexivity].
Qed.

Lemma listing_resumed_witness :
  StronglySorted Z.lt (dd_offset <$> shown_dots ++ [shown_file] ++ []) /\
  forall e, e ∈ shown_dots ++ [shown_file] ++ [] ->
    exists t, stream_entry t 3 e.
Proof.
  destruct (listing_resumed two_on_a_page room_for_one 3
    [tables (fs_db two_files_fs); tables (fs_db unlinked_fs); tables (fs_db unlinked_fs)] 0
    (shown_dots ++ [shown_file] ++ [])) as (Hs & Hin & _).
  - apply valid_three.
  - split; vm_compute; discriminate.
  - apply sample_listing.
  - split; [exact Hs|]. intros e He. destruct (Hin e He) as (_ & t & _ & Ht). by exists t.
Defined.

(** ** [rm -rf] *)

Lemma two_files_flat : flat (tables (fs_db two_files_fs)) 3.
Proof.
  constructor; [vm_compute; reflexivity|]. intros k d Hk Hp.
  assert (d_parent d = 3 -> kind_of (tables (fs_db two_files_fs)) (d_child d) <> Some Directory /\
    d_name d <> dot_name /\ d_name d <> dotdot_name) as Hall; [|by apply Hall].
  revert k d Hk Hp. by refine (fun k d Hk Hp => all_dirents (fun _ d => d_parent d = 3 ->
    kind_of (tables (fs_db two_files_fs)) (d_child d) <> Some Directory /\
    d_name d <> dot_name /\ d_name d <> dotdot_name) (tables (fs_db two_files_fs)) _ k d Hk);
    vm_compute; reflexivity.
Qed.

Lemma big_dir_reports_witness :
  wp (big_dir two_on_a_page 5 1 [x64])
    (fun r s' => dir_listed (tables (fs_db two_files_fs)) 3 r.1.1 /\
       (r.1.2 = true -> r.2 = [] /\ t_inodes (tables (fs_db s')) !! 3 = None))
    (fun e _ => db_failure e) two_files_fs.
Proof.
  eapply wp_mono; [apply (big_dir_reports two_on_a_page room_for_one 5 1 [x64] 3 two_files_fs)|..].
  - apply two_files_inv.
  - apply root_valid.
  - vm_compute. reflexivity.
  - apply two_files_flat.
  - vm_compute. reflexivity.
  - apply sample_cookies. vm_compute. reflexivity.
  - vm_compute. reflexivity.
  - intros [[listed rm_ok] leftover] s' (Hl & Hrm). split; [exact Hl|].
    intros Hok. simpl in Hok. rewrite Hok in Hrm. destruct Hrm as [Hleft Hgone].
    split; [exact Hleft|exact (dg_row _ _ _ _ _ Hgone)].
  - intros e s' [He _]. exact He.
Defined.

(** What happens. *)
Example big_dir_two_files :
  match big_dir two_on_a_page 5 1 [x64] two_files_fs with
  | Ok (listed, rm_ok, leftover) s' =>
      listed = [inl (mkDbfsDirEntry [x66] 4 FtRegularFile 5); inl shown_file] /\ rm_ok = true /\ leftover = [] /\
      dom (t_inodes (tables (fs_db s'))) = {[1; 2]}
  | _ => False
  end.
Proof. vm_compute. repeat split; reflexivity. Qed.

(** The listing when the database fails from the start: the failure is its only item. *)
Example big_dir_unread :
  match @dir_items broken_world two_on_a_page 5 3 0 two_files_fs with
  | Ok items _ => items = [inr EIO]
  | _ => False
  end.
Proof. vm_compute. reflexivity. Qed.

(** ** The jobs *)

Example permutation_of_ten : permutation 10 = Some [3; 7; 2; 6; 1; 8; 4; 9; 5; 0].
Proof. vm_compute. reflexivity. Qed.

(** Two blocks of one byte, over a file of three bytes of which none is stored yet. *)
Lemma jobs_fill_witness :
  job_fills written 1 sample_name 1 2 (rand_write 1 sample_name 420 18 1000 1000 (2 * 1) 1 true) /\
  job_fills written 1 sample_name 1 2 (seq_write 1 sample_name 420 18 1000 1000 (2 * 1) 1).
Proof.
  apply (jobs_fill 1 sample_name 420 18 1000 1000 1 2 written true).
  - apply served_inv; [apply sample_inv|split; vm_compute; discriminate].
  - apply root_valid.
  - right. vm_compute. reflexivity.
  - vm_compute. reflexivity.
  - vm_compute. reflexivity.
  - intros ino Hc. vm_compute in Hc. injection Hc as <-. vm_compute. reflexivity.
  - reflexivity.
  - discriminate.
  - vm_compute. discriminate.
Defined.

(** What happens: the file keeps its inode and loses its third byte. *)
Example rand_write_cuts :
  match rand_write 1 sample_name 420 18 1000 1000 2 1 true written with
  | Ok _ s' => child_of (tables (fs_db s')) 1 sample_name = Some 2 /\
      file_size (tables (fs_db s')) (fs_table s') 2 = Some 2
  | _ => False
  end.
Proof. vm_compute. split; reflexivity. Qed.
